(* ===== verification/_CoqProject ===== *)
-Q . S2P
Prelude.v
GoErr.v
GoStr.v
GoText.v
GoNum.v
GoLog.v
AppErr.v
Money.v
Order.v
Cursor.v
Store.v
Paging.v
OrderMem.v
Seed.v
Service.v
ServiceSpec.v
Auth.v
GrpcConvert.v
GrpcServer.v
Faults.v
Tenancy.v
RateLimit.v
Interceptor.v
InterceptorSpec.v
Outbox.v
OutboxSpec.v
Shutdown.v
Oidc.v
OidcSpec.v
Events.v
EventsSpec.v
OrderProj.v
Config.v
ConfigSpec.v
OrderPg.v
OrderPgSpec.v
OrderPgRefines.v
StoresAgree.v
StoreContract.v
ContractSpec.v
ContractBoth.v
GoFloat.v
Client.v
ClientSpec.v
Gateway.v
OrderGrpc.v
RestApi.v
RestSpec.v
RestChain.v
App.v
AppSpec.v
Pipeline.v
Delivery.v
Commands.v
Observe.v
GormLog.v
TestIssuer.v
TestIssuerSpec.v
TestSupport.v
TestServer.v
DevTool.v
Rename.v
RenameSpec.v
