(* ===== verification/Prelude.v ===== *)
(** * Verification of gomicro, a gRPC order service in Go

    gomicro serves orders over gRPC and REST, keeps them in memory or in Postgres, publishes
    an event for each change through a transactional outbox to a NATS stream, and feeds a read
    model from that stream.  This library translates its packages into Rocq definitions, one
    file per package or so, and proves what they promise each other and their callers.

    ** The parts and where they are modelled

    Go's own ground: [Prelude] (machine integers with their wrap-around, list lemmas),
    [GoErr] (error values: sentinels, wrapping, [errors.Is]/[errors.As], results and the state
    monad the handlers are written in), [GoStr] (byte strings, [strings], UTF-8), [GoText]
    (substring search and replacement), [GoNum] ([strconv], [time.Duration]), [GoFloat] (the
    rounding of the float64 operations), [GoLog] (log lines).

    The order domain, internal/order: [Money] (money.go), [Order] (order.go, errors.go),
    [Cursor] (cursor.go), [Store] (store.go: the ports [StoreOps]/[AtomicOps], and the abstract
    store [sstate] that says what an implementation promises), [Service] (service.go: [Create],
    [Get], [List], [Cancel] over any store), [Seed] (seed.go).  Two stores implement the ports:
    [OrderMem] (ordermem/ordermem.go; a transaction works on a clone) and [OrderPg]
    (orderpg/orderpg.go, model.go, with the tenant guard of platform/gormx/tenant.go: each
    statement is a function on three tables, each may fail, and a commit may be applied
    although its failure is reported).  [Paging], [ServiceSpec], [Tenancy], [OrderPgSpec],
    [OrderPgRefines] and [StoresAgree] hold their theorems.  [StoreContract] is the contract the
    repository tests every store with (ordertest/contract.go, builders.go) as a program over the
    ports; [ContractSpec] proves it of any store that satisfies an interface, [ContractBoth]
    gives the interface of both stores.

    The surfaces: [GrpcConvert] and [GrpcServer] (internal/grpcapi: convert.go, errmap.go,
    server.go, policy.go, chain.go), [Faults] (which failure blames whom), [AppErr]
    (platform/apperr: the one error table and its status), [Gateway] (internal/gateway:
    errors.go, gateway.go).  The generated code between them: [OrderGrpc]
    (gen/go/order/v1/order_grpc.pb.go: client, server interface, method handlers, service
    descriptor) and [RestApi] (order.pb.gw.go and gateway.NewMux: the routes, how a request is
    read off a body, a query and a path, both modes of the transcoder); [RestSpec] says what the
    .proto's bindings promise and [RestChain] composes the edge, the client, the connection and
    the interceptors.

    Around every call: [Auth] (platform/auth: principal.go, dev.go, policy.go, claims.go),
    [Oidc]/[OidcSpec] (oidc.go, jwks.go: a lookup is a step on the key cache and the clock),
    [TestIssuer]/[TestIssuerSpec] (auth/testjwks: the issuer the verifier is tested against, and
    the two talking to each other),
    [RateLimit] (platform/ratelimit: the GCRA script as a function on Redis entries),
    [Interceptor]/[InterceptorSpec] (platform/interceptor: each interceptor wraps a handler in
    a [world] with slots, clock, limiter and log, panics included; the two chains in the order
    of grpcapi/chain.go).

    The event path: [Outbox]/[OutboxSpec] (platform/outbox: one drain, the relay's loop,
    quarantine, retention, gauges), [Events]/[EventsSpec] (platform/events: subjects,
    envelopes, publishing, dispatch and dead letters), [OrderProj] (order/orderproj),
    [Delivery] (the consumer's run, and all the deliveries of a message), [Pipeline] (service,
    outbox, stream, consumer and read model composed in one step relation).

    The processes: [Config]/[ConfigSpec] (platform/config: reading, typing and checking the
    environment), [App]/[AppSpec] (internal/app/app.go, auth/verifier.go, gormx.Open,
    observability/tracing.go, cmd/orderd), [Shutdown] (internal/app/shutdown.go), [Commands]
    (cmd/worker as a step relation over its tasks, cmd/prune, cmd/migrate with
    platform/migrations).  Calls to other services: [Client]/[ClientSpec] (platform/client:
    client.go, budget.go, errors.go, identity.go, serviceconfig.go).  What they report: [Observe]
    (platform/observability: logging.go, metrics.go, tracing.go, admin.go), [GormLog]
    (platform/gormx: the pool's bounds, gormx.go's logger, counter.go).

    The repository's own tools: [Rename]/[RenameSpec] (cmd/rename, on a tree of files),
    [DevTool] (cmd/devtool), [TestSupport] (platform/testdb, internal/testutil's configuration
    and repository walk), [TestServer] (internal/testutil/server.go and events/eventstest: what a
    test starts, as a program over the cleanups it registers).

    ** What the theorems show

    - Refinement and equivalence.  The service over each store answers every schedule of calls
      as over the abstract store ([ServiceSpec.mem_refines], for tenants without NUL;
      [StoresAgree.pg_refines], for calls that do not overlap, hold nothing Postgres cannot
      represent and find its statements working), so on such calls the stores are
      interchangeable ([StoresAgree.stores_agree]); a Postgres call is all or
      nothing whatever fails ([OrderPgSpec.pg_all_or_nothing]); both stores pass every subtest of
      the repository's store contract ([ContractBoth.contract_passes]); REST and gRPC report the
      same failure of a unary handler ([Gateway.rest_agrees_with_grpc]); the REST surface does
      what the .proto's bindings say and nothing else, posted forms and overridden methods
      included ([RestSpec.rest_refines_bindings], with [RestSpec.compile_correct] for the
      compiled path patterns).
    - The domain.  Exact money, the status machine, complete paging under a changing store,
      events in step with orders, isolation of tenants.
    - Admission.  Only calls that pass every check reach a handler, under the verified
      principal, and REST requests are such calls ([RestChain.rest_default_deny]); only proven
      tokens are accepted, checked against keys the JWKS endpoint published
      ([OidcSpec.only_proven_tokens]), and the tokens of a trusted issuer are settled exactly
      by a verifier whose cache is up to date or may be brought so
      ([TestIssuerSpec.verifier_settles], [TestIssuerSpec.rotation_followed]); the quota holds
      over every window, where the spacing is whole microseconds; failures are contained,
      classified and redacted.
    - Events.  No event is lost, by a publisher that answers nil only for a stored message; a
      backlog clears; a message is delivered finitely often and
      ends accounted for; the read model counts each order exactly once and can always catch
      up ([Pipeline.counts_track_orders], [Pipeline.read_model_catches_up]); a message the stream
      has dropped after its row was marked is never put into it again
      ([Pipeline.expired_stays_gone]).
    - Processes.  A process starts only on a configuration that obeys [Validate]'s rules
      ([ConfigSpec.loaded_is_coherent]) and whose numbers are the ones its environment writes
      ([ConfigSpec.loaded_in_width]); in production it verifies tokens; what it opens it closes,
      in order; the worker stops when told; the retention job keeps what may still be needed.
    - Outbound calls.  Each is bounded below the caller's deadline, is authorized by this
      service's own credentials and never the caller's, and an upstream's status never becomes
      this service's.
    - Tools.  A test that starts the application through the harness ends with nothing of it
      left ([TestServer.harness_leaves_nothing]); asking for an upstream's metrics never panics
      ([Observe.clients_memoised]); the rename tool stays inside what it may edit, a write that
      fails halfway included ([RenameSpec.rename_confined]), and leaves no
      documentation of itself ([RenameSpec.marked_docs_removed]).

    Beside them stand lemmas about behaviour the code's comments do not describe: for instance
    [OutboxSpec.publish_timeout_stops_relay], [Delivery.last_copy_lost],
    [StoresAgree.create_answer_drifts], [StoresAgree.concurrent_cancels],
    [ConfigSpec.dead_letter_loop_accepted], [AppSpec.gateway_leaks],
    [ClientSpec.stream_status_leaks], [RenameSpec.docs_stay_without_taskfile],
    [RenameSpec.failed_write_truncates], [TestSupport.Start_leaks_container],
    [TestServer.unready_not_awaited]; and lemmas that show why a condition of a theorem is
    there: [Pipeline.forgotten_too_early], [Pipeline.unmarked_is_republished],
    [RateLimit.truncated_burst], [ConfigSpec.nan_accepted], [ClientSpec.nan_reserve_refuses],
    [ClientSpec.outage_discloses_upstream], [GoNum.duration_wraps].

    ** State, time and failure

    Stateful code passes its state explicitly; a mutex makes a method one step.  Time is an
    argument or a field, in nanoseconds.  What a library answers is an environment
    ([Outbox.env], [Events.brokerEnv], [App.platform], the answers of [OrderPg.pg]), so a
    theorem quantifies over every failure it can report.  Concurrency is an arbitrary
    interleaving of such steps.  A call on the in-memory store is one step, as its mutex makes
    it.  A Postgres call is one step too, which its transactions are not: they read under READ
    COMMITTED, so calls that overlap are outside every theorem that runs schedules over
    [OrderPg], and [StoresAgree.concurrent_cancels] runs two that do, statement by
    statement.

    Libraries are parameters with their documented behaviour as laws, each met by a concrete
    instance that the witnesses run: [Unicode] (case tables), [CursorEnv]/[CursorLaws] (JSON of
    a cursor, uuids), [PgLib]/[PgLaws] (column types, JSON of an order), [SnapshotLib],
    [EventLib]/[EventLaws] (NATS headers, RFC3339), [Timestamps]/[TimestampLaws], [StatusLib]/
    [StatusLaws], [UpstreamLib], [Outgoing]/[OutgoingLaws] (outgoing metadata), [AuthLib]
    (JSON, URLs, curves, and the signature check of the JWT library), [IssuerLib]/[IssuerLaws]
    (JSON documents and signed tokens, and how they are read back), [JsonObject] (JSON of a
    cursor as a map), [Otel] (span contexts), [Prometheus]/[PrometheusLaws] (the metrics
    registry), [Runtime]/[RuntimeLaws] (the grpc-gateway runtime: routing, with the method
    override and the form posts it documents; decoding, annotating), [Wire]/[ProtoMessage] (the
    encoding of messages), git and buf in [Rename], the rendering of floats, protobuf
    reflection, goose.

    ** Fuel and bounds

    Recursion is structural except in [Outbox.deleteInBatches], whose fuel must exceed the
    number of rows (each full batch deletes at least one; [OutboxSpec.Prune_outcome] proves
    that it then returns), in [Rename.stripLoop], which removes at least a byte a turn and gets one
    turn more than there are bytes ([RenameSpec.stripLoop_total]), and in the text parsers of
    [GoNum], which consume a byte per step.
    Integers keep their width wherever the code computes with them: 64 bits for nanos, units
    and durations, 32 for quantities, unsigned where Go has them; floats are IEEE binary64
    ([SpecFloat]).

    ** Not modelled, and why

    The messages of order.pb.go beyond their fields (reflection, descriptors, raw encoding: data
    that the protobuf runtime interprets), and RegisterOrderServiceHandlerFromEndpoint, which
    nothing calls.  The libraries' own listeners and connections (net, bufconn, httptest, the
    NATS server, testcontainers): the programs that start and stop them are modelled, what flows
    through them is not.  The Prometheus collectors and pprof handlers themselves, trace spans,
    the HTTP path cleaning in front of the admin mux, usage texts, and SQL files.  How grpc.Server
    and http.Server carry out their transport options ([App.transportOptions],
    [Observe.NewAdminServer]) is theirs.

    The redirects an HTTP client follows, the isolation of overlapping Postgres transactions
    (above), and, for the relay of a worker without NATS_URL, any delivery: its publisher only
    logs.

    In [Pipeline] the stream drops its oldest message at any time, whether its row is marked or
    not.  One thing is assumed there: a deduplication row is pruned only when its outbox row is
    marked and the stream holds no copy of the message.  [ConfigSpec.loaded_is_coherent] proves
    of every configuration that loads that such rows are kept longer than the stream keeps a
    message; a row the relay cannot mark for longer than that is the rest of the assumption
    ([Pipeline.forgotten_too_early] shows what happens without it). *)

From Stdlib Require Export ZArith Lia Bool Ascii String.
From stdpp Require Export base tactics decidable option list strings gmap sorting pretty.
#[global] Set Warnings "-clear-no-such-hyp".
#[global] Open Scope string_scope.
#[global] Open Scope list_scope.
#[global] Open Scope Z_scope.

(** * Go machine integers

    [int64], [int32] and [uint32] values are [Z]s; each arithmetic operation of the
    code wraps its mathematical result the way Go's two's-complement integers do. *)

Definition int_min (w : Z) : Z := - 2 ^ (w - 1).
Definition int_max (w : Z) : Z := 2 ^ (w - 1) - 1.

Definition int_ok (w z : Z) : Prop := int_min w <= z <= int_max w.

Definition wrap (w z : Z) : Z :=
  (z + 2 ^ (w - 1)) mod 2 ^ w - 2 ^ (w - 1).

Abbreviation wrap64 := (wrap 64).
Abbreviation wrap32 := (wrap 32).

Definition uwrap (w z : Z) : Z := z mod 2 ^ w.

#[export] Instance int_ok_dec w z : Decision (int_ok w z).
Proof. unfold int_ok. apply _. Defined.

Lemma wrap_id w z : 0 < w -> int_ok w z -> wrap w z = z.
Proof.
  unfold int_ok, int_min, int_max, wrap. intros Hw Hz.
  assert (2 ^ w = 2 * 2 ^ (w - 1)) as E
    by (rewrite <- Z.pow_succ_r by lia; f_equal; lia).
  rewrite E, Z.mod_small; lia.
Qed.

Lemma wrap_ok w z : 0 < w -> int_ok w (wrap w z).
Proof.
  unfold int_ok, int_min, int_max, wrap. intros Hw.
  assert (2 ^ w = 2 * 2 ^ (w - 1)) as E
    by (rewrite <- Z.pow_succ_r by lia; f_equal; lia).
  pose proof (Z.pow_pos_nonneg 2 (w - 1) ltac:(lia) ltac:(lia)).
  pose proof (Z.mod_pos_bound (z + 2 ^ (w - 1)) (2 ^ w) ltac:(lia)). lia.
Qed.

(** A wrapped value differs from the exact one by a multiple of [2 ^ w]. *)
Lemma wrap_shift w z : 0 < w -> exists k, wrap w z = z + k * 2 ^ w.
Proof.
  intros Hw. exists (- ((z + 2 ^ (w - 1)) / 2 ^ w)). unfold wrap.
  pose proof (Z.pow_pos_nonneg 2 w ltac:(lia) ltac:(lia)).
  pose proof (Z.div_mod (z + 2 ^ (w - 1)) (2 ^ w) ltac:(lia)). lia.
Qed.

Lemma wrap64_id z : int_ok 64 z -> wrap64 z = z.
Proof. apply wrap_id. lia. Qed.

Lemma wrap32_id z : int_ok 32 z -> wrap32 z = z.
Proof. apply wrap_id. lia. Qed.

(** [ring_ok] computes the bounds of the machine widths, for [lia]. *)
Ltac width_simpl :=
  unfold int_ok, int_min, int_max in *;
  change (64 - 1) with 63 in *; change (32 - 1) with 31 in *;
  change (2 ^ 64) with 18446744073709551616 in *;
  change (2 ^ 63) with 9223372036854775808 in *;
  change (2 ^ 32) with 4294967296 in *;
  change (2 ^ 31) with 2147483648 in *.

(** * Automation shared by the components *)

Create HintDb go discriminated.

(** Split a conjunction of goals, simplify the hypotheses, finish. *)
Ltac split_ands := repeat match goal with |- _ /\ _ => split end.
Ltac break_ands := repeat match goal with H : _ /\ _ |- _ => destruct H end.

(** Case analysis on the scrutinee of a [match] of the goal or a hypothesis. *)
Ltac break_match :=
  match goal with
  | |- context [match ?x with _ => _ end] =>
      lazymatch x with context [match _ with _ => _ end] => fail | _ => destruct x eqn:? end
  | H : context [match ?x with _ => _ end] |- _ =>
      lazymatch x with context [match _ with _ => _ end] => fail | _ => destruct x eqn:? end
  end.

(** Booleans of the code turned into the propositions they decide. *)
Ltac to_prop :=
  repeat match goal with
  | H : (_ && _)%bool = true |- _ => apply andb_true_iff in H as [? ?]
  | H : (_ || _)%bool = false |- _ => apply orb_false_iff in H as [? ?]
  | H : (_ || _)%bool = true |- _ => apply orb_true_iff in H
  | H : (_ && _)%bool = false |- _ => apply andb_false_iff in H
  | H : negb _ = true |- _ => apply negb_true_iff in H
  | H : negb _ = false |- _ => apply negb_false_iff in H
  | H : bool_decide _ = true |- _ => apply bool_decide_eq_true in H
  | H : bool_decide _ = false |- _ => apply bool_decide_eq_false in H
  | H : (_ =? _)%string = true |- _ => apply String.eqb_eq in H
  | H : (_ =? _)%string = false |- _ => apply String.eqb_neq in H
  | H : (_ =? _) = true |- _ => apply Z.eqb_eq in H
  | H : (_ =? _) = false |- _ => apply Z.eqb_neq in H
  | H : (_ <? _) = true |- _ => apply Z.ltb_lt in H
  | H : (_ <? _) = false |- _ => apply Z.ltb_ge in H
  | H : (_ <=? _) = true |- _ => apply Z.leb_le in H
  | H : (_ <=? _) = false |- _ => apply Z.leb_gt in H
  | H : (_ >? _) = true |- _ => rewrite Z.gtb_ltb in H
  | H : (_ >? _) = false |- _ => rewrite Z.gtb_ltb in H
  | H : (_ >=? _) = true |- _ => rewrite Z.geb_leb in H
  | H : (_ >=? _) = false |- _ => rewrite Z.geb_leb in H
  end.

(** * Lists filtered by a boolean test *)

Lemma elem_of_filter_list {A} (p : A -> bool) (l : list A) x :
  x ∈ List.filter p l <-> p x = true /\ x ∈ l.
Proof. rewrite !list_elem_of_In, filter_In. tauto. Qed.

Lemma sublist_filter_list {A} (p : A -> bool) (l : list A) : List.filter p l `sublist_of` l.
Proof.
  induction l as [|x l IH]; cbn; [constructor|]. destruct (p x); by constructor.
Qed.

Lemma NoDup_fst_filter {A B} (p : A * B -> bool) (l : list (A * B)) :
  NoDup l.*1 -> NoDup (List.filter p l).*1.
Proof.
  intros Hl. eapply sublist_NoDup; [exact Hl|]. apply fmap_sublist, sublist_filter_list.
Qed.
