(* ===== verification/GoErr.v ===== *)
(** Go error values.

    A Go [error] is a tree: package-level sentinels compared by identity, values
    built by [fmt.Errorf] (whose [%w] verbs keep the wrapped errors reachable),
    [errors.Join], [*apperr.Error], the [permanent] marker of the outbox and event
    packages, gRPC status errors, [*client.Error] and the errors of libraries.
    [errors.Is] and [errors.As] are depth-first walks of that tree.  The result type of
    fallible functions and its monad are defined here too. *)

From S2P Require Import Prelude.

(** * Sentinels

    Every [errors.New] variable the program compares against with [errors.Is]. *)
Inductive sentinel :=
  (* internal/order/errors.go *)
  | ErrNotFound | ErrDuplicate | ErrInvalidTransition | ErrNoItems | ErrInvalidItem
  | ErrMissingTenant | ErrInvalidPageToken
  (* internal/order/money.go *)
  | ErrCurrencyMismatch | ErrMoneyOverflow | ErrInvalidCurrencyCode | ErrInvalidMoney
  (* internal/platform/auth/verifier.go *)
  | ErrNoCredentials | ErrInvalidToken
  (* context, io, database/sql, gorm, grpc and nats *)
  | Canceled | DeadlineExceeded | EOF | SqlErrNoRows | GormErrRecordNotFound
  | GormErrDuplicatedKey | GrpcErrServerStopped | NatsErrMaxPayload | NatsErrBadSubject
  (* internal/platform/client/errors.go, internal/platform/gormx/tenant.go *)
  | ErrBudgetExhausted | ErrNoTenantInContext
  (* internal/order/ordertest/contract.go *)
  | ErrBoom.

#[export] Instance sentinel_eq_dec : EqDecision sentinel.
Proof. solve_decision. Defined.

(** The text each sentinel was created with. *)
Definition sentinel_text (s : sentinel) : string :=
  match s with
  | ErrNotFound => "order not found"
  | ErrDuplicate => "order already exists"
  | ErrInvalidTransition => "invalid status transition"
  | ErrNoItems => "order must have at least one item"
  | ErrInvalidItem => "invalid order item"
  | ErrMissingTenant => "tenant id is required"
  | ErrInvalidPageToken => "invalid page token"
  | ErrCurrencyMismatch => "currency mismatch"
  | ErrMoneyOverflow => "money overflow"
  | ErrInvalidCurrencyCode => "invalid currency code"
  | ErrInvalidMoney => "invalid money"
  | ErrNoCredentials => "no credentials presented"
  | ErrInvalidToken => "token verification failed"
  | Canceled => "context canceled"
  | DeadlineExceeded => "context deadline exceeded"
  | EOF => "EOF"
  | SqlErrNoRows => "sql: no rows in result set"
  | GormErrRecordNotFound => "record not found"
  | GormErrDuplicatedKey => "duplicated key not allowed"
  | GrpcErrServerStopped => "grpc: the server has been stopped"
  | NatsErrMaxPayload => "nats: maximum payload exceeded"
  | NatsErrBadSubject => "nats: invalid subject"
  | ErrBudgetExhausted => "client: deadline budget exhausted before the call was made"
  | ErrNoTenantInContext => "tenant-scoped query with no tenant in context"
  | ErrBoom => "business rule failed"
  end.

(** * gRPC codes and application kinds *)

(** google.golang.org/grpc/codes. *)
Inductive code :=
  | COK | CCanceled | CUnknown | CInvalidArgument | CDeadlineExceeded | CNotFound
  | CAlreadyExists | CPermissionDenied | CResourceExhausted | CFailedPrecondition
  | CAborted | COutOfRange | CUnimplemented | CInternal | CUnavailable | CDataLoss
  | CUnauthenticated.

#[export] Instance code_eq_dec : EqDecision code.
Proof. solve_decision. Defined.

(** [apperr.Kind]. *)
Inductive Kind :=
  | KindUnknown | KindInvalidArgument | KindFailedPrecondition | KindNotFound
  | KindAlreadyExists | KindPermissionDenied | KindUnauthenticated
  | KindResourceExhausted | KindUnavailable | KindInternal | KindCanceled
  | KindDeadlineExceeded.

#[export] Instance Kind_eq_dec : EqDecision Kind.
Proof. solve_decision. Defined.

(** google.rpc error details the program attaches; durations in nanoseconds. *)
Record FieldViolation := mkViolation {
  Field : string; Description : string; VReason : string }.

Inductive detail :=
  | ErrorInfo (reason domain : string) (metadata : gmap string string)
  | RetryInfo (delay : Z)
  | BadRequest (violations : list FieldViolation).

(** * Error values

    A [piece] is one stretch of a formatted message: literal text and [%s] operands
    are [PStr], [%d] is [PInt], [%q] is [PQuote], [%w] is [PErr] (formatted and kept
    for [Unwrap]) and [%v] of an error is [PVal] (formatted, not kept). *)
Inductive piece (E : Type) :=
  | PStr (s : string)
  | PInt (z : Z)
  | PQuote (s : string)
  | PErr (e : E)
  | PVal (e : E).
Arguments PStr {E} s.
Arguments PInt {E} z.
Arguments PQuote {E} s.
Arguments PErr {E} e.
Arguments PVal {E} e.

#[warnings="-register-all"]
Inductive error :=
  | ESentinel (s : sentinel)
  | EFmt (ps : list (piece error))                (* errors.New, fmt.Errorf *)
  | EJoin (es : list error)                       (* errors.Join *)
  | EApp (k : Kind) (reason : string) (message : list (piece error))
         (metadata : gmap string string) (details : list detail)
         (wrapped : option error)                 (* *apperr.Error *)
  | EPermanent (e : error)                        (* outbox.permanent, events.permanent *)
  | EStatus (c : code) (message : list (piece error)) (details : list detail)
                                                  (* a gRPC status error *)
  | EUpstream (target method : string) (c : code) (reason domain : string)
              (message : list (piece error)) (retryAfter : Z) (cause : option error)
                                                  (* *client.Error *)
  | EPg (pgcode constraint : string)              (* *pgconn.PgError *)
  | ELib (name : string).                         (* any other library error *)

(** A message: formatted text, rendered on demand. *)
Abbreviation text := (list (piece error)).

Coercion ESentinel : sentinel >-> error.

(** [errors.New(s)]. *)
Definition errorsNew (s : string) : error := EFmt [PStr s].

(** [fmt.Errorf("%w: ...", s, ...)]. *)
Definition errorf (s : sentinel) (ps : text) : error :=
  EFmt (PErr (ESentinel s) :: PStr ": " :: ps).

(** [fmt.Errorf("<prefix>: %w", e)]. *)
Definition wrapf (prefix : text) (e : error) : error :=
  EFmt (prefix ++ [PStr ": "; PErr e]).

(** [errors.Is(e, t)] for a sentinel [t]. *)
Fixpoint errIs (t : sentinel) (e : error) : bool :=
  match e with
  | ESentinel s => bool_decide (s = t)
  | EFmt ps =>
      (fix go (ps : text) : bool :=
         match ps with
         | [] => false
         | PErr e' :: r => errIs t e' || go r
         | _ :: r => go r
         end) ps
  | EJoin es =>
      (fix go (es : list error) : bool :=
         match es with [] => false | e' :: r => errIs t e' || go r end) es
  | EApp _ _ _ _ _ (Some e') => errIs t e'
  | EPermanent e' => errIs t e'
  | EUpstream _ _ _ _ _ _ _ (Some e') => errIs t e'
  | _ => false
  end.

(** [errors.As(e, &target)] for a target the predicate [p] recognises on one node:
    the first match of the depth-first walk. *)
Fixpoint errAs {A} (p : error -> option A) (e : error) : option A :=
  match p e with
  | Some a => Some a
  | None =>
      match e with
      | EFmt ps =>
          (fix go (ps : text) : option A :=
             match ps with
             | [] => None
             | PErr e' :: r =>
                 match errAs p e' with Some a => Some a | None => go r end
             | _ :: r => go r
             end) ps
      | EJoin es =>
          (fix go (es : list error) : option A :=
             match es with
             | [] => None
             | e' :: r => match errAs p e' with Some a => Some a | None => go r end
             end) es
      | EApp _ _ _ _ _ (Some e') => errAs p e'
      | EPermanent e' => errAs p e'
      | EUpstream _ _ _ _ _ _ _ (Some e') => errAs p e'
      | _ => None
      end
  end.

(** [errors.Join(errs...)]: nil when no error is given. *)
Definition errorsJoin (es : list error) : option error :=
  match es with [] => None | _ => Some (EJoin es) end.

(** * Results of fallible functions: [(T, error)] with the value used only when the
    error is nil. *)
Inductive result (A : Type) :=
  | Ok (a : A)
  | Err (e : error).
Arguments Ok {A} a.
Arguments Err {A} e.

#[export] Instance result_ret : MRet result := fun A a => Ok a.
#[export] Instance result_bind : MBind result :=
  fun A B f r => match r with Ok a => f a | Err e => Err e end.

Definition is_ok {A} (r : result A) : bool :=
  match r with Ok _ => true | Err _ => false end.

(** [if err != nil { return wrap(err) }]. *)
Definition mapErr {A} (f : error -> error) (r : result A) : result A :=
  match r with Ok a => Ok a | Err e => Err (f e) end.

(** [if cond { return err }]. *)
Definition failIf (cond : bool) (e : error) : result unit :=
  if cond then Err e else Ok tt.

(** The result is a success, or fails with an error that wraps one of [ss]. *)
Definition fails_with {A} (s : sentinel) (r : result A) : Prop :=
  match r with Ok _ => False | Err e => errIs s e = true end.

Lemma bind_Ok {A B} (r : result A) (f : A -> result B) b :
  (r ≫= f) = Ok b <-> exists a, r = Ok a /\ f a = Ok b.
Proof.
  destruct r; cbn; split; [eauto | | done | ]; intros (a' & E & H); by simplify_eq.
Qed.

Lemma bind_Err {A B} (r : result A) (f : A -> result B) e :
  (r ≫= f) = Err e <-> r = Err e \/ exists a, r = Ok a /\ f a = Err e.
Proof.
  destruct r; cbn; split; intros H; [eauto | | simplify_eq; eauto | ];
    destruct H as [H | (a' & E & H)]; by simplify_eq.
Qed.

Lemma failIf_Ok c e u : failIf c e = Ok u <-> c = false.
Proof. destruct c, u; cbn; split; intros; simplify_eq; done. Qed.

Lemma failIf_Err c e e' : failIf c e = Err e' <-> c = true /\ e = e'.
Proof. destruct c; cbn; split; intros; destruct_and?; simplify_eq; done. Qed.

Lemma mapErr_Ok {A} f (r : result A) a : mapErr f r = Ok a <-> r = Ok a.
Proof. destruct r; cbn; split; congruence. Qed.

Lemma mapErr_Err {A} f (r : result A) e :
  mapErr f r = Err e <-> exists e', r = Err e' /\ e = f e'.
Proof.
  destruct r; cbn; split; intros H; [done | by destruct H as (? & ? & _) | | ].
  - simplify_eq. eauto.
  - by destruct H as (? & [= ->] & ->).
Qed.

Create Rewrite HintDb result.
#[export] Hint Rewrite @bind_Ok @bind_Err failIf_Ok failIf_Err @mapErr_Ok @mapErr_Err
  : result.

(** Turn [H : <monadic expression> = Ok _ | Err _] into the facts it stands for. *)
Ltac result_inv H :=
  autorewrite with result in H;
  repeat match goal with
  | H : exists _, _ |- _ => destruct H
  | H : _ /\ _ |- _ => destruct H
  | H : Ok _ = Ok _ |- _ => injection H; clear H; intros; subst
  | H : Err _ = Err _ |- _ => injection H; clear H; intros; subst
  | H : Ok _ = Err _ |- _ => discriminate H
  | H : Err _ = Ok _ |- _ => discriminate H
  | H : context [_ ≫= _] |- _ => progress autorewrite with result in H
  | H : failIf _ _ = Ok _ |- _ => apply failIf_Ok in H
  | H : failIf _ _ = Err _ |- _ => apply failIf_Err in H
  | H : mapErr _ _ = Ok _ |- _ => apply mapErr_Ok in H
  end.

Lemma errIs_wrapf t e : errIs t (wrapf [] e) = errIs t e.
Proof. cbn. by rewrite orb_false_r. Qed.

Lemma errIs_errorf s t ps :
  errIs t (errorf s ps) = bool_decide (s = t) || errIs t (EFmt ps).
Proof. reflexivity. Qed.

Lemma errorf_is s ps : errIs s (errorf s ps) = true.
Proof. rewrite errIs_errorf, bool_decide_eq_true_2; done. Qed.

Lemma fails_with_errorf {A} s ps : fails_with s (Err (A:=A) (errorf s ps)).
Proof. apply errorf_is. Qed.

#[export] Hint Resolve errorf_is fails_with_errorf : go.
