(* ===== verification/GoStr.v ===== *)
(** The Go [strings] and [strconv] functions the program calls, on byte strings.

    A Go string is a sequence of bytes; [String.string] is a sequence of 8-bit
    [ascii].  Everything whose answer depends on the Unicode tables for a non-ASCII
    string is the one field of the class [Unicode]. *)

From S2P Require Import Prelude.

Definition byte_of (c : ascii) : Z := Z.of_N (N_of_ascii c).
Definition of_byte (z : Z) : ascii := ascii_of_N (Z.to_N z).

(** [len(s)]. *)
Definition strlen (s : string) : Z := Z.of_nat (String.length s).

Fixpoint string_forallb (p : ascii -> bool) (s : string) : bool :=
  match s with
  | EmptyString => true
  | String c r => p c && string_forallb p r
  end.

Fixpoint string_map (f : ascii -> ascii) (s : string) : string :=
  match s with
  | EmptyString => EmptyString
  | String c r => String (f c) (string_map f r)
  end.

Definition is_ascii (s : string) : bool :=
  string_forallb (fun c => byte_of c <? 128) s.

Definition byte_upper (c : ascii) : ascii :=
  if (97 <=? byte_of c) && (byte_of c <=? 122) then of_byte (byte_of c - 32) else c.

Definition byte_lower (c : ascii) : ascii :=
  if (65 <=? byte_of c) && (byte_of c <=? 90) then of_byte (byte_of c + 32) else c.

(** What the Unicode case tables say about strings with a byte above 127. *)
Class Unicode := {
  unicode_ToUpper : string -> string;
  unicode_ToLower : string -> string;
  unicode_TrimSpace : string -> string;
  unicode_Fields : string -> list string;
  unicode_EqualFold : string -> string -> bool }.

(** [strings.ToUpper]: bytewise on ASCII, by the Unicode tables otherwise. *)
Definition ToUpper `{Unicode} (s : string) : string :=
  if is_ascii s then string_map byte_upper s else unicode_ToUpper s.

(** [strings.ToLower]. *)
Definition ToLower `{Unicode} (s : string) : string :=
  if is_ascii s then string_map byte_lower s else unicode_ToLower s.

(** [%0<w>d]: zero padded to width [w], the sign counted. *)
Definition zeros (n : nat) : string := String.concat "" (replicate n "0").
Definition pad0 (w : nat) (z : Z) : string :=
  if z <? 0
  then "-" +:+ zeros (w - 1 - String.length (pretty (- z))) +:+ pretty (- z)
  else zeros (w - String.length (pretty z)) +:+ pretty z.

Definition of_list (l : list ascii) : string := string_of_list_ascii l.
Definition to_list (s : string) : list ascii := list_ascii_of_string s.

(** Drop the leading bytes that satisfy [p]. *)
Fixpoint drop_while (p : ascii -> bool) (l : list ascii) : list ascii :=
  match l with
  | [] => []
  | c :: r => if p c then drop_while p r else l
  end.

(** [strings.TrimRight(s, cutset)] for a cutset of ASCII bytes given as a predicate. *)
Definition TrimRight (p : ascii -> bool) (s : string) : string :=
  of_list (reverse (drop_while p (reverse (to_list s)))).

Lemma byte_of_range c : 0 <= byte_of c < 256.
Proof.
  unfold byte_of. pose proof (N_ascii_bounded c). lia.
Qed.

Lemma of_byte_of c : of_byte (byte_of c) = c.
Proof. unfold of_byte, byte_of. rewrite N2Z.id. apply ascii_N_embedding. Qed.

Lemma byte_of_byte z : 0 <= z < 256 -> byte_of (of_byte z) = z.
Proof.
  intros H. unfold of_byte, byte_of. rewrite N_ascii_embedding by lia. lia.
Qed.

Lemma byte_of_inj c d : byte_of c = byte_of d -> c = d.
Proof. intros H. rewrite <- (of_byte_of c), <- (of_byte_of d). by f_equal. Qed.

Lemma string_forallb_impl (p q : ascii -> bool) s :
  (forall c, p c = true -> q c = true) ->
  string_forallb p s = true -> string_forallb q s = true.
Proof.
  intros Hpq. induction s as [|c s IH]; cbn; [done|].
  rewrite !andb_true_iff. intros [? ?]. auto.
Qed.

Lemma string_map_id (f : ascii -> ascii) p s :
  (forall c, p c = true -> f c = c) -> string_forallb p s = true -> string_map f s = s.
Proof.
  intros Hf. induction s as [|c s IH]; cbn; [done|].
  rewrite andb_true_iff. intros [? ?]. by rewrite Hf, IH.
Qed.

(** ASCII white space: tab, newline, vertical tab, form feed, return and blank. *)
Definition is_space (c : ascii) : bool :=
  ((9 <=? byte_of c) && (byte_of c <=? 13)) || (byte_of c =? 32).

(** [strings.TrimSpace]. *)
Definition ascii_TrimSpace (s : string) : string :=
  of_list (reverse (drop_while is_space (reverse (drop_while is_space (to_list s))))).
Definition TrimSpace `{Unicode} (s : string) : string :=
  if is_ascii s then ascii_TrimSpace s else unicode_TrimSpace s.

(** The maximal runs of bytes outside [sep], empty runs included. *)
Fixpoint split_on (sep : ascii -> bool) (l : list ascii) : list (list ascii) :=
  match l with
  | [] => [[]]
  | c :: r =>
      if sep c then [] :: split_on sep r
      else match split_on sep r with
           | h :: t => (c :: h) :: t
           | [] => [[c]]
           end
  end.

(** [strings.Split(s, sep)] for a separator of one byte. *)
Definition Split (sep : ascii) (s : string) : list string :=
  of_list <$> split_on (fun c => Ascii.eqb c sep) (to_list s).

(** [strings.Fields]: the runs of non-space bytes, empty runs dropped. *)
Definition ascii_Fields (s : string) : list string :=
  of_list <$> List.filter (fun l => negb (bool_decide (l = []))) (split_on is_space (to_list s)).
Definition Fields `{Unicode} (s : string) : list string :=
  if is_ascii s then ascii_Fields s else unicode_Fields s.

(** [strings.EqualFold]. *)
Definition EqualFold `{Unicode} (s t : string) : bool :=
  if is_ascii s && is_ascii t then (string_map byte_lower s =? string_map byte_lower t)%string
  else unicode_EqualFold s t.

(** [s[:n]] and [s[n:]] for [n <= len(s)]. *)
Definition take_bytes (n : nat) (s : string) : string := substring 0 n s.
Definition drop_bytes (n : nat) (s : string) : string := substring n (String.length s - n) s.

(** Case tables that leave every non-ASCII string alone, to run the model with. *)
Definition ascii_tables : Unicode := {|
  unicode_ToUpper s := s; unicode_ToLower s := s; unicode_TrimSpace s := ascii_TrimSpace s;
  unicode_Fields s := ascii_Fields s;
  unicode_EqualFold s t := (string_map byte_lower s =? string_map byte_lower t)%string |}.

(** Byte-wise lexicographic order of strings, and [sort.Strings]. *)
Fixpoint string_leb (s t : string) : bool :=
  match s, t with
  | EmptyString, _ => true
  | _, EmptyString => false
  | String a s', String b t' =>
      (byte_of a <? byte_of b) || ((byte_of a =? byte_of b) && string_leb s' t')
  end.

Definition string_le (s t : string) : Prop := Is_true (string_leb s t).

Definition sort_strings (l : list string) : list string := merge_sort string_le l.

Lemma sort_strings_perm l : sort_strings l ≡ₚ l.
Proof. apply merge_sort_Permutation. Qed.

Lemma sort_strings_nil l : sort_strings l = [] <-> l = [].
Proof.
  split; [|by intros ->]. intros E. pose proof (sort_strings_perm l) as Hp.
  rewrite E in Hp. by apply Permutation_nil_l in Hp.
Qed.

(** [strings.HasPrefix], [strings.Contains] with a one-byte needle. *)
Definition HasPrefix (s p : string) : bool := String.prefix p s.
Definition ContainsByte (b : ascii) (s : string) : bool :=
  negb (string_forallb (fun c => negb (Ascii.eqb c b)) s).

Lemma to_list_app s t : to_list (s +:+ t) = to_list s ++ to_list t.
Proof.
  induction s as [|c s IH]; [done|].
  change (c :: to_list (s +:+ t) = (c :: to_list s) ++ to_list t). by rewrite IH.
Qed.

Lemma to_list_inj s t : to_list s = to_list t -> s = t.
Proof.
  intros E. rewrite <- (string_of_list_ascii_of_string s), <- (string_of_list_ascii_of_string t).
  unfold to_list in E. by rewrite E.
Qed.

Lemma prefix_cons c d p s :
  String.prefix (String c p) (String d s) = bool_decide (c = d) && String.prefix p s.
Proof. cbn. destruct (ascii_dec c d); [by rewrite bool_decide_eq_true_2|by rewrite bool_decide_eq_false_2]. Qed.

Lemma prefix_app s p : String.prefix p s = true <-> exists r, s = p +:+ r.
Proof.
  revert s. induction p as [|c p IH]; intros s.
  - split; [|by destruct s]. intros _. by exists s.
  - destruct s as [|d s]; [split; [done|by intros [? [=]]]|].
    rewrite prefix_cons, andb_true_iff, bool_decide_eq_true, IH.
    split; [intros [-> [r ->]]; by exists r|intros [r [= -> ->]]; eauto].
Qed.
