(* ===== verification/GoText.v ===== *)
(** The substring functions of the [strings] package, on lists of bytes.

    [Index], [Contains], [LastIndex], [ReplaceAll] and [Join] for any needle, and what the
    program relies on: where the first occurrence is, what replacing leaves behind, and when a
    replacement cannot create what it replaces. *)

From S2P Require Import Prelude GoStr.

Abbreviation bytes := (list ascii).

Fixpoint has_prefix (p l : bytes) : bool :=
  match p, l with
  | [], _ => true
  | c :: p, d :: l => Ascii.eqb c d && has_prefix p l
  | _, [] => false
  end.

(** [strings.Index]; [None] is -1. *)
Fixpoint Index (l sub : bytes) : option nat :=
  if has_prefix sub l then Some O
  else match l with
       | [] => None
       | _ :: r => S <$> Index r sub
       end.

Definition Contains (l sub : bytes) : bool :=
  match Index l sub with Some _ => true | None => false end.

(** [strings.LastIndex]. *)
Fixpoint LastIndex (l sub : bytes) : option nat :=
  match l with
  | [] => if has_prefix sub l then Some O else None
  | _ :: r => match LastIndex r sub with
              | Some i => Some (S i)
              | None => if has_prefix sub l then Some O else None
              end
  end.

(** [strings.HasSuffix]. *)
Definition has_suffix (s l : bytes) : bool := has_prefix (reverse s) (reverse l).

(** The width of the first rune as [utf8.DecodeRune] reads it: 1 for an invalid byte. *)
Definition cont (lo hi : Z) (l : bytes) (i : nat) : bool :=
  match l !! i with Some c => (lo <=? byte_of c) && (byte_of c <=? hi) | None => false end.

Definition rune_width (l : bytes) : nat :=
  match l with
  | [] => O
  | c :: _ =>
      let b := byte_of c in
      if b <? 128 then 1%nat
      else if (194 <=? b) && (b <=? 223) then if cont 128 191 l 1 then 2%nat else 1%nat
      else if (224 <=? b) && (b <=? 239)
      then let lo := if b =? 224 then 160 else 128 in
           let hi := if b =? 237 then 159 else 191 in
           if cont lo hi l 1 && cont 128 191 l 2 then 3%nat else 1%nat
      else if (240 <=? b) && (b <=? 244)
      then let lo := if b =? 240 then 144 else 128 in
           let hi := if b =? 244 then 143 else 191 in
           if cont lo hi l 1 && cont 128 191 l 2 && cont 128 191 l 3 then 4%nat else 1%nat
      else 1%nat
  end.

(** [strings.ReplaceAll]: the occurrences from the left that do not overlap; [skip] counts the
    bytes of the occurrence just replaced.  An empty needle matches before every rune and at the
    end. *)
Fixpoint replaceFrom (old new : bytes) (skip : nat) (l : bytes) : bytes :=
  match l with
  | [] => []
  | c :: r =>
      match skip with
      | S k => replaceFrom old new k r
      | O => if has_prefix old l
             then new ++ replaceFrom old new (length old - 1) r
             else c :: replaceFrom old new O r
      end
  end.

Fixpoint explode (new : bytes) (width : nat) (l : bytes) : bytes :=
  match l with
  | [] => new
  | c :: r => match width with
              | S k => c :: explode new k r
              | O => new ++ c :: explode new (rune_width l - 1) r
              end
  end.

Definition ReplaceAll (l old new : bytes) : bytes :=
  match old with
  | [] => explode new O l
  | _ => replaceFrom old new O l
  end.

(** [strings.Join]. *)
Fixpoint join (sep : bytes) (ps : list bytes) : bytes :=
  match ps with
  | [] => []
  | [p] => p
  | p :: r => p ++ sep ++ join sep r
  end.

(** * First occurrences *)

Lemma has_prefix_iff p l : has_prefix p l = true <-> exists r, l = p ++ r.
Proof.
  revert l. induction p as [|c p IH]; intros l; cbn; [by split; eauto|].
  destruct l as [|d l]; [split; [done|by intros [r ?]]|].
  rewrite andb_true_iff, Ascii.eqb_eq, IH. split.
  - intros [-> [r ->]]. by exists r.
  - intros [r [= -> ->]]. eauto.
Qed.

Lemma has_prefix_app p r : has_prefix p (p ++ r) = true.
Proof. apply has_prefix_iff. eauto. Qed.

(** [sub] occurs in [l] after [n] bytes. *)
Definition occurs_at (l sub : bytes) (n : nat) : Prop :=
  exists a b, l = a ++ sub ++ b /\ length a = n.

Lemma occurs_at_0 l sub : occurs_at l sub 0 <-> has_prefix sub l = true.
Proof.
  rewrite has_prefix_iff. split.
  - intros ([|] & b & -> & ?); [|done]. by exists b.
  - intros [r ->]. by exists [], r.
Qed.

Lemma occurs_at_S c l sub n : occurs_at (c :: l) sub (S n) <-> occurs_at l sub n.
Proof.
  split.
  - intros ([|d a] & b & E & Hn); [done|]. injection E as -> ->. exists a, b. by injection Hn.
  - intros (a & b & -> & Hn). exists (c :: a), b. split; [done|]. cbn. lia.
Qed.

(** [Index] is the first occurrence. *)
Lemma Index_Some l sub n :
  Index l sub = Some n <-> occurs_at l sub n /\ forall m, (m < n)%nat -> ~ occurs_at l sub m.
Proof.
  revert n. induction l as [|c l IH]; intros n; cbn [Index].
  - destruct (has_prefix sub []) eqn:E.
    + split; [intros [= <-]; rewrite occurs_at_0; split; [done|lia]|].
      intros [_ Hn]. destruct n; [done|]. exfalso. apply (Hn 0%nat); [lia|by apply occurs_at_0].
    + split; [done|]. intros [(a & b & Ha & Hl) _]. symmetry in Ha.
      apply app_nil in Ha as [-> [-> ->]%app_nil]. done.
  - destruct (has_prefix sub (c :: l)) eqn:E.
    + split; [intros [= <-]; rewrite occurs_at_0; split; [done|lia]|].
      intros [_ Hn]. destruct n; [done|]. exfalso. apply (Hn 0%nat); [lia|by apply occurs_at_0].
    + assert (~ occurs_at (c :: l) sub 0) as H0 by (rewrite occurs_at_0; congruence).
      destruct n as [|n].
      { split; [by destruct (Index l sub)|by intros [? _]]. }
      rewrite occurs_at_S. split.
      * intros H. apply fmap_Some in H as (m & Hm & [= ->]). apply IH in Hm as [Hm Hmin].
        split; [done|]. intros [|k] Hk; [done|]. rewrite occurs_at_S. apply Hmin. lia.
      * intros [Hm Hmin]. assert (Index l sub = Some n) as ->; [|done]. apply IH.
        split; [done|]. intros k Hk. rewrite <- (occurs_at_S c). apply Hmin. lia.
Qed.

Lemma Index_None l sub : Index l sub = None <-> forall n, ~ occurs_at l sub n.
Proof.
  split.
  - intros HN. assert (forall n m, (m < n)%nat -> ~ occurs_at l sub m) as Hall; [|eauto].
    induction n as [|n IH]; intros m Hm; [lia|].
    destruct (decide (m = n)) as [->|Hne]; [|apply IH; lia]. intros Ho.
    assert (Index l sub = Some n) as E by (by apply Index_Some). congruence.
  - intros Hall. destruct (Index l sub) as [n|] eqn:E; [|done].
    apply Index_Some in E as [Ho _]. by destruct (Hall n).
Qed.

Lemma Contains_iff l sub : Contains l sub = true <-> exists a b, l = a ++ sub ++ b.
Proof.
  unfold Contains. destruct (Index l sub) as [n|] eqn:E.
  - apply Index_Some in E as [(a & b & -> & _) _]. split; eauto.
  - rewrite Index_None in E. split; [done|]. intros (a & b & ->).
    destruct (E (length a)). by exists a, b.
Qed.

Lemma Contains_false l sub : Contains l sub = false <-> forall a b, l <> a ++ sub ++ b.
Proof.
  rewrite <- not_true_iff_false, Contains_iff. split.
  - intros Hn a b ->. apply Hn. eauto.
  - intros Hn (a & b & ->). by apply (Hn a b).
Qed.

(** A part of a text holds no more than the text. *)
Lemma Contains_infix a l b sub : Contains (a ++ l ++ b) sub = false -> Contains l sub = false.
Proof.
  rewrite !Contains_false. intros Hn x y ->. apply (Hn (a ++ x) (y ++ b)).
  by rewrite <- !app_assoc.
Qed.

(** * Texts that cannot overlap *)

(** The two differ at a position both have. *)
Fixpoint mismatch (l1 l2 : bytes) : bool :=
  match l1, l2 with
  | c :: l1, d :: l2 => negb (Ascii.eqb c d) || mismatch l1 l2
  | _, _ => false
  end.

Lemma mismatch_apart l1 l2 a b : mismatch l1 l2 = true -> l1 ++ a <> l2 ++ b.
Proof.
  revert l2. induction l1 as [|c l1 IH]; intros [|d l2]; cbn; try done.
  rewrite orb_true_iff, negb_true_iff, Ascii.eqb_neq. intros Hm [= -> E].
  destruct Hm as [?|Hm]; [done|]. by apply (IH _ Hm).
Qed.

(** Laid over [m] anywhere, [l] disagrees with it: the two starts apart by less than [m], or by
    less than [l]. *)
Definition apart (l m : bytes) : bool :=
  forallb (fun i => mismatch l (drop i m)) (seq 0 (length m)) &&
  forallb (fun j => mismatch m (drop j l)) (seq 0 (length l)).

Lemma app_split_at {A} (a b c d : list A) :
  a ++ b = c ++ d -> (length c <= length a)%nat -> exists x, a = c ++ x /\ d = x ++ b.
Proof.
  revert a. induction c as [|e c IH]; intros a E Hl; cbn in *; [by exists a|].
  destruct a as [|e' a]; cbn in *; [lia|]. injection E as -> E.
  destruct (IH a E) as (x & -> & ->); [lia|]. by exists x.
Qed.

(** In [p ++ m ++ r] an occurrence of a text apart from [m] lies inside [p] or inside [r]. *)
Lemma apart_occurrence l m p r a b :
  apart l m = true -> a ++ l ++ b = p ++ m ++ r ->
  (exists x, p = a ++ l ++ x) \/ (exists x, r = x ++ l ++ b).
Proof.
  intros Ha E. apply andb_true_iff in Ha as [H1 H2]. rewrite forallb_forall in H1, H2.
  destruct (decide (length p <= length a)%nat) as [Hpa|Hpa].
  - destruct (app_split_at _ _ _ _ E Hpa) as (x & -> & Ex).
    destruct (decide (length m <= length x)%nat) as [Hmx|Hmx].
    + symmetry in Ex. destruct (app_split_at _ _ _ _ Ex Hmx) as (y & -> & ->). right. by exists y.
    + exfalso. destruct (app_split_at _ _ _ _ Ex) as (y & -> & Ey); [lia|].
      assert (mismatch l (drop (length x) (x ++ y)) = true) as Hm
        by (apply H1, in_seq; rewrite length_app in *; lia).
      rewrite drop_app_length in Hm. by apply (mismatch_apart _ _ b r Hm).
  - symmetry in E. destruct (app_split_at _ _ _ _ E) as (x & -> & Ex); [lia|].
    destruct (decide (length l <= length x)%nat) as [Hlx|Hlx].
    + symmetry in Ex. destruct (app_split_at _ _ _ _ Ex Hlx) as (y & -> & _). left. by exists y.
    + exfalso. destruct (app_split_at _ _ _ _ Ex) as (y & -> & Ey); [lia|].
      assert (mismatch m (drop (length x) (x ++ y)) = true) as Hm
        by (apply H2, in_seq; rewrite length_app in *; lia).
      rewrite drop_app_length in Hm. by apply (mismatch_apart _ _ r b Hm).
Qed.

(** A text that cannot overlap itself. *)
Definition unbordered (m : bytes) : bool :=
  forallb (fun i => mismatch m (drop i m)) (seq 1 (length m - 1)).

(** The first occurrence of such a text is the one after a part without it. *)
Lemma Index_first m p r :
  m <> [] -> unbordered m = true -> Contains p m = false ->
  Index (p ++ m ++ r) m = Some (length p).
Proof.
  intros Hm Hu Hp. apply Index_Some. split; [by exists p, r|].
  intros n Hn (a & b & E & <-). symmetry in E.
  destruct (app_split_at _ _ _ _ (eq_sym E)) as (x & -> & Ex); [lia|].
  destruct (decide (length m <= length x)%nat) as [Hmx|Hmx].
  - destruct (app_split_at _ _ _ _ (eq_sym Ex) Hmx) as (y & -> & _).
    rewrite Contains_false in Hp. by apply (Hp a y).
  - destruct (app_split_at _ _ _ _ Ex) as (y & Ey & Er); [lia|].
    unfold unbordered in Hu. rewrite forallb_forall in Hu.
    assert (mismatch m (drop (length x) m) = true) as Hmis.
    { apply Hu, in_seq. rewrite length_app in Hn. lia. }
    rewrite Ey in Hmis at 2. rewrite drop_app_length in Hmis.
    by apply (mismatch_apart _ _ r b Hmis).
Qed.

(** * Replacing *)

Section Replace.
Context (old new : bytes) (Hold : old <> []).

Lemma replaceFrom_skip k l : replaceFrom old new k l = replaceFrom old new 0 (drop k l).
Proof.
  revert k. induction l as [|c l IH]; intros [|k]; try done. cbn [drop]. rewrite <- IH. done.
Qed.

(** A text without the needle stays as it is. *)
Lemma replaceFrom_none l : Contains l old = false -> replaceFrom old new 0 l = l.
Proof.
  intros Hn. induction l as [|c l IH]; [done|]. cbn [replaceFrom].
  destruct (has_prefix old (c :: l)) eqn:E.
  - apply has_prefix_iff in E as [r E]. rewrite Contains_false in Hn. by destruct (Hn [] r).
  - rewrite IH; [done|]. apply (Contains_infix [c] l []). by rewrite app_nil_r.
Qed.

(** The first occurrence is replaced, then the rest after it. *)
Lemma replaceFrom_first l n :
  Index l old = Some n ->
  replaceFrom old new 0 l = take n l ++ new ++ replaceFrom old new 0 (drop (n + length old) l).
Proof.
  revert l. induction n as [|n IH]; intros l Hi.
  - apply Index_Some in Hi as [Ho%occurs_at_0 _]. destruct l as [|c l].
    { exfalso. destruct old; done. }
    cbn [replaceFrom]. rewrite Ho, replaceFrom_skip. destruct old; [done|].
    cbn [length Nat.sub Nat.add take drop app]. by rewrite Nat.sub_0_r.
  - pose proof (proj1 (Index_Some l old (S n)) Hi) as [Ho Hmin]. destruct l as [|c l].
    { destruct Ho as ([|] & b & E & ?); done. }
    cbn [replaceFrom]. destruct (has_prefix old (c :: l)) eqn:E.
    { exfalso. apply (Hmin 0%nat); [lia|by apply occurs_at_0]. }
    cbn [Nat.add take drop app]. f_equal. apply IH. apply Index_Some.
    split; [by apply (occurs_at_S c)|]. intros m Hm. rewrite <- (occurs_at_S c). apply Hmin. lia.
Qed.

Lemma Index_cut l n :
  Index l old = Some n ->
  l = take n l ++ old ++ drop (n + length old) l /\ Contains (take n l) old = false /\ length (take n l) = n.
Proof.
  intros Hi. apply Index_Some in Hi as [(a & b & -> & Hn) Hmin]. subst n.
  assert (drop (length a + length old) (a ++ old ++ b) = b) as ->
    by (rewrite app_assoc, <- length_app; apply drop_app_length).
  rewrite take_app_length.
  split_ands; [done| |done]. apply Contains_false. intros x y E.
  apply (Hmin (length x)).
  - rewrite E, !length_app. destruct old; [done|]. cbn. lia.
  - exists x, (y ++ old ++ b). split; [|done]. rewrite E. by rewrite <- !app_assoc.
Qed.

(** What replacing does: the text is pieces without the needle, joined by it, and becomes the
    same pieces joined by the replacement. *)
Lemma replaceFrom_pieces l :
  exists ps, ps <> [] /\ l = join old ps /\ replaceFrom old new 0 l = join new ps /\
    Forall (fun p => Contains p old = false) ps.
Proof.
  assert (forall k l, (length l < k)%nat -> exists ps, ps <> [] /\ l = join old ps /\
    replaceFrom old new 0 l = join new ps /\ Forall (fun p => Contains p old = false) ps) as Hk;
    [|by apply (Hk (S (length l))); lia].
  clear l. induction k as [|k IH]; intros l Hlen; [lia|].
  destruct (Index l old) as [n|] eqn:Hi.
  - destruct (Index_cut l n Hi) as (El & Hp & Hn).
    destruct (IH (drop (n + length old) l)) as (ps & Hne & E & Er & Hps).
    { rewrite length_drop. destruct old; [done|]. cbn. destruct l; cbn in *; [|lia].
      rewrite El in Hn. destruct n; cbn in *; done || lia. }
    exists (take n l :: ps). split_ands; [done| | |by constructor].
    + rewrite El at 1. rewrite E at 1. destruct ps; done.
    + rewrite (replaceFrom_first l n Hi), Er. by destruct ps.
  - assert (Contains l old = false) as Hc by (unfold Contains; by rewrite Hi).
    exists [l]. split_ands; [done|done|by apply replaceFrom_none|by repeat constructor].
Qed.

(** Pieces without the needle, joined by a text apart from it, hold no needle. *)
Lemma join_clear ps :
  apart old new = true -> Forall (fun p => Contains p old = false) ps ->
  Contains (join new ps) old = false.
Proof.
  intros Ha. induction 1 as [|p ps Hp Hps IH].
  - apply Contains_false. intros a b E. symmetry in E. apply app_nil in E as [_ [E _]%app_nil]. done.
  - destruct ps as [|q ps]; [done|]. apply Contains_false. intros a b E.
    change (join new (p :: q :: ps)) with (p ++ new ++ join new (q :: ps)) in E. symmetry in E.
    destruct (apart_occurrence old new p _ a b Ha E) as [[x ->]|[x Ex]].
    + by rewrite Contains_false in Hp; destruct (Hp a x).
    + rewrite Contains_false in IH. by destruct (IH x b).
Qed.

(** Replacing a needle by a text that cannot overlap it leaves no needle. *)
Lemma ReplaceAll_clears l : apart old new = true -> Contains (ReplaceAll l old new) old = false.
Proof.
  intros Ha. assert (ReplaceAll l old new = replaceFrom old new 0 l) as -> by (by destruct old).
  destruct (replaceFrom_pieces l) as (ps & _ & _ & -> & Hps). by apply join_clear.
Qed.

Lemma ReplaceAll_none l : Contains l old = false -> ReplaceAll l old new = l.
Proof.
  intros Hc. assert (ReplaceAll l old new = replaceFrom old new 0 l) as -> by (by destruct old).
  by apply replaceFrom_none.
Qed.

End Replace.

(** * Lines *)

Lemma split_on_nonempty sep l : split_on sep l <> [].
Proof. induction l as [|c l IH]; cbn; [done|]. destruct (sep c); [done|]. by destruct (split_on sep l). Qed.

(** Joining what was split on a byte gives the text back. *)
Lemma join_split_on c l : join [c] (split_on (fun d => Ascii.eqb d c) l) = l.
Proof.
  induction l as [|d l IH]; [done|]. cbn [split_on].
  pose proof (split_on_nonempty (fun d => Ascii.eqb d c) l) as Hne.
  destruct (Ascii.eqb_spec d c) as [->|Hd].
  - destruct (split_on _ l) as [|h t]; [done|]. change ([c] ++ join [c] (h :: t) = c :: l). by rewrite IH.
  - destruct (split_on _ l) as [|h t]; [done|]. destruct t; cbn [join app] in *; by rewrite <- IH.
Qed.
