(* ===== verification/GoNum.v ===== *)
(** The [strconv] and [time] functions that read and print numbers: [strconv.Atoi],
    [strconv.ParseBool], [strconv.ParseFloat], [time.ParseDuration] and
    [time.Duration.String].

    Floating-point numbers are [spec_float] of the Standard Library with the parameters of
    IEEE binary64, integers are kept at their width.  Durations are nanoseconds. *)

From Stdlib Require Import SpecFloat.
From S2P Require Import Prelude GoErr GoStr.

(** * Digits *)

Definition is_digit (c : ascii) : bool := (48 <=? byte_of c) && (byte_of c <=? 57).
Definition digit (c : ascii) : Z := byte_of c - 48.

(** The longest prefix of [l] whose bytes satisfy [p], and the rest. *)
Fixpoint span (p : ascii -> bool) (l : list ascii) : list ascii * list ascii :=
  match l with
  | [] => ([], [])
  | c :: r => if p c then let '(a, b) := span p r in (c :: a, b) else ([], l)
  end.

Definition number (ds : list ascii) : Z := fold_left (fun x c => 10 * x + digit c) ds 0.

(** An optional sign. *)
Definition sign (l : list ascii) : bool * list ascii :=
  match l with
  | "-"%char :: r => (true, r)
  | "+"%char :: r => (false, r)
  | _ => (false, l)
  end.

(** [strconv.Atoi] on a 64-bit platform. *)
Definition Atoi (s : string) : option Z :=
  let '(neg, r) := sign (to_list s) in
  if bool_decide (r = []) || negb (forallb is_digit r) then None
  else
    let z := if neg then - number r else number r in
    if bool_decide (int_ok 64 z) then Some z else None.

(** [strconv.ParseBool]. *)
Definition ParseBool (s : string) : option bool :=
  if bool_decide (s ∈ ["1"; "t"; "T"; "true"; "TRUE"; "True"]) then Some true
  else if bool_decide (s ∈ ["0"; "f"; "F"; "false"; "FALSE"; "False"]) then Some false
  else None.

(** * float64 *)

Definition prec : Z := 53.
Definition emax : Z := 1024.

(** [float64(z)]. *)
Definition float_of_Z (z : Z) : spec_float := binary_normalize prec emax z 0 false.

(** [uint64(x)] of a finite non-negative float: the fraction is dropped. *)
Definition Z_of_float (x : spec_float) : Z :=
  match x with
  | S754_finite false m e => Z.shiftl (Zpos m) e
  | _ => 0
  end.

(** [int64(x)]: the fraction is dropped; what a value outside the type, an infinity or a NaN
    becomes is up to the implementation, here [other]. *)
Definition int64_of_float (other : Z) (x : spec_float) : Z :=
  match x with
  | S754_zero _ => 0
  | S754_finite neg m e =>
      let z := cond_Zopp neg (Z.shiftl (Zpos m) e) in
      if bool_decide (int_ok 64 z) then z else other
  | _ => other
  end.

(** [x * y], [x / y], and the comparisons [x < y], [x <= y] (false on NaN). *)
Definition fmul := SFmul prec emax.
Definition fdiv := SFdiv prec emax.
Definition fsub := SFsub prec emax.
Definition fadd := SFadd prec emax.
Abbreviation flt := SFltb.
Abbreviation fle := SFleb.

Definition is_finite (x : spec_float) : bool :=
  match x with S754_zero _ | S754_finite _ _ _ => true | _ => false end.

(** The correctly rounded value of [m * b ^ e]. *)
Definition scaled (neg : bool) (b m e : Z) : spec_float :=
  match m with
  | Zpos p =>
      match e with
      | Zneg k => fdiv (S754_finite neg p 0) (S754_finite false (Z.to_pos (b ^ Zpos k)) 0)
      | _ => binary_normalize prec emax (cond_Zopp neg (m * b ^ e)) 0 false
      end
  | _ => S754_zero neg
  end.

(** * [strconv.ParseFloat(s, 64)]

    [nan], [inf] and [infinity] in any case, or a mantissa of decimal or hexadecimal
    digits with at most one point and an optional exponent.  An underscore has to separate
    two digits (the base prefix counts as one).  A finite literal whose value rounds to
    infinity is an error. *)

Definition is_hex (c : ascii) : bool :=
  is_digit c || ((97 <=? byte_of (byte_lower c)) && (byte_of (byte_lower c) <=? 102)).
Definition hex_value (c : ascii) : Z :=
  if is_digit c then digit c else byte_of (byte_lower c) - 87.

Definition lower (s : string) : string := string_map byte_lower s.

Fixpoint underscores_ok (prev : ascii) (hex : bool) (l : list ascii) : bool :=
  let isd c := is_digit c || (hex && is_hex c) in
  match l with
  | [] => negb (Ascii.eqb prev "_")
  | c :: r =>
      if isd c then underscores_ok "0" hex r
      else if Ascii.eqb c "_"
           then Ascii.eqb prev "0" && underscores_ok "_" hex r
           else negb (Ascii.eqb prev "_") && underscores_ok "!" hex r
  end.

(** The digits of a mantissa: value, digits after the point, whether a digit was seen. *)
Fixpoint mantissa (hex : bool) (l : list ascii) (x : Z) (frac : Z) (dot seen : bool)
    : Z * Z * bool * list ascii :=
  match l with
  | [] => (x, frac, seen, [])
  | c :: r =>
      if Ascii.eqb c "_" then mantissa hex r x frac dot seen
      else if Ascii.eqb c "." then
        if dot then (x, frac, seen, l) else mantissa hex r x frac true seen
      else if is_digit c || (hex && is_hex c) then
        mantissa hex r ((if hex then 16 else 10) * x + hex_value c)
          (if dot then frac + 1 else frac) dot true
      else (x, frac, seen, l)
  end.

(** The exponent digits; the loop stops accumulating at 10000. *)
Definition exponent (l : list ascii) : option (Z * list ascii) :=
  let '(neg, r) := sign l in
  match r with
  | c :: _ =>
      if is_digit c then
        let '(ds, r') := span (fun c => is_digit c || Ascii.eqb c "_") r in
        let e := fold_left (fun e c => if e <? 10000 then 10 * e + digit c else e)
                   (List.filter is_digit ds) 0 in
        Some (if neg then - e else e, r')
      else None
  | [] => None
  end.

Definition ParseFloat (s : string) : option spec_float :=
  let '(neg, r) := sign (to_list s) in
  let word := lower (of_list r) in
  if ((word =? "inf") || (word =? "infinity"))%string then Some (S754_infinity neg)
  else if (lower s =? "nan")%string then Some S754_nan
  else
    let '(hex, body) :=
      match r with
      | "0"%char :: c :: b => if Ascii.eqb (byte_lower c) "x" then (true, b) else (false, r)
      | _ => (false, r)
      end in
    let '(m, frac, seen, rest) := mantissa hex body 0 0 false false in
    let mark := if hex then "p"%char else "e"%char in
    let ex :=
      match rest with
      | c :: e => if Ascii.eqb (byte_lower c) mark then exponent e else Some (0, rest)
      | [] => if hex then None else Some (0, [])
      end in
    match ex with
    | Some (e, []) =>
        if negb seen || negb (underscores_ok (if hex then "0" else "^")%char hex body) then None
        else if hex && negb (match rest with c :: _ => Ascii.eqb (byte_lower c) mark | [] => false end)
        then None
        else
          let x := if hex then scaled neg 2 m (e - 4 * frac) else scaled neg 10 m (e - frac) in
          if is_finite x then Some x else None
    | _ => None
    end.

(** * [time.ParseDuration] *)

Definition Nanosecond : Z := 1.
Definition Microsecond : Z := 1000.
Definition Millisecond : Z := 1000000.
Definition Second : Z := 1000000000.
Definition Minute : Z := 60 * Second.
Definition Hour : Z := 60 * Minute.

(** Micro sign (U+00B5) and Greek mu (U+03BC) in UTF-8. *)
Definition micro : string := of_list [of_byte 194; of_byte 181].
Definition greek_mu : string := of_list [of_byte 206; of_byte 188].

Definition unitMap (u : string) : option Z :=
  if (u =? "ns")%string then Some Nanosecond
  else if ((u =? "us") || (u =? micro +:+ "s") || (u =? greek_mu +:+ "s"))%string
  then Some Microsecond
  else if (u =? "ms")%string then Some Millisecond
  else if (u =? "s")%string then Some Second
  else if (u =? "m")%string then Some Minute
  else if (u =? "h")%string then Some Hour
  else None.

(** [leadingInt]: digits as a uint64, refused above 2^63. *)
Fixpoint leadingInt (l : list ascii) (x : Z) : option (Z * list ascii) :=
  match l with
  | c :: r =>
      if is_digit c then
        if x >? 2 ^ 63 / 10 then None
        else
          let x' := 10 * x + digit c in
          if x' >? 2 ^ 63 then None else leadingInt r x'
      else Some (x, l)
  | [] => Some (x, [])
  end.

(** [leadingFraction]: digits that no longer fit are skipped. *)
Fixpoint leadingFraction (l : list ascii) (x : Z) (scale : spec_float) (overflow : bool)
    : Z * spec_float * list ascii :=
  match l with
  | c :: r =>
      if is_digit c then
        if overflow || (x >? (2 ^ 63 - 1) / 10) then leadingFraction r x scale true
        else
          let y := 10 * x + digit c in
          if y >? 2 ^ 63 then leadingFraction r x scale true
          else leadingFraction r y (fmul scale (float_of_Z 10)) overflow
      else (x, scale, l)
  | [] => (x, scale, [])
  end.

(** One iteration of the loop: number, optional fraction, unit. *)
Definition durationTerm (l : list ascii) : option (Z * list ascii) :=
  match l with
  | [] => None
  | c :: _ =>
      if negb (Ascii.eqb c "." || is_digit c) then None
      else
        '(v, r) ← leadingInt l 0;
        let pre := negb (length r =? length l)%nat in
        let '(f, scale, r', post) :=
          match r with
          | "."%char :: q =>
              let '(f, sc, q') := leadingFraction q 0 (float_of_Z 1) false in
              (f, sc, q', negb (length q' =? length q)%nat)
          | _ => (0, float_of_Z 1, r, false)
          end in
        if negb pre && negb post then None
        else
          let '(u, rest) := span (fun c => negb (Ascii.eqb c "." || is_digit c)) r' in
          if bool_decide (u = []) then None
          else
            unit ← unitMap (of_list u);
            if v >? 2 ^ 63 / unit then None
            else
              let v := v * unit in
              if f >? 0 then
                let v := v + Z_of_float (fmul (float_of_Z f) (fdiv (float_of_Z unit) scale)) in
                if v >? 2 ^ 63 then None else Some (v, rest)
              else Some (v, rest)
  end.

(** The loop; each term consumes at least one byte, so the length of the input is fuel
    enough. *)
Fixpoint durationTerms (fuel : nat) (l : list ascii) (d : Z) : option Z :=
  match l, fuel with
  | [], _ => Some d
  | _, O => None
  | _, S fuel =>
      '(v, r) ← durationTerm l;
      let d := uwrap 64 (d + v) in
      if d >? 2 ^ 63 then None else durationTerms fuel r d
  end.

Definition ParseDuration (s : string) : option Z :=
  let '(neg, l) := sign (to_list s) in
  if bool_decide (l = ["0"%char]) then Some 0
  else if bool_decide (l = []) then None
  else
    d ← durationTerms (length l) l 0;
    if neg then Some (wrap64 (- d))
    else if d >? 2 ^ 63 - 1 then None else Some d.

(** * [time.Duration.String] *)

(** The fraction [v / 10^p] without trailing zeros, and the integer part. *)
Fixpoint fmtFrac (p : nat) (v : Z) (acc : string) (print : bool) : string * Z :=
  match p with
  | O => (if print then "." +:+ acc else acc, v)
  | S p =>
      let d := v mod 10 in
      let print := print || negb (d =? 0) in
      fmtFrac p (v / 10) (if print then pretty d +:+ acc else acc) print
  end.

Definition DurationString (d : Z) : string :=
  let u := Z.abs d in
  let body :=
    if u <? Second then
      if u =? 0 then "0s"
      else
        let '(p, unit) :=
          if u <? Microsecond then (0%nat, "ns")
          else if u <? Millisecond then (3%nat, micro +:+ "s")
          else (6%nat, "ms") in
        let '(frac, i) := fmtFrac p u "" false in
        pretty i +:+ frac +:+ unit
    else
      let '(frac, secs) := fmtFrac 9 u "" false in
      let mins := secs / 60 in
      (if mins >? 0
       then (if mins / 60 >? 0 then pretty (mins / 60) +:+ "h" else "") +:+ pretty (mins mod 60) +:+ "m"
       else "") +:+ pretty (secs mod 60) +:+ frac +:+ "s" in
  if d <? 0 then "-" +:+ body else body.

(** * Widths

    Every value a parser returns is a 64-bit integer. *)

Lemma Atoi_width s z : Atoi s = Some z -> int_ok 64 z.
Proof.
  unfold Atoi. destruct (sign _). repeat case_match; intros; simplify_eq; by case_bool_decide.
Qed.

Lemma durationTerms_nonneg fuel l d d' :
  0 <= d -> durationTerms fuel l d = Some d' -> 0 <= d'.
Proof.
  revert l d. induction fuel as [|fuel IH]; intros [|c l] d Hd; cbn [durationTerms];
    try (intros; by simplify_eq).
  destruct (durationTerm (c :: l)) as [[v r]|]; [|done]. cbn [mbind option_bind].
  destruct (_ >? _); [done|]. apply IH. unfold uwrap. by apply Z.mod_pos_bound.
Qed.

Lemma ParseDuration_width s d : ParseDuration s = Some d -> int_ok 64 d.
Proof.
  unfold ParseDuration. destruct (sign _) as [neg l].
  case_bool_decide; [intros [= <-]; by vm_compute|]. case_bool_decide; [done|].
  destruct (durationTerms _ l 0) as [v|] eqn:Hv; [|done]. cbn [mbind option_bind].
  apply durationTerms_nonneg in Hv; [|done].
  destruct neg; [intros [= <-]; by apply wrap_ok|].
  destruct (Z.gtb_spec v (2 ^ 63 - 1)); intros [= <-]. unfold int_ok, int_min, int_max. lia.
Qed.

(** * What a text denotes *)

(** The number a row of digits is, by the weight of each. *)
Fixpoint positional (ds : list ascii) : Z :=
  match ds with [] => 0 | c :: r => digit c * 10 ^ Z.of_nat (length r) + positional r end.

Lemma number_from x ds :
  fold_left (fun x c => 10 * x + digit c) ds x = x * 10 ^ Z.of_nat (length ds) + positional ds.
Proof.
  revert x. induction ds as [|c ds IH]; intros x; [cbn; lia|].
  cbn [fold_left positional]. change (length (c :: ds)) with (S (length ds)).
  rewrite IH, Nat2Z.inj_succ, Z.pow_succ_r by lia. lia.
Qed.

Lemma number_positional ds : number ds = positional ds.
Proof. unfold number. rewrite number_from. lia. Qed.

(** A decimal literal, with an optional sign. *)
Definition int_literal (raw : string) (z : Z) : Prop :=
  exists ds, ds <> [] /\ Forall (fun c => is_digit c = true) ds /\
    ((to_list raw = ds \/ to_list raw = "+"%char :: ds) /\ z = positional ds \/
     to_list raw = "-"%char :: ds /\ z = - positional ds).

Lemma sign_spec l neg r :
  sign l = (neg, r) -> l = (if neg then "-"%char :: r else r) \/ neg = false /\ l = "+"%char :: r.
Proof. unfold sign. repeat case_match; intros; simplify_eq; auto. Qed.

(** [Atoi] reads a literal that fits its type as the number it is, and nothing else. *)
Lemma Atoi_literal raw z : Atoi raw = Some z -> int_literal raw z /\ int_ok 64 z.
Proof.
  intros Ha. split; [|by eapply Atoi_width]. unfold Atoi in Ha.
  destruct (sign (to_list raw)) as [neg ds] eqn:Hs. apply sign_spec in Hs.
  destruct (bool_decide (ds = []) || negb (forallb is_digit ds)) eqn:Hd; [done|].
  apply orb_false_iff in Hd as [Hne%bool_decide_eq_false Hd%negb_false_iff].
  case_bool_decide; [|done]. injection Ha as <-. rewrite number_positional.
  exists ds. split_ands; [done| |destruct neg; naive_solver].
  apply Forall_forall. intros c Hc%list_elem_of_In. rewrite forallb_forall in Hd. auto.
Qed.

(** A duration written with whole numbers only: each with its unit. *)
Inductive whole_terms : list ascii -> Z -> Prop :=
  | WholeNil : whole_terms [] 0
  | WholeTerm ds u r unit n :
      ds <> [] -> Forall (fun c => is_digit c = true) ds ->
      u <> [] -> Forall (fun c => negb (Ascii.eqb c "." || is_digit c) = true) u ->
      (forall c q, r = c :: q -> is_digit c = true) ->
      unitMap (of_list u) = Some unit -> whole_terms r n ->
      whole_terms (ds ++ u ++ r) (positional ds * unit + n).

Lemma span_app p a b :
  Forall (fun c => p c = true) a -> (forall c q, b = c :: q -> p c = false) -> span p (a ++ b) = (a, b).
Proof.
  intros Ha Hb. induction Ha as [|c a Hc Ha IH]; cbn.
  - destruct b as [|c q]; [done|]. cbn. by rewrite (Hb c q eq_refl).
  - by rewrite Hc, IH.
Qed.

Lemma digit_bounds c : is_digit c = true -> 0 <= digit c <= 9.
Proof. unfold is_digit, digit. intros [?%Z.leb_le ?%Z.leb_le]%andb_true_iff. lia. Qed.

Lemma positional_nonneg ds : Forall (fun c => is_digit c = true) ds -> 0 <= positional ds.
Proof.
  induction 1 as [|c ds Hc _ IH]; cbn; [done|]. apply digit_bounds in Hc.
  pose proof (Z.pow_nonneg 10 (Z.of_nat (length ds))). nia.
Qed.

Lemma leadingInt_digits ds r x v rest :
  Forall (fun c => is_digit c = true) ds -> (forall c q, r = c :: q -> is_digit c = false) ->
  leadingInt (ds ++ r) x = Some (v, rest) ->
  v = x * 10 ^ Z.of_nat (length ds) + positional ds /\ rest = r.
Proof.
  intros Hd Hr. revert x. induction Hd as [|c ds Hc Hd IH]; intros x.
  - cbn [app length positional]. destruct r as [|c q]; cbn [leadingInt].
    + intros [= <- <-]. split; [|done]. change (Z.of_nat 0) with 0. rewrite Z.pow_0_r. lia.
    + rewrite (Hr c q eq_refl). intros [= <- <-]. split; [|done]. change (Z.of_nat 0) with 0. rewrite Z.pow_0_r. lia.
  - cbn [app leadingInt]. rewrite Hc. destruct (_ >? _); [done|]. destruct (_ >? _); [done|].
    intros [-> ->]%IH. split; [|done]. cbn [positional].
    change (length (c :: ds)) with (S (length ds)). rewrite Nat2Z.inj_succ, Z.pow_succ_r by lia. ring.
Qed.

Lemma unitMap_pos u unit : unitMap u = Some unit -> 0 < unit.
Proof. unfold unitMap. repeat case_match; intros [= <-]; by vm_compute. Qed.

(** One whole term is read as what it denotes. *)
Lemma durationTerm_whole ds u r unit v rest :
  ds <> [] -> Forall (fun c => is_digit c = true) ds ->
  u <> [] -> Forall (fun c => negb (Ascii.eqb c "." || is_digit c) = true) u ->
  (forall c q, r = c :: q -> is_digit c = true) -> unitMap (of_list u) = Some unit ->
  durationTerm (ds ++ u ++ r) = Some (v, rest) ->
  v = positional ds * unit /\ v <= 2 ^ 63 /\ rest = r.
Proof.
  intros Hne Hd Hu Hnd Hr Hunit. unfold durationTerm.
  assert (exists c0 u', u = c0 :: u' /\ is_digit c0 = false /\ c0 <> "."%char) as (c0 & u' & Heq & Hc0 & Hdot).
  { destruct u as [|c0 u']; [done|]. inversion Hnd as [|? ? Hc _]; subst.
    apply negb_true_iff, orb_false_iff in Hc as [Hc1 Hc2]. exists c0, u'. split_ands; try done.
    by apply Ascii.eqb_neq. }
  destruct (ds ++ u ++ r) as [|c l] eqn:El; [by destruct ds|].
  destruct (negb _); [done|]. rewrite <- El.
  destruct (leadingInt (ds ++ u ++ r) 0) as [[v0 r0]|] eqn:Hl; [|done]. cbn [mbind option_bind].
  apply leadingInt_digits in Hl as [-> ->]; [|done|intros c1 q; rewrite Heq; by intros [= <- _]].
  assert (forall A (a : list ascii -> A) b, match u ++ r with "."%char :: q => a q | _ => b end = b) as Hnodot.
  { intros A a b. rewrite Heq. cbn [app]. destruct c0 as [[] [] [] [] [] [] [] []]; try done; by destruct Hdot. }
  rewrite Hnodot.
  assert (negb (length (u ++ r) =? length (ds ++ u ++ r))%nat = true) as ->.
  { apply negb_true_iff, Nat.eqb_neq. rewrite (length_app ds). destruct ds; [done|]. cbn. lia. }
  cbn [negb andb]. rewrite span_app; [|done|intros c1 q E; apply negb_false_iff, orb_true_iff; right; by apply (Hr c1 q)].
  rewrite bool_decide_eq_false_2 by done. rewrite Hunit. cbn [mbind option_bind].
  apply unitMap_pos in Hunit. destruct (Z.gtb_spec (0 * 10 ^ Z.of_nat (length ds) + positional ds) (2 ^ 63 / unit)); [done|].
  cbn [Z.gtb Z.compare]. intros [= <- <-]. split_ands; [lia| |done].
  rewrite Z.mul_0_l, Z.add_0_l in *. etrans; [apply Z.mul_le_mono_nonneg_r; [lia|eassumption]|].
  rewrite Z.mul_comm. by apply Z.mul_div_le.
Qed.

Lemma whole_terms_nonneg l n : whole_terms l n -> 0 <= n.
Proof.
  induction 1 as [|ds u r unit n Hne Hd Hu Hnd Hr Hunit _ IH]; [done|].
  apply unitMap_pos in Hunit. pose proof (positional_nonneg ds Hd). nia.
Qed.

Lemma durationTerms_whole fuel l n d d' :
  whole_terms l n -> 0 <= d -> d + n < 2 ^ 64 ->
  durationTerms fuel l d = Some d' -> d' = d + n.
Proof.
  intros Hw. revert fuel d. induction Hw as [|ds u r unit n Hne Hd Hu Hnd Hr Hunit Hw IH]; intros fuel d Hd0 Hlt.
  { destruct fuel; intros [= <-]; lia. }
  pose proof (whole_terms_nonneg r n Hw). pose proof (positional_nonneg ds Hd).
  pose proof (unitMap_pos _ _ Hunit). assert (0 <= positional ds * unit) by nia.
  destruct (ds ++ u ++ r) as [|c l] eqn:El; [by destruct ds|].
  destruct fuel as [|fuel]; [done|]. cbn [durationTerms]. rewrite <- El.
  destruct (durationTerm (ds ++ u ++ r)) as [[v rest]|] eqn:Ht; [|done]. cbn [mbind option_bind].
  apply (durationTerm_whole ds u r unit v rest) in Ht as (-> & _ & ->); try done.
  unfold uwrap. rewrite Z.mod_small by lia. destruct (_ >? _); [done|].
  intros E. apply IH in E; lia.
Qed.

Lemma durationTerms_le fuel l d d' :
  d <= 2 ^ 63 -> durationTerms fuel l d = Some d' -> d' <= 2 ^ 63.
Proof.
  revert l d. induction fuel as [|fuel IH]; intros [|c l] d Hd; cbn [durationTerms];
    try (by intros [= <-]); try done.
  destruct (durationTerm (c :: l)) as [[v r]|]; [|done]. cbn [mbind option_bind].
  destruct (Z.gtb_spec (uwrap 64 (d + v)) (2 ^ 63)); [done|]. by apply IH.
Qed.

(** A duration of whole numbers with a total below 2^64 nanoseconds is read as exactly that
    total. *)
Lemma ParseDuration_whole raw d neg l n :
  ParseDuration raw = Some d -> sign (to_list raw) = (neg, l) -> whole_terms l n -> n < 2 ^ 64 ->
  d = if neg then - n else n.
Proof.
  unfold ParseDuration. intros Hp Hs Hw Hn. rewrite Hs in Hp. revert Hp.
  case_bool_decide as H0.
  { exfalso. subst l. inversion Hw as [|ds u r unit m Hne Hd Hu Hnd Hr Hunit _ E]; subst.
    destruct ds as [|c [|]]; [done| |done]. by destruct u. }
  case_bool_decide; [done|]. destruct (durationTerms _ l 0) as [d'|] eqn:Ht; [|done]. cbn [mbind option_bind].
  pose proof (whole_terms_nonneg l n Hw). pose proof (durationTerms_le (length l) l 0 d' ltac:(lia) Ht).
  apply durationTerms_whole with (n := n) in Ht; [|done..]. rewrite Z.add_0_l in Ht. subst d'.
  destruct neg; [|destruct (n >? _); by intros [= <-]].
  intros [= <-]. apply wrap64_id. unfold int_ok, int_min, int_max. lia.
Qed.

(** Running totals are kept modulo 2^64 and checked against 2^63 only: two terms of 2^63
    nanoseconds are read as none. *)
Lemma duration_wraps :
  ParseDuration "9223372036854775808ns9223372036854775808ns" = Some 0.
Proof. vm_compute. reflexivity. Qed.
