(* ===== verification/GoLog.v ===== *)
(** Structured log lines ([log/slog]): level, message, attributes. *)

From S2P Require Import Prelude GoErr.

Inductive level := LevelDebug | LevelInfo | LevelWarn | LevelError.

(** A structured log line: its message and its attributes. *)
Inductive attr :=
  | AStr (s : string) | AInt (z : Z) | AErr (e : error) | ACode (c : code) | AAny (v : text).
Record logline := mkLog { LLevel : level; LMsg : string; LAttrs : list (string * attr) }.

