(* ===== verification/AppErr.v ===== *)
(** internal/platform/apperr: the one table from error kinds to gRPC codes and HTTP
    statuses, and the conversion of any error to the status a client sees.

    [*apperr.Error] is the [EApp] node of [error].  Protobuf's marshalling of error
    details is the parameter [marshals] of [ToStatus]. *)

From S2P Require Import Prelude GoErr.

(** * The table *)

Record kind_info := mkInfo { Code : code; HStatus : Z; Name : string }.

Definition kindInfo (k : Kind) : kind_info :=
  match k with
  | KindUnknown => mkInfo CInternal 500 "UNKNOWN"
  | KindInvalidArgument => mkInfo CInvalidArgument 400 "INVALID_ARGUMENT"
  | KindFailedPrecondition => mkInfo CFailedPrecondition 400 "FAILED_PRECONDITION"
  | KindNotFound => mkInfo CNotFound 404 "NOT_FOUND"
  | KindAlreadyExists => mkInfo CAlreadyExists 409 "ALREADY_EXISTS"
  | KindPermissionDenied => mkInfo CPermissionDenied 403 "PERMISSION_DENIED"
  | KindUnauthenticated => mkInfo CUnauthenticated 401 "UNAUTHENTICATED"
  | KindResourceExhausted => mkInfo CResourceExhausted 429 "RESOURCE_EXHAUSTED"
  | KindUnavailable => mkInfo CUnavailable 503 "UNAVAILABLE"
  | KindInternal => mkInfo CInternal 500 "INTERNAL"
  | KindCanceled => mkInfo CCanceled 499 "CANCELED"
  | KindDeadlineExceeded => mkInfo CDeadlineExceeded 504 "DEADLINE_EXCEEDED"
  end.

Definition AllKinds : list Kind :=
  [KindUnknown; KindInvalidArgument; KindFailedPrecondition; KindNotFound;
   KindAlreadyExists; KindPermissionDenied; KindUnauthenticated; KindResourceExhausted;
   KindUnavailable; KindInternal; KindCanceled; KindDeadlineExceeded].

(** The loop ranges over the map in an order Go chooses, here the argument [keys]. *)
Definition HTTPStatusFromCode (keys : list Kind) (c : code) : Z :=
  match List.find (fun k => bool_decide (Code (kindInfo k) = c)) keys with
  | Some k => HStatus (kindInfo k)
  | None =>
      match c with
      | COK => 200
      | CUnimplemented => 501
      | _ => 500
      end
  end.

(** Every [Kind] of the program is a key of the table. *)
Definition GRPCCode (k : Kind) : code := Code (kindInfo k).
Definition HTTPStatus (k : Kind) : Z := HStatus (kindInfo k).
Definition KindString (k : Kind) : string := Name (kindInfo k).

Definition Redacts (k : Kind) : bool :=
  bool_decide (k = KindInternal) || bool_decide (k = KindUnknown).

(** * Application errors *)

Definition New (k : Kind) (reason message : string) : error :=
  EApp k reason [PStr message] ∅ [] None.

Definition Wrap (err : error) (k : Kind) (reason : string) (message : text) : error :=
  EApp k reason message ∅ [] (Some err).

(** Both modify the receiver, which no other reference shares yet, and return it. *)
Definition WithDetails (details : list detail) (e : error) : error :=
  match e with
  | EApp k r m md ds w => EApp k r m md (ds ++ details) w
  | _ => e
  end.

Definition WithMetadata (kv : gmap string string) (e : error) : error :=
  match e with
  | EApp k r m md ds w => EApp k r m (kv ∪ md) ds w
  | _ => e
  end.

(** [Error()], as the message pieces it formats. *)
Definition ErrorText (e : error) : text :=
  match e with
  | EApp _ r m _ _ (Some w) => PStr r :: PStr ": " :: m ++ [PStr ": "; PVal w]
  | EApp _ r m _ _ None => PStr r :: PStr ": " :: m
  | _ => [PVal e]
  end.

Definition Unwrap (e : error) : option error :=
  match e with EApp _ _ _ _ _ w => w | _ => None end.

Definition as_app (e : error) : option error :=
  match e with EApp _ _ _ _ _ _ => Some e | _ => None end.

(** [From]: the first [*apperr.Error] of the tree. *)
Definition From (e : error) : option error := errAs as_app e.

Definition app_kind (e : error) : Kind :=
  match e with EApp k _ _ _ _ _ => k | _ => KindInternal end.

(** [err.Error()], not rendered. *)
Definition error_message (e : error) : text := [PVal e].

Definition classify (err : error) : Kind * string * text :=
  if errIs Canceled err
  then (KindCanceled, "CANCELED", [PStr "the request was cancelled by the caller"])
  else if errIs DeadlineExceeded err
  then (KindDeadlineExceeded, "DEADLINE_EXCEEDED", [PStr "the request deadline elapsed"])
  else (KindInternal, "INTERNAL", error_message err).

Definition KindOf (err : option error) : Kind :=
  match err with
  | None => KindUnknown
  | Some e =>
      match From e with
      | Some ae => app_kind ae
      | None => (classify e).1.1
      end
  end.

Definition ClientMessage (e : error) : text :=
  match e with
  | EApp k _ m _ _ _ => if Redacts k then [PStr "internal error"] else m
  | _ => [PStr "internal error"]
  end.

(** A gRPC status: what reaches the client. *)
Record Status := mkStatus { SCode : code; SMessage : text; SDetails : list detail }.

(** [marshals] tells whether protobuf can encode the details; when it cannot the bare
    status is returned. *)
Definition ToStatus (marshals : list detail -> bool) (err : option error) (domain : string)
    : Status :=
  match err with
  | None => mkStatus COK [PStr ""] []
  | Some e =>
      let ae := match From e with
                | Some ae => ae
                | None => let '(k, r, m) := classify e in Wrap e k r m
                end in
      match ae with
      | EApp k r _ md ds _ =>
          let metadata := if Redacts k then ∅ else md in
          let details := ErrorInfo r domain metadata :: ds in
          mkStatus (GRPCCode k) (ClientMessage ae) (if marshals details then details else [])
      | _ => mkStatus CInternal [PStr "internal error"] []
      end
  end.

Definition ToError (marshals : list detail -> bool) (err : option error) (domain : string)
    : option error :=
  match err with
  | None => None
  | Some _ =>
      let st := ToStatus marshals err domain in
      Some (EStatus (SCode st) (SMessage st) (SDetails st))
  end.

(** * The table is one table *)

Lemma AllKinds_complete k : k ∈ AllKinds.
Proof. apply (bool_decide_unpack _). by destruct k. Qed.

(** One table: whatever order the runtime iterates the table in, the HTTP status
    derived from the gRPC code of a kind is that kind's own HTTP status, so the REST and
    gRPC surfaces cannot disagree, and kinds sharing a code share a status. *)
Theorem HTTPStatusFromCode_GRPCCode keys k :
  keys ≡ₚ AllKinds -> HTTPStatusFromCode keys (GRPCCode k) = HTTPStatus k.
Proof.
  intros Hp. unfold HTTPStatusFromCode.
  assert (forall k', Code (kindInfo k') = GRPCCode k -> HStatus (kindInfo k') = HTTPStatus k)
    as Hshare by (intros k'; by destruct k, k').
  destruct (List.find _ keys) as [k'|] eqn:Hf.
  - apply find_some in Hf as [_ Hc%bool_decide_eq_true]. by apply Hshare.
  - apply (find_none _ _) with (x := k) in Hf.
    + by apply bool_decide_eq_false in Hf.
    + apply list_elem_of_In. rewrite Hp. apply AllKinds_complete.
Qed.

(** Codes outside the table: OK, Unimplemented and everything else. *)
Lemma HTTPStatusFromCode_unmapped keys c :
  keys ≡ₚ AllKinds -> (forall k, GRPCCode k <> c) ->
  HTTPStatusFromCode keys c = match c with COK => 200 | CUnimplemented => 501 | _ => 500 end.
Proof.
  intros _ Hno. unfold HTTPStatusFromCode.
  destruct (List.find _ keys) as [k|] eqn:Hf; [|done].
  apply find_some in Hf as [_ Hc%bool_decide_eq_true]. by destruct (Hno k).
Qed.

Lemma GRPCCode_redacts k : GRPCCode k = CInternal <-> Redacts k = true.
Proof. by destruct k. Qed.

Lemma GRPCCode_not_ok k : GRPCCode k <> COK.
Proof. by destruct k. Qed.

(** * Classification *)

Lemma From_app e ae : From e = Some ae ->
  exists k r m md ds w, ae = EApp k r m md ds w.
Proof.
  unfold From. revert ae.
  assert (forall ae e, as_app e = Some ae -> exists k r m md ds w, ae = EApp k r m md ds w)
    as Hleaf by (intros ae [] [= <-]; eauto 10).
  revert e. fix IH 1. intros e ae. destruct e; cbn; try done.
  - induction ps as [|p ps IHps]; [done|]. destruct p; cbn; auto.
    destruct (errAs as_app e) eqn:E; [intros [= <-]; by apply (IH e) | auto].
  - induction es as [|e es IHes]; [done|]. cbn.
    destruct (errAs as_app e) eqn:E; [intros [= <-]; by apply (IH e) | auto].
  - intros [= <-]. eauto 10.
  - apply IH.
  - destruct cause; [apply IH|done].
Qed.

(** The error [ToStatus] reports: the application error of the tree, or the
    classification of an error that carries none. *)
Definition reported (e : error) : error :=
  match From e with
  | Some ae => ae
  | None => let '(k, r, m) := classify e in Wrap e k r m
  end.

Lemma reported_kind e : app_kind (reported e) = KindOf (Some e).
Proof. unfold reported, KindOf. destruct (From e); [done|]. by destruct (classify e) as [[k r] m]. Qed.

Lemma reported_app e : exists k r m md ds w, reported e = EApp k r m md ds w.
Proof.
  unfold reported. destruct (From e) eqn:E; [by apply (From_app e)|].
  destruct (classify e) as [[k r] m]. unfold Wrap. eauto 10.
Qed.

Lemma ToStatus_reported mar e d k r m md ds w :
  reported e = EApp k r m md ds w ->
  let details := ErrorInfo r d (if Redacts k then ∅ else md) :: ds in
  ToStatus mar (Some e) d =
    mkStatus (GRPCCode k) (if Redacts k then [PStr "internal error"] else m)
      (if mar details then details else []).
Proof. intros E. unfold ToStatus. fold (reported e). by rewrite E. Qed.

(** The status a client sees carries the code of the error's kind, and an error
    never becomes [OK]: [ToStatus] agrees with [KindOf] on every error tree, classified
    or not. *)
Theorem ToStatus_code mar e d :
  SCode (ToStatus mar (Some e) d) = GRPCCode (KindOf (Some e))
  /\ SCode (ToStatus mar (Some e) d) <> COK.
Proof.
  destruct (reported_app e) as (k & r & m & md & ds & w & E).
  pose proof (reported_kind e) as Hk. rewrite E in Hk. cbn in Hk. subst k.
  rewrite (ToStatus_reported mar e d _ _ _ _ _ _ E). split; [done|]. apply GRPCCode_not_ok.
Qed.

(** C33. Redaction: a status with code [Internal] says "internal error" and nothing else,
    and its [ErrorInfo] carries no metadata, whatever message, metadata and cause the
    error had. *)
Theorem ToStatus_redacts mar e d r dom md ds :
  SCode (ToStatus mar (Some e) d) = CInternal ->
  SMessage (ToStatus mar (Some e) d) = [PStr "internal error"]
  /\ (SDetails (ToStatus mar (Some e) d) = ErrorInfo r dom md :: ds -> md = ∅ /\ dom = d).
Proof.
  destruct (reported_app e) as (k & r' & m & md' & ds' & w & E).
  rewrite (ToStatus_reported mar e d _ _ _ _ _ _ E). cbn.
  intros ->%GRPCCode_redacts. split; [done|].
  destruct (mar _); intros [=]. by subst.
Qed.

Lemma ToStatus_redacts_witness :
  SMessage (ToStatus (fun _ => true)
    (Some (WithMetadata {["upstream" := "10.0.0.7:443"]}
             (Wrap SqlErrNoRows KindInternal "UPSTREAM" [PStr "pq: secret"]))) "orders")
  = [PStr "internal error"].
Proof.
  apply (ToStatus_redacts (fun _ => true)
    (WithMetadata {["upstream" := "10.0.0.7:443"]}
       (Wrap SqlErrNoRows KindInternal "UPSTREAM" [PStr "pq: secret"])) "orders"
    "" "" ∅ []).
  reflexivity.
Defined.

(** Cancellation and expiry of a context are the caller's doing: an unclassified error
    wrapping one is never [Internal]. *)
Lemma KindOf_context e :
  From e = None ->
  (errIs Canceled e = true -> KindOf (Some e) = KindCanceled)
  /\ (errIs Canceled e = false -> errIs DeadlineExceeded e = true ->
      KindOf (Some e) = KindDeadlineExceeded)
  /\ (errIs Canceled e = false -> errIs DeadlineExceeded e = false ->
      KindOf (Some e) = KindInternal).
Proof.
  intros E. unfold KindOf, classify. rewrite E.
  split_and!; [by intros ->|by intros -> ->|by intros -> ->].
Qed.
