(* ===== verification/Money.v ===== *)
(** internal/order/money.go: exact decimal amounts.

    [Money] is the Go struct; [Units] is an [int64] and [Nanos] an [int32], kept as
    [Z] with every operation wrapped at its width.  [value] is the amount in
    nano-units an exact reader would compute, [canon] the canonical [Money] of a
    value: the theorems show that each operation of the code is the corresponding
    operation on values, or fails with [ErrMoneyOverflow] when the exact result has
    no representation. *)

From S2P Require Import Prelude GoErr GoStr.

Definition NanosPerUnit : Z := 1000000000.

Definition maxUnits : Z := Z.quot ((2 ^ 63 - 1) - (NanosPerUnit - 1)) NanosPerUnit.

Definition MaxUnits : Z := maxUnits.

Record Money := mkMoney { CurrencyCode : string; Units : Z; Nanos : Z }.

#[export] Instance Money_eq_dec : EqDecision Money.
Proof. solve_decision. Defined.

(** [Units] is an [int64] and [Nanos] an [int32]. *)
Definition Money_typed (m : Money) : Prop := int_ok 64 (Units m) /\ int_ok 32 (Nanos m).

Definition isUpperAZ (c : ascii) : bool := (65 <=? byte_of c) && (byte_of c <=? 90).

(** Every rune of a non-ASCII byte is above 'Z', so the rune loop is a byte loop. *)
Definition validCurrencyCode (s : string) : bool :=
  if negb (strlen s =? 3) then false else string_forallb isUpperAZ s.

(** [String]: the rendering used in messages. *)
Definition render (m : Money) : string :=
  let negative := (Units m <? 0) || (Nanos m <? 0) in
  let neg := if negative then "-" else "" in
  let units := if negative then wrap64 (- Units m) else Units m in
  let nanos := if negative then wrap32 (- Nanos m) else Nanos m in
  let frac := TrimRight (fun c => Ascii.eqb c "0"%char) (pad0 9 nanos) in
  if (frac =? "")%string
  then neg +:+ pretty units +:+ ".00 " +:+ CurrencyCode m
  else
    let frac := if strlen frac <? 2 then frac +:+ "0" else frac in
    neg +:+ pretty units +:+ "." +:+ frac +:+ " " +:+ CurrencyCode m.

Definition Validate (m : Money) : result unit :=
  if negb (validCurrencyCode (CurrencyCode m))
  then Err (errorf ErrInvalidCurrencyCode [PQuote (CurrencyCode m)])
  else if (Nanos m <=? - NanosPerUnit) || (Nanos m >=? NanosPerUnit)
  then Err (errorf ErrInvalidMoney [PStr "nanos "; PInt (Nanos m); PStr " out of range"])
  else if ((Units m >? 0) && (Nanos m <? 0)) || ((Units m <? 0) && (Nanos m >? 0))
  then Err (errorf ErrInvalidMoney [PStr "units "; PInt (Units m); PStr " and nanos ";
              PInt (Nanos m); PStr " disagree in sign"])
  else if (Units m >? maxUnits) || (Units m <? - maxUnits)
  then Err (errorf ErrMoneyOverflow [PStr "units "; PInt (Units m)])
  else Ok tt.

Definition totalNanos (m : Money) : result Z :=
  if (Units m >? maxUnits) || (Units m <? - maxUnits)
  then Err (errorf ErrMoneyOverflow [PStr "units "; PInt (Units m)])
  else Ok (wrap64 (wrap64 (Units m * NanosPerUnit) + Nanos m)).

Definition fromTotalNanos (currencyCode : string) (total : Z) : result Money :=
  let m := mkMoney currencyCode (Z.quot total NanosPerUnit)
             (wrap32 (Z.rem total NanosPerUnit)) in
  if (Units m >? maxUnits) || (Units m <? - maxUnits)
  then Err (errorf ErrMoneyOverflow [PStr "result units "; PInt (Units m)])
  else Ok m.

Definition requireSameCurrency (m o : Money) : result unit :=
  if negb (CurrencyCode m =? CurrencyCode o)%string
  then Err (errorf ErrCurrencyMismatch
              [PQuote (CurrencyCode m); PStr " vs "; PQuote (CurrencyCode o)])
  else Ok tt.

Definition combine (m o : Money) (negate : bool) : result Money :=
  _ ← requireSameCurrency m o;
  a ← totalNanos m;
  b ← totalNanos o;
  let b := if negate then wrap64 (- b) else b in
  let sum := wrap64 (a + b) in
  if ((b >? 0) && (sum <? a)) || ((b <? 0) && (sum >? a))
  then Err (errorf ErrMoneyOverflow [PStr (render m); PStr " + "; PStr (render o)])
  else fromTotalNanos (CurrencyCode m) sum.

Definition Add (m o : Money) : result Money := combine m o false.
Definition Sub (m o : Money) : result Money := combine m o true.

Section WithUnicode.
Context `{Unicode}.

(** [Zero]. *)
Definition Zero (currencyCode : string) : Money := mkMoney (ToUpper currencyCode) 0 0.

Definition Mul (m : Money) (n : Z) : result Money :=
  total ← totalNanos m;
  if negb (n =? 0)
  then
    let product := wrap64 (total * n) in
    if negb (wrap64 (Z.quot product n) =? total)
    then Err (errorf ErrMoneyOverflow [PStr (render m); PStr " * "; PInt n])
    else fromTotalNanos (CurrencyCode m) product
  else Ok (Zero (CurrencyCode m)).

Definition normalized (m : Money) : Money :=
  let code := ToUpper (CurrencyCode m) in
  let units := wrap64 (Units m + Z.quot (Nanos m) NanosPerUnit) in
  let nanos := Z.rem (Nanos m) NanosPerUnit in
  if (units >? 0) && (nanos <? 0)
  then mkMoney code (wrap64 (units - 1)) (wrap32 (nanos + NanosPerUnit))
  else if (units <? 0) && (nanos >? 0)
  then mkMoney code (wrap64 (units + 1)) (wrap32 (nanos - NanosPerUnit))
  else mkMoney code units nanos.

Definition NewMoney (currencyCode : string) (units nanos : Z) : result Money :=
  let m := normalized (mkMoney currencyCode units nanos) in
  _ ← Validate m;
  Ok m.

End WithUnicode.

Definition Neg (m : Money) : Money :=
  mkMoney (CurrencyCode m) (wrap64 (- Units m)) (wrap32 (- Nanos m)).

Definition IsZero (m : Money) : bool := (Units m =? 0) && (Nanos m =? 0).

Definition IsNegative (m : Money) : bool := (Units m <? 0) || (Nanos m <? 0).

Definition Compare (m o : Money) : result Z :=
  _ ← requireSameCurrency m o;
  a ← totalNanos m;
  b ← totalNanos o;
  Ok (if a <? b then -1 else if a >? b then 1 else 0).

(** * The abstract view *)

Definition value (m : Money) : Z := Units m * NanosPerUnit + Nanos m.

Definition maxValue : Z := maxUnits * NanosPerUnit + (NanosPerUnit - 1).

Definition in_range (v : Z) : bool := Z.abs v <=? maxValue.

(** The one [Money] of a currency and a value whose sign and fraction agree. *)
Definition canon (c : string) (v : Z) : Money :=
  mkMoney c (Z.quot v NanosPerUnit) (Z.rem v NanosPerUnit).

Definition Valid (m : Money) : Prop := Validate m = Ok tt.

(** [r] is the exact amount [v] in currency [c], or an overflow error when [v] has no
    representation. *)
Definition computes (r : result Money) (c : string) (v : Z) : Prop :=
  if in_range v then r = Ok (canon c v) else fails_with ErrMoneyOverflow r.

Lemma NanosPerUnit_eq : NanosPerUnit = 1000000000.
Proof. reflexivity. Qed.
Lemma maxUnits_eq : maxUnits = 9223372035.
Proof. reflexivity. Qed.
Lemma maxValue_eq : maxValue = 9223372035999999999.
Proof. reflexivity. Qed.

Ltac money_nums :=
  rewrite ?NanosPerUnit_eq, ?maxUnits_eq, ?maxValue_eq in *.

(** Quotient and remainder of a total, in the form [lia] uses. *)
Lemma quot_rem_nanos v :
  v = Z.quot v NanosPerUnit * NanosPerUnit + Z.rem v NanosPerUnit /\
  Z.abs (Z.rem v NanosPerUnit) < NanosPerUnit /\
  (0 <= v -> 0 <= Z.quot v NanosPerUnit /\ 0 <= Z.rem v NanosPerUnit) /\
  (v <= 0 -> Z.quot v NanosPerUnit <= 0 /\ Z.rem v NanosPerUnit <= 0).
Proof.
  money_nums.
  pose proof (Z.quot_rem' v 1000000000). pose proof (Z.rem_bound_abs v 1000000000).
  split_ands; [lia|lia| |]; intros.
  - pose proof (Z.quot_pos v 1000000000). pose proof (Z.rem_nonneg v 1000000000). lia.
  - pose proof (Z.rem_nonpos v 1000000000).
    pose proof (Z.quot_opp_l v 1000000000). pose proof (Z.quot_pos (- v) 1000000000). lia.
Qed.

Lemma Valid_iff m :
  Valid m <->
  validCurrencyCode (CurrencyCode m) = true /\ Z.abs (Nanos m) < NanosPerUnit /\
  (0 < Units m -> 0 <= Nanos m) /\ (Units m < 0 -> Nanos m <= 0) /\
  Z.abs (Units m) <= maxUnits.
Proof.
  unfold Valid, Validate. money_nums.
  destruct (validCurrencyCode _); cbn [negb]; [|split; [done|by intros [? _]]].
  repeat case_match; to_prop; split; intros; break_ands; try done; split_ands; try done;
    try lia; exfalso; repeat match goal with H : _ \/ _ |- _ => destruct H end; to_prop; lia.
Qed.

#[export] Instance Valid_dec m : Decision (Valid m).
Proof.
  unfold Valid. destruct (Validate m) as [[]|e]; [by left|by right].
Defined.

Lemma Valid_canon m :
  Valid m ->
  validCurrencyCode (CurrencyCode m) = true /\ in_range (value m) = true /\
  m = canon (CurrencyCode m) (value m).
Proof.
  rewrite Valid_iff. unfold in_range, value, canon. intros (Hc & Hn & Hp & Hm & Hu).
  split_ands; [done| |].
  - apply Z.leb_le. money_nums. lia.
  - destruct m as [c u n]; cbn in *.
    destruct (quot_rem_nanos (u * NanosPerUnit + n)) as (E & Hb & Hpos & Hneg).
    money_nums. f_equal; lia.
Qed.

Lemma canon_Valid c v :
  validCurrencyCode c = true -> in_range v = true -> Valid (canon c v).
Proof.
  intros Hc Hr. apply Valid_iff. cbn. unfold in_range in Hr. to_prop.
  destruct (quot_rem_nanos v) as (E & Hb & Hpos & Hneg). money_nums.
  split_ands; try done; lia.
Qed.

Lemma value_canon c v : value (canon c v) = v.
Proof. unfold value; cbn. destruct (quot_rem_nanos v) as (E & _). lia. Qed.

Lemma in_range_int64 v : in_range v = true -> int_ok 64 v.
Proof. unfold in_range. intros; to_prop. width_simpl. money_nums. lia. Qed.

Lemma totalNanos_Valid m : Valid m -> totalNanos m = Ok (value m).
Proof.
  intros Hv. pose proof (Valid_canon m Hv) as (_ & Hr & _).
  apply Valid_iff in Hv as (_ & Hn & _ & _ & Hu).
  unfold totalNanos. rewrite orb_false_intro; [|money_nums; lia..].
  f_equal. unfold value in *. apply in_range_int64 in Hr.
  rewrite (wrap64_id (Units m * _)); [apply wrap64_id; done|].
  width_simpl. money_nums. lia.
Qed.

Lemma fromTotalNanos_computes c v : computes (fromTotalNanos c v) c v.
Proof.
  unfold computes, fromTotalNanos, in_range, canon.
  destruct (quot_rem_nanos v) as (E & Hb & Hpos & Hneg).
  rewrite wrap32_id by (width_simpl; money_nums; lia). cbn [Units].
  destruct (Z.leb_spec (Z.abs v) maxValue).
  - rewrite orb_false_intro; [done|money_nums; lia..].
  - rewrite (proj2 (orb_true_iff _ _)); [cbn; done|]. money_nums. lia.
Qed.

(** The wrap-around test of [combine] is exact for operands in range. *)
Lemma add_wraps a b :
  in_range a = true -> in_range b = true ->
  ((b >? 0) && (wrap64 (a + b) <? a)) || ((b <? 0) && (wrap64 (a + b) >? a)) =
    negb (bool_decide (int_ok 64 (a + b))).
Proof.
  unfold in_range. intros Ha Hb. to_prop. money_nums.
  destruct (wrap_shift 64 (a + b)) as [k Hk]; [lia|].
  pose proof (wrap_ok 64 (a + b) ltac:(lia)) as Hok.
  case_bool_decide as Hi; [rewrite wrap64_id by done|]; width_simpl; cbn [negb]; lia.
Qed.

Lemma requireSameCurrency_eq m o :
  CurrencyCode m = CurrencyCode o -> requireSameCurrency m o = Ok tt.
Proof. unfold requireSameCurrency. intros ->. by rewrite String.eqb_refl. Qed.

Lemma combine_computes m o negate :
  Valid m -> Valid o -> CurrencyCode m = CurrencyCode o ->
  computes (combine m o negate) (CurrencyCode m)
    (if negate then value m - value o else value m + value o).
Proof.
  intros Hm Ho Hc. unfold combine.
  rewrite requireSameCurrency_eq, !totalNanos_Valid by done. cbn.
  pose proof (Valid_canon m Hm) as (_ & Hrm & _).
  pose proof (Valid_canon o Ho) as (_ & Hro & _).
  set (b := if negate then wrap64 (- value o) else value o).
  assert (in_range b = true /\
          (if negate then value m - value o else value m + value o) = value m + b)
    as [Hrb ->].
  { subst b. destruct negate; [|done].
    unfold in_range in *. to_prop. rewrite wrap64_id by (width_simpl; money_nums; lia).
    split; [apply Z.leb_le|]; money_nums; lia. }
  rewrite add_wraps by done.
  case_bool_decide as Hi; cbn [negb]; [rewrite wrap64_id by done; apply fromTotalNanos_computes|].
  unfold computes. destruct (in_range (value m + b)) eqn:Hr; [|auto with go].
  by apply in_range_int64 in Hr.
Qed.

(** * Correctness of the operations *)

(** [Money.Add] is exact addition: on two valid amounts of one currency it returns
    the canonical [Money] of the sum of their values whenever that sum has a
    representation, and an error wrapping [ErrMoneyOverflow] otherwise; no input wraps
    silently. *)
Lemma Add_computes m o :
  Valid m -> Valid o -> CurrencyCode m = CurrencyCode o ->
  computes (Add m o) (CurrencyCode m) (value m + value o).
Proof. apply (combine_computes m o false). Qed.

(** [Money.Sub] is exact subtraction, in the same sense. *)
Lemma Sub_computes m o :
  Valid m -> Valid o -> CurrencyCode m = CurrencyCode o ->
  computes (Sub m o) (CurrencyCode m) (value m - value o).
Proof. apply (combine_computes m o true). Qed.

(** Mixing currencies is refused by every binary operation. *)
Lemma mixed_currency m o :
  CurrencyCode m <> CurrencyCode o ->
  fails_with ErrCurrencyMismatch (Add m o) /\ fails_with ErrCurrencyMismatch (Sub m o) /\
  fails_with ErrCurrencyMismatch (Compare m o).
Proof.
  intros Hne. unfold Add, Sub, combine, Compare, requireSameCurrency.
  apply String.eqb_neq in Hne as ->. cbn. done.
Qed.

(** [Compare] orders amounts by value. *)
Lemma Compare_value m o :
  Valid m -> Valid o -> CurrencyCode m = CurrencyCode o ->
  Compare m o = Ok (match value m ?= value o with Lt => -1 | Eq => 0 | Gt => 1 end).
Proof.
  intros Hm Ho Hc. unfold Compare.
  rewrite requireSameCurrency_eq, !totalNanos_Valid by done. cbn.
  f_equal. destruct (Z.compare_spec (value m) (value o)); repeat case_match; to_prop; lia.
Qed.

(** C13. The arithmetic of amounts is exact: on two valid amounts of one currency [Add] and
    [Sub] return the canonical [Money] of the sum and difference of their values whenever
    it has a representation and [ErrMoneyOverflow] otherwise, and [Compare] orders them by
    value; no input wraps silently.  Mixing currencies is refused by all three. *)
Theorem arithmetic_exact m o :
  Valid m -> Valid o ->
  (CurrencyCode m = CurrencyCode o ->
    computes (Add m o) (CurrencyCode m) (value m + value o) /\
    computes (Sub m o) (CurrencyCode m) (value m - value o) /\
    Compare m o = Ok (match value m ?= value o with Lt => -1 | Eq => 0 | Gt => 1 end)) /\
  (CurrencyCode m <> CurrencyCode o ->
    fails_with ErrCurrencyMismatch (Add m o) /\ fails_with ErrCurrencyMismatch (Sub m o) /\
    fails_with ErrCurrencyMismatch (Compare m o)).
Proof.
  intros Hm Ho. split; [|by apply mixed_currency].
  auto using Add_computes, Sub_computes, Compare_value.
Qed.

(** Two valid amounts of one currency with one value are the same struct, so the code's
    [==] on [Money] is equality of amounts. *)
Theorem Valid_unique m o :
  Valid m -> Valid o -> CurrencyCode m = CurrencyCode o -> value m = value o -> m = o.
Proof.
  intros Hm Ho Hc Hv.
  destruct (Valid_canon m Hm) as (_ & _ & ->), (Valid_canon o Ho) as (_ & _ & ->).
  congruence.
Qed.

(** The division check of [Mul] detects every 64-bit overflow: if the wrapped product
    divides back to the operand, nothing was lost. *)
Lemma mul_check t n :
  int_ok 64 t -> t <> int_min 64 -> int_ok 64 n -> n <> 0 ->
  wrap64 (Z.quot (wrap64 (t * n)) n) = t <-> int_ok 64 (t * n).
Proof.
  intros Ht Hmin Hn Hn0. split.
  - intros Hq. destruct (wrap_shift 64 (t * n)) as [k Hk]; [lia|].
    pose proof (wrap_ok 64 (t * n) ltac:(lia)) as Hp.
    set (p := wrap64 (t * n)) in *.
    pose proof (Z.quot_rem' p n) as Eqr.
    pose proof (Z.rem_bound_abs p n Hn0) as Hrem.
    destruct (decide (int_ok 64 (Z.quot p n))) as [Hqok|Hqbad].
    + rewrite wrap64_id in Hq by done.
      rewrite Hq in Eqr.
      assert (k = 0) as -> by (clearbody p; width_simpl; nia).
      rewrite Z.add_0_r in Hk. by rewrite <- Hk.
    + exfalso. apply Hqbad.
      assert (n <> -1 \/ p <> int_min 64) as Hcase.
      { destruct (decide (n = -1)) as [->|]; [|by left]. right. intros Hpm.
        apply Hmin. rewrite <- Hq, Hpm. vm_compute. reflexivity. }
      clear - Hp Hn0 Hcase Eqr Hrem. clearbody p. width_simpl.
      assert (Z.abs (Z.quot p n) <= Z.abs p)
        by (rewrite <- Z.quot_abs by done; apply Z.quot_le_upper_bound; nia).
      destruct (decide (Z.quot p n = 9223372036854775808)) as [E|E]; [|lia].
      rewrite E in Eqr. nia.
  - intros Hok. rewrite (wrap64_id (t * n)) by done.
    rewrite Z.quot_mul by done. by apply wrap64_id.
Qed.

(** * Multiplication and construction *)

Section UnicodeFacts.
Context `{Unicode}.

Lemma ToUpper_valid c : validCurrencyCode c = true -> ToUpper c = c.
Proof.
  unfold validCurrencyCode, ToUpper. case_match; [done|]. intros Hc.
  assert (is_ascii c = true) as ->.
  { revert Hc. apply string_forallb_impl. intros a. unfold isUpperAZ. intros; to_prop. lia. }
  eapply string_map_id, Hc. intros a Ha. unfold isUpperAZ, byte_upper in *. to_prop.
  case_match; to_prop; [lia|done].
Qed.

Lemma Zero_canon c : validCurrencyCode c = true -> Zero c = canon c 0.
Proof. intros Hc. unfold Zero. by rewrite ToUpper_valid. Qed.

(** [Money.Mul] is exact multiplication of a valid amount by any [int64]: the result
    is the canonical [Money] of the product, or an error wrapping [ErrMoneyOverflow]
    when the product has no representation. *)
Lemma Mul_computes m n :
  Valid m -> int_ok 64 n -> computes (Mul m n) (CurrencyCode m) (value m * n).
Proof.
  intros Hm Hn. pose proof (Valid_canon m Hm) as (Hc & Hr & _).
  unfold Mul. rewrite totalNanos_Valid by done. cbn.
  destruct (Z.eqb_spec n 0) as [->|Hn0]; cbn [negb].
  { rewrite Z.mul_0_r, Zero_canon by done. reflexivity. }
  assert (value m <> int_min 64) as Hmin
    by (unfold in_range in Hr; to_prop; width_simpl; money_nums; lia).
  pose proof (mul_check (value m) n (in_range_int64 _ Hr) Hmin Hn Hn0) as Hchk.
  destruct (Z.eqb_spec (wrap64 (Z.quot (wrap64 (value m * n)) n)) (value m)) as [E|E];
    cbn [negb].
  - apply Hchk in E. rewrite wrap64_id by done. apply fromTotalNanos_computes.
  - unfold computes. destruct (in_range (value m * n)) eqn:Hp; [|auto with go].
    by apply in_range_int64, Hchk in Hp.
Qed.

(** [normalized] keeps the value, puts the fraction in range and makes the signs agree,
    unless the carry leaves [int64]; in that case the units stay outside the bound that
    [Validate] checks. *)
Lemma normalized_spec c u n :
  int_ok 64 u -> int_ok 32 n ->
  let m := normalized (mkMoney c u n) in
  CurrencyCode m = ToUpper c /\ Z.abs (Nanos m) < NanosPerUnit /\
  (0 < Units m -> 0 <= Nanos m) /\ (Units m < 0 -> Nanos m <= 0) /\
  ((int_ok 64 (u + Z.quot n NanosPerUnit) /\ value m = u * NanosPerUnit + n) \/
   (~ int_ok 64 (u + Z.quot n NanosPerUnit) /\ maxUnits < Z.abs (Units m))).
Proof.
  intros Hu Hn. destruct (quot_rem_nanos n) as (E & Hb & Hpos & Hneg).
  destruct (wrap_shift 64 (u + Z.quot n NanosPerUnit)) as [k Hk]; [lia|].
  pose proof (wrap_ok 64 (u + Z.quot n NanosPerUnit) ltac:(lia)) as Hok.
  unfold normalized, value; cbn [Units Nanos CurrencyCode].
  set (units := wrap64 (u + Z.quot n NanosPerUnit)) in *. clearbody units.
  assert ((int_ok 64 (u + Z.quot n NanosPerUnit) /\ units = u + Z.quot n NanosPerUnit) \/
          (~ int_ok 64 (u + Z.quot n NanosPerUnit) /\ maxUnits + 1 < Z.abs units)) as Hcase
    by (width_simpl; money_nums; lia).
  case_match; [|case_match]; to_prop; cbn [Units Nanos CurrencyCode];
    rewrite ?wrap64_id, ?wrap32_id by (width_simpl; money_nums; lia);
    split_ands; try done; width_simpl; money_nums; try lia.
Qed.

(** [NewMoney] accepts exactly the amounts that have a representation: for a
    currency code that is three letters after upper-casing, any [int64] units and any
    [int32] nanos give the canonical [Money] of [units * 10^9 + nanos] or an overflow
    error; a bad code gives [ErrInvalidCurrencyCode].  Carries of out-of-range nanos
    never wrap into an accepted value. *)
Theorem NewMoney_exact c u n :
  int_ok 64 u -> int_ok 32 n ->
  if validCurrencyCode (ToUpper c)
  then computes (NewMoney c u n) (ToUpper c) (u * NanosPerUnit + n)
  else fails_with ErrInvalidCurrencyCode (NewMoney c u n).
Proof.
  intros Hu Hn. destruct (normalized_spec c u n Hu Hn) as (Hc & Hb & Hp & Hm & Hv).
  unfold NewMoney, computes. set (m := normalized _) in *. clearbody m.
  rewrite <- Hc. destruct (validCurrencyCode (CurrencyCode m)) eqn:Hcode.
  2:{ unfold Validate. rewrite Hcode. reflexivity. }
  destruct (decide (Valid m)) as [HV|HV].
  - rewrite HV. cbn. destruct (Valid_canon m HV) as (_ & Hr & Hcan).
    destruct Hv as [[Hok Hval]|[Hbad Hbig]]; [by rewrite <- Hval, Hr, <- Hcan|].
    apply Valid_iff in HV as (_ & _ & _ & _ & ?). lia.
  - assert (maxUnits < Z.abs (Units m)) as Hbig.
    { apply Znot_ge_lt. intros Hge. apply HV, Valid_iff. split_ands; try done; lia. }
    assert (Validate m = Err (errorf ErrMoneyOverflow [PStr "units "; PInt (Units m)])) as ->.
    { unfold Validate. rewrite Hcode. cbn [negb].
      rewrite (proj2 (orb_true_iff (Units m >? maxUnits) _)) by (money_nums; lia).
      rewrite !orb_false_intro; [done|money_nums; lia..]. }
    cbn. destruct Hv as [[_ Hval]|[Hbad _]].
    + assert (in_range (u * NanosPerUnit + n) = false) as ->; [|done].
      unfold in_range. rewrite <- Hval. unfold value. money_nums. lia.
    + assert (in_range (u * NanosPerUnit + n) = false) as ->; [|done].
      destruct (quot_rem_nanos n) as (E & ? & _).
      unfold in_range. width_simpl. money_nums. lia.
Qed.

End UnicodeFacts.

(** [Mul] is exact too: the overflow test by division lets a product through exactly when
    the mathematical product of value and quantity has a representation. *)
Theorem Mul_exact `{Unicode} m n :
  Valid m -> int_ok 64 n -> computes (Mul m n) (CurrencyCode m) (value m * n).
Proof. apply Mul_computes. Qed.

(** * The theorems at concrete amounts *)

Definition usd (u n : Z) : Money := mkMoney "USD" u n.

Lemma arithmetic_exact_witness :
  let m := usd 19 990000000 in let o := usd 4 500000000 in
  computes (Add m o) (CurrencyCode m) (value m + value o).
Proof.
  intros m o.
  assert (Valid m) as Hm by (vm_compute; reflexivity).
  assert (Valid o) as Ho by (vm_compute; reflexivity).
  destruct (arithmetic_exact m o Hm Ho) as [H _]. by destruct (H eq_refl).
Defined.

(** One nano above the largest amount is refused, not wrapped. *)
Lemma Add_overflow_example :
  fails_with ErrMoneyOverflow (Add (usd 9223372035 999999999) (usd 0 1)).
Proof. reflexivity. Qed.

Lemma Mul_exact_witness :
  computes (@Mul ascii_tables (usd 19 990000000) (-2)) "USD" (-39980000000).
Proof.
  apply (@Mul_exact ascii_tables (usd 19 990000000) (-2)); [vm_compute; reflexivity|].
  vm_compute. split; discriminate.
Defined.

Lemma NewMoney_exact_witness :
  computes (@NewMoney ascii_tables "usd" 5 (-2000000001)) "USD" 2999999999.
Proof.
  apply (@NewMoney_exact ascii_tables "usd" 5 (-2000000001));
    vm_compute; split; discriminate.
Defined.
