(* ===== verification/Order.v ===== *)
(** internal/order/order.go: the order aggregate and its lifecycle. *)

From S2P Require Import Prelude GoErr GoStr Money.

(** * Status *)

Inductive Status :=
  | StatusUnspecified | StatusPending | StatusConfirmed | StatusShipped | StatusCancelled.

#[export] Instance Status_eq_dec : EqDecision Status.
Proof. solve_decision. Defined.

(** The [iota] of the constant. *)
Definition status_num (s : Status) : Z :=
  match s with
  | StatusUnspecified => 0 | StatusPending => 1 | StatusConfirmed => 2
  | StatusShipped => 3 | StatusCancelled => 4
  end.

Definition StatusString (s : Status) : string :=
  match s with
  | StatusPending => "PENDING"
  | StatusConfirmed => "CONFIRMED"
  | StatusShipped => "SHIPPED"
  | StatusCancelled => "CANCELLED"
  | _ => "UNSPECIFIED"
  end.

Definition StatusValid (s : Status) : bool :=
  (status_num s >=? status_num StatusPending) && (status_num s <=? status_num StatusCancelled).

Definition ParseStatus (s : string) : result Status :=
  if (s =? "PENDING")%string then Ok StatusPending
  else if (s =? "CONFIRMED")%string then Ok StatusConfirmed
  else if (s =? "SHIPPED")%string then Ok StatusShipped
  else if (s =? "CANCELLED")%string then Ok StatusCancelled
  else if (s =? "UNSPECIFIED")%string || (s =? "")%string then Ok StatusUnspecified
  else Err (EFmt [PStr "unknown order status "; PQuote s]).

Definition AllStatuses : list Status :=
  [StatusPending; StatusConfirmed; StatusShipped; StatusCancelled].

(** The map literal; a key that is absent reads as the nil slice. *)
Definition allowedTransitions (s : Status) : list Status :=
  match s with
  | StatusPending => [StatusConfirmed; StatusCancelled]
  | StatusConfirmed => [StatusShipped; StatusCancelled]
  | StatusShipped => []
  | StatusCancelled => []
  | StatusUnspecified => []
  end.

Definition CanTransitionTo (s next : Status) : bool :=
  existsb (fun allowed => bool_decide (allowed = next)) (allowedTransitions s).

(** * Items and orders *)

Record Item := mkItem { SKU : string; Quantity : Z; UnitPrice : Money }.

(** [Quantity] is an [int32]. *)
Definition Item_typed (i : Item) : Prop := int_ok 32 (Quantity i) /\ Money_typed (UnitPrice i).

Definition ItemValidate (i : Item) : result unit :=
  if (SKU i =? "")%string then Err (errorf ErrInvalidItem [PStr "sku is empty"])
  else if strlen (SKU i) >? 64
  then Err (errorf ErrInvalidItem [PStr "sku exceeds 64 characters"])
  else if Quantity i <=? 0
  then Err (errorf ErrInvalidItem
              [PStr "quantity "; PInt (Quantity i); PStr " must be positive"])
  else
    _ ← mapErr (fun err => errorf ErrInvalidItem [PStr "unit price: "; PErr err])
          (Validate (UnitPrice i));
    if IsNegative (UnitPrice i)
    then Err (errorf ErrInvalidItem [PStr "unit price is negative"])
    else Ok tt.

(** Times are instants: nanoseconds since the Unix epoch. *)
Record Order := mkOrder {
  ID : string; TenantID : string; CustomerID : string; OStatus : Status;
  Items : list Item; OTotal : Money; CreatedAt : Z; UpdatedAt : Z }.

#[export] Instance Item_eq_dec : EqDecision Item.
Proof. solve_decision. Defined.
#[export] Instance Order_eq_dec : EqDecision Order.
Proof. solve_decision. Defined.

(** [Order{}]. *)
Definition zeroMoney : Money := mkMoney "" 0 0.

(** [fmt.Errorf("item %d: %w", idx, err)]. *)
Definition itemErr (idx : nat) (err : error) : error :=
  wrapf [PStr "item "; PInt (Z.of_nat idx)] err.

(** The loop of [Validate] over the items. *)
Fixpoint validateItems (idx : nat) (items : list Item) : result unit :=
  match items with
  | [] => Ok tt
  | i :: r => _ ← mapErr (itemErr idx) (ItemValidate i); validateItems (S idx) r
  end.

Section WithUnicode.
Context `{Unicode}.

Definition LineTotal (i : Item) : result Money := Mul (UnitPrice i) (Quantity i).

(** The loop of [ComputeTotal], from the running total. *)
Fixpoint sumLines (idx : nat) (total : Money) (items : list Item) : result Money :=
  match items with
  | [] => Ok total
  | i :: r =>
      line ← mapErr (itemErr idx) (LineTotal i);
      total ← mapErr (itemErr idx) (Add total line);
      sumLines (S idx) total r
  end.

Definition ComputeTotal (items : list Item) : result Money :=
  match items with
  | [] => Err ErrNoItems
  | i :: _ => sumLines 0 (Zero (CurrencyCode (UnitPrice i))) items
  end.

Definition OrderValidate (o : Order) : result unit :=
  if (TenantID o =? "")%string then Err ErrMissingTenant
  else if (CustomerID o =? "")%string
  then Err (errorf ErrInvalidItem [PStr "customer id is empty"])
  else if (length (Items o) =? 0)%nat then Err ErrNoItems
  else
    _ ← validateItems 0 (Items o);
    if negb (StatusValid (OStatus o))
    then Err (errorf ErrInvalidTransition [PStr "status "; PInt (status_num (OStatus o))])
    else
      want ← ComputeTotal (Items o);
      if bool_decide (want <> OTotal o)
      then Err (EFmt [PStr "total "; PStr (render (OTotal o));
                      PStr " does not match the sum of items "; PStr (render want)])
      else Ok tt.

End WithUnicode.

(** [Cancel] updates the receiver in place, or fails leaving it as it was. *)
Definition Cancel (o : Order) (at_ : Z) : result Order :=
  if negb (CanTransitionTo (OStatus o) StatusCancelled)
  then Err (errorf ErrInvalidTransition
              [PStr (StatusString (OStatus o)); PStr " -> CANCELLED"])
  else Ok (mkOrder (ID o) (TenantID o) (CustomerID o) StatusCancelled (Items o) (OTotal o)
             (CreatedAt o) at_).

(** * The lifecycle *)

Lemma CanTransitionTo_iff s t : CanTransitionTo s t = true <-> t ∈ allowedTransitions s.
Proof.
  unfold CanTransitionTo. rewrite existsb_exists, list_elem_of_In. split.
  - intros (x & Hx & ->%bool_decide_eq_true). done.
  - intros Ht. exists t. by rewrite bool_decide_eq_true.
Qed.

(** One legal move of the state machine, and any number of them. *)
Definition step (s t : Status) : Prop := CanTransitionTo s t = true.

Lemma step_cases s t :
  step s t <-> (s = StatusPending /\ (t = StatusConfirmed \/ t = StatusCancelled)) \/
              (s = StatusConfirmed /\ (t = StatusShipped \/ t = StatusCancelled)).
Proof. unfold step. destruct s, t; cbn; naive_solver. Qed.

(** C29. The lifecycle: the statuses reachable from PENDING by legal moves are exactly the
    four real ones, SHIPPED and CANCELLED allow no further move, and no status is ever
    left and reached again. *)
Theorem lifecycle s :
  (rtc step StatusPending s <-> StatusValid s = true) /\
  ((s = StatusShipped \/ s = StatusCancelled) -> forall t, rtc step s t -> t = s) /\
  ~ tc step s s.
Proof.
  assert (forall a b, step a b -> status_num a < status_num b) as Hmono.
  { intros a b. rewrite step_cases. intros [[-> [-> | ->]]|[-> [-> | ->]]]; cbn; lia. }
  split_ands.
  - split.
    + intros Hr. destruct (rtc_inv_r _ _ Hr) as [<-|(m & _ & Hs)]; [done|].
      apply step_cases in Hs as [[_ [-> | ->]]|[_ [-> | ->]]]; done.
    + destruct s; intros Hv; [done|..].
      * apply rtc_refl.
      * by apply rtc_once.
      * apply rtc_l with StatusConfirmed; [done|by apply rtc_once].
      * by apply rtc_once.
  - intros Hs t Hr. destruct (rtc_inv _ _ Hr) as [->|(m & Hsm & _)]; [done|].
    apply step_cases in Hsm. intuition congruence.
  - intros Hc. cut (status_num s < status_num s); [lia|].
    revert Hc. generalize s at 2 4. intros t Hc.
    induction Hc as [x y Hxy|x y z Hxy _ IH]; [by apply Hmono|].
    apply Hmono in Hxy. lia.
Qed.

(** [ParseStatus] inverts [String] on every status, accepts the empty string as
    UNSPECIFIED, and refuses every other string. *)
Theorem ParseStatus_String s x :
  ParseStatus x = Ok s <-> x = StatusString s \/ (x = "" /\ s = StatusUnspecified).
Proof.
  unfold ParseStatus. split.
  - intros Hp. repeat (case_match; [to_prop; simplify_eq; cbn|]); try done; auto.
    match goal with H : _ \/ _ |- _ => destruct H; to_prop; auto end.
  - intros [-> | [-> ->]]; [by destruct s|done].
Qed.

(** [Cancel] is exactly the legal move to CANCELLED: it succeeds from PENDING and
    CONFIRMED, changing nothing but the status and the update time, and from every other
    status it fails with [ErrInvalidTransition]. *)
Lemma Cancel_spec o at_ :
  if decide (OStatus o = StatusPending \/ OStatus o = StatusConfirmed)
  then exists o', Cancel o at_ = Ok o' /\ OStatus o' = StatusCancelled /\ UpdatedAt o' = at_ /\
       (ID o', TenantID o', CustomerID o', Items o', OTotal o', CreatedAt o') =
       (ID o, TenantID o, CustomerID o, Items o, OTotal o, CreatedAt o)
  else fails_with ErrInvalidTransition (Cancel o at_).
Proof.
  unfold Cancel. case_decide as Hs.
  - replace (CanTransitionTo (OStatus o) StatusCancelled) with true
      by (destruct Hs as [-> | ->]; done).
    cbn [negb]. eexists. split_ands; reflexivity.
  - replace (CanTransitionTo (OStatus o) StatusCancelled) with false
      by (destruct (OStatus o); naive_solver).
    cbn [negb]. auto with go.
Qed.

(** A cancelled order is a terminal state of [Cancel]. *)
Lemma Cancel_twice o o' a b : Cancel o a = Ok o' -> fails_with ErrInvalidTransition (Cancel o' b).
Proof.
  unfold Cancel at 1. case_match; [done|]. intros [= <-].
  apply (errorf_is ErrInvalidTransition).
Qed.

(** * Items *)

Lemma ItemValidate_Ok i :
  ItemValidate i = Ok tt <->
  SKU i <> "" /\ strlen (SKU i) <= 64 /\ 0 < Quantity i /\ Valid (UnitPrice i) /\
  IsNegative (UnitPrice i) = false.
Proof.
  unfold ItemValidate, Valid.
  destruct (SKU i =? "")%string eqn:Hs; to_prop; [by split; [|intros (? & _)]|].
  destruct (strlen (SKU i) >? 64) eqn:Hl; to_prop; [by split; [|lia]|].
  destruct (Quantity i <=? 0) eqn:Hq; to_prop; [by split; [|lia]|].
  rewrite bind_Ok. setoid_rewrite mapErr_Ok. split.
  - intros ([] & ? & Hn). case_match; [done|]. auto with lia.
  - intros (_ & _ & _ & Hv & ->). eauto.
Qed.

Lemma ItemValidate_value i :
  ItemValidate i = Ok tt -> 0 <= value (UnitPrice i) * Quantity i.
Proof.
  rewrite ItemValidate_Ok. unfold IsNegative, value. intros (_ & _ & ? & _ & ?).
  to_prop. pose proof NanosPerUnit_eq. nia.
Qed.

Lemma validateItems_Ok idx items u :
  validateItems idx items = Ok u <-> Forall (fun i => ItemValidate i = Ok tt) items.
Proof.
  destruct u. revert idx. induction items as [|i items IH]; intros idx; cbn; [by split|].
  rewrite bind_Ok, Forall_cons. setoid_rewrite IH. setoid_rewrite mapErr_Ok.
  split; [intros ([] & ? & ?); auto|intros []; eauto].
Qed.

(** * Totals *)

(** The exact sum of the line amounts. *)
Definition lineValue (i : Item) : Z := value (UnitPrice i) * Quantity i.
Definition sumValue (items : list Item) : Z := foldr (fun i s => lineValue i + s) 0 items.

Section TotalFacts.
Context `{Unicode}.

Lemma LineTotal_computes i :
  int_ok 32 (Quantity i) -> Valid (UnitPrice i) ->
  computes (LineTotal i) (CurrencyCode (UnitPrice i)) (lineValue i).
Proof. intros Hq Hv. apply Mul_computes; [done|]. width_simpl. lia. Qed.

Lemma fails_with_item {A} s idx (r : result A) :
  fails_with s r -> fails_with s (mapErr (itemErr idx) r).
Proof. destruct r as [|e]; cbn; [done|]. intros ->. done. Qed.

Lemma fails_with_bind {A B} s (r : result A) (f : A -> result B) :
  fails_with s r -> fails_with s (r ≫= f).
Proof. by destruct r. Qed.

Lemma computes_Ok r c v m : computes r c v -> r = Ok m -> in_range v = true /\ m = canon c v.
Proof. unfold computes. intros Hc ->. by case_match; simplify_eq/=. Qed.

(** What [OrderValidate] and the loop need of an item: well-formed, quantity in width. *)
Definition item_ok (i : Item) : Prop := ItemValidate i = Ok tt /\ int_ok 32 (Quantity i).

Definition same_currency (c : string) (i : Item) : Prop := CurrencyCode (UnitPrice i) = c.

Lemma item_ok_line i :
  item_ok i ->
  computes (LineTotal i) (CurrencyCode (UnitPrice i)) (lineValue i) /\ 0 <= lineValue i.
Proof.
  intros [Hv Hq]. split; [|by apply ItemValidate_value].
  apply LineTotal_computes; [done|]. by apply ItemValidate_Ok in Hv as (_ & _ & _ & ? & _).
Qed.

#[export] Instance same_currency_dec c i : Decision (same_currency c i).
Proof. unfold same_currency. apply _. Defined.

Lemma sumValue_nonneg items : Forall item_ok items -> 0 <= sumValue items.
Proof.
  induction 1 as [|i items Hi _ IH]; cbn; [done|].
  apply item_ok_line in Hi as [_ ?]. unfold sumValue in IH. lia.
Qed.

Lemma in_range_le a b : 0 <= a <= b -> in_range b = true -> in_range a = true.
Proof. unfold in_range. intros; to_prop. apply Z.leb_le. lia. Qed.

(** The loop computes the running total plus the remaining lines; since the lines of
    validated items are not negative, no prefix overflows unless the whole sum does. *)
Lemma sumLines_computes idx total items :
  Valid total -> 0 <= value total ->
  Forall item_ok items -> Forall (same_currency (CurrencyCode total)) items ->
  computes (sumLines idx total items) (CurrencyCode total) (value total + sumValue items).
Proof.
  intros Hv Hnn Hok. revert idx total Hv Hnn.
  induction Hok as [|i items Hi Hok IH]; intros idx total Hv Hnn Hcur; cbn.
  { rewrite Z.add_0_r. destruct (Valid_canon total Hv) as (_ & Hr & Hc).
    unfold computes. rewrite Hr. by f_equal. }
  apply Forall_cons in Hcur as [Hc Hcur].
  destruct (item_ok_line i Hi) as [Hline Hl]. rewrite Hc in Hline.
  pose proof (sumValue_nonneg items Hok) as Hs. fold (sumValue items).
  set (V := value total + (lineValue i + sumValue items)).
  assert (forall r : result Money, fails_with ErrMoneyOverflow r ->
            in_range V = false -> computes r (CurrencyCode total) V) as Hfail
    by (intros r Hr HV; unfold computes; by rewrite HV).
  unfold computes in Hline. destruct (in_range (lineValue i)) eqn:Hlr.
  2:{ apply Hfail; [by apply fails_with_bind, fails_with_item|].
      apply not_true_is_false. intros HV.
      pose proof (in_range_le (lineValue i) V ltac:(subst V; lia) HV). congruence. }
  rewrite Hline. cbn.
  destruct (Valid_canon total Hv) as (Hcode & _ & _).
  pose proof (Add_computes total (canon (CurrencyCode total) (lineValue i)) Hv
                (canon_Valid _ _ Hcode Hlr) eq_refl) as Hadd.
  rewrite value_canon in Hadd. unfold computes in Hadd.
  destruct (in_range (value total + lineValue i)) eqn:Har.
  2:{ apply Hfail; [by apply fails_with_bind, fails_with_item|].
      apply not_true_is_false. intros HV.
      pose proof (in_range_le (value total + lineValue i) V ltac:(subst V; lia) HV).
      congruence. }
  rewrite Hadd. cbn. subst V.
  rewrite Z.add_assoc.
  set (t := canon (CurrencyCode total) (value total + lineValue i)).
  assert (value t = value total + lineValue i) as Ht by apply value_canon.
  rewrite <- Ht. apply (IH (S idx) t); [by apply canon_Valid|lia|done].
Qed.

(** The loop stops at the first line of another currency. *)
Lemma sumLines_mixed idx total items :
  Valid total -> Forall item_ok items -> 
  ~ Forall (same_currency (CurrencyCode total)) items ->
  fails_with ErrCurrencyMismatch (sumLines idx total items) \/
  fails_with ErrMoneyOverflow (sumLines idx total items).
Proof.
  intros Hv Hok. revert idx total Hv.
  induction Hok as [|i items Hi Hok IH]; intros idx total Hv Hcur; cbn.
  { by destruct Hcur. }
  destruct (item_ok_line i Hi) as [Hline _]. unfold computes in Hline.
  destruct (in_range (lineValue i)) eqn:Hlr.
  2:{ right. by apply fails_with_bind, fails_with_item. }
  rewrite Hline. cbn. destruct Hi as [Hi _]. apply ItemValidate_Ok in Hi as (_ & _ & _ & Hp & _).
  destruct (Valid_canon _ Hp) as (Hcode & _ & _).
  destruct (decide (CurrencyCode total = CurrencyCode (UnitPrice i))) as [Hc|Hc].
  2:{ left. apply fails_with_bind, fails_with_item. by apply mixed_currency. }
  pose proof (Add_computes total _ Hv (canon_Valid _ _ Hcode Hlr) Hc) as Hadd.
  unfold computes in Hadd. destruct (in_range _) eqn:Har in Hadd.
  2:{ right. by apply fails_with_bind, fails_with_item. }
  rewrite Hadd. cbn. apply (IH (S idx) (canon (CurrencyCode total) _)).
  - apply canon_Valid; [|done]. by rewrite Hc.
  - cbn. intros Hall. apply Hcur. by constructor.
Qed.

(** [ComputeTotal] over validated items is the exact sum of unit price times
    quantity when all items share a currency (or [ErrMoneyOverflow] when that sum has no
    representation), and an error when they do not; it never sums across currencies. *)
Lemma ComputeTotal_exact i items :
  Forall item_ok (i :: items) ->
  let c := CurrencyCode (UnitPrice i) in
  (Forall (same_currency c) items ->
     computes (ComputeTotal (i :: items)) c (sumValue (i :: items))) /\
  (~ Forall (same_currency c) items ->
     fails_with ErrCurrencyMismatch (ComputeTotal (i :: items)) \/
     fails_with ErrMoneyOverflow (ComputeTotal (i :: items))).
Proof.
  intros Hok c. pose proof (Forall_inv Hok) as [Hi _].
  apply ItemValidate_Ok in Hi as (_ & _ & _ & Hp & _).
  destruct (Valid_canon _ Hp) as (Hcode & _ & _).
  unfold ComputeTotal. rewrite Zero_canon by done.
  assert (Valid (canon c 0)) as Hz by (by apply canon_Valid).
  split; intros Hall.
  - apply (sumLines_computes 0 (canon c 0)); [done|done|done|by constructor].
  - apply sumLines_mixed; [done|done|]. intros Hall'. by inversion Hall'.
Qed.

(** A validated order is internally consistent: [OrderValidate] accepts an order
    exactly when it has a tenant, a customer and at least one item, every item is well
    formed, the status is real, and the stored total is the one [ComputeTotal] derives. *)
Lemma OrderValidate_spec o :
  OrderValidate o = Ok tt <->
  TenantID o <> "" /\ CustomerID o <> "" /\ Items o <> [] /\
  Forall (fun i => ItemValidate i = Ok tt) (Items o) /\
  OStatus o <> StatusUnspecified /\ ComputeTotal (Items o) = Ok (OTotal o).
Proof.
  unfold OrderValidate.
  destruct (TenantID o =? "")%string eqn:Ht; to_prop; [naive_solver|].
  destruct (CustomerID o =? "")%string eqn:Hc; to_prop; [naive_solver|].
  destruct (Items o) as [|i items] eqn:Hi; [naive_solver|]. cbn [length Nat.eqb].
  rewrite bind_Ok. setoid_rewrite validateItems_Ok.
  destruct (StatusValid (OStatus o)) eqn:Hs; cbn [negb].
  2:{ split; [by intros ([] & _ & ?)|]. intros (_ & _ & _ & _ & Hu & _).
      by destruct (OStatus o). }
  assert (OStatus o <> StatusUnspecified) by (by intros Hu; rewrite Hu in Hs).
  split.
  - intros ([] & Hall & Hw). destruct (ComputeTotal (i :: items)) as [want|]; [|done].
    cbn in Hw. case_bool_decide; by simplify_eq.
  - intros (_ & _ & _ & Hall & _ & ->). exists tt. split; [done|].
    cbn. by rewrite bool_decide_eq_false_2 by auto.
Qed.

Lemma OrderValidate_sum o :
  OrderValidate o = Ok tt -> Forall (fun i => int_ok 32 (Quantity i)) (Items o) ->
  Valid (OTotal o) /\ value (OTotal o) = sumValue (Items o) /\
  Forall (same_currency (CurrencyCode (OTotal o))) (Items o).
Proof.
  rewrite OrderValidate_spec. intros (_ & _ & Hne & Hall & _ & Ht) Hq.
  destruct (Items o) as [|i items]; [done|].
  assert (Forall item_ok (i :: items)) as Hok
    by (apply Forall_forall; intros x Hx; rewrite Forall_forall in Hall, Hq; split; auto).
  pose proof (Forall_inv Hall) as Hi. apply ItemValidate_Ok in Hi as (_ & _ & _ & Hp & _).
  destruct (Valid_canon _ Hp) as (Hcode & _ & _).
  destruct (ComputeTotal_exact i items Hok) as [Hsame Hmixed].
  destruct (decide (Forall (same_currency (CurrencyCode (UnitPrice i))) items)) as [Hc|Hc].
  - destruct (computes_Ok _ _ _ _ (Hsame Hc) Ht) as [Hr ->]. split_ands.
    + by apply canon_Valid.
    + apply value_canon.
    + by constructor.
  - rewrite Ht in Hmixed. by destruct (Hmixed Hc).
Qed.

Lemma OrderValidate_total_Valid o :
  OrderValidate o = Ok tt -> Forall (fun i => int_ok 32 (Quantity i)) (Items o) ->
  Valid (OTotal o).
Proof. apply OrderValidate_sum. Qed.

(** The total of a validated order is the exact sum of its lines, in the one currency
    all its items share. *)
Theorem OrderValidate_total o :
  OrderValidate o = Ok tt -> Forall (fun i => int_ok 32 (Quantity i)) (Items o) ->
  Valid (OTotal o) /\ value (OTotal o) = sumValue (Items o) /\
  Forall (same_currency (CurrencyCode (OTotal o))) (Items o).
Proof. apply OrderValidate_sum. Qed.

End TotalFacts.

(** An order of two lines, as [Create] builds it. *)
Definition two_lines : Order :=
  mkOrder "018f0000-0000-7000-8000-000000000001" "acme" "cust-1" StatusPending
    [mkItem "SKU-1" 2 (usd 19 990000000); mkItem "SKU-2" 1 (usd 0 20000000)]
    (usd 40 0) 0 0.

Lemma OrderValidate_total_witness :
  value (OTotal two_lines) = sumValue (Items two_lines) /\ sumValue (Items two_lines) = 40000000000.
Proof.
  split; [|reflexivity].
  apply (@OrderValidate_total ascii_tables two_lines); [vm_compute; reflexivity|].
  repeat constructor; vm_compute; discriminate.
Defined.
