(* ===== verification/Cursor.v ===== *)
(** internal/order/cursor.go: opaque keyset page tokens.

    A token is base64url of the JSON of a [cursor].  Base64 (Go's [RawURLEncoding],
    which skips newlines and ignores spare trailing bits) and the FNV-1a hash are
    defined here; the JSON codec of the [cursor] struct and [uuid.Validate] are the
    fields of [CursorEnv], with what the code relies on in [CursorLaws]. *)

From S2P Require Import Prelude GoErr GoStr Money Order.

(** * base64.RawURLEncoding *)

Definition b64_char (v : Z) : ascii :=
  if v <? 26 then of_byte (65 + v)
  else if v <? 52 then of_byte (97 + (v - 26))
  else if v <? 62 then of_byte (48 + (v - 52))
  else if v =? 62 then "-"%char else "_"%char.

Definition b64_val (c : ascii) : option Z :=
  let b := byte_of c in
  if (65 <=? b) && (b <=? 90) then Some (b - 65)
  else if (97 <=? b) && (b <=? 122) then Some (b - 97 + 26)
  else if (48 <=? b) && (b <=? 57) then Some (b - 48 + 52)
  else if b =? 45 then Some 62
  else if b =? 95 then Some 63
  else None.

Fixpoint b64_encode (l : list ascii) : list ascii :=
  match l with
  | [] => []
  | [a] =>
      let v := byte_of a * 16 in
      [b64_char (v / 64); b64_char (v mod 64)]
  | [a; b] =>
      let v := (byte_of a * 256 + byte_of b) * 4 in
      [b64_char (v / 4096); b64_char (v / 64 mod 64); b64_char (v mod 64)]
  | a :: b :: c :: r =>
      let v := byte_of a * 65536 + byte_of b * 256 + byte_of c in
      b64_char (v / 262144) :: b64_char (v / 4096 mod 64) ::
      b64_char (v / 64 mod 64) :: b64_char (v mod 64) :: b64_encode r
  end.

(** One pass over the characters that are not newlines, four at a time. *)
Fixpoint b64_decode_list (l : list ascii) : option (list ascii) :=
  match l with
  | [] => Some []
  | [_] => None
  | [a; b] =>
      x ← b64_val a; y ← b64_val b;
      Some [of_byte ((x * 64 + y) / 16)]
  | [a; b; c] =>
      x ← b64_val a; y ← b64_val b; z ← b64_val c;
      let v := (x * 4096 + y * 64 + z) / 4 in
      Some [of_byte (v / 256); of_byte (v mod 256)]
  | a :: b :: c :: d :: r =>
      x ← b64_val a; y ← b64_val b; z ← b64_val c; t ← b64_val d;
      rest ← b64_decode_list r;
      let v := x * 262144 + y * 4096 + z * 64 + t in
      Some (of_byte (v / 65536) :: of_byte (v / 256 mod 256) :: of_byte (v mod 256) :: rest)
  end.

Definition is_newline (c : ascii) : bool := (byte_of c =? 10) || (byte_of c =? 13).

Definition EncodeToString (s : string) : string := of_list (b64_encode (to_list s)).
Definition DecodeString (s : string) : option string :=
  of_list <$> b64_decode_list (List.filter (fun c => negb (is_newline c)) (to_list s)).

(** * fnv.New32a *)

Definition fnv_offset : Z := 2166136261.
Definition fnv_prime : Z := 16777619.

Fixpoint fnv32a (h : Z) (s : string) : Z :=
  match s with
  | EmptyString => h
  | String c r => fnv32a (uwrap 32 (Z.lxor h (byte_of c) * fnv_prime)) r
  end.

(** * List filters and pages (store.go) *)

Record ListFilter := mkFilter {
  FStatus : Status; FCustomerID : string; PageSize : Z; PageToken : string }.

Record Page := mkPage { Orders : list Order; NextPageToken : string }.

Definition DefaultPageSize : Z := 50.
Definition MaxPageSize : Z := 1000.

Definition ClampPageSize (n : Z) : Z :=
  if n <=? 0 then DefaultPageSize
  else if n >? MaxPageSize then MaxPageSize
  else n.

(** * Cursors *)

Record cursor := mkCursor { CCreatedAt : Z; CID : string; FilterHash : Z }.

(** [json.Marshal] and [json.Unmarshal] of the [cursor] struct, and [uuid.Validate]. *)
Class CursorEnv := {
  json_Marshal : cursor -> result string;
  json_Unmarshal : string -> option cursor;
  uuid_Validate : string -> bool }.

(** Years 0 to 9999, the instants RFC 3339 can write. *)
Definition time_ok (t : Z) : Prop :=
  -62167219200 * 1000000000 <= t < 253402300800 * 1000000000.

(** Go's documented behaviour: a time in the RFC 3339 range and an ASCII id survive a
    JSON round trip, and every uuid is accepted ASCII. *)
Class CursorLaws `{CursorEnv} := {
  marshal_total : forall c, time_ok (CCreatedAt c) -> uuid_Validate (CID c) = true ->
    0 <= FilterHash c < 2 ^ 32 -> exists b, json_Marshal c = Ok b;
  marshal_unmarshal : forall c b, uuid_Validate (CID c) = true ->
    0 <= FilterHash c < 2 ^ 32 -> json_Marshal c = Ok b -> json_Unmarshal b = Some c;
  marshal_nonempty : forall c b, json_Marshal c = Ok b -> b <> "" }.

Section WithEnv.
Context `{CursorEnv}.

Definition encodeCursor (c : cursor) : result string :=
  b ← mapErr (wrapf [PStr "encode page token"]) (json_Marshal c);
  Ok (EncodeToString b).

Definition decodeCursor (token : string) (wantHash : Z) : result cursor :=
  match DecodeString token with
  | None => Err (errorf ErrInvalidPageToken [PStr "not valid base64url"])
  | Some raw =>
      match json_Unmarshal raw with
      | None => Err (errorf ErrInvalidPageToken [PStr "malformed payload"])
      | Some c =>
          if negb (FilterHash c =? wantHash)
          then Err (errorf ErrInvalidPageToken
                      [PStr "token was issued for a different filter"])
          else if negb (uuid_Validate (CID c))
          then Err (errorf ErrInvalidPageToken [PStr "token id is not a uuid"])
          else Ok c
      end
  end.

Definition NUL : string := String (of_byte 0) EmptyString.

Definition filterHash (tenantID : string) (f : ListFilter) : Z :=
  fnv32a fnv_offset
    (tenantID +:+ NUL +:+ pretty (status_num (FStatus f)) +:+ NUL +:+ FCustomerID f).

Definition EncodePageToken (tenantID : string) (f : ListFilter) (last : Order)
    : result string :=
  encodeCursor (mkCursor (CreatedAt last) (ID last) (filterHash tenantID f)).

(** [None] is the [ok = false] of an empty token. *)
Definition DecodePageToken (tenantID : string) (f : ListFilter)
    : result (option (Z * string)) :=
  if (PageToken f =? "")%string then Ok None
  else
    c ← decodeCursor (PageToken f) (filterHash tenantID f);
    Ok (Some (CCreatedAt c, CID c)).

End WithEnv.

(** * Base64 round trip *)

Lemma b64_val_char v : 0 <= v < 64 -> b64_val (b64_char v) = Some v.
Proof.
  intros Hv.
  assert (Forall (fun v => b64_val (b64_char v) = Some v) (seqZ 0 64)) as Hall
    by (apply (bool_decide_unpack _); vm_compute; exact I).
  rewrite Forall_forall in Hall. apply Hall, elem_of_seqZ. lia.
Qed.

Lemma b64_char_not_newline v : 0 <= v < 64 -> is_newline (b64_char v) = false.
Proof.
  intros Hv.
  assert (Forall (fun v => is_newline (b64_char v) = false) (seqZ 0 64)) as Hall
    by (apply (bool_decide_unpack _); vm_compute; exact I).
  rewrite Forall_forall in Hall. apply Hall, elem_of_seqZ. lia.
Qed.

(** Induction on a list three elements at a time. *)
Lemma list_ind3 {A} (P : list A -> Prop) :
  P [] -> (forall a, P [a]) -> (forall a b, P [a; b]) ->
  (forall a b c r, P r -> P (a :: b :: c :: r)) -> forall l, P l.
Proof.
  intros H0 H1 H2 H3. fix IH 1. intros [|a [|b [|c r]]];
    [exact H0|exact (H1 a)|exact (H2 a b)|apply H3, IH].
Qed.

Ltac b64_bounds :=
  repeat match goal with
  | a : ascii |- _ =>
      lazymatch goal with
      | _ : 0 <= byte_of a < 256 |- _ => fail
      | _ => pose proof (byte_of_range a)
      end
  end.

#[local] Ltac Zify.zify_post_hook ::= Z.to_euclidean_division_equations.

Lemma b64_encode_plain l : Forall (fun c => is_newline c = false) (b64_encode l).
Proof.
  induction l as [|a|a b|a b c r IH] using list_ind3; cbn [b64_encode];
    b64_bounds; repeat constructor; auto; apply b64_char_not_newline; lia.
Qed.

Lemma b64_decode_encode l : b64_decode_list (b64_encode l) = Some l.
Proof.
  induction l as [|a|a b|a b c r IH] using list_ind3; [done|..];
    cbn [b64_encode b64_decode_list]; b64_bounds;
    rewrite !b64_val_char by lia; cbn; rewrite ?IH; cbn; repeat f_equal;
    match goal with |- of_byte ?e = ?a =>
      transitivity (of_byte (byte_of a)); [f_equal|apply of_byte_of] end; lia.
Qed.

Lemma filter_id {A} (p : A -> bool) l :
  Forall (fun x => p x = true) l -> List.filter p l = l.
Proof. induction 1 as [|x l Hx _ IH]; cbn; [done|]. by rewrite Hx, IH. Qed.

(** Base64url decodes what it encodes, for every byte string. *)
Lemma DecodeString_EncodeToString s : DecodeString (EncodeToString s) = Some s.
Proof.
  unfold DecodeString, EncodeToString, of_list, to_list.
  rewrite list_ascii_of_string_of_list_ascii, filter_id, b64_decode_encode.
  - cbn. by rewrite string_of_list_ascii_of_string.
  - eapply Forall_impl; [apply b64_encode_plain|]. intros c ->. done.
Qed.

(** * Tokens *)

Section TokenFacts.
Context `{CursorLaws}.

Lemma fnv32a_range h s : 0 <= h < 2 ^ 32 -> 0 <= fnv32a h s < 2 ^ 32.
Proof.
  revert h. induction s as [|c s IH]; intros h Hh; cbn [fnv32a]; [done|].
  apply IH, Z.mod_pos_bound. lia.
Qed.

Lemma filterHash_range t f : 0 <= filterHash t f < 2 ^ 32.
Proof. apply fnv32a_range. unfold fnv_offset. lia. Qed.

(** The page size and the token are not part of the filter a token is bound to. *)
Definition with_page (f : ListFilter) (size : Z) (token : string) : ListFilter :=
  mkFilter (FStatus f) (FCustomerID f) size token.

Lemma EncodeToString_nonempty s : s <> "" -> EncodeToString s <> "".
Proof.
  intros Hs He. apply Hs.
  assert (DecodeString (EncodeToString s) = DecodeString "") as E by (by rewrite He).
  rewrite DecodeString_EncodeToString in E. by injection E.
Qed.

Lemma EncodePageToken_total t f o :
  time_ok (CreatedAt o) -> uuid_Validate (ID o) = true ->
  exists tok, EncodePageToken t f o = Ok tok.
Proof.
  intros Ht Hu. unfold EncodePageToken, encodeCursor.
  destruct (marshal_total (mkCursor (CreatedAt o) (ID o) (filterHash t f)))
    as [b Hb]; [done|done|apply filterHash_range|].
  rewrite Hb. cbn. eauto.
Qed.

(** A page token resumes exactly after the row it was issued for: decoding, under the
    same tenant and filter and with any page size, the token built from an order gives that
    order's sort key. *)
Lemma token_resumes t f o tok size :
  uuid_Validate (ID o) = true -> EncodePageToken t f o = Ok tok ->
  tok <> "" /\ DecodePageToken t (with_page f size tok) = Ok (Some (CreatedAt o, ID o)).
Proof.
  intros Hu. unfold EncodePageToken, encodeCursor. intros He.
  apply bind_Ok in He as (b & Hb & [= <-]). apply mapErr_Ok in Hb.
  assert (EncodeToString b <> "") as Hne
    by (by apply EncodeToString_nonempty, (marshal_nonempty _ _ Hb)).
  split; [done|]. unfold DecodePageToken. cbn [PageToken with_page].
  apply String.eqb_neq in Hne as ->. unfold decodeCursor.
  rewrite DecodeString_EncodeToString.
  rewrite (marshal_unmarshal (mkCursor (CreatedAt o) (ID o) (filterHash t f)) b
             Hu (filterHash_range _ _) Hb). cbn.
  change (filterHash t (with_page f size (EncodeToString b))) with (filterHash t f).
  by rewrite Z.eqb_refl, Hu.
Qed.

(** C31. Tokens round trip: [EncodePageToken] succeeds on every row the stores produce, and
    decoding its token, under the same tenant and filter and with any page size, resumes
    exactly after that row. *)
Theorem DecodePageToken_EncodePageToken t f o size :
  uuid_Validate (ID o) = true -> time_ok (CreatedAt o) ->
  exists tok, EncodePageToken t f o = Ok tok /\ tok <> "" /\
    DecodePageToken t (with_page f size tok) = Ok (Some (CreatedAt o, ID o)).
Proof.
  intros Hu Ht. destruct (EncodePageToken_total t f o Ht Hu) as [tok Htok].
  exists tok. by destruct (token_resumes t f o tok size Hu Htok).
Qed.

(** What a client's token says. *)
Definition token_payload (tok : string) : option cursor := DecodeString tok ≫= json_Unmarshal.

(** Whatever bytes a client sends as a token, decoding either gives exactly the sort key
    the token holds, which carries the hash of this tenant and filter and an id that is a
    uuid, or fails with [ErrInvalidPageToken]; every token that passes those checks is
    accepted, and no other error gets through. *)
Theorem DecodePageToken_safe t f :
  match DecodePageToken t f with
  | Ok None => PageToken f = ""
  | Ok (Some (at_, id)) =>
      token_payload (PageToken f) = Some (mkCursor at_ id (filterHash t f)) /\
      uuid_Validate id = true
  | Err e =>
      errIs ErrInvalidPageToken e = true /\ PageToken f <> "" /\
      forall c, token_payload (PageToken f) = Some c ->
        FilterHash c <> filterHash t f \/ uuid_Validate (CID c) = false
  end.
Proof.
  unfold DecodePageToken, token_payload.
  destruct (PageToken f =? "")%string eqn:Ht; to_prop; [done|].
  unfold decodeCursor. destruct (DecodeString _) as [raw|]; [|by split_ands]. cbn.
  destruct (json_Unmarshal _) as [c|]; [|by split_ands].
  destruct (FilterHash c =? filterHash t f) eqn:Hh; cbn [negb]; to_prop.
  - destruct (uuid_Validate (CID c)) eqn:Hu; cbn.
    + rewrite <- Hh. split; [by destruct c|done].
    + split; [done|]. split; [done|]. intros c' E. injection E as <-. by right.
  - split; [done|]. split; [done|]. intros c' E. injection E as <-. by left.
Qed.

(** [ClampPageSize] always yields a usable size, and is the identity on usable sizes. *)
Lemma ClampPageSize_spec n :
  1 <= ClampPageSize n <= MaxPageSize /\
  (1 <= n <= MaxPageSize -> ClampPageSize n = n).
Proof.
  unfold ClampPageSize, MaxPageSize, DefaultPageSize.
  repeat case_match; to_prop; lia.
Qed.

End TokenFacts.

(** * An environment to run the model with

    Cursors are written as their countable encoding in binary; ids are accepted when
    they have the length of a uuid. *)

#[export] Instance cursor_eq_dec : EqDecision cursor.
Proof. solve_decision. Defined.
#[export] Instance cursor_countable : Countable cursor.
Proof.
  apply (inj_countable' (fun c => (CCreatedAt c, CID c, FilterHash c))
           (fun p => mkCursor p.1.1 p.1.2 p.2)).
  by intros [].
Defined.

Fixpoint bits_write (p : positive) : string :=
  match p with
  | xH => "1"
  | xO q => String "0"%char (bits_write q)
  | xI q => String "i"%char (bits_write q)
  end.

Fixpoint bits_read (s : string) : option positive :=
  match s with
  | EmptyString => None
  | String c r =>
      if Ascii.eqb c "1"%char then Some xH
      else if Ascii.eqb c "0"%char then xO <$> bits_read r
      else xI <$> bits_read r
  end.

Definition bits_env : CursorEnv := {|
  json_Marshal c := Ok (bits_write (encode c));
  json_Unmarshal s := bits_read s ≫= decode;
  uuid_Validate s := strlen s =? 36 |}.

Lemma bits_read_write p : bits_read (bits_write p) = Some p.
Proof. induction p as [p IH|p IH|]; cbn; rewrite ?IH; done. Qed.

Lemma bits_laws : @CursorLaws bits_env.
Proof.
  split; cbn.
  - eauto.
  - intros c b _ _ [= <-]. rewrite bits_read_write. cbn. apply decode_encode.
  - intros c b [= <-]. by destruct (encode c).
Defined.

Lemma DecodePageToken_EncodePageToken_witness :
  exists tok, @EncodePageToken bits_env "acme" (mkFilter StatusPending "" 20 "") two_lines = Ok tok /\
    tok <> "" /\
    @DecodePageToken bits_env "acme" (with_page (mkFilter StatusPending "" 20 "") 100 tok) =
      Ok (Some (0, "018f0000-0000-7000-8000-000000000001")).
Proof.
  apply (@DecodePageToken_EncodePageToken bits_env bits_laws "acme"
           (mkFilter StatusPending "" 20 "") two_lines 100);
    [vm_compute; reflexivity|unfold time_ok; cbn; lia].
Defined.
