(* ===== verification/Store.v ===== *)
(** internal/order/store.go: the persistence, event and transaction ports, and the
    abstract store that says what an implementation promises.

    A store operation is a function [stm S A] from the state of the store to a result
    and the next state.  [StoreOps] is the Go interfaces [order.Store] and
    [order.EventPublisher], [AtomicOps] is [order.Atomic].  [sstate] is the abstract
    store: orders by tenant and id, and the events published so far; its instance of
    [StoreOps] is the contract in executable form, and [StoreSim] is the simulation an
    implementation has to provide. *)

From S2P Require Import Prelude GoErr GoStr Money Order Cursor.

(** * State and failure *)

Definition stm (S A : Type) : Type := S -> result A * S.

#[export] Instance stm_ret S : MRet (stm S) := fun A a s => (Ok a, s).
#[export] Instance stm_bind S : MBind (stm S) :=
  fun A B f m s =>
    match m s with
    | (Ok a, s') => f a s'
    | (Err e, s') => (Err e, s')
    end.

(** A pure fallible computation, and [return err]. *)
Definition lift {S A} (r : result A) : stm S A := fun s => (r, s).
Definition fail {S A} (e : error) : stm S A := fun s => (Err e, s).

(** * Events *)

Record Event := mkEvent {
  EType : string; AggregateID : string; ETenantID : string; OccurredAt : Z;
  EOrder : Order }.

#[export] Instance Event_eq_dec : EqDecision Event.
Proof. solve_decision. Defined.

Definition EventOrderCreated : string := "order.v1.OrderCreated".
Definition EventOrderCancelled : string := "order.v1.OrderCancelled".

(** * The ports *)

Class StoreOps (S : Type) := {
  store_Create : Order -> stm S unit;
  store_Get : string -> string -> stm S Order;
  store_List : string -> ListFilter -> stm S Page;
  store_Update : Order -> stm S unit;
  pub_Publish : Event -> stm S unit }.

(** [InTx]: the callback works on the state [T] of a transaction. *)
Class AtomicOps (S T : Type) := { InTx : forall A, stm T A -> stm S A }.
Arguments InTx {S T _ A} _.

(** * The sort key of a listing *)

Definition okey : Type := Z * string.

Definition order_key (o : Order) : okey := (CreatedAt o, ID o).

(** [a] is not after [b] in the order (CreatedAt, ID); ids compare bytewise. *)
Definition key_le (a b : okey) : Prop :=
  a.1 < b.1 \/ (a.1 = b.1 /\ String.le a.2 b.2).

Definition key_lt (a b : okey) : Prop := key_le a b /\ a <> b.

#[export] Instance key_le_dec a b : Decision (key_le a b).
Proof. unfold key_le. apply _. Defined.
#[export] Instance key_lt_dec a b : Decision (key_lt a b).
Proof. unfold key_lt. apply _. Defined.

#[export] Instance key_le_po : PartialOrder key_le.
Proof.
  split; [split|].
  - intros [t i]. right. split; [done|]. apply String.le_po.
  - intros [t1 i1] [t2 i2] [t3 i3]. unfold key_le; cbn.
    intros [?|[-> ?]] [?|[-> ?]]; [left; lia|left; lia|left; lia|].
    right. split; [done|]. by etrans.
  - intros [t1 i1] [t2 i2]. unfold key_le; cbn.
    intros [?|[-> ?]] [?|[? ?]]; try lia. f_equal. by apply (anti_symm String.le).
Qed.

#[export] Instance key_le_total : Total key_le.
Proof.
  intros [t1 i1] [t2 i2]. unfold key_le; cbn.
  destruct (Z.lt_total t1 t2) as [?|[->|?]]; [by left; left| |by right; left].
  destruct (total String.le i1 i2); auto.
Qed.

Lemma key_lt_irrefl a : ~ key_lt a a.
Proof. by intros [_ ?]. Qed.

Lemma key_lt_le_trans a b c : key_lt a b -> key_le b c -> key_lt a c.
Proof.
  intros [Hab Hne] Hbc. split; [by etrans|]. intros ->.
  apply Hne. by apply (anti_symm key_le).
Qed.

Lemma key_lt_trans a b c : key_lt a b -> key_lt b c -> key_lt a c.
Proof. intros Hab [Hbc _]. by eapply key_lt_le_trans. Qed.

Lemma key_not_lt a b : ~ key_lt a b <-> key_le b a.
Proof.
  split.
  - intros Hn. destruct (decide (key_le a b)) as [Hab|Hab].
    + destruct (decide (a = b)) as [->|Hne]; [reflexivity|]. by destruct Hn.
    + destruct (total key_le a b); done.
  - intros Hba [Hab Hne]. apply Hne. by apply (anti_symm key_le).
Qed.

(** The order [sort.Slice] sorts by. *)
Definition ord_le (a b : Order) : Prop := key_le (order_key a) (order_key b).
Definition ord_lt (a b : Order) : Prop := key_lt (order_key a) (order_key b).

#[export] Instance ord_le_dec a b : Decision (ord_le a b).
Proof. unfold ord_le. apply _. Defined.
#[export] Instance ord_le_total : Total ord_le.
Proof. intros a b. apply (total key_le). Qed.
#[export] Instance ord_le_trans : Transitive ord_le.
Proof. intros a b c. unfold ord_le. intros ??. by etrans. Qed.

(** [sort.Slice(matched, ...)]. *)
Definition sort_orders (l : list Order) : list Order := merge_sort ord_le l.

(** * The abstract store *)

Record sstate := mkS {
  s_orders : gmap (string * string) Order; s_events : list Event }.

Definition sstate_wf (a : sstate) : Prop :=
  forall t i o, s_orders a !! (t, i) = Some o -> TenantID o = t /\ ID o = i.

(** The rows a listing selects: the tenant, and each filter that is set. *)
Definition selects (t : string) (f : ListFilter) (o : Order) : bool :=
  (TenantID o =? t)%string
  && (bool_decide (FStatus f = StatusUnspecified) || bool_decide (OStatus o = FStatus f))
  && ((FCustomerID f =? "")%string || (CustomerID o =? FCustomerID f)%string).

Definition rows (m : gmap (string * string) Order) : list Order := (map_to_list m).*2.

(** All the rows of a listing, in order. *)
Definition listing (t : string) (f : ListFilter) (a : sstate) : list Order :=
  sort_orders (List.filter (selects t f) (rows (s_orders a))).

(** The rows after a cursor. *)
Definition after (cur : option okey) (l : list Order) : list Order :=
  match cur with
  | None => l
  | Some k => List.filter (fun o => bool_decide (key_lt k (order_key o))) l
  end.

Definition pageSize (f : ListFilter) : nat := Z.to_nat (ClampPageSize (PageSize f)).

Section WithEnv.
Context `{CursorEnv}.

(** Cut the first page off the remaining rows, with the token of its last row when rows
    are left. *)
Definition cutPage (t : string) (f : ListFilter) (l : list Order) : result Page :=
  let size := pageSize f in
  if (size <? length l)%nat
  then
    match take size l !! (size - 1)%nat with
    | Some last_ => tok ← EncodePageToken t f last_; Ok (mkPage (take size l) tok)
    | None => Err (errorsNew "index out of range")
    end
  else Ok (mkPage l "").

#[export] Instance spec_ops : StoreOps sstate := {|
  store_Create o := fun a =>
    if (TenantID o =? "")%string then (Err ErrMissingTenant, a)
    else match s_orders a !! (TenantID o, ID o) with
         | Some _ => (Err ErrDuplicate, a)
         | None => (Ok tt, mkS (<[(TenantID o, ID o) := o]> (s_orders a)) (s_events a))
         end;
  store_Get t i := fun a =>
    if (t =? "")%string then (Err ErrMissingTenant, a)
    else match s_orders a !! (t, i) with
         | Some o => (Ok o, a)
         | None => (Err ErrNotFound, a)
         end;
  store_List t f := fun a =>
    (if (t =? "")%string then Err ErrMissingTenant
     else cur ← DecodePageToken t f; cutPage t f (after cur (listing t f a)), a);
  store_Update o := fun a =>
    if (TenantID o =? "")%string then (Err ErrMissingTenant, a)
    else match s_orders a !! (TenantID o, ID o) with
         | None => (Err ErrNotFound, a)
         | Some _ => (Ok tt, mkS (<[(TenantID o, ID o) := o]> (s_orders a)) (s_events a))
         end;
  pub_Publish e := fun a => (Ok tt, mkS (s_orders a) (s_events a ++ [e])) |}.

(** A transaction commits all of its writes or none. *)
#[export] Instance spec_atomic : AtomicOps sstate sstate := {|
  InTx A fn := fun a =>
    match fn a with
    | (Ok r, a') => (Ok r, a')
    | (Err e, _) => (Err e, a)
    end |}.

End WithEnv.

(** * Simulation *)

(** Errors that [errors.Is] cannot tell apart. *)
Definition err_eq (e e' : error) : Prop := forall s, errIs s e = errIs s e'.

Definition res_eq {A} (r r' : result A) : Prop :=
  match r, r' with
  | Ok a, Ok b => a = b
  | Err e, Err e' => err_eq e e'
  | _, _ => False
  end.

#[export] Instance err_eq_equiv : Equivalence err_eq.
Proof.
  split; unfold err_eq; [done|intros ?? H s; by rewrite H|].
  intros ??? H1 H2 s. by rewrite H1.
Qed.

Definition sim {S1 S2 A} (R : S1 -> S2 -> Prop) (p : result A * S1) (q : result A * S2) : Prop :=
  res_eq p.1 q.1 /\ R p.2 q.2.

Lemma res_eq_refl {A} (r : result A) : res_eq r r.
Proof. destruct r; cbn; [done|reflexivity]. Qed.

Lemma sim_lift {S1 S2 A} (R : S1 -> S2 -> Prop) (r : result A) s a :
  R s a -> sim R (lift r s) (lift r a).
Proof. split; [apply res_eq_refl|done]. Qed.

Lemma sim_bind {S1 S2 A B} (R : S1 -> S2 -> Prop) (m : stm S1 A) (m' : stm S2 A)
    (k : A -> stm S1 B) (k' : A -> stm S2 B) s a :
  sim R (m s) (m' a) ->
  (forall x s' a', m' a = (Ok x, a') -> R s' a' -> sim R (k x s') (k' x a')) ->
  sim R ((m ≫= k) s) ((m' ≫= k') a).
Proof.
  intros [Hres HR] Hk. unfold mbind, stm_bind in *.
  destruct (m s) as [[x|e] s'], (m' a) as [[x'|e'] a'] eqn:Ea; cbn in *; try done.
  subst x'. by apply Hk.
Qed.

(** The arguments an implementation can represent faithfully; for an update, in the store
    it applies to. *)
Record domain := mkDomain {
  can_create : Order -> Prop;
  can_get : string -> string -> Prop;
  can_list : string -> ListFilter -> Prop;
  can_update : sstate -> Order -> Prop;
  can_publish : Event -> Prop }.

(** [S] behaves like the abstract store, from related states and for the arguments of
    its domain. *)
Class StoreSim (S : Type) `{CursorEnv, !StoreOps S} (D : domain)
    (R : S -> sstate -> Prop) := {
  sim_wf : forall s a, R s a -> sstate_wf a;
  sim_Create : forall o s a, can_create D o -> R s a ->
    sim R (store_Create o s) (store_Create o a);
  sim_Get : forall t i s a, can_get D t i -> R s a ->
    sim R (store_Get t i s) (store_Get t i a);
  sim_List : forall t f s a, can_list D t f -> R s a ->
    sim R (store_List t f s) (store_List t f a);
  sim_Update : forall o s a, can_update D a o -> R s a ->
    sim R (store_Update o s) (store_Update o a);
  sim_Publish : forall e s a, can_publish D e -> R s a ->
    sim R (pub_Publish e s) (pub_Publish e a) }.

(** A transaction of the implementation simulates the all-or-nothing one whenever its
    body simulates; [RT s] relates the states of a transaction begun in [s]. *)
Class AtomicSim (S T : Type) `{!AtomicOps S T} (R : S -> sstate -> Prop)
    (RT : S -> T -> sstate -> Prop) := {
  sim_InTx : forall A (fn : stm T A) (fn' : stm sstate A) s a,
    (forall st, RT s st a -> sim (RT s) (fn st) (fn' a)) ->
    R s a -> sim R (InTx fn s) (InTx fn' a) }.

(** * Listings *)

(** On rows whose sort keys are distinct, sorting does not depend on the order the rows
    are given in. *)
Definition keys_distinct (l : list Order) : Prop :=
  forall a b, a ∈ l -> b ∈ l -> order_key a = order_key b -> a = b.

Lemma sort_orders_perm l : sort_orders l ≡ₚ l.
Proof. apply merge_sort_Permutation. Qed.

Lemma sort_orders_sorted l : StronglySorted ord_le (sort_orders l).
Proof. apply StronglySorted_merge_sort; apply _. Qed.

Lemma sort_orders_unique l l' :
  keys_distinct l -> l ≡ₚ l' -> sort_orders l = sort_orders l'.
Proof.
  intros Hd Hp. apply (StronglySorted_unique_strong ord_le).
  - intros a b Ha Hb Hab Hba. rewrite sort_orders_perm in Ha, Hb. rewrite <- Hp in Hb.
    apply Hd; [done..|]. by apply (anti_symm key_le).
  - apply sort_orders_sorted.
  - apply sort_orders_sorted.
  - by rewrite !sort_orders_perm.
Qed.

Lemma filter_perm {A} (p : A -> bool) (l l' : list A) :
  l ≡ₚ l' -> List.filter p l ≡ₚ List.filter p l'.
Proof.
  induction 1 as [|x l l' _ IH|x y l|l1 l2 l3 _ IH1 _ IH2]; cbn.
  - done.
  - by destruct (p x); rewrite IH.
  - destruct (p x), (p y); try done. apply Permutation_swap.
  - by etrans.
Qed.

Lemma NoDup_filter_list {A} (p : A -> bool) (l : list A) : NoDup l -> NoDup (List.filter p l).
Proof.
  induction 1 as [|x l Hx _ IH]; cbn; [constructor|].
  destruct (p x); [|done]. constructor; [|done]. by rewrite elem_of_filter_list; intros [_ ?].
Qed.

Lemma StronglySorted_filter {A} (R : relation A) (p : A -> bool) l :
  StronglySorted R l -> StronglySorted R (List.filter p l).
Proof.
  induction 1 as [|x l Hs IH Hx]; cbn; [constructor|].
  destruct (p x); [|done]. constructor; [done|].
  rewrite Forall_forall in *. intros y [_ Hy]%elem_of_filter_list. auto.
Qed.

Lemma filter_none {A} (p : A -> bool) (l : list A) :
  (forall x, x ∈ l -> p x = false) -> List.filter p l = [].
Proof.
  induction l as [|x l IH]; intros Hp; cbn; [done|].
  rewrite Hp by (by left). apply IH. intros y Hy. apply Hp. by right.
Qed.

(** The values of a map that determine their keys are listed without repetition. *)
Lemma NoDup_values {K} `{Countable K} {V} (m : gmap K V) :
  (forall k k' v, m !! k = Some v -> m !! k' = Some v -> k = k') ->
  NoDup (map_to_list m).*2.
Proof.
  intros Hinj. apply NoDup_fmap_2_strong; [|apply NoDup_map_to_list].
  intros [k v] [k' v'] Hk%elem_of_map_to_list Hk'%elem_of_map_to_list Heq. cbn in Heq.
  subst v'. by rewrite (Hinj k k' v).
Qed.

Lemma elem_of_values {K} `{Countable K} {V} (m : gmap K V) v :
  v ∈ (map_to_list m).*2 <-> exists k, m !! k = Some v.
Proof.
  rewrite list_elem_of_fmap. split.
  - intros ([k v'] & -> & Hk). exists k. by apply elem_of_map_to_list.
  - intros [k Hk]. exists (k, v). by rewrite elem_of_map_to_list.
Qed.

Lemma selects_tenant t f o : selects t f o = true -> TenantID o = t.
Proof. unfold selects. intros; by to_prop. Qed.

Section ListingFacts.
Context (a : sstate) (Hwf : sstate_wf a).

Lemma elem_of_rows o : o ∈ rows (s_orders a) <-> s_orders a !! (TenantID o, ID o) = Some o.
Proof.
  unfold rows. rewrite elem_of_values. split; [|eauto].
  intros [[t i] Hk]. by destruct (Hwf t i o Hk) as [-> ->].
Qed.

Lemma rows_NoDup : NoDup (rows (s_orders a)).
Proof.
  apply NoDup_values. intros [t i] [t' i'] o Hk Hk'.
  destruct (Hwf t i o Hk) as [<- <-], (Hwf t' i' o Hk') as [<- <-]. done.
Qed.

Lemma selected_keys_distinct t f :
  keys_distinct (List.filter (selects t f) (rows (s_orders a))).
Proof.
  intros o o' [Ht Ho]%elem_of_filter_list [Ht' Ho']%elem_of_filter_list [=].
  apply selects_tenant in Ht, Ht'. rewrite elem_of_rows in Ho, Ho'. congruence.
Qed.

(** A listing has exactly the selected orders of the tenant, each once, in strictly
    increasing (CreatedAt, ID) order. *)
Lemma elem_of_listing t f o :
  o ∈ listing t f a <-> selects t f o = true /\ s_orders a !! (t, ID o) = Some o.
Proof.
  unfold listing. rewrite sort_orders_perm, elem_of_filter_list, elem_of_rows.
  split; intros [Hs Ho]; split; try done; pose proof (selects_tenant _ _ _ Hs); congruence.
Qed.

Lemma listing_strict t f : StronglySorted ord_lt (listing t f a).
Proof.
  unfold listing. set (l := List.filter _ _).
  assert (keys_distinct (sort_orders l)) as Hd.
  { intros o o'. rewrite !sort_orders_perm. apply selected_keys_distinct. }
  assert (NoDup (sort_orders l)) as Hn.
  { rewrite sort_orders_perm. apply NoDup_filter_list, rows_NoDup. }
  pose proof (sort_orders_sorted l) as Hs. revert Hd Hn.
  induction Hs as [|o r Hs IH Ho]; intros Hd Hn; [constructor|].
  apply NoDup_cons in Hn as [Hni Hn]. constructor.
  - apply IH; [|done]. intros x y Hx Hy. by apply Hd; right.
  - rewrite Forall_forall in *. intros x Hx. split; [by apply Ho|].
    intros Heq. apply Hni. rewrite (Hd o x); [done|left|by right|done].
Qed.

End ListingFacts.
