(* ===== verification/Paging.v ===== *)
(** Keyset pagination over a changing store.

    A client walks a listing page by page, passing back each [NextPageToken]; between
    two fetches the store may change in any way.  [scan] is that client, over one
    snapshot of the store per fetch; the theorems of this file hold for every store
    whose [List] returns the page of the abstract listing ([fetches_listing]). *)

From S2P Require Import Prelude GoErr GoStr Money Order Cursor Store.

Section Client.
Context {D : Type} (fetch : string -> ListFilter -> D -> result Page).

(** Fetch pages until no token is returned or no snapshot is left; the token to
    continue with comes with the pages. *)
Fixpoint scan (t : string) (f : ListFilter) (token : string) (snaps : list D)
    : result (list (list Order) * string) :=
  match snaps with
  | [] => Ok ([], token)
  | d :: rest =>
      p ← fetch t (with_page f (PageSize f) token) d;
      if (NextPageToken p =? "")%string then Ok ([Orders p], "")
      else
        r ← scan t f (NextPageToken p) rest;
        Ok (Orders p :: r.1, r.2)
  end.
End Client.

Section Paging.
Context `{CursorLaws}.

(** Rows a token can be issued for. *)
Definition tokenizable (a : sstate) : Prop :=
  forall k o, s_orders a !! k = Some o ->
    uuid_Validate (ID o) = true /\ time_ok (CreatedAt o).

Lemma pageSize_pos f : (0 < pageSize f)%nat.
Proof. unfold pageSize. pose proof (ClampPageSize_spec (PageSize f)). lia. Qed.

Lemma cutPage_spec t f l :
  (forall o, o ∈ l -> uuid_Validate (ID o) = true /\ time_ok (CreatedAt o)) ->
  exists p, cutPage t f l = Ok p /\
    ((NextPageToken p = "" /\ Orders p = l) \/
     (exists pre last_ post, l = pre ++ last_ :: post /\ Orders p = pre ++ [last_] /\
        NextPageToken p <> "" /\
        forall size, DecodePageToken t (with_page f size (NextPageToken p)) =
          Ok (Some (order_key last_)))).
Proof.
  intros Hl. unfold cutPage. pose proof (pageSize_pos f) as Hpos.
  destruct (Nat.ltb_spec (pageSize f) (length l)) as [Hlt|Hge]; [|eexists; split; [done|by left]].
  destruct (lookup_lt_is_Some_2 l (pageSize f - 1)) as [o Ho]; [lia|].
  rewrite lookup_take_lt by lia. rewrite Ho.
  destruct (Hl o) as [Hu Ht]; [by eapply list_elem_of_lookup_2|].
  destruct (EncodePageToken_total t f o Ht Hu) as [tok Htok]. rewrite Htok. cbn.
  eexists. split; [done|]. right.
  exists (take (pageSize f - 1) l), o, (drop (pageSize f) l). cbn. split_ands.
  - replace (pageSize f) with (S (pageSize f - 1)) at 2 by lia. by apply symmetry, take_drop_middle.
  - replace (pageSize f) with (S (pageSize f - 1)) at 1 by lia. by apply take_S_r.
  - by destruct (token_resumes t f o tok 0 Hu Htok).
  - intros size. by destruct (token_resumes t f o tok size Hu Htok).
Qed.

Definition above (cur : option okey) (o : Order) : Prop :=
  match cur with None => True | Some k => key_lt k (order_key o) end.

Lemma elem_of_after cur l o : o ∈ after cur l <-> above cur o /\ o ∈ l.
Proof.
  destruct cur as [k|]; cbn; [|tauto]. by rewrite elem_of_filter_list, bool_decide_eq_true.
Qed.

Lemma after_sorted cur l : StronglySorted ord_lt l -> StronglySorted ord_lt (after cur l).
Proof. destruct cur; [apply StronglySorted_filter|done]. Qed.

Context {D : Type} (fetch : string -> ListFilter -> D -> result Page).
Context (abs : D -> sstate -> Prop).

(** [List] of a store whose state abstracts to [a]. *)
Definition fetches_listing : Prop := forall t f d a, abs d a -> t <> "" ->
  fetch t f d = (cur ← DecodePageToken t f; cutPage t f (after cur (listing t f a))).

Context (Hfetch : fetches_listing).

Definition good_snap (a : sstate) : Prop := sstate_wf a /\ tokenizable a.

(** One fetch: the page is a prefix of the remaining rows, all of them when no token
    comes back, and the token resumes after its last row. *)
Lemma fetch_page t f d a cur token :
  abs d a -> sstate_wf a -> tokenizable a -> t <> "" ->
  DecodePageToken t (with_page f (PageSize f) token) = Ok cur ->
  exists p, fetch t (with_page f (PageSize f) token) d = Ok p /\
    ((NextPageToken p = "" /\ Orders p = after cur (listing t f a)) \/
     (exists pre last_ post, after cur (listing t f a) = pre ++ last_ :: post /\
        Orders p = pre ++ [last_] /\ NextPageToken p <> "" /\
        DecodePageToken t (with_page f (PageSize f) (NextPageToken p)) =
          Ok (Some (order_key last_)))).
Proof.
  intros Ha Hw Htok Ht Hdec. rewrite (Hfetch _ _ _ a) by done. rewrite Hdec. cbn.
  change (listing t (with_page f (PageSize f) token) a) with (listing t f a).
  destruct (cutPage_spec t (with_page f (PageSize f) token) (after cur (listing t f a)))
    as (p & Hp & Hcase).
  { intros o [_ Ho]%elem_of_after. rewrite elem_of_listing in Ho by done.
    destruct Ho as [_ Ho]. by eapply Htok. }
  exists p. split; [done|]. destruct Hcase as [?|(pre & o & post & Hl & Ho & Hne & Hd)];
    [by left|]. right. exists pre, o, post. split_ands; try done. apply Hd.
Qed.

(** A row with sort key [k] is selected in [a]. *)
Definition has_key (t : string) (f : ListFilter) (k : okey) (a : sstate) : Prop :=
  exists o, o ∈ listing t f a /\ order_key o = k.

Definition above_key (cur : option okey) (k : okey) : Prop :=
  match cur with None => True | Some c => key_lt c k end.

(** The rows of a walk from cursor [cur]: strictly increasing and above [cur], each
    selected in some snapshot, and covering every key above [cur] that all the snapshots
    have. *)
Definition walk_ok (t : string) (f : ListFilter) (cur : option okey) (snaps : list sstate)
    (r : list (list Order) * string) : Prop :=
  StronglySorted ord_lt (concat r.1) /\
  (forall o, o ∈ concat r.1 ->
     above_key cur (order_key o) /\ Exists (fun a => o ∈ listing t f a) snaps) /\
  (r.2 = "" -> forall k, above_key cur k -> snaps <> [] -> Forall (has_key t f k) snaps ->
     k ∈ order_key <$> concat r.1).

Lemma above_trans cur k k' : above_key cur k -> key_lt k k' -> above_key cur k'.
Proof. destruct cur; cbn; [apply key_lt_trans|done]. Qed.

Lemma sorted_last pre last_ post :
  StronglySorted ord_lt (pre ++ last_ :: post) ->
  StronglySorted ord_lt (pre ++ [last_]) /\
  (forall o, o ∈ pre ++ [last_] -> key_le (order_key o) (order_key last_)) /\
  (forall o, o ∈ pre ++ last_ :: post -> ~ key_lt (order_key last_) (order_key o) ->
     o ∈ pre ++ [last_]).
Proof.
  intros Hs. replace (pre ++ last_ :: post) with ((pre ++ [last_]) ++ post) in *
    by (by rewrite <- app_assoc).
  pose proof (StronglySorted_app_1_l _ _ _ Hs) as Hs1. split_ands; [done| |].
  - intros o [Ho| ->%list_elem_of_singleton]%elem_of_app; [|done].
    apply StronglySorted_app in Hs1 as (Hlt & _). apply Hlt; [done|by left].
  - intros o [Ho|Ho]%elem_of_app Hn; [done|]. destruct Hn.
    apply StronglySorted_app in Hs as (Hlt & _). apply Hlt; [|done].
    apply elem_of_app. right. by left.
Qed.

Lemma in_after t f cur a o :
  o ∈ after cur (listing t f a) -> above_key cur (order_key o) /\ o ∈ listing t f a.
Proof. intros Ho. apply elem_of_after in Ho. by destruct cur. Qed.

(** The last page of a walk. *)
Lemma walk_last t f cur a snaps :
  sstate_wf a -> walk_ok t f cur (a :: snaps) ([after cur (listing t f a)], "").
Proof.
  intros Hw. unfold walk_ok. cbn. rewrite app_nil_r. split_ands.
  - apply after_sorted. by apply listing_strict.
  - intros o Hin. destruct (in_after _ _ _ _ _ Hin). split; [done|by left].
  - intros _ k Hk _ [(o & Hin & <-) _]%Forall_cons. apply list_elem_of_fmap.
    exists o. split; [done|]. apply elem_of_after. by destruct cur.
Qed.

(** A page that ends at [l], and the walk that resumes above it. *)
Lemma walk_more t f cur a snaps pre l post r :
  sstate_wf a -> after cur (listing t f a) = pre ++ l :: post ->
  walk_ok t f (Some (order_key l)) snaps r -> (r.2 = "" -> snaps <> []) ->
  walk_ok t f cur (a :: snaps) ((pre ++ [l]) :: r.1, r.2).
Proof.
  intros Hw Hl (Hsort & Hin & Hcov) Hne.
  pose proof (after_sorted cur _ (listing_strict a Hw t f)) as Hsorted. rewrite Hl in Hsorted.
  destruct (sorted_last _ _ _ Hsorted) as (Hs1 & Hle & Hrest).
  assert (forall o, o ∈ pre ++ [l] -> above_key cur (order_key o) /\ o ∈ listing t f a) as Hpage.
  { intros o Ho. apply in_after. rewrite Hl, elem_of_app, elem_of_cons.
    apply elem_of_app in Ho as [?|?%list_elem_of_singleton]; auto. }
  unfold walk_ok. cbn. split_ands.
  - apply StronglySorted_app. split_ands; [|done|done]. intros x y Hx Hy.
    destruct (Hin y Hy) as [Hy' _]. unfold ord_lt. cbn in Hy'.
    destruct (decide (order_key x = order_key l)) as [->|Hxl]; [done|].
    eapply key_lt_trans; [|exact Hy']. split; [by apply Hle|done].
  - intros o [Hpre|Hr']%elem_of_app.
    + destruct (Hpage o Hpre). split; [done|by left].
    + destruct (Hin o Hr') as [Hab Hex]. split; [|by right].
      eapply above_trans; [|exact Hab]. apply Hpage, elem_of_app. right. by left.
  - intros Hend k Hk _ [(o & Hox & Hok) Hall]%Forall_cons. rewrite fmap_app, elem_of_app.
    destruct (decide (key_lt (order_key l) k)) as [Hlt|Hlt]; [by right; apply Hcov; auto|].
    left. apply list_elem_of_fmap. exists o. split; [done|]. apply Hrest; [|by rewrite Hok].
    rewrite <- Hl. apply elem_of_after. split; [|done]. subst k. by destruct cur.
Qed.

Lemma scan_walk t f : t <> "" -> forall snaps abss token cur,
  Forall2 abs snaps abss -> Forall good_snap abss ->
  DecodePageToken t (with_page f (PageSize f) token) = Ok cur ->
  (snaps = [] -> token <> "") ->
  exists r, scan fetch t f token snaps = Ok r /\ walk_ok t f cur abss r.
Proof.
  intros Ht snaps. induction snaps as [|d snaps IH]; intros abss token cur Habs Hgood Hdec Hne.
  { eexists. split; [done|]. unfold walk_ok.
    split_ands; cbn; [constructor|by intros o Ho%elem_of_nil|]. intros E. by destruct Hne. }
  apply Forall2_cons_inv_l in Habs as (a & abss' & Ha & Habs & ->).
  apply Forall_cons in Hgood as [[Hw Htok] Hgood].
  destruct (fetch_page t f d a cur token Ha Hw Htok Ht Hdec) as (p & Hp & Hcase).
  cbn [scan]. rewrite Hp. cbn [mbind result_bind].
  destruct Hcase as [[Hn Ho]|(pre & l & post & Hl & Ho & Hn & Hd)].
  - rewrite Hn, Ho. cbn. eexists. split; [done|]. by apply walk_last.
  - apply String.eqb_neq in Hn as Hn'. rewrite Hn'.
    destruct (IH abss' (NextPageToken p) (Some (order_key l)) Habs Hgood Hd ltac:(done))
      as (r & Hr & Hwalk).
    rewrite Hr, Ho. cbn. eexists. split; [done|]. eapply walk_more; [done|exact Hl|exact Hwalk|].
    intros Hend ->. apply Forall2_nil_inv_r in Habs as ->. cbn in Hr. by injection Hr as <-.
Qed.

(** ** A store that does not change *)

Lemma strict_same_elements l l' :
  StronglySorted ord_lt l -> StronglySorted ord_lt l' ->
  (forall o, o ∈ l <-> o ∈ l') -> l = l'.
Proof.
  assert (forall l, StronglySorted ord_lt l -> NoDup l) as Hnd.
  { intros l0. induction 1 as [|x r _ IH Hx]; constructor; [|done].
    intros Hin. rewrite Forall_forall in Hx. by apply (key_lt_irrefl (order_key x)), Hx. }
  assert (forall l, StronglySorted ord_lt l -> StronglySorted ord_le l) as Hle.
  { intros l0. induction 1 as [|x r _ IH Hx]; constructor; [done|].
    eapply Forall_impl; [exact Hx|]. by intros y [? _]. }
  intros Hs Hs' Hel. apply (StronglySorted_unique_strong ord_le); auto.
  - intros x y Hx Hy Hxy Hyx. apply Hel in Hy.
    apply list_elem_of_split in Hx as (l1 & l2 & ->).
    apply StronglySorted_app in Hs as (Hlt & _ & [Hall _]%StronglySorted_cons).
    rewrite Forall_forall in Hall.
    apply elem_of_app in Hy as [Hy|Hy]; [|apply elem_of_cons in Hy as [->|Hy]; [done|]].
    + assert (ord_lt y x) as [_ Hne] by (apply Hlt; [done|by left]).
      by destruct Hne; apply (anti_symm key_le).
    + destruct (Hall y Hy) as [_ Hne]. by destruct Hne; apply (anti_symm key_le).
  - apply NoDup_Permutation; auto.
Qed.

(** Fetching often enough exhausts the listing: every page with a token holds a row. *)
Lemma scan_ends t f d a : abs d a -> good_snap a -> t <> "" -> forall n token cur r,
  DecodePageToken t (with_page f (PageSize f) token) = Ok cur ->
  (length (after cur (listing t f a)) < n)%nat ->
  scan fetch t f token (replicate n d) = Ok r -> r.2 = "".
Proof.
  intros Ha [Hw Htok] Ht. induction n as [|n IH]; intros token cur r Hdec Hlen; [lia|].
  destruct (fetch_page t f d a cur token Ha Hw Htok Ht Hdec) as (p & Hp & Hcase).
  cbn [replicate scan]. rewrite Hp. cbn [mbind result_bind].
  destruct Hcase as [[-> _]|(pre & l & post & Hl & _ & Hn & Hd)]; [by intros [= <-]|].
  apply String.eqb_neq in Hn as ->.
  destruct (scan fetch t f (NextPageToken p) (replicate n d)) as [r'|] eqn:Hr; [|done].
  intros [= <-]. cbn. apply (IH _ _ _ Hd); [|done].
  rewrite Hl in Hlen.
  assert (after (Some (order_key l)) (listing t f a) `sublist_of` post) as Hsub.
  2:{ apply sublist_length in Hsub. rewrite length_app in Hlen. cbn in Hlen. lia. }
  pose proof (after_sorted cur _ (listing_strict a Hw t f)) as Hs. rewrite Hl in Hs.
  assert (after (Some (order_key l)) (listing t f a) =
          after (Some (order_key l)) (after cur (listing t f a))) as ->.
  { apply strict_same_elements.
    - by apply after_sorted, listing_strict.
    - by apply after_sorted; rewrite Hl.
    - intros o. rewrite !elem_of_after. split; [|tauto]. intros [Hab Hin].
      split_ands; [done| |done]. destruct cur as [k|]; [|done].
      assert (l ∈ after (Some k) (listing t f a)) as Hin'
        by (rewrite Hl; apply elem_of_app; right; by left).
      apply elem_of_after in Hin' as [Hkl _]. by eapply key_lt_trans. }
  rewrite Hl. cbn [after]. replace (pre ++ l :: post) with ((pre ++ [l]) ++ post)
    by (by rewrite <- app_assoc).
  rewrite List.filter_app.
  assert (List.filter (fun o => bool_decide (key_lt (order_key l) (order_key o))) (pre ++ [l]) = [])
    as ->; [|cbn; apply sublist_filter_list].
  destruct (sorted_last _ _ _ Hs) as (_ & Hle & _).
  apply filter_none. intros o Ho. apply bool_decide_eq_false. intros Hlt.
  by apply key_not_lt in Hlt; [|apply Hle].
Qed.

End Paging.
