(* ===== verification/OrderMem.v ===== *)
(** internal/order/ordermem/ordermem.go: the in-memory store.

    Every exported method of the Go [Store] takes the mutex for its whole body, so each
    is one atomic step on [data]; the [view] functions below are the unlocked bodies and
    [locked] is the exported form.  Map iteration order is Go's choice: [listFrom] takes
    the enumeration of the map as an argument, and the result is shown not to depend on
    it. *)

From S2P Require Import Prelude GoErr GoStr Money Order Cursor Store Paging.

Record state := mkState { orders : gmap string Order; events : list Event }.

(** [New]. *)
Definition empty_state : state := mkState ∅ [].

(** [clone]: a private copy; map and slice are values here, as after Go's copy. *)
Definition clone (s : state) : state := mkState (orders s) (events s).

Definition key (tenantID orderID : string) : string := tenantID +:+ NUL +:+ orderID.

(** * view: the unlocked operations *)

Definition Create (o : Order) : stm state unit := fun d =>
  if (TenantID o =? "")%string then (Err ErrMissingTenant, d)
  else
    let k := key (TenantID o) (ID o) in
    match orders d !! k with
    | Some _ => (Err (errorf ErrDuplicate [PStr "id "; PStr (ID o)]), d)
    | None => (Ok tt, mkState (<[k := o]> (orders d)) (events d))
    end.

Definition Get (tenantID orderID : string) : stm state Order := fun d =>
  if (tenantID =? "")%string then (Err ErrMissingTenant, d)
  else
    match orders d !! key tenantID orderID with
    | None => (Err (errorf ErrNotFound [PStr "id "; PStr orderID]), d)
    | Some o => (Ok o, d)
    end.

Definition Update (o : Order) : stm state unit := fun d =>
  if (TenantID o =? "")%string then (Err ErrMissingTenant, d)
  else
    let k := key (TenantID o) (ID o) in
    match orders d !! k with
    | None => (Err (errorf ErrNotFound [PStr "id "; PStr (ID o)]), d)
    | Some _ => (Ok tt, mkState (<[k := o]> (orders d)) (events d))
    end.

(** The tests of the loop that collects [matched]. *)
Definition matches (tenantID : string) (f : ListFilter) (o : Order) : bool :=
  if negb (TenantID o =? tenantID)%string then false
  else if negb (bool_decide (FStatus f = StatusUnspecified))
          && negb (bool_decide (OStatus o = FStatus f)) then false
  else if negb (FCustomerID f =? "")%string
          && negb (CustomerID o =? FCustomerID f)%string then false
  else true.

(** The [idx] loop: drop rows up to and including the cursor. *)
Fixpoint skip (k : okey) (l : list Order) : list Order :=
  match l with
  | [] => []
  | o :: r =>
      if (CreatedAt o >? k.1) || ((CreatedAt o =? k.1) && String.ltb k.2 (ID o))
      then l
      else skip k r
  end.

Section WithEnv.
Context `{CursorEnv}.

(** [List] for one enumeration [vals] of the map. *)
Definition listFrom (vals : list Order) (tenantID : string) (f : ListFilter) : result Page :=
  if (tenantID =? "")%string then Err ErrMissingTenant
  else
    cur ← DecodePageToken tenantID f;
    let matched := sort_orders (List.filter (matches tenantID f) vals) in
    let matched := match cur with Some k => skip k matched | None => matched end in
    let size := Z.to_nat (ClampPageSize (PageSize f)) in
    if (size <? length matched)%nat
    then
      match take size matched !! (size - 1)%nat with
      | Some last_ =>
          token ← EncodePageToken tenantID f last_;
          Ok (mkPage (take size matched) token)
      | None => Err (errorsNew "index out of range")
      end
    else Ok (mkPage matched "").

Definition List (tenantID : string) (f : ListFilter) : stm state Page := fun d =>
  (listFrom (map_to_list (orders d)).*2 tenantID f, d).

End WithEnv.

Definition Publish (e : Event) : stm state unit := fun d =>
  (Ok tt, mkState (orders d) (events d ++ [e])).

(** * Store: the exported, locked operations *)

Record Store := mkStore { data : state }.

Definition New : Store := mkStore empty_state.

(** [s.mu.Lock(); defer s.mu.Unlock(); return view{s.data}.op(...)]. *)
Definition locked {A} (op : stm state A) : stm Store A := fun s =>
  let '(r, d) := op (data s) in (r, mkStore d).

(** [InTx]: run on a clone, swap it in on success, discard it on error. *)
Definition InTx {A} (fn : stm state A) : stm Store A := fun s =>
  match fn (clone (data s)) with
  | (Ok r, staged) => (Ok r, mkStore staged)
  | (Err e, _) => (Err e, s)
  end.

Definition Events (s : Store) : list Event := events (data s).

Definition Reset (s : Store) : Store := mkStore empty_state.

(** * The implementation of the ports *)

#[export] Instance view_ops `{CursorEnv} : StoreOps state := {|
  store_Create := Create; store_Get := Get; store_List := List;
  store_Update := Update; pub_Publish := Publish |}.

#[export] Instance store_ops `{CursorEnv} : StoreOps Store := {|
  store_Create o := locked (Create o);
  store_Get t i := locked (Get t i);
  store_List t f := locked (List t f);
  store_Update o := locked (Update o);
  pub_Publish e := locked (Publish e) |}.

#[export] Instance store_atomic : AtomicOps Store state := {| Store.InTx := @InTx |}.

(** * Keys *)

Definition nul_free (s : string) : Prop := Is_true (string_forallb (fun c => negb (byte_of c =? 0)) s).

Lemma key_inj t i t' i' :
  nul_free t -> nul_free t' -> key t i = key t' i' -> t = t' /\ i = i'.
Proof.
  assert (forall c s, nul_free (String c s) -> c <> of_byte 0 /\ nul_free s) as Hcons.
  { unfold nul_free; cbn. intros c s [Hc Hs]%andb_prop_elim. split; [|done].
    intros ->. done. }
  unfold key, NUL. revert t'.
  induction t as [|c t IH]; intros [|c' t'] Hn Hn' He; cbn in He.
  - by simplify_eq.
  - apply Hcons in Hn' as [Hc _]. by injection He as <-.
  - apply Hcons in Hn as [Hc _]. by injection He as ->.
  - apply Hcons in Hn as [_ Hn], Hn' as [_ Hn']. injection He as -> He.
    by destruct (IH t' Hn Hn' He) as [-> ->].
Qed.

Lemma matches_selects t f o : matches t f o = selects t f o.
Proof.
  unfold matches, selects.
  destruct (TenantID o =? t)%string, (bool_decide (FStatus f = _)),
    (bool_decide (OStatus o = _)), (FCustomerID f =? "")%string,
    (CustomerID o =? FCustomerID f)%string; reflexivity.
Qed.

(** * Refinement of the abstract store *)

(** The map keyed by [tenant ++ "\x00" ++ id] represents the map keyed by pairs, as long
    as no tenant holds a NUL byte. *)
Record rep (d : state) (a : sstate) : Prop := {
  rep_lookup : forall t i, nul_free t -> orders d !! key t i = s_orders a !! (t, i);
  rep_keys : forall k o, orders d !! k = Some o ->
    nul_free (TenantID o) /\ k = key (TenantID o) (ID o);
  rep_events : events d = s_events a;
  rep_wf : sstate_wf a;
  rep_tenants : forall t i o, s_orders a !! (t, i) = Some o -> nul_free t }.

Lemma rep_insert d a o :
  rep d a -> nul_free (TenantID o) ->
  rep (mkState (<[key (TenantID o) (ID o) := o]> (orders d)) (events d))
      (mkS (<[(TenantID o, ID o) := o]> (s_orders a)) (s_events a)).
Proof.
  intros [Hl Hk He Hw Ht] Ho.
  split; cbn [orders events s_orders s_events]; [..|done| |].
  - intros t i Hn. rewrite !lookup_insert. destruct (decide ((TenantID o, ID o) = (t, i))) as [E|E].
    + injection E as <- <-. by rewrite decide_True.
    + rewrite decide_False; [by apply Hl|]. intros [? ?]%key_inj; congruence.
  - intros k o'. rewrite lookup_insert. case_decide as E; [by intros [= <-]|apply Hk].
  - intros t i o'. cbn [s_orders]. rewrite lookup_insert. case_decide as E; [|apply Hw].
    injection E as <- <-. by intros [= <-].
  - intros t i o'. rewrite lookup_insert. case_decide as E; [|apply Ht].
    by injection E as <- <-.
Qed.

(** The enumerations of the two maps hold the same orders. *)
Lemma rep_rows d a : rep d a -> (map_to_list (orders d)).*2 ≡ₚ rows (s_orders a).
Proof.
  intros [Hl Hk He Hw Ht]. apply NoDup_Permutation.
  - apply NoDup_values. intros k k' o [_ ->]%Hk [_ ->]%Hk. done.
  - by apply rows_NoDup.
  - intros o. rewrite elem_of_rows, elem_of_values by done. split.
    + intros [k Hko]. destruct (Hk k o Hko) as [Hn ->]. by rewrite <- Hl.
    + intros Ho. exists (key (TenantID o) (ID o)). rewrite Hl; [done|]. by eapply Ht.
Qed.

Lemma skip_test k o :
  (CreatedAt o >? k.1) || ((CreatedAt o =? k.1) && String.ltb k.2 (ID o)) =
    bool_decide (key_lt k (order_key o)).
Proof.
  symmetry. destruct k as [t i]. unfold key_lt, key_le, order_key, String.ltb. cbn.
  assert (String.le i (ID o) /\ i <> ID o <-> (i ?= ID o)%string = Lt) as Hs.
  { unfold String.le, String.leb. split.
    - intros [Hle Hne]. destruct (i ?= ID o)%string eqn:E; try done.
      by apply String.compare_eq_iff in E.
    - intros E. rewrite E. split; [done|]. intros ->.
      by pose proof (String.compare_antisym (ID o) (ID o)) as Ha; rewrite E in Ha. }
  destruct (Z.gtb_spec (CreatedAt o) t); cbn.
  { apply bool_decide_eq_true_2. split; [by left|]. intros [=]; lia. }
  destruct (Z.eqb_spec (CreatedAt o) t) as [->|Hne]; cbn.
  - destruct (i ?= ID o)%string eqn:E.
    + apply bool_decide_eq_false_2. intros [[?|[_ Hle]] Hne]; [lia|].
      assert (i <> ID o) as Hi by congruence. by discriminate (proj1 Hs (conj Hle Hi)).
    + apply bool_decide_eq_true_2. destruct (proj2 Hs eq_refl) as [? ?].
      split; [by right|congruence].
    + apply bool_decide_eq_false_2. intros [[?|[_ Hle]] Hne]; [lia|].
      assert (i <> ID o) as Hi by congruence. by discriminate (proj1 Hs (conj Hle Hi)).
  - apply bool_decide_eq_false_2. intros [[?|[? _]] _]; lia.
Qed.

(** On sorted rows the [idx] loop keeps exactly the rows after the cursor. *)
Lemma skip_after k l : StronglySorted ord_le l -> skip k l = after (Some k) l.
Proof.
  induction 1 as [|o r Hs IH Ho]; cbn [skip after List.filter]; [done|].
  rewrite skip_test. case_bool_decide as Hk; [|exact IH].
  f_equal. cbn in IH. clear IH Hs. induction Ho as [|x r Hx _ IH]; cbn; [done|].
  rewrite bool_decide_eq_true_2 by (by eapply key_lt_le_trans). by f_equal.
Qed.

Section Refinement.
Context `{CursorEnv}.

(** [List] does not depend on the order Go iterates the map in: every enumeration of the
    same rows gives the page of the abstract listing. *)
Lemma listFrom_listing a vals t f :
  sstate_wf a -> vals ≡ₚ rows (s_orders a) ->
  listFrom vals t f =
    if (t =? "")%string then Err ErrMissingTenant
    else cur ← DecodePageToken t f; cutPage t f (after cur (listing t f a)).
Proof.
  intros Hw Hp. unfold listFrom. case_match; [done|].
  destruct (DecodePageToken t f) as [cur|e]; [|done]. cbn.
  assert (sort_orders (List.filter (matches t f) vals) = listing t f a) as ->.
  { unfold listing. rewrite (List.filter_ext _ _ (matches_selects t f)).
    symmetry. apply sort_orders_unique; [by apply selected_keys_distinct|].
    symmetry. by apply filter_perm. }
  destruct cur as [k|]; [|done].
  by rewrite skip_after by apply sort_orders_sorted.
Qed.

Ltac err_sim := let s := fresh in intros s; destruct s; reflexivity.

(** The in-memory store tells apart the tenants without a NUL byte. *)
Definition mem_domain : domain := {|
  can_create o := nul_free (TenantID o);
  can_get t _ := nul_free t;
  can_list t _ := nul_free t;
  can_update _ o := nul_free (TenantID o);
  can_publish _ := True |}.

(** The in-memory store implements the abstract store: from a represented state,
    every operation of the [view] returns what the abstract one returns (the same value,
    or an error no [errors.Is] can tell apart) and leads to represented states again. *)
#[export] Instance view_sim : StoreSim state mem_domain rep.
Proof.
  split.
  - intros s a Hr. apply Hr.
  - intros o s a Ho Hr. unfold sim; cbn. unfold Create.
    case_match; [by split|]. rewrite (rep_lookup _ _ Hr) by done.
    destruct (s_orders a !! _); cbn; [split; [err_sim|done]|].
    split; [done|]. by apply rep_insert.
  - intros t i s a Ht Hr. unfold sim; cbn. unfold Get.
    case_match; [by split|]. rewrite (rep_lookup _ _ Hr) by done.
    destruct (s_orders a !! _); cbn; split; try done. err_sim.
  - intros t f s a Ht Hr. unfold sim; cbn. split; [|done]. cbn.
    rewrite (listFrom_listing a) by (apply Hr || by apply rep_rows).
    destruct (if (t =? "")%string then _ else _); done.
  - intros o s a Ho Hr. unfold sim; cbn. unfold Update.
    case_match; [by split|]. rewrite (rep_lookup _ _ Hr) by done.
    destruct (s_orders a !! _); cbn; [|split; [err_sim|done]].
    split; [done|]. by apply rep_insert.
  - intros e s a _ [Hl Hk He Hw Ht]. unfold sim; cbn. split; [done|].
    split; cbn; try done. by rewrite He.
Qed.

Definition store_rep (s : Store) (a : sstate) : Prop := rep (data s) a.

Lemma locked_sim {A} (op : stm state A) (op' : stm sstate A) s a :
  sim rep (op (data s)) (op' a) -> sim store_rep (locked op s) (op' a).
Proof. unfold locked, sim, store_rep. by destruct (op (data s)). Qed.

#[export] Instance store_sim : StoreSim Store mem_domain store_rep.
Proof.
  split.
  - intros s a Hr. apply Hr.
  - intros o s a Ho Hr. apply locked_sim. exact (sim_Create o (data s) a Ho Hr).
  - intros t i s a Ht Hr. apply locked_sim. exact (sim_Get t i (data s) a Ht Hr).
  - intros t f s a Ht Hr. apply locked_sim. exact (sim_List t f (data s) a Ht Hr).
  - intros o s a Ho Hr. apply locked_sim. exact (sim_Update o (data s) a Ho Hr).
  - intros e s a He Hr. apply locked_sim. exact (sim_Publish e (data s) a He Hr).
Qed.

(** The clone of a transaction represents what the store represents; a commit publishes
    it, a failure leaves the store untouched. *)
#[export] Instance atomic_sim : AtomicSim Store state store_rep (fun _ => rep).
Proof.
  split. intros A fn fn' s a Hfn Hr. cbn. unfold InTx, clone.
  destruct s as [[os es]]. cbn in *.
  destruct (Hfn _ Hr) as [Hres Hrep].
  destruct (fn _) as [[r|e] st], (fn' a) as [[r'|e'] a']; cbn in *; try done.
Qed.

(** * Paging through the in-memory store *)

Definition fetch_mem (t : string) (f : ListFilter) (d : state) : result Page := (List t f d).1.

Lemma fetch_mem_listing : fetches_listing fetch_mem rep.
Proof.
  intros t f d a Hr Ht. unfold fetch_mem, List. cbn.
  rewrite (listFrom_listing a) by (apply Hr || by apply rep_rows).
  by apply String.eqb_neq in Ht as ->.
Qed.

End Refinement.

Section PagingMem.
Context `{CursorLaws}.

(** C14. Walking the pages of an unchanging store, whatever the page size and the filter,
    ends after at most one fetch more than there are rows, and yields exactly the
    tenant's matching orders, each once, in (CreatedAt, ID) order. *)
Theorem paging_complete t f d a n :
  t <> "" -> rep d a -> tokenizable a -> (length (listing t f a) < n)%nat ->
  exists pages, scan fetch_mem t f "" (replicate n d) = Ok (pages, "") /\
    concat pages = listing t f a.
Proof.
  intros Ht Hr Htok Hn.
  assert (good_snap a) as Hgood by (split; [apply Hr|done]).
  destruct (scan_walk fetch_mem rep fetch_mem_listing t f Ht (replicate n d) (replicate n a)
              "" None) as ([pages tok] & Hscan & Hs & Hin & Hcov).
  - apply Forall2_replicate. done.
  - by apply Forall_replicate.
  - done.
  - destruct n; [lia|done].
  - pose proof (scan_ends fetch_mem rep fetch_mem_listing t f d a Hr Hgood Ht n "" None _
                  eq_refl Hn Hscan) as Hend. cbn in Hend. subst tok.
    exists pages. split; [done|]. apply strict_same_elements; [done| |].
    { by apply listing_strict; apply Hr. }
    intros o. split.
    + intros Ho. apply Hin in Ho as [_ Hex].
      apply Exists_exists in Hex as (a' & Ha' & Ho). by apply elem_of_replicate in Ha' as [-> _].
    + intros Ho.
      assert (order_key o ∈ order_key <$> concat pages) as Hk.
      { apply Hcov; [done|done|by destruct n; [lia|]|].
        apply Forall_replicate. by exists o. }
      apply list_elem_of_fmap in Hk as (o' & Hkey & Ho'). cbn in Ho'.
      assert (o' ∈ listing t f a) as Hl.
      { apply Hin in Ho' as [_ Hex]. apply Exists_exists in Hex as (a' & Ha' & Ho'').
        by apply elem_of_replicate in Ha' as [-> _]. }
      rewrite elem_of_listing in Ho, Hl by apply Hr.
      injection Hkey as _ Hid. destruct Ho as [_ Ho], Hl as [_ Hl]. congruence.
Qed.

(** Walking the pages while the store changes between fetches: no error occurs, no
    row comes twice (the sort keys strictly increase over the whole walk), every row
    returned was a matching order at some fetch, and if the walk reaches its end every
    order whose row was there at every fetch was returned, however the rest of the store
    changed meanwhile. *)
Theorem paging_stable t f snaps abss :
  t <> "" -> snaps <> [] -> Forall2 rep snaps abss -> Forall tokenizable abss ->
  exists pages tok, scan fetch_mem t f "" snaps = Ok (pages, tok) /\
    StronglySorted ord_lt (concat pages) /\
    (forall o, o ∈ concat pages -> Exists (fun a => o ∈ listing t f a) abss) /\
    (tok = "" -> forall k, Forall (has_key t f k) abss -> k ∈ order_key <$> concat pages).
Proof.
  intros Ht Hne Hr Htok.
  assert (Forall good_snap abss) as Hgood.
  { clear Hne. induction Hr as [|d a ds l Hd _ IH]; constructor; inversion Htok; subst.
    - split; [apply Hd|done].
    - by apply IH. }
  destruct (scan_walk fetch_mem rep fetch_mem_listing t f Ht snaps abss "" None)
    as ([pages tok] & Hscan & Hs & Hin & Hcov); try done.
  exists pages, tok. split_ands; [done|done| |].
  - intros o Ho. by apply Hin.
  - intros Hend k Hall. apply Hcov; [done|done| |done].
    intros ->. by apply Forall2_nil_inv_r in Hr.
Qed.

End PagingMem.
