(* ===== verification/Seed.v ===== *)
(** internal/order/seed.go: the fixture orders of the in-memory deployment. *)

From S2P Require Import Prelude GoErr GoStr Money Order Cursor Store Paging OrderMem.

Definition SeedTenant : string := "dev-tenant".

(** [time.Minute] in nanoseconds. *)
Definition Minute : Z := 60 * 1000000000.

Record seed := mkSeed {
  seed_id : string; seed_customer : string; seed_status : Status; seed_items : list Item }.

Section Seed.
Context `{Unicode, CursorEnv}.

(** [price]: panics when [NewMoney] fails; the panic is an [Err] here. *)
Definition price (units nanos : Z) : result Money :=
  mapErr (fun err => EFmt [PStr "panic: order.Seed: "; PVal err]) (NewMoney "USD" units nanos).

Definition seeds : result (list seed) :=
  blue ← price 19 990000000; small ← price 4 500000000;
  red ← price 24 0; doodad ← price 0 990000000;
  Ok [mkSeed "01930000-0000-7000-8000-000000000001" "customer-alice" StatusPending
        [mkItem "WIDGET-BLUE" 2 blue; mkItem "GIZMO-SMALL" 1 small];
      mkSeed "01930000-0000-7000-8000-000000000002" "customer-bob" StatusConfirmed
        [mkItem "WIDGET-RED" 1 red];
      mkSeed "01930000-0000-7000-8000-000000000003" "customer-alice" StatusCancelled
        [mkItem "DOODAD" 10 doodad]].

Context {S : Type} `{!StoreOps S}.

Definition failStm {A} (prefix : text) (m : stm S A) : stm S A := fun s =>
  let '(r, s') := m s in (mapErr (wrapf prefix) r, s').

(** The loop over the seeds, at index [i]. *)
Fixpoint seedLoop (at_ : Z) (i : Z) (l : list seed) : stm S unit :=
  match l with
  | [] => mret tt
  | s :: r =>
      total ← lift (mapErr (wrapf [PStr "seed "; PStr (seed_id s)]) (ComputeTotal (seed_items s)));
      let createdAt := at_ + i * Minute in
      let o := mkOrder (seed_id s) SeedTenant (seed_customer s) (seed_status s)
                 (seed_items s) total createdAt createdAt in
      _ ← lift (mapErr (wrapf [PStr "seed "; PStr (seed_id s); PStr " is invalid"])
                  (OrderValidate o));
      _ ← failStm [PStr "seed "; PStr (seed_id s)] (store_Create o);
      seedLoop at_ (i + 1) r
  end.

Definition Seed (at_ : Z) : stm S unit :=
  l ← lift seeds; seedLoop at_ 0 l.

End Seed.

(** The in-memory store a fresh process starts with. *)
Definition seeded `{Unicode, CursorEnv} (at_ : Z) : result unit * Store := Seed at_ New.

(** The seeded store and the abstract store seeded the same way, at a concrete time. *)
Definition seed_time : Z := 1735689600 * 1000000000.
Definition seeded_mem : Store := (@seeded ascii_tables bits_env seed_time).2.
Definition seeded_abs : sstate :=
  (@Seed ascii_tables sstate (@spec_ops bits_env) seed_time (mkS ∅ [])).2.

Section SeedFacts.
Context `{Unicode, CursorEnv}.

Lemma sim_failStm {S1 S2 A} (R : S1 -> S2 -> Prop) ps (m : stm S1 A) (m' : stm S2 A) s a :
  sim R (m s) (m' a) -> sim R (failStm ps m s) (failStm ps m' a).
Proof.
  unfold sim, failStm. destruct (m s) as [[x|e] s'], (m' a) as [[y|e'] a']; cbn; try done.
  intros [He HR]. split; [|done]. intros t. cbn.
  assert (forall l l', (forall t, errIs t (EFmt l) = errIs t (EFmt l')) ->
            errIs t (EFmt (ps ++ l)) = errIs t (EFmt (ps ++ l'))) as Happ.
  { intros l l' Hl. induction ps as [|[] ps IH]; [exact (Hl t)|exact IH..| |exact IH].
    cbn. f_equal. exact IH. }
  apply (Happ [PStr ": "; PErr e] [PStr ": "; PErr e']). intros t'. cbn. by rewrite He.
Qed.

Lemma seedLoop_sim {S} `{!StoreOps S} D R `{!StoreSim S D R} at_ i l s a :
  (forall o, TenantID o = SeedTenant -> can_create D o) -> R s a -> sim R (seedLoop at_ i l s) (seedLoop at_ i l a).
Proof.
  intros HD. revert i s a. induction l as [|x l IH]; intros i s a HR; [by split|]. cbn [seedLoop].
  apply sim_bind; [by apply sim_lift|]. intros total s1 a1 _ HR1.
  apply sim_bind; [by apply sim_lift|]. intros [] s2 a2 _ HR2.
  apply sim_bind; [|intros [] s3 a3 _ HR3; by apply IH].
  apply sim_failStm. apply (sim_Create (S:=S)); [|done]. by apply HD.
Qed.

(** A fresh in-memory deployment comes up: whatever the clock says, [Seed] on the
    empty store neither panics nor fails, and leaves three orders. *)
Theorem Seed_succeeds at_ :
  (seeded at_).1 = Ok tt /\ size (orders (data (seeded at_).2)) = 3%nat.
Proof. by vm_compute. Qed.

End SeedFacts.

(** The seeded store represents the abstract store seeded the same way. *)
Lemma seeded_rep : rep (data seeded_mem) seeded_abs.
Proof.
  assert (store_rep New (mkS ∅ [])) as Hr
    by (split; cbn; intros *; rewrite ?lookup_empty; done).
  apply (@sim_lift _ _ _ store_rep (@seeds ascii_tables)) in Hr as Hs.
  destruct (sim_bind store_rep (lift (@seeds ascii_tables)) (lift (@seeds ascii_tables))
              (@seedLoop ascii_tables _ (@store_ops bits_env) seed_time 0)
              (@seedLoop ascii_tables _ (@spec_ops bits_env) seed_time 0)
              New (mkS ∅ []) Hs) as [_ Hrep]; [|exact Hrep].
  intros l s a _ HR.
  exact (@seedLoop_sim ascii_tables bits_env Store (@store_ops bits_env) mem_domain store_rep
           (@store_sim bits_env) seed_time 0 l s a
           (fun o Ho => eq_ind_r nul_free (I : nul_free SeedTenant) Ho) HR).
Qed.

Lemma seeded_tokenizable : @tokenizable bits_env seeded_abs.
Proof.
  intros k o Hk.
  assert (map_Forall (fun _ o => @uuid_Validate bits_env (ID o) = true /\
            0 <= CreatedAt o <= 253402300799 * 1000000000) (s_orders seeded_abs)) as Hall
    by (apply (bool_decide_unpack _); vm_compute; exact I).
  destruct (Hall k o Hk) as [Hu Ht]. split; [done|]. unfold time_ok. lia.
Qed.

(** The theorems on paging, on the seeded store with pages of two rows. *)
Definition two_per_page : ListFilter := mkFilter StatusUnspecified "" 2 "".

Lemma paging_complete_witness :
  exists pages,
    scan (@fetch_mem bits_env) SeedTenant two_per_page "" (replicate 4 (data seeded_mem)) =
      Ok (pages, "") /\
    concat pages = listing SeedTenant two_per_page seeded_abs.
Proof.
  apply (@paging_complete bits_env bits_laws SeedTenant two_per_page (data seeded_mem)
           seeded_abs 4%nat).
  - discriminate.
  - exact seeded_rep.
  - exact seeded_tokenizable.
  - vm_compute. lia.
Defined.

Lemma paging_stable_witness :
  exists pages tok,
    scan (@fetch_mem bits_env) SeedTenant two_per_page ""
      (replicate 2 (data seeded_mem)) = Ok (pages, tok) /\
    StronglySorted ord_lt (concat pages) /\
    (forall o, o ∈ concat pages ->
       Exists (fun a => o ∈ listing SeedTenant two_per_page a) (replicate 2 seeded_abs)) /\
    (tok = "" -> forall k, Forall (has_key SeedTenant two_per_page k) (replicate 2 seeded_abs) ->
       k ∈ order_key <$> concat pages).
Proof.
  apply (@paging_stable bits_env bits_laws SeedTenant two_per_page).
  - discriminate.
  - discriminate.
  - apply Forall2_replicate. exact seeded_rep.
  - apply Forall_replicate. exact seeded_tokenizable.
Defined.
