(* ===== verification/Service.v ===== *)
(** internal/order/service.go: the business rules, over the ports of [Store].

    [S] is the state of the store and [T] the state a transaction works on.  The values
    the injected clock and id generator return to a call are arguments of that call. *)

From S2P Require Import Prelude GoErr GoStr Money Order Cursor Store.

(** [now] of Go's time package is an instant; [.UTC()] does not change it. *)
Record CreateCommand := mkCreateCommand {
  CmdTenantID : string; CmdCustomerID : string; CmdItems : list Item }.

Section Service.
Context `{Unicode, CursorEnv}.
Context {S T : Type} `{!StoreOps S, !StoreOps T, !AtomicOps S T}.

(** [newUUIDv7]: the library call and the wrapping of its error. *)
Definition newUUIDv7 (uuid_NewV7 : result string) : result string :=
  mapErr (wrapf [PStr "generate order id"]) uuid_NewV7.

Definition Create (newID : result string) (now : Z) (cmd : CreateCommand) : stm S Order :=
  if (CmdTenantID cmd =? "")%string then fail ErrMissingTenant
  else if (length (CmdItems cmd) =? 0)%nat then fail ErrNoItems
  else
    total ← lift (ComputeTotal (CmdItems cmd));
    id ← lift newID;
    let o := mkOrder id (CmdTenantID cmd) (CmdCustomerID cmd) StatusPending
               (CmdItems cmd) total now now in
    _ ← lift (OrderValidate o);
    _ ← InTx (T:=T)
          (_ ← store_Create o;
           pub_Publish (mkEvent EventOrderCreated (ID o) (TenantID o) now o));
    mret o.

Definition Get (tenantID orderID : string) : stm S Order :=
  if (tenantID =? "")%string then fail ErrMissingTenant
  else store_Get tenantID orderID.

Definition List (tenantID : string) (f : ListFilter) : stm S Page :=
  if (tenantID =? "")%string then fail ErrMissingTenant
  else store_List tenantID
         (mkFilter (FStatus f) (FCustomerID f) (ClampPageSize (PageSize f)) (PageToken f)).

Definition Cancel (now : Z) (tenantID orderID : string) : stm S Order :=
  if (tenantID =? "")%string then fail ErrMissingTenant
  else
    InTx (T:=T)
      (o ← store_Get tenantID orderID;
       o ← lift (Order.Cancel o now);
       _ ← store_Update o;
       _ ← pub_Publish (mkEvent EventOrderCancelled (ID o) (TenantID o) now o);
       mret o).

End Service.

(** * Calls and their interleavings

    A schedule is a sequence of whole calls.  The in-memory store's mutex makes every call one
    step, so this is any schedule of concurrent callers there; over Postgres it is callers who
    do not overlap (see [StoresAgree.concurrent_cancels] for two who do). *)

Inductive call :=
  | CallCreate (newID : result string) (now : Z) (cmd : CreateCommand)
  | CallGet (t i : string)
  | CallList (t : string) (f : ListFilter)
  | CallCancel (now : Z) (t i : string).

Inductive answer := AOrder (r : result Order) | APage (r : result Page).

Definition call_tenant (c : call) : string :=
  match c with
  | CallCreate _ _ cmd => CmdTenantID cmd
  | CallGet t _ | CallList t _ | CallCancel _ t _ => t
  end.

Section Runs.
Context `{Unicode, CursorEnv}.

Definition exec {S} T `{!StoreOps S, !StoreOps T, !AtomicOps S T} (c : call) (s : S)
    : answer * S :=
  match c with
  | CallCreate id now cmd => let '(r, s') := Create (T:=T) id now cmd s in (AOrder r, s')
  | CallGet t i => let '(r, s') := Get t i s in (AOrder r, s')
  | CallList t f => let '(r, s') := List t f s in (APage r, s')
  | CallCancel now t i => let '(r, s') := Cancel (T:=T) now t i s in (AOrder r, s')
  end.

Fixpoint run {S} T `{!StoreOps S, !StoreOps T, !AtomicOps S T} (cs : list call) (s : S)
    : list answer * S :=
  match cs with
  | [] => ([], s)
  | c :: r =>
      let '(x, s') := exec T c s in
      let '(xs, s'') := run T r s' in (x :: xs, s'')
  end.

(** * Refinement: the service over any simulated store behaves like the service over the
    abstract one. *)

Definition ans_eq (x y : answer) : Prop :=
  match x, y with
  | AOrder r, AOrder r' => res_eq r r'
  | APage r, APage r' => res_eq r r'
  | _, _ => False
  end.

#[export] Instance ans_eq_equiv : Equivalence ans_eq.
Proof.
  assert (forall A, Equivalence (@res_eq A)) as Heq.
  { intros A. split; [intros []|intros [] []|intros [] [] []]; cbn; try done.
    - intros E1 E2. congruence.
    - intros E1 E2. by etrans. }
  split; [intros []|intros [] []|intros [] [] []]; cbn; try done;
    first [by intros E; symmetry|by intros E1 E2; etrans].
Qed.

Context {S T : Type} `{!StoreOps S, !StoreOps T, !AtomicOps S T}.
Context (D : domain) (R : S -> sstate -> Prop) (RT : S -> T -> sstate -> Prop).
Context `{!StoreSim S D R, !forall s, StoreSim T D (RT s), !AtomicSim S T R RT}.

(** The implementation can represent what the call makes of the store [a]. *)
Definition call_ok (c : call) (a : sstate) : Prop :=
  match c with
  | CallCreate id now cmd =>
      forall u total, id = Ok u -> ComputeTotal (CmdItems cmd) = Ok total ->
        let o := mkOrder u (CmdTenantID cmd) (CmdCustomerID cmd) StatusPending
                   (CmdItems cmd) total now now in
        OrderValidate o = Ok tt ->
        can_create D o /\ can_publish D (mkEvent EventOrderCreated (ID o) (TenantID o) now o)
  | CallGet t i => can_get D t i
  | CallList t f =>
      can_list D t (mkFilter (FStatus f) (FCustomerID f) (ClampPageSize (PageSize f)) (PageToken f))
  | CallCancel now t i =>
      can_get D t i /\
      forall o o', s_orders a !! (t, i) = Some o -> Order.Cancel o now = Ok o' ->
        can_update D a o' /\
        can_publish D (mkEvent EventOrderCancelled (ID o') (TenantID o') now o')
  end.

Lemma sim_Cancel_body s now t i st a :
  call_ok (CallCancel now t i) a -> RT s st a ->
  sim (RT s)
    ((o ← store_Get t i; o ← lift (Order.Cancel o now); _ ← store_Update o;
      _ ← pub_Publish (mkEvent EventOrderCancelled (ID o) (TenantID o) now o); mret o) st)
    ((o ← store_Get t i; o ← lift (Order.Cancel o now); _ ← store_Update o;
      _ ← pub_Publish (mkEvent EventOrderCancelled (ID o) (TenantID o) now o); mret o) a).
Proof.
  intros [Ht Hok] HR.
  apply sim_bind; [by apply (sim_Get (S:=T))|].
  intros o st' a' Hget HR'. apply sim_bind; [by apply sim_lift|].
  intros o' st1 a1 Hc HR1.
  assert (s_orders a !! (t, i) = Some o /\ Order.Cancel o now = Ok o' /\ a1 = a) as (Hx & Hx' & ->).
  { cbn in Hget. destruct (t =? "")%string; [done|].
    destruct (s_orders a !! (t, i)) as [x|]; [|done]. injection Hget as <- <-.
    by injection Hc as ? <-. }
  destruct (Hok o o' Hx Hx') as [Hu He].
  apply sim_bind; [by apply (sim_Update (S:=T))|].
  intros [] st2 a2 _ HR2. apply sim_bind; [by apply (sim_Publish (S:=T))|].
  intros [] st3 a3 _ HR3. by split.
Qed.

Lemma exec_sim c s a :
  call_ok c a -> R s a ->
  ans_eq (exec T c s).1 (exec sstate c a).1 /\ R (exec T c s).2 (exec sstate c a).2.
Proof.
  intros Hok HR.
  assert (forall A (f : result A -> answer) (m : stm S A) (m' : stm sstate A),
            (forall r r', res_eq r r' -> ans_eq (f r) (f r')) -> sim R (m s) (m' a) ->
            ans_eq (let '(r, s') := m s in (f r, s')).1 (let '(r, s') := m' a in (f r, s')).1 /\
            R (let '(r, s') := m s in (f r, s')).2 (let '(r, s') := m' a in (f r, s')).2)
    as Hout.
  { intros A f m m' Hf [Hres HR']. destruct (m s), (m' a). cbn in *. auto. }
  destruct c as [id now cmd|t i|t f|now t i]; cbn [exec call_ok] in *;
    apply Hout; try done.
  - unfold Create. case_match; [by apply sim_lift|]. case_match; [by apply sim_lift|].
    apply sim_bind; [by apply sim_lift|]. intros total s1 a1 Htotal HR1.
    apply sim_bind; [by apply sim_lift|]. intros oid s2 a2 Hid HR2.
    apply sim_bind; [by apply sim_lift|]. intros [] s3 a3 Hval HR3.
    injection Htotal as Htotal _. injection Hid as Hid _. injection Hval as Hval _.
    destruct (Hok oid total Hid Htotal Hval) as [Hc He].
    apply sim_bind; [|by split].
    apply (sim_InTx (RT:=RT)); [|done]. intros st HRT.
    apply sim_bind; [by apply (sim_Create (S:=T))|].
    intros [] st' a'' _ HRT'. by apply (sim_Publish (S:=T)).
  - unfold Get. case_match; [by apply sim_lift|]. by apply (sim_Get (S:=S)).
  - unfold List. case_match; [by apply sim_lift|]. by apply (sim_List (S:=S)).
  - unfold Cancel. case_match; [by apply sim_lift|].
    apply (sim_InTx (RT:=RT)); [|done]. intros st HRT. by apply sim_Cancel_body.
Qed.

Lemma run_sim cs s a :
  Forall (fun c => forall s a, R s a -> call_ok c a) cs -> R s a ->
  Forall2 ans_eq (run T cs s).1 (run sstate cs a).1 /\ R (run T cs s).2 (run sstate cs a).2.
Proof.
  intros Hok. revert s a. induction Hok as [|c cs Hc _ IH]; intros s a HR; cbn; [by split|].
  destruct (exec_sim c s a (Hc s a HR) HR) as [Ha HR'].
  destruct (exec T c s) as [x s'], (exec sstate c a) as [y a'] eqn:Ey. cbn in *.
  destruct (IH s' a' HR') as [Has HRs].
  destruct (run T cs s'), (run sstate cs a'). cbn in *. auto.
Qed.

End Runs.
