(* ===== verification/ServiceSpec.v ===== *)
(** What the order service guarantees: each call is all-or-nothing, orders and events
    stay in step under every schedule of calls, and the in-memory deployment behaves
    like the abstract store. *)

From S2P Require Import Prelude GoErr GoStr Money Order Cursor Store OrderMem Service.

(** The events published for one order. *)
Definition history (t i : string) (evs : list Event) : list Event :=
  List.filter (fun e => (ETenantID e =? t)%string && (AggregateID e =? i)%string) evs.

(** The events an order has published, from its current state: one creation, and one
    cancellation if and only if it is cancelled. *)
Definition in_step (t i : string) (x : option Order) (evs : list Event) : Prop :=
  match x with
  | None => evs = []
  | Some o =>
      exists o0, OStatus o0 = StatusPending /\
      ((o = o0 /\ evs = [mkEvent EventOrderCreated i t (CreatedAt o) o]) \/
       (Order.Cancel o0 (UpdatedAt o) = Ok o /\
        evs = [mkEvent EventOrderCreated i t (CreatedAt o) o0;
               mkEvent EventOrderCancelled i t (UpdatedAt o) o]))
  end.

Section Facts.
Context `{Unicode, CursorEnv}.

Record consistent (a : sstate) : Prop := {
  cons_wf : sstate_wf a;
  cons_valid : forall t i o, s_orders a !! (t, i) = Some o -> OrderValidate o = Ok tt;
  cons_events : forall t i, in_step t i (s_orders a !! (t, i)) (history t i (s_events a)) }.

Lemma history_snoc t i evs e :
  history t i (evs ++ [e]) =
    history t i evs ++
    (if (ETenantID e =? t)%string && (AggregateID e =? i)%string then [e] else []).
Proof.
  unfold history. rewrite List.filter_app. cbn. by destruct (_ && _).
Qed.

Lemma history_other t i t' i' evs e :
  ETenantID e = t' -> AggregateID e = i' -> (t', i') <> (t, i) ->
  history t i (evs ++ [e]) = history t i evs.
Proof.
  intros <- <- Hne. rewrite history_snoc.
  destruct (String.eqb_spec (ETenantID e) t), (String.eqb_spec (AggregateID e) i); cbn;
    rewrite ?app_nil_r; congruence.
Qed.

Lemma history_own t i evs e :
  ETenantID e = t -> AggregateID e = i ->
  history t i (evs ++ [e]) = history t i evs ++ [e].
Proof. intros <- <-. by rewrite history_snoc, !String.eqb_refl. Qed.

(** The effect of a create on the abstract store. *)
Lemma Create_effect id now cmd a :
  match Service.Create (T:=sstate) id now cmd a with
  | (Ok o, a') =>
      s_orders a !! (TenantID o, ID o) = None /\
      a' = mkS (<[(TenantID o, ID o) := o]> (s_orders a))
             (s_events a ++ [mkEvent EventOrderCreated (ID o) (TenantID o) now o]) /\
      OrderValidate o = Ok tt /\ id = Ok (ID o) /\
      o = mkOrder (ID o) (CmdTenantID cmd) (CmdCustomerID cmd) StatusPending
            (CmdItems cmd) (OTotal o) now now
  | (Err _, a') => a' = a
  end.
Proof.
  unfold Service.Create.
  destruct (CmdTenantID cmd =? "")%string eqn:Ht; [done|].
  destruct (length (CmdItems cmd) =? 0)%nat; [done|].
  unfold mbind, stm_bind, lift, mret, stm_ret.
  destruct (ComputeTotal (CmdItems cmd)) as [total|]; [|done].
  destruct id as [oid|]; [|done].
  destruct (OrderValidate _) as [[]|] eqn:Hv; [|done].
  cbn -[OrderValidate lookup insert]. rewrite Ht.
  destruct (s_orders a !! (CmdTenantID cmd, oid)) eqn:Hl; [done|].
  cbn -[OrderValidate lookup insert]. split_ands; try done.
Qed.

(** The effect of a cancel on the abstract store. *)
Lemma Cancel_effect now t i a :
  sstate_wf a ->
  match Service.Cancel (T:=sstate) now t i a with
  | (Ok o', a') =>
      exists o, s_orders a !! (t, i) = Some o /\ Order.Cancel o now = Ok o' /\
        a' = mkS (<[(t, i) := o']> (s_orders a))
               (s_events a ++ [mkEvent EventOrderCancelled i t now o'])
  | (Err e, a') =>
      a' = a /\
      ((t = "" /\ errIs ErrMissingTenant e = true) \/
       (s_orders a !! (t, i) = None /\ errIs ErrNotFound e = true) \/
       (exists o, s_orders a !! (t, i) = Some o /\ errIs ErrInvalidTransition e = true /\
          OStatus o <> StatusPending /\ OStatus o <> StatusConfirmed))
  end.
Proof.
  intros Hw. unfold Service.Cancel.
  destruct (String.eqb_spec t "") as [->|Ht]; [by split; [|left]|].
  unfold mbind, stm_bind, lift, mret, stm_ret. cbn -[Order.Cancel lookup insert].
  apply String.eqb_neq in Ht as Ht'. rewrite Ht'.
  destruct (s_orders a !! (t, i)) as [o|] eqn:Ho; [|by split; [|right; left]].
  destruct (Hw t i o Ho) as [HT HI].
  pose proof (Cancel_spec o now) as Hc. case_decide as Hs.
  - destruct Hc as (o' & Hok & Hst & Hup & [= EI ET _ _ _ _]). rewrite Hok.
    cbn -[lookup insert]. rewrite ET, EI, HT, HI, Ht', Ho. exists o.
    split_ands; done.
  - destruct (Order.Cancel o now) as [|e]; [done|]. split; [done|].
    right; right. exists o. split_ands; try done; intros Hx; apply Hs; auto.
Qed.

Lemma Cancel_fields o at_ o' :
  Order.Cancel o at_ = Ok o' ->
  OStatus o' = StatusCancelled /\ UpdatedAt o' = at_ /\ ID o' = ID o /\
  TenantID o' = TenantID o /\ CustomerID o' = CustomerID o /\ Items o' = Items o /\
  OTotal o' = OTotal o /\ CreatedAt o' = CreatedAt o.
Proof. unfold Order.Cancel. case_match; [done|]. intros [= <-]. done. Qed.

Lemma Cancel_valid o at_ o' :
  Order.Cancel o at_ = Ok o' -> OrderValidate o = Ok tt -> OrderValidate o' = Ok tt.
Proof.
  intros (Hs & _ & _ & Ht & Hc & Hi & Hot & _)%Cancel_fields.
  rewrite !OrderValidate_spec, Hs, Ht, Hc, Hi, Hot. naive_solver.
Qed.

Lemma insert_wf a t i o evs :
  sstate_wf a -> TenantID o = t -> ID o = i ->
  sstate_wf (mkS (<[(t, i) := o]> (s_orders a)) evs).
Proof.
  intros Hw Ht Hi t' i' o'. cbn [s_orders]. rewrite lookup_insert.
  case_decide as E; [|apply Hw]. injection E as <- <-. by intros [= <-].
Qed.

Lemma Create_consistent id now cmd a :
  consistent a -> consistent (Service.Create (T:=sstate) id now cmd a).2.
Proof.
  intros [Hw Hv He]. pose proof (Create_effect id now cmd a) as Heff.
  destruct (Service.Create _ _ _ a) as [[o|e] a']; cbn [snd]; [|by subst a'].
  destruct Heff as (Hnone & -> & Hval & _ & Ho). split.
  - by apply insert_wf.
  - intros t i o'. cbn [s_orders]. rewrite lookup_insert.
    case_decide; [by intros [= <-]|apply Hv].
  - intros t i. cbn [s_orders s_events]. rewrite lookup_insert. case_decide as E.
    + injection E as <- <-.
      rewrite history_own by done.
      specialize (He (TenantID o) (ID o)). rewrite Hnone in He. cbn in He. rewrite He. cbn.
      assert (CreatedAt o = now /\ OStatus o = StatusPending) as [-> ?] by (by rewrite Ho).
      exists o. split; [done|by left].
    + by rewrite (history_other t i (TenantID o) (ID o)).
Qed.

Lemma Cancel_consistent now t i a :
  consistent a -> consistent (Service.Cancel (T:=sstate) now t i a).2.
Proof.
  intros [Hw Hv He]. pose proof (Cancel_effect now t i a Hw) as Heff.
  destruct (Service.Cancel _ _ _ a) as [[o'|e] a']; cbn [snd]; [|by destruct Heff as [-> _]].
  destruct Heff as (o & Ho & Hc & ->). destruct (Hw t i o Ho) as [HT HI].
  destruct (Cancel_fields o now o' Hc) as (Hs & Hu & HID & HTen & _ & _ & _ & HC).
  split.
  - by apply insert_wf; [|rewrite HTen|rewrite HID].
  - intros t' i' x. cbn [s_orders]. rewrite lookup_insert. case_decide; [|apply Hv].
    intros [= <-]. by eapply Cancel_valid, Hv.
  - intros t' i'. cbn [s_orders s_events]. rewrite lookup_insert. case_decide as E.
    + injection E as <- <-.
      rewrite history_own by done.
      specialize (He t i). rewrite Ho in He. destruct He as (o0 & Hp & [[<- Hh]|[Hc0 Hh]]).
      * exists o. split; [done|]. right. rewrite Hu, HC, Hh. done.
      * exfalso. pose proof (Cancel_twice _ _ _ now Hc0) as Hf. by rewrite Hc in Hf.
    + by rewrite (history_other t' i' t i).
Qed.

Lemma exec_consistent c a : consistent a -> consistent (exec sstate c a).2.
Proof.
  intros Hc. destruct c as [id now cmd|t i|t f|now t i]; cbn [exec].
  - pose proof (Create_consistent id now cmd a Hc). by destruct (Service.Create _ _ _ a).
  - unfold Service.Get. destruct (t =? "")%string eqn:Ht; [done|]. cbn -[lookup].
    rewrite Ht. by destruct (s_orders a !! _).
  - unfold Service.List. by destruct (t =? "")%string.
  - pose proof (Cancel_consistent now t i a Hc). by destruct (Service.Cancel _ _ _ a).
Qed.

Lemma run_consistent cs a : consistent a -> consistent (run sstate cs a).2.
Proof.
  revert a. induction cs as [|c cs IH]; intros a Ha; cbn [run]; [done|].
  pose proof (exec_consistent c a Ha) as Hc. destruct (exec sstate c a) as [x a'].
  specialize (IH a' Hc). by destruct (run sstate cs a').
Qed.

Definition empty_sstate : sstate := mkS ∅ [].

Lemma empty_consistent : consistent empty_sstate.
Proof. split; cbn; intros *; rewrite ?lookup_empty; done. Qed.

(** The rows of the empty store. *)
Lemma empty_rep : store_rep New empty_sstate.
Proof.
  split; cbn; intros *; rewrite ?lookup_empty; done.
Qed.

(** Calls by tenants without a NUL byte stay in the domain of the in-memory store. *)
Lemma mem_call_ok c s a :
  nul_free (call_tenant c) -> store_rep s a -> call_ok mem_domain c a.
Proof.
  intros Hc HR. destruct c as [id now cmd|t i|t f|now t i]; cbn in *; try done.
  split; [done|]. intros o o' Ho Hcan. split; [|done].
  unfold Order.Cancel in Hcan. destruct (negb _); [done|]. injection Hcan as <-. cbn.
  by destruct (rep_wf _ _ HR t i o Ho) as [-> _].
Qed.

Lemma mem_run_sim cs s a :
  Forall (fun c => nul_free (call_tenant c)) cs -> store_rep s a ->
  Forall2 ans_eq (run state cs s).1 (run sstate cs a).1 /\
  store_rep (run state cs s).2 (run sstate cs a).2.
Proof.
  intros Hcs HR. apply (run_sim mem_domain store_rep (fun _ => rep)); [|done].
  eapply Forall_impl; [exact Hcs|]. intros c Hc s' a' HR'. by eapply mem_call_ok.
Qed.

(** C1. The service over the in-memory store refines the service over the abstract
    store: for every schedule of calls by tenants without a NUL byte, starting from an
    empty store, each call is answered as the abstract store answers it (the same orders
    and pages, and errors that [errors.Is] cannot tell apart). *)
Theorem mem_refines cs :
  Forall (fun c => nul_free (call_tenant c)) cs ->
  Forall2 ans_eq (run state cs New).1 (run sstate cs empty_sstate).1.
Proof.
  intros Hcs. by apply (mem_run_sim cs New empty_sstate Hcs empty_rep).
Qed.

(** C15. Orders and events stay in step: after any schedule of calls on the in-memory
    store by tenants whose names hold no NUL byte (those could share a key), an order that exists has published exactly its creation, followed by exactly
    one cancellation (carrying the order as stored) if and only if it is cancelled; an
    order that does not exist has published nothing; and every stored order is valid. *)
Theorem events_in_step cs t i :
  Forall (fun c => nul_free (call_tenant c)) cs -> nul_free t ->
  let s := data (run state cs New).2 in
  in_step t i (orders s !! key t i) (history t i (events s)) /\
  (forall o, orders s !! key t i = Some o -> OrderValidate o = Ok tt).
Proof.
  intros Hcs Ht s.
  destruct (mem_run_sim cs New empty_sstate Hcs empty_rep) as [_ HR].
  pose proof (run_consistent cs empty_sstate empty_consistent) as [Hw Hv He].
  destruct HR as [Hl _ Hev _ _]. fold s in Hl, Hev.
  rewrite Hl, Hev by done. split; [apply He|]. intros o Ho. by eapply Hv.
Qed.

(** * Concurrent cancels *)

(** A successful cancel of order [i] of tenant [t]. *)
Definition cancelled_by (t i : string) (cx : call * answer) : bool :=
  match cx with
  | (CallCancel _ t' i', AOrder (Ok _)) => (t' =? t)%string && (i' =? i)%string
  | _ => false
  end.

Definition cancels (t i : string) (cs : list call) (xs : list answer) : nat :=
  length (List.filter (cancelled_by t i) (zip cs xs)).

Definition is_cancelled (t i : string) (a : sstate) : nat :=
  match s_orders a !! (t, i) with
  | Some o => if decide (OStatus o = StatusCancelled) then 1 else 0
  | None => 0
  end.

(** A cancel that succeeds makes the order cancelled, and a cancelled order stays so. *)
Lemma exec_cancelled t i c a :
  consistent a ->
  ((if cancelled_by t i (c, (exec sstate c a).1) then 1 else 0) + is_cancelled t i a
     <= is_cancelled t i (exec sstate c a).2)%nat.
Proof.
  intros [Hw _ _]. destruct c as [id now cmd|t' i'|t' f|now t' i']; cbn [exec].
  - pose proof (Create_effect id now cmd a) as Heff.
    destruct (Service.Create _ _ _ a) as [[o|e] a']; cbn [fst snd cancelled_by];
      [|by subst a'].
    destruct Heff as (Hnone & -> & _). unfold is_cancelled. cbn [s_orders].
    rewrite lookup_insert. case_decide as E; [|lia].
    injection E as <- <-. rewrite Hnone. lia.
  - unfold Service.Get. destruct (t' =? "")%string eqn:Ht; [cbn; lia|].
    cbn -[lookup]. rewrite Ht. destruct (s_orders a !! _); cbn; lia.
  - unfold Service.List. by destruct (t' =? "")%string.
  - pose proof (Cancel_effect now t' i' a Hw) as Heff.
    destruct (Service.Cancel _ _ _ a) as [[o'|e] a']; cbn [fst snd cancelled_by];
      [|destruct Heff as [-> _]; lia].
    destruct Heff as (o & Ho & Hc & ->).
    destruct (Cancel_fields o now o' Hc) as (Hs & _).
    unfold is_cancelled. cbn [s_orders]. rewrite lookup_insert.
    destruct (String.eqb_spec t' t) as [->|Ht], (String.eqb_spec i' i) as [->|Hi]; cbn;
      [|rewrite decide_False by congruence; lia..].
    rewrite decide_True, Ho by done. rewrite (decide_True _ _ Hs).
    case_decide as Hso; [|lia]. exfalso. unfold Order.Cancel in Hc. by rewrite Hso in Hc.
Qed.

Lemma run_cancelled t i cs a :
  consistent a ->
  (cancels t i cs (run sstate cs a).1 + is_cancelled t i a
     <= is_cancelled t i (run sstate cs a).2)%nat.
Proof.
  unfold cancels. revert a. induction cs as [|c cs IH]; intros a Ha; cbn [run]; [done|].
  pose proof (exec_cancelled t i c a Ha) as Hstep.
  pose proof (exec_consistent c a Ha) as Hc. destruct (exec sstate c a) as [x a'].
  cbn [fst snd] in *. specialize (IH a' Hc). destruct (run sstate cs a') as [xs a''].
  cbn [fst snd zip_with List.filter] in *. destruct (cancelled_by t i (c, x)); cbn; lia.
Qed.

Lemma cancels_ans_eq t i cs xs ys :
  Forall2 ans_eq xs ys -> cancels t i cs xs = cancels t i cs ys.
Proof.
  unfold cancels. intros Hxy. revert cs.
  induction Hxy as [|x y xs ys Hxy _ IH]; intros [|c cs]; try done.
  cbn [zip_with List.filter].
  assert (cancelled_by t i (c, x) = cancelled_by t i (c, y)) as ->.
  { destruct c; try done. by destruct x as [[]|], y as [[]|]. }
  destruct (cancelled_by t i (c, y)); cbn; by rewrite IH.
Qed.

(** No lost update on cancel: however concurrent calls on the in-memory store are
    scheduled, at most one cancel of a given order succeeds, and then the stored order is
    cancelled for good. *)
Theorem cancel_at_most_once cs t i :
  Forall (fun c => nul_free (call_tenant c)) cs -> nul_free t ->
  let xs := (run state cs New).1 in
  let s := (run state cs New).2 in
  (cancels t i cs xs <= 1)%nat /\
  (cancels t i cs xs = 1%nat ->
     exists o, orders (data s) !! key t i = Some o /\ OStatus o = StatusCancelled).
Proof.
  intros Hcs Ht.
  destruct (mem_run_sim cs New empty_sstate Hcs empty_rep) as [Hx HR].
  destruct (run state cs New) as [xs s]. cbn [fst snd] in *.
  pose proof (run_cancelled t i cs empty_sstate empty_consistent) as Hc.
  rewrite <- (cancels_ans_eq t i cs _ _ Hx) in Hc.
  unfold is_cancelled in Hc. cbn [s_orders empty_sstate] in Hc. rewrite lookup_empty in Hc.
  pose proof (rep_lookup _ _ HR t i Ht) as Hl. rewrite Hl.
  destruct (s_orders (run sstate cs empty_sstate).2 !! (t, i)) as [o|]; [|lia].
  case_decide; [|lia]. split; [lia|]. eauto.
Qed.

(** An operation whose failures leave the store alone. *)
Definition traceless {A} (m : stm Store A) : Prop :=
  forall s e s', m s = (Err e, s') -> s' = s.

Lemma traceless_fail {A} e : traceless (fail (A:=A) e).
Proof. by intros s e' s' [= _ <-]. Qed.

Lemma traceless_lift {A B} (r : result A) (k : A -> stm Store B) :
  (forall x, traceless (k x)) -> traceless (lift r ≫= k).
Proof.
  intros Hk s e s'. destruct r as [x|e0]; [exact (Hk x s e s')|]. by intros [= _ <-].
Qed.

Lemma traceless_InTx {A} (fn : stm state A) : traceless (OrderMem.InTx fn).
Proof.
  intros s e s'. unfold OrderMem.InTx. destruct (fn _) as [[x|e0] d]; [done|]. by intros [= _ <-].
Qed.

Lemma traceless_mret {A B} (m : stm Store A) (y : A -> B) :
  traceless m -> traceless (x ← m; mret (y x)).
Proof.
  intros Hm s e s' E. specialize (Hm s). unfold mbind, stm_bind in E.
  destruct (m s) as [[x|e0] s0]; [done|]. injection E as _ <-. by apply (Hm e0).
Qed.

Lemma traceless_locked {A} (f : stm state A) :
  (forall d, (f d).2 = d) -> traceless (locked f) /\ forall s, (locked f s).2 = s.
Proof.
  intros Hf.
  assert (forall s, (locked f s).2 = s) as E.
  { intros s. unfold locked. specialize (Hf (data s)).
    destruct (f (data s)) as [r d]. cbn in *. subst d. by destruct s. }
  split; [|done]. intros s e s' Es. by rewrite <- (E s), Es.
Qed.

#[local] Hint Resolve traceless_fail traceless_lift traceless_InTx traceless_mret : go.

Lemma Create_traceless id now cmd : traceless (Service.Create (T:=state) id now cmd).
Proof. unfold Service.Create. repeat case_match; auto 10 with go. Qed.

Lemma Cancel_traceless now t i : traceless (Service.Cancel (T:=state) now t i).
Proof. unfold Service.Cancel. case_match; auto with go. Qed.

Lemma Get_reads t i (s : Store) : (Service.Get t i s).2 = s.
Proof.
  unfold Service.Get. case_match; [done|]. apply traceless_locked. intros d.
  unfold OrderMem.Get. repeat case_match; done.
Qed.

Lemma List_reads t f (s : Store) : (Service.List t f s).2 = s.
Proof. unfold Service.List. case_match; [done|]. by apply traceless_locked. Qed.

(** A call that answers an error. *)
Definition failed (x : answer) : bool :=
  match x with AOrder (Ok _) | APage (Ok _) => false | _ => true end.

Definition is_read (c : call) : bool :=
  match c with CallGet _ _ | CallList _ _ => true | _ => false end.

(** All or nothing: a call on the in-memory store that fails, at whatever step of the
    transaction, leaves orders and events exactly as they were, and reads never change
    the store. *)
Theorem failed_calls_leave_no_trace c s :
  failed (exec state c s).1 = true \/ is_read c = true -> (exec state c s).2 = s.
Proof.
  destruct c as [id now cmd|t i|t f|now t i]; cbn [exec is_read].
  - pose proof (Create_traceless id now cmd s).
    destruct (Service.Create _ _ _ s) as [[x|e] s']; intros [|]; try done. naive_solver.
  - pose proof (Get_reads t i s). by destruct (Service.Get t i s).
  - pose proof (List_reads t f s). by destruct (Service.List t f s).
  - pose proof (Cancel_traceless now t i s).
    destruct (Service.Cancel _ _ _ s) as [[x|e] s']; intros [|]; try done. naive_solver.
Qed.

End Facts.

(** * The theorems on a short schedule: a create, two cancels, a read *)

#[local] Existing Instance ascii_tables.
#[local] Existing Instance bits_env.

Definition some_id : string := "018f0000-0000-7000-8000-000000000001".
Definition some_calls : list call :=
  [CallCreate (Ok some_id) 7 (mkCreateCommand "acme" "cust-1" (Items two_lines));
   CallCancel 8 "acme" some_id; CallCancel 9 "acme" some_id; CallGet "acme" some_id].

Lemma some_calls_nul_free : Forall (fun c => nul_free (call_tenant c)) some_calls.
Proof. repeat constructor. Defined.

Lemma mem_refines_witness :
  Forall2 ans_eq
    (run state some_calls New).1
    (run sstate some_calls empty_sstate).1.
Proof. apply (mem_refines). exact some_calls_nul_free. Defined.

Lemma events_in_step_witness :
  let s := data (run state some_calls New).2 in
  in_step "acme" some_id (orders s !! key "acme" some_id) (history "acme" some_id (events s)).
Proof.
  apply (events_in_step some_calls "acme" some_id);
    [exact some_calls_nul_free|exact I].
Defined.

Lemma cancel_at_most_once_witness :
  (cancels "acme" some_id some_calls (run state some_calls New).1 <= 1)%nat.
Proof.
  destruct (cancel_at_most_once some_calls "acme" some_id some_calls_nul_free I) as [H _].
  exact H.
Defined.

Lemma failed_calls_leave_no_trace_witness :
  let s := (run state [CallCreate (Ok some_id) 7
             (mkCreateCommand "acme" "cust-1" (Items two_lines))] New).2 in
  (exec state (CallCreate (Ok some_id) 9
     (mkCreateCommand "acme" "cust-2" (Items two_lines))) s).2 = s.
Proof.
  intros s. apply failed_calls_leave_no_trace. left. vm_compute. reflexivity.
Defined.
