(* ===== verification/Auth.v ===== *)
(** internal/platform/auth: principals, request contexts, claim mapping and the
    authorisation policy.

    A [context] holds what the program stores in or reads from a Go [context.Context]:
    the verified principal, the deadline and the incoming gRPC metadata.  JSON claims are
    a tree; object members are a map, as [encoding/json] decodes them. *)

From S2P Require Import Prelude GoErr GoStr.

(** * Principals and contexts *)

Record Principal := mkPrincipal {
  Subject : string; PTenantID : string; Scopes : list string; IsService : bool }.

#[export] Instance Principal_eq_dec : EqDecision Principal.
Proof. solve_decision. Defined.

Definition HasScope (p : Principal) (want : string) : bool :=
  existsb (fun s => (s =? want)%string) (Scopes p).

(** Instants and durations in nanoseconds. *)
Record context := mkContext {
  CtxPrincipal : option Principal;
  CtxDeadline : option Z;
  CtxMetadata : option (gmap string (list string)) }.

Definition Background : context := mkContext None None None.

Definition WithPrincipal (ctx : context) (p : Principal) : context :=
  mkContext (Some p) (CtxDeadline ctx) (CtxMetadata ctx).

Definition PrincipalFrom (ctx : context) : option Principal := CtxPrincipal ctx.

Definition TenantFrom (ctx : context) : option string :=
  match PrincipalFrom ctx with
  | None => None
  | Some p => if (PTenantID p =? "")%string then None else Some (PTenantID p)
  end.

(** * The development verifier *)

Definition DevPrincipal : Principal :=
  mkPrincipal "dev-user" "dev-tenant" ["orders:read"; "orders:write"] false.

Definition DevVerify (rawToken : string) : result Principal := Ok DevPrincipal.

(** * Policy *)

Record Rule := mkRule { Public : bool; RScopes : list string }.

(** A Go map from full method names to rules. *)
Definition Policy : Type := gmap string Rule.

Definition Check (p : Policy) (method : string) (principal : Principal) (authenticated : bool)
    : result unit :=
  match p !! method with
  | None => Err (EFmt [PStr "no policy entry for "; PStr method])
  | Some rule =>
      if Public rule then Ok tt
      else if negb authenticated
      then Err (EFmt [PStr method; PStr " requires authentication"])
      else
        let missing := List.filter (fun want => negb (HasScope principal want)) (RScopes rule) in
        match missing with
        | [] => Ok tt
        | _ => Err (EFmt [PStr method; PStr " requires scope(s) ";
                          PStr (String.concat ", " missing)])
        end
  end.

(** The two lists [ValidateCoverage] reports, before sorting: served methods without a
    rule, with repetitions, and rules for methods nobody knows, in the order [keys] the
    runtime iterates the map. *)
Definition uncovered (p : Policy) (served : list string) : list string :=
  List.filter (fun m => bool_decide (p !! m = None)) served.

Definition stale (keys : list string) (served declared : list string) : list string :=
  List.filter (fun m => negb (bool_decide (m ∈ served)) && negb (bool_decide (m ∈ declared))) keys.

Definition listLines (l : list string) : text :=
  concat ((fun m => [PStr "    "; PStr m; PStr (String "010"%char EmptyString)]) <$> l).

Definition NL : string := String "010"%char EmptyString.

Definition ValidateCoverage (p : Policy) (keys served declared : list string) : result unit :=
  let unc := uncovered p served in
  let stl := stale keys served declared in
  match unc, stl with
  | [], [] => Ok tt
  | _, _ =>
      let unc := sort_strings unc in
      let stl := sort_strings stl in
      Err (EFmt
        ([PStr "authorisation policy does not match the served methods:"; PStr NL] ++
         (match unc with
          | [] => []
          | _ =>
              [PStr NL;
               PStr "  served but NOT in the policy (these would be denied at runtime):"; PStr NL]
              ++ listLines unc ++
              [PStr NL;
               PStr "  Add a Rule for each in internal/grpcapi/policy.go. If an RPC really is"; PStr NL;
               PStr "  unauthenticated, say so with Rule{Public: true} -- an explicit decision that"; PStr NL;
               PStr "  shows up in review, rather than an omission that does not."; PStr NL]
          end) ++
         (match stl with
          | [] => []
          | _ =>
              [PStr NL;
               PStr "  in the policy and declared NOWHERE -- not served, and in no .proto"; PStr NL;
               PStr "  (dead rules, almost certainly a rename):"; PStr NL]
              ++ listLines stl
          end)))
  end.

(** The descriptor registry: files as (package, services), a service as its full name
    and its methods, in the order the registry walks them. *)
Definition MethodsInPackages (files : list (string * list (string * list string)))
    (packages : list string) : list string :=
  sort_strings (List.flat_map
    (fun file : string * list (string * list string) =>
       if bool_decide (file.1 ∈ packages)
       then List.flat_map (fun svc : string * list string =>
              List.map (fun m => "/" +:+ svc.1 +:+ "/" +:+ m) svc.2) file.2
       else []) files).

(** * Claims *)

(** A decoded JSON value; [JStrings] is the Go type [[]string], which the decoder does
    not produce but the code accepts. *)
#[warnings="-register-all"]
Inductive json :=
  | JNull | JBool (b : bool) | JNumber (digits : string) | JString (s : string)
  | JArray (l : list json) | JStrings (l : list string) | JObject (m : gmap string json).

(** [%T] of a decoded value. *)
Definition typeName (j : json) : string :=
  match j with
  | JNull => "<nil>" | JBool _ => "bool" | JNumber _ => "float64" | JString _ => "string"
  | JArray _ => "[]interface {}" | JStrings _ => "[]string"
  | JObject _ => "map[string]interface {}"
  end.

Definition MapClaims : Type := gmap string json.

(** The walk of a dotted path; each step needs an object with the member. *)
Fixpoint walkPath (current : json) (parts : list string) : option json :=
  match parts with
  | [] => Some current
  | part :: r =>
      match current with
      | JObject m => match m !! part with Some v => walkPath v r | None => None end
      | _ => None
      end
  end.

Definition dot : ascii := "."%char.

Definition lookupClaim (claims : MapClaims) (path : string) : option json :=
  if (path =? "")%string then None
  else match claims !! path with
       | Some v => Some v
       | None =>
           let parts := Split dot path in
           if (length parts =? 1)%nat then None
           else walkPath (JObject claims) parts
       end.

Section WithUnicode.
Context `{Unicode}.

Definition stringClaim (claims : MapClaims) (path : string) : result string :=
  match lookupClaim claims path with
  | None => Err (errorsNew "claim not present")
  | Some (JString s) =>
      if (TrimSpace s =? "")%string then Err (errorsNew "claim is empty") else Ok s
  | Some raw => Err (EFmt [PStr "claim is "; PStr (typeName raw); PStr ", want string"])
  end.

Definition string_item (j : json) : list string :=
  match j with JString s => if (s =? "")%string then [] else [s] | _ => [] end.

Definition scopesClaim (claims : MapClaims) (path : string) : list string :=
  match lookupClaim claims path with
  | Some (JString s) => Fields s
  | Some (JStrings l) => l
  | Some (JArray l) => concat (string_item <$> l)
  | _ => []
  end.

Definition ServiceTokenValue : string := "service".

Definition isServiceToken (claims : MapClaims) (sub serviceClaim : string) : bool :=
  if existsb (fun key => match claims !! key with
                         | Some (JString id) => negb (id =? "")%string && (id =? sub)%string
                         | _ => false
                         end) ["client_id"; "azp"]
  then true
  else if (serviceClaim =? "")%string then false
  else match stringClaim claims serviceClaim with
       | Err _ => false
       | Ok val => (val =? ServiceTokenValue)%string
       end.

(** The claim names of [OIDCOptions] that [principalFrom] reads. *)
Record ClaimOptions := mkClaimOptions {
  TenantClaim : string; ScopeClaim : string; ServiceClaim : string }.

Definition subject (claims : MapClaims) : string :=
  match claims !! "sub" with Some (JString s) => s | _ => "" end.

Definition principalFrom (opts : ClaimOptions) (claims : MapClaims) : result Principal :=
  let sub := subject claims in
  if (sub =? "")%string
  then Err (errorf ErrInvalidToken [PStr "token has no sub claim"])
  else
    tenant ← mapErr (fun err => errorf ErrInvalidToken
               [PStr "no tenant in claim "; PQuote (TenantClaim opts); PStr " ("; PVal err;
                PStr "). Add a protocol mapper that puts the tenant id in this claim, ";
                PStr "or set OIDC_TENANT_CLAIM to wherever your provider puts it"])
             (stringClaim claims (TenantClaim opts));
    mret (mkPrincipal sub tenant (scopesClaim claims (ScopeClaim opts))
            (isServiceToken claims sub (ServiceClaim opts))).

End WithUnicode.

(** * Policy: what [Check] and [ValidateCoverage] decide *)

Lemma HasScope_elem p s : HasScope p s = true <-> s ∈ Scopes p.
Proof.
  unfold HasScope. rewrite existsb_exists. split.
  - intros (x & Hx & ->%String.eqb_eq). by apply list_elem_of_In.
  - intros Hs. exists s. split; [by apply list_elem_of_In|apply String.eqb_refl].
Qed.

Lemma missing_nil p l :
  List.filter (fun want => negb (HasScope p want)) l = [] <-> Forall (fun w => w ∈ Scopes p) l.
Proof.
  induction l as [|w l IH]; cbn; [done|]. rewrite Forall_cons.
  destruct (HasScope p w) eqn:E; cbn.
  - rewrite IH. apply HasScope_elem in E. naive_solver.
  - split; [done|]. intros [Hw _]. apply HasScope_elem in Hw. congruence.
Qed.

(** Default deny: [Check] lets a call through exactly when the method has a rule that
    is public, or the caller is authenticated and holds every scope the rule names. *)
Lemma Check_Ok p m pr auth :
  Check p m pr auth = Ok tt <->
  exists rule, p !! m = Some rule /\
    (Public rule = true \/
     (auth = true /\ Forall (fun w => w ∈ Scopes pr) (RScopes rule))).
Proof.
  unfold Check. destruct (p !! m) as [rule|].
  2:{ split; [done|]. by intros (? & ? & _). }
  pose proof (missing_nil pr (RScopes rule)) as Hmiss.
  destruct (Public rule) eqn:Hp; [split; [eauto|done]|].
  destruct auth; cbn [negb].
  2:{ split; [done|]. intros (? & [= <-] & [?|[? _]]); congruence. }
  destruct (List.filter _ _); split; intros Hx; try done.
  - exists rule. split; [done|]. right. split; [done|]. by apply Hmiss.
  - destruct Hx as (? & [= <-] & [?|[_ ?%Hmiss]]); congruence.
Qed.

Lemma uncovered_nil p served :
  uncovered p served = [] <-> Forall (fun m => is_Some (p !! m)) served.
Proof.
  unfold uncovered. induction served as [|m l IH]; cbn; [done|]. rewrite Forall_cons.
  case_bool_decide as E; [|rewrite IH, <- not_eq_None_Some; naive_solver].
  split; [done|]. intros [[? ?] _]. congruence.
Qed.

Lemma stale_nil keys served declared :
  stale keys served declared = [] <-> Forall (fun m => m ∈ served \/ m ∈ declared) keys.
Proof.
  unfold stale. induction keys as [|m l IH]; cbn; [done|]. rewrite Forall_cons.
  repeat case_bool_decide; cbn; rewrite ?IH; naive_solver.
Qed.

(** The start-up check is exact, in whatever order the runtime walks the map: it passes
    if and only if every served method has a rule and every rule names a method that is
    served or declared. *)
Lemma ValidateCoverage_Ok (p : Policy) keys served declared :
  keys ≡ₚ (map_to_list p).*1 ->
  ValidateCoverage p keys served declared = Ok tt <->
  (forall m, m ∈ served -> is_Some (p !! m)) /\
  (forall m, is_Some (p !! m) -> m ∈ served \/ m ∈ declared).
Proof.
  intros Hk.
  assert (forall m, m ∈ keys <-> is_Some (p !! m)) as Hkeys.
  { intros m. rewrite Hk, list_elem_of_fmap. split.
    - intros ([m' r] & -> & Hr%elem_of_map_to_list). by exists r.
    - intros [r Hr]. exists (m, r). split; [done|]. by apply elem_of_map_to_list. }
  assert (ValidateCoverage p keys served declared = Ok tt <->
          uncovered p served = [] /\ stale keys served declared = []) as ->.
  { unfold ValidateCoverage. destruct (uncovered _ _), (stale _ _ _); naive_solver. }
  rewrite uncovered_nil, stale_nil, !Forall_forall. naive_solver.
Qed.

(** * Claims: what a principal is made of *)

Section ClaimFacts.
Context `{Unicode}.

Lemma stringClaim_Ok claims path s :
  stringClaim claims path = Ok s <->
  lookupClaim claims path = Some (JString s) /\ TrimSpace s <> "".
Proof.
  unfold stringClaim. destruct (lookupClaim claims path) as [[]|]; try naive_solver.
  destruct (TrimSpace s0 =? "")%string eqn:E; to_prop; naive_solver.
Qed.

(** A principal is never partial: when [principalFrom] succeeds the subject and the
    tenant are the non-empty strings the token carries in the configured claims, and a
    failure always wraps [ErrInvalidToken]. *)
Theorem principalFrom_complete opts claims :
  match principalFrom opts claims with
  | Ok p =>
      claims !! "sub" = Some (JString (Subject p)) /\ Subject p <> "" /\
      lookupClaim claims (TenantClaim opts) = Some (JString (PTenantID p)) /\
      TrimSpace (PTenantID p) <> "" /\ Scopes p = scopesClaim claims (ScopeClaim opts) /\
      forall ctx, TenantFrom (WithPrincipal ctx p) = Some (PTenantID p)
  | Err e => errIs ErrInvalidToken e = true /\
      (subject claims = "" \/
       forall s, lookupClaim claims (TenantClaim opts) = Some (JString s) -> TrimSpace s = "")
  end.
Proof.
  unfold principalFrom.
  destruct (subject claims =? "")%string eqn:Hs; to_prop; [auto with go|].
  destruct (stringClaim claims (TenantClaim opts)) as [t|e] eqn:Ht; cbn.
  - apply stringClaim_Ok in Ht as [Hl Ht]. split_ands; auto.
    + unfold subject in *. destruct (claims !! "sub") as [[]|]; done.
    + intros ctx. unfold TenantFrom. cbn.
      destruct (t =? "")%string eqn:E; to_prop; [by subst t|done].
  - split; [done|]. right. intros s Hl. unfold stringClaim in Ht. rewrite Hl in Ht.
    destruct (TrimSpace s =? "")%string eqn:E; to_prop; done.
Qed.

End ClaimFacts.
