(* ===== verification/GrpcConvert.v ===== *)
(** internal/grpcapi/convert.go and errmap.go: the proto boundary.

    The messages are those of gen/go/order/v1: a message field or a repeated element that
    is nil in Go is [None].  [timestamppb] is the class [Timestamps]. *)

From S2P Require Import Prelude GoErr GoStr AppErr Money Order.

(** * Messages *)

Record PMoney := mkPMoney { PCurrencyCode : string; PUnits : Z; PNanos : Z }.

Record POrderItem := mkPItem { PSku : string; PQuantity : Z; PUnitPrice : option PMoney }.

(** Open enum: any 32-bit number can arrive. *)
Definition ORDER_STATUS_UNSPECIFIED : Z := 0.
Definition ORDER_STATUS_PENDING : Z := 1.
Definition ORDER_STATUS_CONFIRMED : Z := 2.
Definition ORDER_STATUS_SHIPPED : Z := 3.
Definition ORDER_STATUS_CANCELLED : Z := 4.

(** [timestamppb.New] and [(x *Timestamp).AsTime], whose receiver may be nil. *)
Class Timestamps := {
  Timestamp : Type;
  timestamppb_New : Z -> Timestamp;
  AsTime : option Timestamp -> Z }.

(** A Go time survives the conversion. *)
Class TimestampLaws `{Timestamps} := {
  AsTime_New : forall t, AsTime (Some (timestamppb_New t)) = t }.

(** * convert.go *)

Definition toProtoMoney (m : Money) : PMoney :=
  mkPMoney (CurrencyCode m) (Units m) (Nanos m).

Definition fromProtoMoney (m : option PMoney) : result Money :=
  match m with
  | None => Err (errorf ErrInvalidItem [PStr "money is required"])
  | Some m =>
      let money := mkMoney (PCurrencyCode m) (PUnits m) (PNanos m) in
      _ ← Validate money;
      mret money
  end.

Definition toProtoStatus (s : Status) : Z :=
  match s with
  | StatusPending => ORDER_STATUS_PENDING
  | StatusConfirmed => ORDER_STATUS_CONFIRMED
  | StatusShipped => ORDER_STATUS_SHIPPED
  | StatusCancelled => ORDER_STATUS_CANCELLED
  | _ => ORDER_STATUS_UNSPECIFIED
  end.

Definition fromProtoStatus (s : Z) : Status :=
  if s =? ORDER_STATUS_PENDING then StatusPending
  else if s =? ORDER_STATUS_CONFIRMED then StatusConfirmed
  else if s =? ORDER_STATUS_SHIPPED then StatusShipped
  else if s =? ORDER_STATUS_CANCELLED then StatusCancelled
  else StatusUnspecified.

Definition toProtoItem (i : Item) : POrderItem :=
  mkPItem (SKU i) (Quantity i) (Some (toProtoMoney (UnitPrice i))).

Definition fromProtoItem (i : option POrderItem) : result Item :=
  match i with
  | None => Err (errorf ErrInvalidItem [PStr "item is nil"])
  | Some i =>
      price ← fromProtoMoney (PUnitPrice i);
      mret (mkItem (PSku i) (PQuantity i) price)
  end.

(** The loop of [fromProtoItems], [idx] items in. *)
Fixpoint fromProtoItemsAt (idx : nat) (l : list (option POrderItem)) : result (list Item) :=
  match l with
  | [] => Ok []
  | pi :: r =>
      item ← mapErr (itemErr idx) (fromProtoItem pi);
      out ← fromProtoItemsAt (S idx) r;
      mret (item :: out)
  end.

Definition fromProtoItems (l : list (option POrderItem)) : result (list Item) :=
  fromProtoItemsAt 0 l.

Section Orders.
Context `{Timestamps}.

Record POrder := mkPOrder {
  POrderId : string; PTenantId : string; PCustomerId : string; PStatus : Z;
  PItems : list (option POrderItem); PTotal : option PMoney;
  PCreatedAt : option Timestamp; PUpdatedAt : option Timestamp }.

Definition toProtoOrder (o : Order) : POrder :=
  mkPOrder (ID o) (TenantID o) (CustomerID o) (toProtoStatus (OStatus o))
    ((fun i => Some (toProtoItem i)) <$> Items o) (Some (toProtoMoney (OTotal o)))
    (Some (timestamppb_New (CreatedAt o))) (Some (timestamppb_New (UpdatedAt o))).

Definition toProtoOrders (l : list Order) : list POrder := toProtoOrder <$> l.

Definition fromProtoOrder (p : option POrder) : result Order :=
  match p with
  | None => Err (errorsNew "order is nil")
  | Some p =>
      items ← fromProtoItems (PItems p);
      total ← fromProtoMoney (PTotal p);
      mret (mkOrder (POrderId p) (PTenantId p) (PCustomerId p) (fromProtoStatus (PStatus p))
              items total (AsTime (PCreatedAt p)) (AsTime (PUpdatedAt p)))
  end.

End Orders.

(** * errmap.go *)

Definition DomainErrorKind (err : option error) : Kind :=
  match err with
  | None => KindUnknown
  | Some err =>
      if errIs ErrNotFound err then KindNotFound
      else if errIs ErrDuplicate err then KindAlreadyExists
      else if errIs ErrInvalidTransition err then KindFailedPrecondition
      else if errIs ErrNoItems err || errIs ErrInvalidItem err || errIs ErrInvalidPageToken err
              || errIs ErrCurrencyMismatch err || errIs ErrInvalidCurrencyCode err
              || errIs ErrInvalidMoney err || errIs ErrMoneyOverflow err
      then KindInvalidArgument
      else if errIs ErrMissingTenant err then KindInternal
      else KindInternal
  end.

Definition reasonFor (err : error) : string :=
  if errIs ErrNotFound err then "ORDER_NOT_FOUND"
  else if errIs ErrDuplicate err then "ORDER_ALREADY_EXISTS"
  else if errIs ErrInvalidTransition err then "ORDER_INVALID_STATUS_TRANSITION"
  else if errIs ErrNoItems err then "ORDER_HAS_NO_ITEMS"
  else if errIs ErrInvalidItem err then "ORDER_ITEM_INVALID"
  else if errIs ErrInvalidPageToken err then "PAGE_TOKEN_INVALID"
  else if errIs ErrCurrencyMismatch err then "CURRENCY_MISMATCH"
  else if errIs ErrInvalidCurrencyCode err || errIs ErrInvalidMoney err
          || errIs ErrMoneyOverflow err then "MONEY_INVALID"
  else if errIs ErrMissingTenant err then "TENANT_MISSING"
  else "INTERNAL".

Definition asAppError (err : option error) : option error :=
  match err with
  | None => None
  | Some e =>
      match From e with
      | Some ae => Some ae
      | None => Some (Wrap e (DomainErrorKind err) (reasonFor e) (error_message e))
      end
  end.

(** * Facts of the conversions *)

Lemma fromProtoMoney_Ok p m :
  fromProtoMoney p = Ok m <-> p = Some (toProtoMoney m) /\ Valid m.
Proof.
  unfold fromProtoMoney, Valid. destruct p as [[c u n]|]; [|naive_solver]. cbn.
  rewrite bind_Ok. split.
  - by intros ([] & Hv & [= <-]).
  - destruct m as [c' u' n']. cbn. intros ([= -> -> ->] & Hv). by exists tt.
Qed.

Lemma fromProtoItem_toProtoItem i :
  Valid (UnitPrice i) -> fromProtoItem (Some (toProtoItem i)) = Ok i.
Proof.
  intros Hv. cbn -[fromProtoMoney].
  rewrite (proj2 (fromProtoMoney_Ok _ (UnitPrice i))) by done. by destruct i.
Qed.

Lemma fromProtoItems_toProto idx items :
  Forall (fun i => Valid (UnitPrice i)) items ->
  fromProtoItemsAt idx ((fun i => Some (toProtoItem i)) <$> items) = Ok items.
Proof.
  intros Hv. revert idx. induction Hv as [|i l Hi _ IH]; intros idx; [done|].
  cbn [fmap list_fmap fromProtoItemsAt]. rewrite fromProtoItem_toProtoItem by done.
  cbn -[fromProtoItemsAt]. by rewrite IH.
Qed.

Lemma fromProtoStatus_toProtoStatus s : fromProtoStatus (toProtoStatus s) = s.
Proof. by destruct s. Qed.

(** What an accepted item list is: element by element the message values exactly as sent,
    every price valid. *)
Lemma fromProtoItems_Ok idx l items :
  fromProtoItemsAt idx l = Ok items <->
  l = (fun i => Some (toProtoItem i)) <$> items /\ Forall (fun i => Valid (UnitPrice i)) items.
Proof.
  split.
  2:{ intros [-> Hv]. by apply fromProtoItems_toProto. }
  revert idx items. induction l as [|p l IH]; intros idx items.
  { intros [= <-]. by split. }
  cbn [fromProtoItemsAt]. intros Hx. apply bind_Ok in Hx as (i & Hi%mapErr_Ok & Hx).
  apply bind_Ok in Hx as (out & Hout & [= <-]).
  destruct (IH _ _ Hout) as [-> Hv]. unfold fromProtoItem in Hi.
  destruct p as [[s q pr]|]; [|done].
  apply bind_Ok in Hi as (m & [Hpr Hm]%fromProtoMoney_Ok & [= <-]). cbn in Hpr. subst pr.
  split; [done|]. by constructor.
Qed.

(** C32. Nothing is lost at the proto boundary: converting a validated order to its message
    and back gives the same order, timestamps included. *)
Theorem fromProtoOrder_toProtoOrder `{Unicode, TimestampLaws} o :
  OrderValidate o = Ok tt -> Forall (fun i => int_ok 32 (Quantity i)) (Items o) ->
  fromProtoOrder (Some (toProtoOrder o)) = Ok o.
Proof.
  intros Ho Hq.
  assert (Forall (fun i => Valid (UnitPrice i)) (Items o)) as Hv.
  { apply OrderValidate_spec in Ho as (_ & _ & _ & Hall & _).
    eapply Forall_impl; [exact Hall|]. by intros i (_ & _ & _ & ? & _)%ItemValidate_Ok. }
  pose proof (OrderValidate_total_Valid o Ho Hq) as Ht.
  unfold fromProtoOrder, fromProtoItems, toProtoOrder. cbn [PItems PTotal].
  rewrite fromProtoItems_toProto by done.
  rewrite (proj2 (fromProtoMoney_Ok _ (OTotal o))) by done. cbn.
  rewrite !AsTime_New, fromProtoStatus_toProtoStatus. by destruct o.
Qed.

(** No normalisation at the boundary: a list of wire items is accepted exactly when no
    item and no price is nil and every price is valid as sent, and the domain then sees
    those values unchanged. *)
Theorem fromProtoItems_exact l items :
  fromProtoItems l = Ok items <->
  l = (fun i => Some (toProtoItem i)) <$> items /\ Forall (fun i => Valid (UnitPrice i)) items.
Proof. apply fromProtoItems_Ok. Qed.

(** Seconds and nanoseconds, as the well-known type stores them. *)
Definition seconds_nanos : Timestamps := {|
  Timestamp := Z * Z;
  timestamppb_New t := (t / NanosPerUnit, t mod NanosPerUnit);
  AsTime t := match t with Some (s, n) => s * NanosPerUnit + n | None => 0 end |}.

Lemma seconds_nanos_laws : @TimestampLaws seconds_nanos.
Proof. split. intros t. cbn. pose proof (Z.div_mod t NanosPerUnit). unfold NanosPerUnit in *. lia. Defined.

Lemma fromProtoOrder_toProtoOrder_witness :
  @fromProtoOrder seconds_nanos (Some (@toProtoOrder seconds_nanos two_lines)) = Ok two_lines.
Proof.
  apply (@fromProtoOrder_toProtoOrder ascii_tables seconds_nanos seconds_nanos_laws).
  - vm_compute. reflexivity.
  - repeat constructor; vm_compute; discriminate.
Defined.

(** * Which errors are the caller's *)

(** The sentinels [DomainErrorKind] turns into a client error. *)
Definition client_sentinels : list sentinel :=
  [ErrNotFound; ErrDuplicate; ErrInvalidTransition; ErrNoItems; ErrInvalidItem;
   ErrInvalidPageToken; ErrCurrencyMismatch; ErrInvalidCurrencyCode; ErrInvalidMoney;
   ErrMoneyOverflow].

(** An error of the domain that wraps one of them and no [*apperr.Error]. *)
Definition client_fault (e : error) : Prop :=
  From e = None /\ existsb (fun s => errIs s e) client_sentinels = true.

(** Success, or a client fault. *)
Definition faults {A} (r : result A) : Prop :=
  match r with Ok _ => True | Err e => client_fault e end.

Lemma faults_bind {A B} (r : result A) (f : A -> result B) :
  faults r -> (forall a, r = Ok a -> faults (f a)) -> faults (r ≫= f).
Proof. destruct r; cbn; auto. Qed.

Lemma client_fault_kind e :
  client_fault e ->
  match asAppError (Some e) with
  | Some ae => app_kind ae = DomainErrorKind (Some e) /\ Redacts (app_kind ae) = false
  | None => False
  end.
Proof.
  intros [Hn Hs]. cbn [asAppError]. rewrite Hn. cbn [app_kind Wrap].
  split; [done|]. unfold DomainErrorKind. cbn [existsb client_sentinels] in Hs.
  destruct (errIs ErrNotFound e), (errIs ErrDuplicate e), (errIs ErrInvalidTransition e);
    try done.
  cbn in Hs. rewrite orb_false_r, !orb_assoc in Hs. rewrite ?orb_assoc. by rewrite Hs.
Qed.

(** Wrapping with [%w] and text keeps the fault. *)
Lemma client_fault_wrapf z e :
  client_fault e -> client_fault (wrapf [PStr "item "; PInt z] e).
Proof.
  intros [Hn Hs]. split.
  - unfold From in *. cbn. by rewrite Hn.
  - rewrite <- Hs. cbn. by rewrite !orb_false_r.
Qed.

Lemma client_fault_errorf s ps :
  s ∈ client_sentinels -> errAs as_app (EFmt ps) = None -> client_fault (errorf s ps).
Proof.
  intros Hs Hn. split; [exact Hn|]. apply existsb_exists. exists s.
  split; [by apply list_elem_of_In|apply errorf_is].
Qed.
