(* ===== verification/GrpcServer.v ===== *)
(** internal/grpcapi/server.go and policy.go: the RPC handlers and their policy.

    [S] is the state of the store and [T] the state of its transactions, as in [Service];
    the clock reading and the fresh id of a call are arguments of its handler. *)

From S2P Require Import Prelude GoErr GoStr AppErr Money Order Cursor Store Auth.
From S2P Require Import GrpcConvert Service.
From S2P Require OrderMem.

(** * Messages *)

Record CreateOrderRequest := mkCreateReq {
  CrCustomerId : string; CrItems : list (option POrderItem); CrIdempotencyKey : string }.
Record ListOrdersRequest := mkListReq {
  LsPageSize : Z; LsPageToken : string; LsStatus : Z; LsCustomerId : string }.
Record CancelOrderRequest := mkCancelReq {
  CnOrderId : string; CnReason : string; CnIdempotencyKey : string }.

(** * Handlers *)

Definition tenantOf (ctx : context) : result string :=
  match TenantFrom ctx with
  | None => Err (New KindUnauthenticated "NO_PRINCIPAL"
                   "request reached a handler without a verified principal")
  | Some tenant => Ok tenant
  end.

(** [return nil, asAppError(err)]. *)
Definition toApp (e : error) : error :=
  match asAppError (Some e) with Some ae => ae | None => e end.

Definition orAppError {S A} (m : stm S A) : stm S A := fun s =>
  let '(r, s') := m s in (GoErr.mapErr toApp r, s').

Section Handlers.
Context `{Unicode, CursorEnv, Timestamps}.
Context {S T : Type} `{!StoreOps S, !StoreOps T, !AtomicOps S T}.

Definition CreateOrder (newID : result string) (now : Z) (ctx : context)
    (req : CreateOrderRequest) : stm S POrder :=
  tenant ← lift (tenantOf ctx);
  items ← orAppError (lift (fromProtoItems (CrItems req)));
  created ← orAppError
    (Service.Create (T:=T) newID now (mkCreateCommand tenant (CrCustomerId req) items));
  mret (toProtoOrder created).

Definition GetOrder (ctx : context) (orderId : string) : stm S POrder :=
  tenant ← lift (tenantOf ctx);
  got ← orAppError (Service.Get tenant orderId);
  mret (toProtoOrder got).

Definition ListOrders (ctx : context) (req : ListOrdersRequest)
    : stm S (list POrder * string) :=
  tenant ← lift (tenantOf ctx);
  page ← orAppError (Service.List tenant
    (mkFilter (fromProtoStatus (LsStatus req)) (LsCustomerId req) (LsPageSize req)
       (LsPageToken req)));
  mret (toProtoOrders (Orders page), NextPageToken page).

Definition CancelOrder (now : Z) (ctx : context) (req : CancelOrderRequest) : stm S POrder :=
  tenant ← lift (tenantOf ctx);
  cancelled ← orAppError (Service.Cancel (T:=T) now tenant (CnOrderId req));
  mret (toProtoOrder cancelled).

(** The loop of [WatchOrders].  [send k] is what the [k]-th [stream.Send] returns and
    [ctxErr k] what [ctx.Err()] returns after it; the result is the messages the client was
    sent and the error that ended the loop, if one did. *)
Fixpoint watchLoop (send ctxErr : nat -> option error) (k : nat) (l : list Order)
    : list POrder * option error :=
  match l with
  | [] => ([], None)
  | o :: r =>
      match send k with
      | Some e => ([], Some e)
      | None =>
          match ctxErr k with
          | Some e => ([toProtoOrder o], Some e)
          | None =>
              let '(sent, e) := watchLoop send ctxErr (Datatypes.S k) r in
              (toProtoOrder o :: sent, e)
          end
      end
  end.

(** [done] is the error the context reports once [<-ctx.Done()] fires; until then the
    handler waits. *)
Definition WatchOrders (send ctxErr : nat -> option error) (done : error) (ctx : context)
    (status : Z) : S -> (list POrder * error) * S := fun s =>
  match tenantOf ctx with
  | Err e => (([], e), s)
  | Ok tenant =>
      match orAppError (Service.List tenant (mkFilter (fromProtoStatus status) "" 0 "")) s with
      | (Err e, s') => (([], e), s')
      | (Ok page, s') =>
          match watchLoop send ctxErr 0 (Orders page) with
          | (sent, Some e) => ((sent, e), s')
          | (sent, None) => ((sent, done), s')
          end
      end
  end.

End Handlers.

(** * policy.go *)

Definition ScopeOrdersRead : string := "orders:read".
Definition ScopeOrdersWrite : string := "orders:write".

Definition ownedProtoPackages : list string := ["order.v1"].

Definition DefaultPolicy : Policy := list_to_map
  [("/order.v1.OrderService/GetOrder", mkRule false [ScopeOrdersRead]);
   ("/order.v1.OrderService/ListOrders", mkRule false [ScopeOrdersRead]);
   ("/order.v1.OrderService/WatchOrders", mkRule false [ScopeOrdersRead]);
   ("/order.v1.OrderService/CreateOrder", mkRule false [ScopeOrdersWrite]);
   ("/order.v1.OrderService/CancelOrder", mkRule false [ScopeOrdersWrite]);
   ("/grpc.health.v1.Health/Check", mkRule true []);
   ("/grpc.health.v1.Health/Watch", mkRule true []);
   ("/grpc.health.v1.Health/List", mkRule false []);
   ("/grpc.reflection.v1.ServerReflection/ServerReflectionInfo", mkRule false []);
   ("/grpc.reflection.v1alpha.ServerReflection/ServerReflectionInfo", mkRule false [])].

(** [GetServiceInfo] as the (service, methods) pairs in the order the runtime walks them. *)
Definition servedMethods (info : list (string * list string)) : list string :=
  List.flat_map (fun svc : string * list string =>
    List.map (fun m => "/" +:+ svc.1 +:+ "/" +:+ m) svc.2) info.

(** [NewServer], up to building the [grpc.Server]: the dependencies it refuses to do
    without, and the coverage check that runs after every service is registered.  [keys] is
    the order in which the runtime walks the policy. *)
Definition NewServer {V L} (verifier : option V) (policy : Policy) (limiter : option L)
    (keys : list string) (info : list (string * list string))
    (files : list (string * list (string * list string))) : result unit :=
  match verifier with
  | None => Err (errorsNew "grpcapi.NewServer: Deps.Verifier is nil; build one with auth.NewVerifier")
  | Some _ =>
      if (size policy =? 0)%nat
      then Err (errorsNew "grpcapi.NewServer: Deps.Policy is empty; every RPC would be denied")
      else
        match limiter with
        | None => Err (EFmt [PStr "grpcapi.NewServer: Deps.Limiter is nil; pass ratelimit.AllowAll{} ";
                             PStr "to run without quotas, so that choice is visible at the call site"])
        | Some _ =>
            ValidateCoverage policy keys (servedMethods info)
              (MethodsInPackages files ownedProtoPackages)
        end
  end.

(** The services a built server registers: ours, then health and both reflections. *)
Definition registered : list (string * list string) :=
  [("order.v1.OrderService",
    ["CancelOrder"; "CreateOrder"; "GetOrder"; "ListOrders"; "WatchOrders"]);
   ("grpc.health.v1.Health", ["Check"; "List"; "Watch"]);
   ("grpc.reflection.v1.ServerReflection", ["ServerReflectionInfo"]);
   ("grpc.reflection.v1alpha.ServerReflection", ["ServerReflectionInfo"])].

(** * What the policy grants *)

Definition order_method (m : string) : string := "/order.v1.OrderService/" +:+ m.

(** The files the descriptor registry holds for this service, as generated from
    proto/order/v1/order.proto. *)
Definition order_files : list (string * list (string * list string)) :=
  [("order.v1", [("order.v1.OrderService",
      ["CreateOrder"; "GetOrder"; "ListOrders"; "CancelOrder"; "WatchOrders"])])].

Lemma DefaultPolicy_public m rule :
  DefaultPolicy !! m = Some rule -> Public rule = true ->
  m = "/grpc.health.v1.Health/Check" \/ m = "/grpc.health.v1.Health/Watch".
Proof.
  intros Hm Hp.
  assert (map_Forall (fun m rule => Public rule = true ->
            m = "/grpc.health.v1.Health/Check" \/ m = "/grpc.health.v1.Health/Watch")
            DefaultPolicy) as Hall by (apply (bool_decide_unpack _); vm_compute; exact I).
  by apply (Hall m rule).
Qed.

Lemma DefaultPolicy_keys m :
  is_Some (DefaultPolicy !! m) <-> m ∈ servedMethods registered.
Proof.
  assert (Forall (fun m => is_Some (DefaultPolicy !! m)) (servedMethods registered)) as Hs
    by (apply (bool_decide_unpack _); vm_compute; exact I).
  assert (map_Forall (fun m _ => m ∈ servedMethods registered) DefaultPolicy) as Hk
    by (apply (bool_decide_unpack _); vm_compute; exact I).
  split; [intros [r Hr]; by apply (Hk m r)|]. rewrite Forall_forall in Hs. apply Hs.
Qed.

(** The server starts with [DefaultPolicy], in whatever order the runtime walks its maps;
    with any one of its rules removed, or without a verifier, a policy or a limiter, it
    refuses to. *)
Theorem DefaultPolicy_covers {V L} (v : option V) (l : option L) p keys info :
  info ≡ₚ registered ->
  keys ≡ₚ (map_to_list p).*1 ->
  (p = DefaultPolicy ->
     NewServer v p l keys info order_files = Ok tt <-> is_Some v /\ is_Some l) /\
  (forall m, m ∈ servedMethods registered -> p = delete m DefaultPolicy ->
     NewServer v p l keys info order_files <> Ok tt).
Proof.
  intros Hinfo Hk.
  assert (forall m, m ∈ servedMethods info <-> m ∈ servedMethods registered) as Hserved.
  { intros m. unfold servedMethods. rewrite !list_elem_of_In, !in_flat_map.
    setoid_rewrite <- list_elem_of_In. by setoid_rewrite Hinfo. }
  assert (forall q, NewServer v q l keys info order_files = Ok tt ->
            is_Some v /\ is_Some l /\
            ValidateCoverage q keys (servedMethods info)
              (MethodsInPackages order_files ownedProtoPackages) = Ok tt) as Hinv.
  { intros q. unfold NewServer. destruct v; [|done]. destruct (_ =? _)%nat; [done|].
    destruct l; [eauto|done]. }
  split; [intros ->; split|intros m Hm ->].
  - intros (? & ? & _)%Hinv. done.
  - intros [[? ->] [? ->]]. unfold NewServer.
    replace (size DefaultPolicy =? 0)%nat with false by (vm_compute; done).
    apply ValidateCoverage_Ok; [done|].
    split; intros m; rewrite Hserved, <- DefaultPolicy_keys; [done|auto].
  - intros (_ & _ & Hcov)%Hinv. apply ValidateCoverage_Ok in Hcov as [Hall _]; [|done].
    destruct (Hall m) as [r Hr]; [by apply Hserved|]. by apply lookup_delete_Some in Hr as [? _].
Qed.

(** Least privilege: without a credential only the two health methods are reachable;
    reads need [orders:read] and writes [orders:write]; a method without a rule is
    reachable by nobody. *)
Theorem DefaultPolicy_grants m pr :
  (Check DefaultPolicy m pr false = Ok tt <->
     m = "/grpc.health.v1.Health/Check" \/ m = "/grpc.health.v1.Health/Watch") /\
  (m ∈ order_method <$> ["GetOrder"; "ListOrders"; "WatchOrders"] ->
     Check DefaultPolicy m pr true = Ok tt <-> ScopeOrdersRead ∈ Scopes pr) /\
  (m ∈ order_method <$> ["CreateOrder"; "CancelOrder"] ->
     Check DefaultPolicy m pr true = Ok tt <-> ScopeOrdersWrite ∈ Scopes pr) /\
  (m ∉ servedMethods registered -> forall auth, Check DefaultPolicy m pr auth <> Ok tt).
Proof.
  assert (forall m s, DefaultPolicy !! m = Some (mkRule false [s]) ->
            Check DefaultPolicy m pr true = Ok tt <-> s ∈ Scopes pr) as Hscope.
  { intros m' s Hm. rewrite Check_Ok, Hm. split.
    - intros (r & [= <-] & [[=]|[_ Hf]]). by inversion Hf.
    - intros Hs. eexists. split; [done|]. right. split; [done|]. by constructor. }
  split_ands.
  - rewrite Check_Ok. split.
    + intros (r & Hr & [Hp|[[=] _]]). by apply (DefaultPolicy_public m r).
    + intros [-> | ->]; eexists; (split; [reflexivity|by left]).
  - cbn [fmap list_fmap]. rewrite !elem_of_cons, elem_of_nil.
    intros [->|[->|[->|[]]]]; by apply Hscope.
  - cbn [fmap list_fmap]. rewrite !elem_of_cons, elem_of_nil.
    intros [->|[->|[]]]; by apply Hscope.
  - rewrite <- DefaultPolicy_keys. intros Hno auth. rewrite Check_Ok.
    intros (r & Hr & _). by destruct Hno.
Qed.

(** * What the handlers do *)

Section HandlerFacts.
Context `{Unicode, CursorEnv, Timestamps}.
Context {S T : Type} `{!StoreOps S, !StoreOps T, !AtomicOps S T}.

Definition unauthenticated : error :=
  New KindUnauthenticated "NO_PRINCIPAL"
    "request reached a handler without a verified principal".

(** What a client is told of the answer of a call on orders, and on pages. *)
Definition order_reply (r : result POrder) (a : answer) : Prop :=
  exists r0, a = AOrder r0 /\ r = (o ← GoErr.mapErr toApp r0; mret (toProtoOrder o)).
Definition page_reply (r : result (list POrder * string)) (a : answer) : Prop :=
  exists r0, a = APage r0 /\
    r = (p ← GoErr.mapErr toApp r0; mret (toProtoOrders (Orders p), NextPageToken p)).

(** The handler ran without a principal, or did and answered exactly what the call [c] of
    the principal's tenant does and answers. *)
Definition acts_for (ctx : context) {A} (reply : result A -> answer -> Prop)
    (c : string -> call) (m : stm S A) : Prop := forall s,
  match TenantFrom ctx with
  | None => m s = (Err unauthenticated, s)
  | Some t => call_tenant (c t) = t /\ reply (m s).1 (exec T (c t) s).1 /\
      (m s).2 = (exec T (c t) s).2
  end.

Lemma acts_for_tenantOf {A} ctx (reply : result A -> answer -> Prop) c (k : string -> stm S A) :
  (forall t s, TenantFrom ctx = Some t ->
     call_tenant (c t) = t /\ reply (k t s).1 (exec T (c t) s).1 /\
     (k t s).2 = (exec T (c t) s).2) ->
  acts_for ctx reply c (t ← lift (tenantOf ctx); k t).
Proof.
  intros Hk s. unfold tenantOf. specialize (fun t => Hk t s).
  destruct (TenantFrom ctx) as [t|]; [|done]. by apply Hk.
Qed.

Lemma orAppError_run {A B} (m : stm S A) (y : A -> B) s :
  (x ← orAppError m; mret (y x)) s =
    (x ← GoErr.mapErr toApp (m s).1; mret (y x), (m s).2).
Proof. unfold mbind, stm_bind, orAppError. by destruct (m s) as [[x|e] s']. Qed.

Lemma handler_reply (m : stm S Order) t c s :
  exec T (c t) s = (AOrder (m s).1, (m s).2) -> call_tenant (c t) = t ->
  call_tenant (c t) = t /\
  order_reply ((o ← orAppError m; mret (toProtoOrder o)) s).1 (exec T (c t) s).1 /\
  ((o ← orAppError m; mret (toProtoOrder o)) s).2 = (exec T (c t) s).2.
Proof. intros Hc Ht. rewrite orAppError_run, Hc. split_ands; [done| |done]. by eexists. Qed.

(** How a watch of the messages [l] ends, with what was sent by then: a [Send] fails, and its
    error is returned; the context is over after a [Send], and its error is; or every message
    was sent and the context is waited for. *)
Definition quiet (send ctxErr : nat -> option error) (n : nat) : Prop :=
  forall j, (j < n)%nat -> send j = None /\ ctxErr j = None.

Inductive watched (send ctxErr : nat -> option error) (over : error) (l : list POrder)
    : list POrder * error -> Prop :=
  | SendFailed n e :
      (n < length l)%nat -> quiet send ctxErr n -> send n = Some e ->
      watched send ctxErr over l (take n l, e)
  | CutShort n e :
      (n < length l)%nat -> quiet send ctxErr n -> send n = None -> ctxErr n = Some e ->
      watched send ctxErr over l (take (Datatypes.S n) l, e)
  | AllSent :
      quiet send ctxErr (length l) -> watched send ctxErr over l (l, over).

Lemma quiet_S send ctxErr k n :
  send k = None -> ctxErr k = None ->
  quiet (fun j => send (k + Datatypes.S j)%nat) (fun j => ctxErr (k + Datatypes.S j)%nat) n ->
  quiet (fun j => send (k + j)%nat) (fun j => ctxErr (k + j)%nat) (Datatypes.S n).
Proof.
  intros Hs Hc Hq [|j] Hj; [by rewrite Nat.add_0_r|]. apply (Hq j). lia.
Qed.

Lemma watchLoop_watched send ctxErr over k l :
  watched (fun j => send (k + j)%nat) (fun j => ctxErr (k + j)%nat) over (toProtoOrders l)
    (match watchLoop send ctxErr k l with (sent, Some e) => (sent, e) | (sent, None) => (sent, over) end).
Proof.
  revert k. induction l as [|o l IH]; intros k; cbn [watchLoop].
  { apply AllSent. intros j Hj. inversion Hj. }
  change (toProtoOrders (o :: l)) with (toProtoOrder o :: toProtoOrders l).
  assert (forall f : nat -> option error, f (k + 0)%nat = f k) as Hz by (intros f; by rewrite Nat.add_0_r).
  destruct (send k) eqn:Es; [apply (SendFailed _ _ _ _ 0); [cbn; lia|intros j Hj; lia|by rewrite Hz]|].
  destruct (ctxErr k) eqn:Ec;
    [apply (CutShort _ _ _ (toProtoOrder o :: _) 0); [cbn; lia|intros j Hj; lia|by rewrite Hz|by rewrite Hz]|].
  specialize (IH (Datatypes.S k)).
  assert (forall f : nat -> option error, forall j, f (Datatypes.S k + j)%nat = f (k + Datatypes.S j)%nat) as HS
    by (intros f j; f_equal; lia).
  assert (forall n, quiet (fun j => send (Datatypes.S k + j)%nat) (fun j => ctxErr (Datatypes.S k + j)%nat) n ->
    quiet (fun j => send (k + j)%nat) (fun j => ctxErr (k + j)%nat) (Datatypes.S n)) as Hquiet.
  { intros n Hq. apply quiet_S; [done|done|]. intros j Hj. rewrite <- !HS. by apply Hq. }
  destruct (watchLoop send ctxErr (Datatypes.S k) l) as [sent [e|]]; inversion IH; subst.
  - apply (SendFailed _ _ _ (toProtoOrder o :: toProtoOrders l) (Datatypes.S n)); cbn; [lia|auto|by rewrite <- HS].
  - apply (CutShort _ _ _ (toProtoOrder o :: toProtoOrders l) (Datatypes.S n)); cbn; [lia|auto|by rewrite <- HS..].
  - by apply AllSent, Hquiet.
  - apply (SendFailed _ _ _ (toProtoOrder o :: toProtoOrders l) (Datatypes.S n)); cbn; [lia|auto|by rewrite <- HS].
  - apply (CutShort _ _ _ (toProtoOrder o :: toProtoOrders l) (Datatypes.S n)); cbn; [lia|auto|by rewrite <- HS..].
  - by apply AllSent, Hquiet.
Qed.

Lemma watch_reply send ctxErr over ctx status s :
  match TenantFrom ctx with
  | None => WatchOrders send ctxErr over ctx status s = (([], unauthenticated), s)
  | Some t => exists r, exec T (CallList t (mkFilter (fromProtoStatus status) "" 0 "")) s =
        (APage r, (WatchOrders send ctxErr over ctx status s).2) /\
      match r with
      | Err e => (WatchOrders send ctxErr over ctx status s).1 = ([], toApp e)
      | Ok p => watched send ctxErr over (toProtoOrders (Orders p))
            (WatchOrders send ctxErr over ctx status s).1
      end
  end.
Proof.
  unfold WatchOrders, tenantOf, orAppError. destruct (TenantFrom ctx) as [t|]; [|done].
  cbn [exec]. destruct (Service.List t _ s) as [[p|e] s']; cbn [GoErr.mapErr];
    [|eexists; split; done].
  exists (Ok p). pose proof (watchLoop_watched send ctxErr over 0 (Orders p)) as Hw. cbn [Nat.add] in Hw.
  by destruct (watchLoop send ctxErr 0 (Orders p)) as [sent [e|]].
Qed.

(** C16. Every handler acts for the tenant of the verified principal and for no other, and
    without one it answers [Unauthenticated] before touching the store: the tenant never
    comes from the request.  With one, the reply and the effect are those of a single call
    of that tenant; only a create whose lines do not convert is refused before it.  A
    watch sends the tenant's first page, in its order, up to the first [Send] that fails or
    the first message after which its context is over, and ends with exactly that error; the
    whole page sent, it ends with what its context ends with. *)
Theorem handlers_act_for_principal ctx :
  (forall id now req items, fromProtoItems (CrItems req) = Ok items ->
     acts_for ctx order_reply (fun t => CallCreate id now (mkCreateCommand t (CrCustomerId req) items))
       (CreateOrder (T:=T) id now ctx req)) /\
  (forall id now req e s, fromProtoItems (CrItems req) = Err e ->
     CreateOrder (T:=T) id now ctx req s =
       (Err (match TenantFrom ctx with Some _ => toApp e | None => unauthenticated end), s)) /\
  (forall i, acts_for ctx order_reply (fun t => CallGet t i) (GetOrder ctx i)) /\
  (forall req, acts_for ctx page_reply
     (fun t => CallList t (mkFilter (fromProtoStatus (LsStatus req)) (LsCustomerId req)
                             (LsPageSize req) (LsPageToken req))) (ListOrders ctx req)) /\
  (forall now req, acts_for ctx order_reply (fun t => CallCancel now t (CnOrderId req))
     (CancelOrder (T:=T) now ctx req)) /\
  (forall send ctxErr over status s,
     match TenantFrom ctx with
     | None => WatchOrders send ctxErr over ctx status s = (([], unauthenticated), s)
     | Some t => exists r, exec T (CallList t (mkFilter (fromProtoStatus status) "" 0 "")) s =
           (APage r, (WatchOrders send ctxErr over ctx status s).2) /\
         match r with
         | Err e => (WatchOrders send ctxErr over ctx status s).1 = ([], toApp e)
         | Ok p => watched send ctxErr over (toProtoOrders (Orders p))
               (WatchOrders send ctxErr over ctx status s).1
         end
     end).
Proof.
  split_ands.
  - intros id now req items Hi. apply acts_for_tenantOf. intros t s _. rewrite Hi.
    apply (handler_reply _ t (fun t => CallCreate id now (mkCreateCommand t (CrCustomerId req) items)));
      [|done]. cbn [exec]. by destruct (Service.Create _ _ _ s).
  - intros id now req e s He. unfold CreateOrder, tenantOf. rewrite He.
    by destruct (TenantFrom ctx).
  - intros i. apply acts_for_tenantOf. intros t s _. 
    apply (handler_reply _ t (fun t => CallGet t i)); [|done]. cbn [exec].
    by destruct (Service.Get t i s).
  - intros req. apply acts_for_tenantOf. intros t s _. cbn [exec]. rewrite orAppError_run.
    destruct (Service.List t _ s) as [r s']. split; [done|]. split; [by exists r|done].
  - intros now req. apply acts_for_tenantOf. intros t s _. 
    apply (handler_reply _ t (fun t => CallCancel now t (CnOrderId req))); [|done]. cbn [exec].
    by destruct (Service.Cancel _ _ _ s).
  - intros send ctxErr over status s. apply watch_reply.
Qed.

End HandlerFacts.

#[local] Existing Instance ascii_tables.
#[local] Existing Instance bits_env.
#[local] Existing Instance seconds_nanos.
#[local] Existing Instances OrderMem.view_ops OrderMem.store_ops OrderMem.store_atomic.

Definition some_ctx : context := WithPrincipal Background (mkPrincipal "u" "acme" [] false).
Definition one_order : OrderMem.Store :=
  (exec OrderMem.state (CallCreate (Ok "o-1") 7
     (mkCreateCommand "acme" "cust-1" (Items two_lines))) OrderMem.New).2.
Definition gone : error := ELib "transport is closing".
Definition late : error := ELib "context deadline exceeded".

(** A watch of a store that holds one order, over a stream whose first message cannot be
    sent: it ends with that error and nothing is sent. *)
Lemma handlers_act_for_principal_witness :
  (WatchOrders (fun _ => Some gone) (fun _ => None) late some_ctx 0 one_order).1 = ([], gone).
Proof.
  destruct (handlers_act_for_principal (T:=OrderMem.state) some_ctx) as (_ & _ & _ & _ & _ & Hw).
  destruct (Hw (fun _ => Some gone) (fun _ => None) late 0 one_order) as (r & Hr & Hwatched).
  apply (f_equal fst) in Hr. cbn [fst] in Hr.
  destruct r as [p|e]; [|vm_compute in Hr; discriminate Hr].
  destruct Hwatched as [[|n] e _ Hq He|n e _ _ He|Hq].
  - injection He as <-. reflexivity.
  - destruct (Hq 0%nat) as [[=] _]; lia.
  - discriminate He.
  - vm_compute in Hr. injection Hr as <-. destruct (Hq 0%nat) as [[=] _]. cbn. lia.
Defined.

Lemma DefaultPolicy_covers_witness :
  NewServer (Some tt) DefaultPolicy (Some tt) (map_to_list DefaultPolicy).*1 registered order_files
    = Ok tt.
Proof.
  apply (DefaultPolicy_covers (Some tt) (Some tt) DefaultPolicy (map_to_list DefaultPolicy).*1 registered);
    [apply Permutation_refl|apply Permutation_refl|reflexivity|split; eauto].
Defined.
