(* ===== verification/Faults.v ===== *)
(** Who is to blame: every error the service returns over the in-memory store, for an
    authenticated tenant, is the caller's fault and is classified as such, never as an
    internal error. *)

From S2P Require Import Prelude GoErr GoStr AppErr Money Order Cursor Store Paging OrderMem.
From S2P Require Import Seed Service Auth GrpcConvert GrpcServer.

(** Case analysis of a fallible function of the domain, leaf by leaf. *)
Ltac fault_step :=
  match goal with
  | |- faults (Ok _) => exact I
  | |- faults (mret _) => exact I
  | |- faults (Err (errorf _ _)) =>
      apply client_fault_errorf; [by apply (bool_decide_unpack _); vm_compute|reflexivity]
  | |- faults (_ ≫= _) => apply faults_bind; [|intros ? ?]
  | |- faults (if ?c then _ else _) => destruct c eqn:?
  | |- faults (let _ := _ in _) => cbv zeta
  end.
Ltac fault := repeat fault_step; auto with fault.

Create HintDb fault discriminated.

Lemma faults_Validate m : faults (Validate m).
Proof. unfold Validate. fault. Qed.
Lemma faults_totalNanos m : faults (totalNanos m).
Proof. unfold totalNanos. fault. Qed.
Lemma faults_fromTotalNanos c t : faults (fromTotalNanos c t).
Proof. unfold fromTotalNanos. fault. Qed.
Lemma faults_requireSameCurrency m o : faults (requireSameCurrency m o).
Proof. unfold requireSameCurrency. fault. Qed.
#[export] Hint Resolve faults_Validate faults_totalNanos faults_fromTotalNanos
  faults_requireSameCurrency : fault.

Lemma faults_Add m o : faults (Add m o).
Proof. unfold Add, combine. fault. Qed.

Section Domain.
Context `{Unicode}.

Lemma faults_Mul m n : faults (Mul m n).
Proof. unfold Mul. fault. Qed.

Lemma faults_itemErr {A} idx (r : result A) : faults r -> faults (mapErr (itemErr idx) r).
Proof. destruct r; [done|]. apply client_fault_wrapf. Qed.

(** [fmt.Errorf("%w: unit price: %w", ErrInvalidItem, err)]. *)
Lemma faults_unitPrice {A} (r : result A) :
  faults r ->
  faults (mapErr (fun err => errorf ErrInvalidItem [PStr "unit price: "; PErr err]) r).
Proof.
  destruct r as [|e]; [done|]. cbn. intros [Hn _]. apply client_fault_errorf.
  - by apply (bool_decide_unpack _); vm_compute.
  - unfold From in Hn. cbn. by rewrite Hn.
Qed.
#[local] Hint Resolve faults_Add faults_Mul faults_itemErr faults_unitPrice : fault.

Lemma faults_ItemValidate i : faults (ItemValidate i).
Proof. unfold ItemValidate. fault. Qed.

Lemma faults_validateItems idx l : faults (validateItems idx l).
Proof.
  revert idx. induction l as [|i l IH]; intros idx; cbn [validateItems]; [done|].
  fault. apply faults_itemErr, faults_ItemValidate.
Qed.

Lemma faults_sumLines idx tot l : faults (sumLines idx tot l).
Proof.
  revert idx tot. induction l as [|i l IH]; intros idx tot; cbn [sumLines]; [done|].
  unfold LineTotal. fault.
Qed.

Lemma faults_sentinel {A} s : s ∈ client_sentinels -> faults (A:=A) (Err (ESentinel s)).
Proof.
  intros Hs. split; [done|]. apply existsb_exists. exists s.
  split; [by apply list_elem_of_In|]. by apply bool_decide_eq_true.
Qed.

Lemma faults_ComputeTotal l : faults (ComputeTotal l).
Proof.
  unfold ComputeTotal. destruct l; [|apply faults_sumLines].
  apply faults_sentinel. by apply (bool_decide_unpack _); vm_compute.
Qed.

Lemma faults_Cancel o at_ : faults (Order.Cancel o at_).
Proof. unfold Order.Cancel. fault. Qed.

(** An order built by [Create], of a tenant and with its computed total. *)
Lemma faults_OrderValidate id t c l total now :
  t <> "" -> ComputeTotal l = Ok total ->
  faults (OrderValidate (mkOrder id t c StatusPending l total now now)).
Proof.
  intros Ht%String.eqb_neq Htot. unfold OrderValidate. cbn [TenantID CustomerID Items OStatus OTotal].
  rewrite Ht. destruct (c =? "")%string; [fault|].
  destruct (length l =? 0)%nat.
  { apply faults_sentinel. by apply (bool_decide_unpack _); vm_compute. }
  apply faults_bind; [apply faults_validateItems|]. intros [] _.
  rewrite Htot. cbn. by rewrite bool_decide_eq_false_2 by auto.
Qed.

Lemma faults_fromProtoItems l : faults (fromProtoItems l).
Proof.
  unfold fromProtoItems. generalize 0%nat.
  induction l as [|p l IH]; intros idx; cbn [fromProtoItemsAt]; [done|].
  apply faults_bind; [|intros item _; fault].
  apply faults_itemErr. unfold fromProtoItem, fromProtoMoney.
  destruct p as [[s q [pr|]]|]; cbn [PUnitPrice]; fault.
Qed.

Lemma faults_DecodePageToken `{CursorEnv} t f : faults (DecodePageToken t f).
Proof.
  unfold DecodePageToken, decodeCursor.
  destruct (PageToken f =? "")%string; [done|]. apply faults_bind; [|done].
  destruct (DecodeString _); [|fault]. destruct (json_Unmarshal _); fault.
Qed.
End Domain.

(** * The service *)

Section Service.
Context `{Unicode, CursorLaws}.

Definition answer_faults (x : answer) : Prop :=
  match x with AOrder r => faults r | APage r => faults r end.

Lemma faults_mem_Create o d : TenantID o <> "" -> faults (OrderMem.Create o d).1.
Proof.
  intros Ht%String.eqb_neq. unfold OrderMem.Create. rewrite Ht.
  destruct (orders d !! _); cbn [fst]; fault.
Qed.

Lemma faults_mem_Get t i d : t <> "" -> faults (OrderMem.Get t i d).1.
Proof.
  intros Ht%String.eqb_neq. unfold OrderMem.Get. rewrite Ht.
  destruct (orders d !! _); cbn [fst]; fault.
Qed.

Lemma faults_mem_Update o d : TenantID o <> "" -> faults (OrderMem.Update o d).1.
Proof.
  intros Ht%String.eqb_neq. unfold OrderMem.Update. rewrite Ht.
  destruct (orders d !! _); cbn [fst]; fault.
Qed.

Lemma faults_mem_List t f d a :
  t <> "" -> rep d a -> tokenizable a -> faults (fetch_mem t f d).
Proof.
  intros Ht Hr Htok. rewrite (fetch_mem_listing t f d a Hr Ht).
  apply faults_bind; [apply faults_DecodePageToken|]. intros cur _.
  destruct (cutPage_spec t f (after cur (listing t f a))) as (p & -> & _); [|done].
  intros o Ho.
  assert (o ∈ listing t f a) as Hl
    by (destruct cur; [by apply elem_of_filter_list in Ho as [_ ?]|done]). clear Ho; rename Hl into Ho.
  apply elem_of_listing in Ho as [_ Ho]; [|apply Hr]. by apply (Htok _ _ Ho).
Qed.

Lemma faults_stm_bind {S A B} (m : stm S A) (k : A -> stm S B) s :
  faults (m s).1 -> (forall x s', m s = (Ok x, s') -> faults (k x s').1) ->
  faults ((m ≫= k) s).1.
Proof. unfold mbind, stm_bind. destruct (m s) as [[x|e] s'] eqn:E; cbn; auto. Qed.

Lemma faults_InTx {A} (fn : stm state A) s :
  faults (fn (clone (data s))).1 -> faults (OrderMem.InTx fn s).1.
Proof. unfold OrderMem.InTx. by destruct (fn _) as [[x|e] d]. Qed.

Lemma faults_locked {A} (op : stm state A) s : faults (op (data s)).1 -> faults (locked op s).1.
Proof. unfold locked. by destruct (op _). Qed.

(** [Err] of a transaction body over a nonempty tenant. *)
Lemma faults_Create id now cmd s :
  CmdTenantID cmd <> "" -> faults (Service.Create (T:=state) (Ok id) now cmd s).1.
Proof.
  intros Ht. unfold Service.Create. rewrite (proj2 (String.eqb_neq _ _) Ht).
  destruct (length _ =? 0)%nat.
  { apply faults_sentinel. by apply (bool_decide_unpack _); vm_compute. }
  apply faults_stm_bind; [apply faults_ComputeTotal|]. intros total s1 [= Htot _].
  apply faults_stm_bind; [done|]. intros id' s2 _.
  apply faults_stm_bind; [by apply faults_OrderValidate|]. intros [] s3 _.
  apply faults_stm_bind; [|done].
  apply faults_InTx, faults_stm_bind; [by apply faults_mem_Create|done].
Qed.

Lemma faults_Get t i s : t <> "" -> faults (Service.Get t i s).1.
Proof.
  intros Ht. unfold Service.Get. rewrite (proj2 (String.eqb_neq _ _) Ht).
  by apply faults_locked, faults_mem_Get.
Qed.

Lemma faults_List t f s a :
  t <> "" -> store_rep s a -> tokenizable a -> faults (Service.List t f s).1.
Proof.
  intros Ht Hr Htok. unfold Service.List. rewrite (proj2 (String.eqb_neq _ _) Ht).
  apply faults_locked. by apply (faults_mem_List t _ (data s) a).
Qed.

Lemma faults_CancelCall now t i s a :
  t <> "" -> store_rep s a -> nul_free t -> faults (Service.Cancel (T:=state) now t i s).1.
Proof.
  intros Ht Hr Hn. unfold Service.Cancel. rewrite (proj2 (String.eqb_neq _ _) Ht).
  apply faults_InTx, faults_stm_bind; [by apply faults_mem_Get|]. intros o d Hget.
  apply faults_stm_bind; [apply faults_Cancel|]. intros o' d' [= Hc <-].
  apply faults_stm_bind; [|done]. apply faults_mem_Update.
  assert (TenantID o' = TenantID o) as ->.
  { unfold Order.Cancel in Hc. destruct (negb _) in Hc; [done|]. by injection Hc as <-. }
  cbn in Hget. unfold OrderMem.Get in Hget. rewrite (proj2 (String.eqb_neq _ _) Ht) in Hget.
  destruct (orders _ !! key t i) as [x|] eqn:Hx; [|done]. injection Hget as <- _.
  cbn in Hx. rewrite (rep_lookup _ _ Hr t i Hn) in Hx. by apply (rep_wf _ _ Hr) in Hx as [-> _].
Qed.

(** ** The handlers *)

Context `{Timestamps}.

(** What a caller may be told: an error of a kind that is not [Internal]. *)
Definition blames_caller {A} (r : result A) : Prop :=
  match r with
  | Ok _ => True
  | Err e => Redacts (KindOf (Some e)) = false
  end.

Lemma orAppError_blames {S A} (m : stm S A) s :
  faults (m s).1 -> blames_caller (orAppError m s).1.
Proof.
  unfold orAppError. destruct (m s) as [[x|e] s']; [done|]. cbn. intros Hf.
  pose proof (client_fault_kind e Hf) as Hk. unfold toApp.
  destruct Hf as [Hn _]. cbn [asAppError] in *. rewrite Hn in *. apply Hk.
Qed.

Lemma blames_bind {S A B} (m : stm S A) (k : A -> stm S B) s :
  blames_caller (m s).1 -> (forall x s', m s = (Ok x, s') -> blames_caller (k x s').1) ->
  blames_caller ((m ≫= k) s).1.
Proof. unfold mbind, stm_bind. destruct (m s) as [[x|e] s'] eqn:E; cbn; auto. Qed.

Lemma tenantOf_blames {S} ctx (s : S) : blames_caller (lift (tenantOf ctx) s).1.
Proof. unfold tenantOf. by destruct (TenantFrom ctx). Qed.

Lemma tenantOf_Ok ctx t : tenantOf ctx = Ok t -> TenantFrom ctx = Some t /\ t <> "".
Proof.
  unfold tenantOf, TenantFrom. destruct (PrincipalFrom ctx) as [p|]; [|done].
  destruct (PTenantID p =? "")%string eqn:E; to_prop; [done|]. by intros [= <-].
Qed.

(** No request is answered with an internal error: over the in-memory store every
    handler, whatever the request holds and whether or not a principal is present, either
    succeeds or fails with a kind that blames the caller (the id generator working and
    rows having uuid ids and representable times). *)
Theorem handlers_blame_caller s a ctx :
  store_rep s a -> tokenizable a -> (forall t, TenantFrom ctx = Some t -> nul_free t) ->
  (forall id now req, blames_caller (CreateOrder (T:=state) (Ok id) now ctx req s).1) /\
  (forall i, blames_caller (GetOrder ctx i s).1) /\
  (forall req, blames_caller (ListOrders ctx req s).1) /\
  (forall now req, blames_caller (CancelOrder (T:=state) now ctx req s).1).
Proof.
  intros Hr Htok Hn.
  split_ands; intros; (apply blames_bind; [apply tenantOf_blames|]);
    intros t s' [= Ht%tenantOf_Ok <-]; destruct Ht as [Hctx Ht];
    (apply blames_bind; [|done || idtac]).
  - apply orAppError_blames, faults_fromProtoItems.
  - intros items s1 E. apply blames_bind; [|done]. by apply orAppError_blames, faults_Create.
  - by apply orAppError_blames, faults_Get.
  - by apply orAppError_blames, (faults_List _ _ s a).
  - apply orAppError_blames. apply (faults_CancelCall _ _ _ s a); auto.
Qed.

End Service.

(** A context error from below the service is not recognised here: [asAppError] gives it
    the kind [Internal], so [apperr]'s own classification of cancellation and expiry
    never sees it. *)
Lemma asAppError_hides_deadline ae :
  asAppError (Some (wrapf [PStr "get order"] DeadlineExceeded)) = Some ae ->
  KindOf (Some ae) = KindInternal /\
  KindOf (Some (wrapf [PStr "get order"] DeadlineExceeded)) = KindDeadlineExceeded.
Proof. by intros [= <-]. Qed.

#[local] Existing Instance ascii_tables.
#[local] Existing Instance bits_env.
#[local] Existing Instance seconds_nanos.

(** The seeded store and the development principal meet the hypotheses: reading an order
    that does not exist is the caller's fault. *)
Lemma handlers_blame_caller_witness :
  blames_caller
    (GetOrder (WithPrincipal Background DevPrincipal) "no-such-order" seeded_mem).1.
Proof.
  destruct (@handlers_blame_caller ascii_tables bits_env bits_laws seconds_nanos
    seeded_mem seeded_abs (WithPrincipal Background DevPrincipal)) as (_ & Hget & _).
  - exact seeded_rep.
  - exact seeded_tokenizable.
  - intros t [= <-]. exact I.
  - apply Hget.
Defined.
