(* ===== verification/Tenancy.v ===== *)
(** Tenant isolation: a call made for one tenant neither reads nor writes the rows of
    another. *)

From S2P Require Import Prelude GoErr GoStr AppErr Money Order Cursor Store Paging OrderMem.
From S2P Require Import Seed Service ServiceSpec Auth GrpcConvert GrpcServer.

(** * On the abstract store *)

(** Two stores hold the same rows for tenant [t]. *)
Definition agree (t : string) (a b : sstate) : Prop :=
  forall i, s_orders a !! (t, i) = s_orders b !! (t, i).

Section Abstract.
Context `{Unicode, CursorEnv}.

(** The part of a listing's definition that depends on the store. *)
Lemma listing_agree t f a b :
  sstate_wf a -> sstate_wf b -> agree t a b -> listing t f a = listing t f b.
Proof.
  intros Ha Hb Hag. apply strict_same_elements.
  - by apply listing_strict.
  - by apply listing_strict.
  - intros o. rewrite !elem_of_listing by done. by rewrite Hag.
Qed.
End Abstract.

Section Abstract.
Context `{Unicode, CursorEnv}.

(** Two outcomes tenant [t] cannot tell apart. *)
Definition alike {A} (t : string) (p q : result A * sstate) : Prop :=
  p.1 = q.1 /\ agree t p.2 q.2.

Lemma alike_bind {A B} t (m : stm sstate A) (k : A -> stm sstate B) a b :
  alike t (m a) (m b) ->
  (forall x a' b', m a = (Ok x, a') -> agree t a' b' -> alike t (k x a') (k x b')) ->
  alike t ((m ≫= k) a) ((m ≫= k) b).
Proof.
  unfold alike at 1. unfold mbind, stm_bind. intros [Hr Hs] Hk.
  destruct (m a) as [r a'] eqn:Ea, (m b) as [r' b']. cbn in *. subst r'.
  destruct r; [by apply Hk|by split].
Qed.

Lemma alike_InTx {A} t (fn : stm sstate A) a b :
  agree t a b -> alike t (fn a) (fn b) -> alike t (Store.InTx fn a) (Store.InTx fn b).
Proof.
  intros Hab [Hr Hs]. cbn. unfold alike.
  destruct (fn a) as [[x|e] a'], (fn b) as [r' b']; cbn in *; subst r'; by split.
Qed.

Lemma agree_insert t a b k o ea eb :
  agree t a b -> agree t (mkS (<[k := o]> (s_orders a)) ea) (mkS (<[k := o]> (s_orders b)) eb).
Proof. intros Hab i. cbn. rewrite !lookup_insert. case_decide; [done|apply Hab]. Qed.

Lemma alike_Create t o a b :
  TenantID o = t -> agree t a b -> alike t (store_Create o a) (store_Create o b).
Proof.
  intros <- Hab. cbn. destruct (TenantID o =? "")%string; [by split|]. rewrite (Hab (ID o)).
  destruct (s_orders b !! _); [by split|]. split; [done|]. by apply agree_insert.
Qed.

Lemma alike_Update t o a b :
  TenantID o = t -> agree t a b -> alike t (store_Update o a) (store_Update o b).
Proof.
  intros <- Hab. cbn. destruct (TenantID o =? "")%string; [by split|]. rewrite (Hab (ID o)).
  destruct (s_orders b !! _); [|by split]. split; [done|]. by apply agree_insert.
Qed.

Lemma alike_Get t i a b : agree t a b -> alike t (store_Get t i a) (store_Get t i b).
Proof.
  intros Hab. cbn. destruct (t =? "")%string; [by split|]. rewrite (Hab i).
  by destruct (s_orders b !! _).
Qed.

Lemma alike_exec c a b :
  sstate_wf a -> sstate_wf b -> agree (call_tenant c) a b ->
  (exec sstate c a).1 = (exec sstate c b).1 /\
  agree (call_tenant c) (exec sstate c a).2 (exec sstate c b).2.
Proof.
  intros Ha Hb.
  assert (forall A (f : result A -> answer) t (m : stm sstate A),
            alike t (m a) (m b) ->
            (let '(r, s') := m a in (f r, s')).1 = (let '(r, s') := m b in (f r, s')).1 /\
            agree t (let '(r, s') := m a in (f r, s')).2 (let '(r, s') := m b in (f r, s')).2)
    as Hout.
  { unfold alike. intros A f t m [Hr Hs]. destruct (m a), (m b). cbn in *. by subst. }
  destruct c as [id now cmd|t i|t f|now t i]; cbn [exec call_tenant]; intros Hab; apply Hout.
  - unfold Service.Create. case_match; [by split|]. case_match; [by split|].
    apply alike_bind; [by split|]. intros total a1 b1 _ Hab1.
    apply alike_bind; [by split|]. intros oid a2 b2 _ Hab2.
    apply alike_bind; [by split|]. intros [] a3 b3 _ Hab3.
    apply alike_bind; [|by split]. apply alike_InTx; [done|].
    apply alike_bind; [by apply alike_Create|by split].
  - unfold Service.Get. case_match; [by split|]. by apply alike_Get.
  - unfold Service.List. case_match; [by split|]. cbn. unfold alike. cbn.
    by rewrite (listing_agree t _ a b Ha Hb Hab).
  - unfold Service.Cancel. case_match; [by split|]. apply alike_InTx; [done|].
    apply alike_bind; [by apply alike_Get|]. intros o a1 b1 Hget Hab1.
    apply alike_bind; [by split|]. intros o' a2 b2 [= Hc _] Hab2.
    apply alike_bind; [|intros [] ? ? _ ?; by split]. apply alike_Update, Hab2.
    destruct (Cancel_fields o now o' Hc) as (_ & _ & _ & Hto & _). rewrite Hto.
    cbn in Hget.
    destruct (t =? "")%string; [done|]. destruct (s_orders a !! (t, i)) as [x|] eqn:Hx; [|done].
    injection Hget as -> _. by apply Ha in Hx as [-> _].
Qed.

(** A call does not touch the rows of another tenant. *)
Lemma exec_frame c a t :
  sstate_wf a -> call_tenant c <> t -> agree t a (exec sstate c a).2.
Proof.
  intros Ha Ht. destruct c as [id now cmd|t' i|t' f|now t' i]; cbn [exec call_tenant] in *.
  - pose proof (Create_effect id now cmd a) as He.
    destruct (Service.Create _ _ _ a) as [[o|e] a']; cbn [snd]; [|by subst].
    destruct He as (_ & -> & _ & _ & Ho). intros j. cbn. rewrite lookup_insert_ne; [done|].
    intros [= E _]. rewrite Ho in E. by cbn in E.
  - unfold Service.Get. destruct (t' =? "")%string eqn:E; [done|]. cbn -[lookup].
    rewrite E. by destruct (s_orders a !! _).
  - unfold Service.List. by destruct (t' =? "")%string.
  - pose proof (Cancel_effect now t' i a Ha) as He.
    destruct (Service.Cancel _ _ _ a) as [[o|e] a']; cbn [snd]; [|by destruct He as [-> _]].
    destruct He as (o0 & _ & _ & ->). intros j. cbn. rewrite lookup_insert_ne; [done|congruence].
Qed.

(** * Purging the other tenants from a schedule *)

Definition for_tenant (t : string) (c : call) : bool := (call_tenant c =? t)%string.

(** The answers of a schedule that went to tenant [t]. *)
Definition answers_to (t : string) (cs : list call) (xs : list answer) : list answer :=
  (List.filter (fun cx : call * answer => for_tenant t cx.1) (zip cs xs)).*2.

Lemma run_purge t cs a b :
  consistent a -> consistent b -> agree t a b ->
  answers_to t cs (run sstate cs a).1 = (run sstate (List.filter (for_tenant t) cs) b).1.
Proof.
  unfold answers_to. revert a b. induction cs as [|c cs IH]; intros a b Ha Hb Hab; [done|].
  cbn [run List.filter]. pose proof (exec_consistent c a Ha) as Ha'.
  destruct (for_tenant t c) eqn:Hc; unfold for_tenant in Hc; to_prop.
  - subst t. destruct (alike_exec c a b (cons_wf _ Ha) (cons_wf _ Hb) Hab) as [Hx Hab'].
    pose proof (exec_consistent c b Hb) as Hb'. cbn [run].
    destruct (exec sstate c a) as [x a'], (exec sstate c b) as [y b']. cbn [fst snd] in *.
    specialize (IH a' b' Ha' Hb' Hab'). destruct (run sstate cs a'), (run sstate _ b').
    cbn [fst snd zip_with List.filter] in *. unfold for_tenant at 1. cbn [fst].
    rewrite String.eqb_refl. cbn. by rewrite IH, Hx.
  - pose proof (exec_frame c a t (cons_wf _ Ha) Hc) as Hf.
    destruct (exec sstate c a) as [x a']. cbn [fst snd] in *.
    assert (agree t a' b) as Hab' by (intros i; rewrite <- (Hf i); apply Hab).
    specialize (IH a' b Ha' Hb Hab'). destruct (run sstate cs a').
    cbn [fst snd zip_with List.filter] in *. unfold for_tenant at 1. cbn [fst].
    by rewrite (proj2 (String.eqb_neq _ _) Hc).
Qed.

Lemma answers_to_eq t cs xs ys :
  Forall2 ans_eq xs ys -> Forall2 ans_eq (answers_to t cs xs) (answers_to t cs ys).
Proof.
  unfold answers_to. intros Hxy. revert cs. induction Hxy as [|x y xs ys Hxy _ IH];
    intros [|c cs]; cbn; try constructor.
  destruct (for_tenant t c); cbn; [constructor|]; auto.
Qed.

(** C10. Tenants cannot observe each other: in any schedule of calls on the in-memory store by
    tenants whose names hold no NUL byte (the store's key separates the tenant from the id by
    one, and two tenants with NULs can share a key), the answers one tenant receives are those
    it would receive if no other tenant had called at all. *)
Theorem tenants_are_isolated cs t :
  Forall (fun c => nul_free (call_tenant c)) cs ->
  Forall2 ans_eq (answers_to t cs (run state cs New).1)
    (run state (List.filter (for_tenant t) cs) New).1.
Proof.
  intros Hcs.
  destruct (mem_run_sim cs New empty_sstate Hcs empty_rep) as [Hx _].
  apply (answers_to_eq t cs) in Hx.
  rewrite (run_purge t cs empty_sstate empty_sstate) in Hx
    by first [apply empty_consistent|done].
  assert (Forall (fun c => nul_free (call_tenant c)) (List.filter (for_tenant t) cs)) as Hf.
  { apply Forall_forall. intros c [_ Hc]%elem_of_filter_list.
    rewrite Forall_forall in Hcs. by apply Hcs. }
  destruct (mem_run_sim _ New empty_sstate Hf empty_rep) as [Hy _].
  etrans; [exact Hx|]. by symmetry.
Qed.

End Abstract.

#[local] Existing Instance ascii_tables.
#[local] Existing Instance bits_env.

(** Another tenant's create and cancel, before and after ours. *)
Definition shared_calls : list call :=
  [CallCreate (Ok some_id) 3 (mkCreateCommand "rival" "cust-9" (Items two_lines));
   CallCancel 4 "rival" some_id] ++ some_calls ++ [CallGet "rival" some_id].

Lemma tenants_are_isolated_witness :
  Forall2 ans_eq (answers_to "acme" shared_calls (run state shared_calls New).1)
    (run state (List.filter (for_tenant "acme") shared_calls) New).1.
Proof. apply tenants_are_isolated. repeat constructor. Defined.
