(* ===== verification/RateLimit.v ===== *)
(** internal/platform/ratelimit: the distributed quota, and the interceptor that applies
    it (internal/platform/interceptor/ratelimit.go).

    The Lua script is translated with integers: every number it handles is a whole count
    of microseconds below [2 ^ 53], where Lua's doubles and the two divisions it makes are
    exact.  Redis is a map from keys to a value with the instant it expires; the script
    runs atomically, at the instant [TIME] reports. *)

From S2P Require Import Prelude GoErr GoStr AppErr Auth.

(** * ratelimit.go *)

(** Durations in nanoseconds. *)
Record Result := mkResult { Allowed : bool; RetryAfter : Z; Remaining : Z }.

Record Config := mkConfig { Limit : Z; Period : Z; Burst : Z }.

Definition EmissionInterval (c : Config) : Z :=
  if Limit c <=? 0 then 0 else Z.quot (Period c) (Limit c).

Definition DelayTolerance (c : Config) : Z := wrap64 (EmissionInterval c * Burst c).

(** A limiter: one decision, over a state of its own. *)
Class Limiter (L : Type) := { Allow : string -> L -> result Result * L }.

#[export] Instance AllowAll : Limiter unit :=
  {| Allow key s := (Ok (mkResult true 0 (-1)), s) |}.

(** * gcra.go *)

(** [(d Duration) Microseconds()]. *)
Definition Microseconds (d : Z) : Z := Z.quot d 1000.

Definition ceil_div (a b : Z) : Z := - ((- a) / b).

(** A key's value and the instant, in microseconds, at which [SET ... PX] lets it go. *)
Record entry := mkEntry { Tat : Z; ExpireAt : Z }.
Abbreviation redis := (gmap string entry).

(** [redis.call('GET', key)] at an instant. *)
Definition redisGet (now_us : Z) (key : string) (r : redis) : option Z :=
  match r !! key with
  | Some e => if now_us <? ExpireAt e then Some (Tat e) else None
  | None => None
  end.

(** The script: its three-element reply and the store it leaves. *)
Definition gcraScript (key : string) (emission_us tolerance_us now_us : Z) (r : redis)
    : (Z * Z * Z) * redis :=
  let tat := match redisGet now_us key r with None => now_us | Some t => t end in
  let tat := if tat <? now_us then now_us else tat in
  let new_tat := tat + emission_us in
  let allow_at := new_tat - tolerance_us in
  let diff := now_us - allow_at in
  if diff <? 0 then ((0, - diff, 0), r)
  else
    let ttl_ms := ceil_div (new_tat - now_us) 1000 in
    let ttl_ms := if ttl_ms <? 1 then 1 else ttl_ms in
    ((1, 0, diff / emission_us),
     <[key := mkEntry new_tat (now_us + ttl_ms * 1000)]> r).

Record RedisLimiter := mkLimiter { cfg : Config; emissionUS : Z; toleranceUS : Z }.

Definition NewRedis (c : Config) : result RedisLimiter :=
  if Limit c <=? 0
  then Err (EFmt [PStr "rate limit must be positive, got "; PInt (Limit c)])
  else if Period c <=? 0
  then Err (EFmt [PStr "rate limit period must be positive, got "; PInt (Period c)])
  else if Burst c <=? 0
  then Err (EFmt [PStr "rate limit burst must be positive, got "; PInt (Burst c)])
  else Ok (mkLimiter c (Microseconds (EmissionInterval c)) (Microseconds (DelayTolerance c))).

(** What the Redis client hands back for a script: a list of numbers of one of the types
    [toInt64] knows, or something else. *)
Inductive value :=
  | VInt64 (z : Z) | VInt (z : Z) | VFloat64 (truncated : Z) | VOther (goType : string).
Inductive reply := RArray (l : list value) | ROther (goType : string).

Definition toInt64 (v : value) : result Z :=
  match v with
  | VInt64 n => Ok n
  | VInt n => Ok n
  | VFloat64 n => Ok n
  | VOther ty => Err (EFmt [PStr "unexpected numeric type "; PStr ty])
  end.

Definition replyType (r : reply) : string :=
  match r with RArray _ => "[]interface {}" | ROther ty => ty end.

(** The body of [Allow] from the reply on. *)
Definition decodeReply (res : reply) : result Result :=
  match res with
  | RArray [v0; v1; v2] =>
      allowed ← mapErr (wrapf [PStr "allowed"]) (toInt64 v0);
      retryUS ← mapErr (wrapf [PStr "retry after"]) (toInt64 v1);
      remaining ← mapErr (wrapf [PStr "remaining"]) (toInt64 v2);
      mret (mkResult (allowed =? 1) (wrap64 (retryUS * 1000)) remaining)
  | _ => Err (EFmt [PStr "rate limit script returned "; PStr (replyType res);
                    PStr ", want a 3-element array"])
  end.

(** The limiter together with the Redis it talks to: [Clock] is the instant of the next
    call and [Down] the client error if Redis cannot be reached. *)
Record shared := mkShared { Lim : RedisLimiter; Store : redis; Clock : Z; Down : option error }.

#[export] Instance RedisAllow : Limiter shared :=
  {| Allow key s :=
       match Down s with
       | Some err => (Err (wrapf [PStr "rate limit script"] err), s)
       | None =>
           let '((allowed, retry, remaining), r) :=
             gcraScript key (emissionUS (Lim s)) (toleranceUS (Lim s)) (Clock s) (Store s) in
           (decodeReply (RArray [VInt64 allowed; VInt64 retry; VInt64 remaining]),
            mkShared (Lim s) r (Clock s) (Down s))
       end |}.

(** * interceptor/ratelimit.go *)

Definition limitKey (tenantID fullMethod : string) : string :=
  "ratelimit:" +:+ tenantID +:+ ":" +:+ fullMethod.

(** [setRetryHeaders] and [setRemainingHeader]: the header they set, if any. *)
Definition retrySeconds (result : Result) : Z :=
  let seconds := Z.quot (RetryAfter result) 1000000000 in
  let seconds := if RetryAfter result >? seconds * 1000000000 then seconds + 1 else seconds in
  if seconds <? 1 then 1 else seconds.

Definition setRetryHeaders (result : Result) : list (string * string) :=
  [("retry-after", pretty (retrySeconds result))].

Definition setRemainingHeader (result : Result) : list (string * string) :=
  if Remaining result <? 0 then [] else [("x-ratelimit-remaining", pretty (Remaining result))].

Section Quota.
Context {L : Type} `{!Limiter L}.
(** [Duration.String] of the standard library. *)
Context (durationString : Z -> string).

(** How the decision ends: no principal to bill, a limiter that failed (which is logged),
    or an answer, with the response headers it sets. *)
Inductive verdict :=
  | Unbilled
  | Unavailable (tenant : string) (err : error)
  | Refused (err : error) (headers : list (string * string))
  | Permitted (headers : list (string * string)).

(** [checkQuota], up to writing the log line and the headers, and the limiter after it. *)
Definition checkQuota (ctx : context) (fullMethod : string) (l : L) : verdict * L :=
  match PrincipalFrom ctx with
  | None => (Unbilled, l)
  | Some principal =>
      if (PTenantID principal =? "")%string then (Unbilled, l)
      else
        match Allow (limitKey (PTenantID principal) fullMethod) l with
        | (Err err, l') => (Unavailable (PTenantID principal) err, l')
        | (Ok result, l') =>
            if negb (Allowed result)
            then (Refused (WithDetails [RetryInfo (RetryAfter result)]
                    (WithMetadata {["retry_after" := durationString (RetryAfter result)]}
                       (New KindResourceExhausted "RATE_LIMITED" "request quota exceeded")))
                    (setRetryHeaders result), l')
            else (Permitted (setRemainingHeader result), l')
        end
  end.
End Quota.

(** * The rate *)

(** A schedule of attempts on one key, at the instants given, and the instants admitted. *)
Fixpoint attempts (key : string) (em tol : Z) (times : list Z) (r : redis) : list Z * redis :=
  match times with
  | [] => ([], r)
  | t :: rest =>
      let '((allowed, _, _), r') := gcraScript key em tol t r in
      let '(admitted, r'') := attempts key em tol rest r' in
      (if allowed =? 1 then t :: admitted else admitted, r'')
  end.

(** The theoretical arrival time a call at [now] starts from. *)
Definition tatAt (now : Z) (key : string) (r : redis) : Z :=
  match r !! key with Some e => Z.max (Tat e) now | None => now end.

(** A stored entry never expires before its own arrival time, so expiry is not
    observable: what the script starts from is the stored value or the present. *)
Definition drains (r : redis) : Prop := map_Forall (fun _ e => Tat e <= ExpireAt e) r.

Lemma ceil_div_le a b : 0 < b -> a <= ceil_div a b * b.
Proof. intros Hb. unfold ceil_div. pose proof (Z.mul_div_le (- a) b Hb). lia. Qed.

Lemma gcraScript_spec key em tol now r :
  drains r ->
  let tat := tatAt now key r in
  let '((allowed, retry, remaining), r') := gcraScript key em tol now r in
  drains r' /\
  ((tat + em - tol <= now /\ allowed = 1 /\ retry = 0 /\
    remaining = (now - (tat + em - tol)) / em /\
    (forall now', tatAt now' key r' = Z.max (tat + em) now') /\
    (forall k, k <> key -> r' !! k = r !! k)) \/
   (now < tat + em - tol /\ allowed = 0 /\ retry = tat + em - tol - now /\ remaining = 0 /\
    r' = r)).
Proof.
  intros Hd. cbn zeta.
  assert (tatAt now key r = (let t := match redisGet now key r with None => now | Some t => t end in
                             if t <? now then now else t)) as Ht.
  { unfold tatAt, redisGet. destruct (r !! key) as [[t e]|] eqn:E; cbn.
    - apply (Hd key) in E. cbn in E. destruct (now <? e) eqn:He; to_prop.
      + destruct (t <? now) eqn:Hn; to_prop; lia.
      + rewrite Z.ltb_irrefl. lia.
    - by rewrite Z.ltb_irrefl. }
  unfold gcraScript. cbn zeta in Ht. rewrite <- Ht. clear Ht.
  set (tat := tatAt now key r).
  destruct (now - (tat + em - tol) <? 0) eqn:Hdiff; to_prop.
  - split; [done|]. right. split_ands; lia || done.
  - assert (tat + em - now <= ceil_div (tat + em - now) 1000 * 1000) as Hc
      by (by apply ceil_div_le).
    set (ttl := if ceil_div _ _ <? 1 then 1 else _).
    assert (tat + em <= now + ttl * 1000) as Httl
      by (subst ttl; case_match; to_prop; lia).
    split.
    + apply map_Forall_insert_2; [done|exact Hd].
    + left. split_ands; [lia|done|done|done| |].
      * intros now'. unfold tatAt. by rewrite lookup_insert_eq.
      * intros k Hk. by rewrite lookup_insert_ne.
Qed.

Lemma tatAt_ge now key r : now <= tatAt now key r.
Proof. unfold tatAt. destruct (r !! key); lia. Qed.

Lemma tatAt_mono a t key r : a <= t -> tatAt a key r <= tatAt t key r.
Proof. unfold tatAt. destruct (r !! key); lia. Qed.

(** The admissions inside a window are bounded by its length plus the tolerance. *)
Lemma attempts_bound key em tol a b times r :
  0 < em -> drains r -> Forall (fun t => a <= t <= b) times ->
  Z.of_nat (length (attempts key em tol times r).1) * em
    <= Z.max 0 (b + tol - tatAt a key r).
Proof.
  intros Hem Hd Hin. revert r Hd. induction Hin as [|t rest Ht _ IH]; intros r Hd; cbn; [lia|].
  pose proof (gcraScript_spec key em tol t r Hd) as Hs. cbn zeta in Hs.
  destruct (gcraScript key em tol t r) as [[[allowed retry] remaining] r'].
  destruct Hs as [Hd' [(Ha & -> & _ & _ & Htat & _)|(_ & -> & _ & _ & ->)]].
  - specialize (IH r' Hd'). destruct (attempts key em tol rest r') as [adm r'']. cbn in *.
    rewrite Htat in IH. pose proof (tatAt_mono a t key r). lia.
  - specialize (IH r Hd). by destruct (attempts key em tol rest r).
Qed.

(** The limiter built from a configuration whose spacing is a whole number of
    microseconds, without overflow. *)
Definition whole (c : Config) : Prop :=
  0 < EmissionInterval c /\ EmissionInterval c mod 1000 = 0 /\
  int_ok 64 (EmissionInterval c * Burst c).

Lemma NewRedis_whole c l :
  NewRedis c = Ok l -> whole c ->
  0 < Burst c /\ 0 < emissionUS l /\ EmissionInterval c = emissionUS l * 1000 /\
  toleranceUS l = emissionUS l * Burst c.
Proof.
  unfold NewRedis, whole. intros Hn (He & Hm & Hok).
  destruct (Limit c <=? 0); [done|]. destruct (Period c <=? 0); [done|].
  destruct (Burst c <=? 0) eqn:Hb; to_prop; [done|]. injection Hn as <-. cbn.
  unfold DelayTolerance, Microseconds. rewrite wrap64_id by done.
  apply Z.mod_divide in Hm as [k Hk]; [|lia]. rewrite Hk.
  rewrite Z.quot_mul by lia.
  replace (k * 1000 * Burst c) with (k * Burst c * 1000) by lia.
  rewrite Z.quot_mul by lia. lia.
Qed.

(** C17. The quota holds in every window, for a limiter whose spacing is a whole number of
    microseconds and whose tolerance is a 64-bit duration ([whole]): whatever the history of a
    key and however the attempts of a window of [b - a] microseconds are timed, the requests
    admitted number at most the burst plus the window at the sustained spacing.  With another
    spacing the two truncations to microseconds admit more: 1428 at once where the burst is
    1000 ([truncated_burst]). *)
Theorem quota_enforced c l key a b times r :
  NewRedis c = Ok l -> whole c -> drains r -> a <= b -> Forall (fun t => a <= t <= b) times ->
  (Z.of_nat (length (attempts key (emissionUS l) (toleranceUS l) times r).1) - Burst c)
    * EmissionInterval c <= (b - a) * 1000.
Proof.
  intros Hn Hw Hd Hab Hin. destruct (NewRedis_whole c l Hn Hw) as (Hb & He & -> & ->).
  pose proof (attempts_bound key (emissionUS l) (emissionUS l * Burst c) a b times r He Hd Hin)
    as Hbound.
  pose proof (tatAt_ge a key r).
  set (n := Z.of_nat (length _)) in *. clearbody n. nia.
Qed.

Lemma attempts_same key em tol a n r m :
  0 < em -> drains r -> tatAt a key r = a + m * em -> 0 <= m ->
  length (attempts key em tol (replicate n a) r).1 =
    Nat.min n (Z.to_nat (tol / em - m)).
Proof.
  intros Hem. revert r m. induction n as [|n IH]; intros r m Hd Ht Hm; [done|].
  cbn [replicate attempts].
  pose proof (gcraScript_spec key em tol a r Hd) as Hs. cbn zeta in Hs.
  destruct (gcraScript key em tol a r) as [[[allowed retry] remaining] r'].
  rewrite Ht in Hs.
  destruct Hs as [Hd' [(Ha & -> & _ & _ & Htat & _)|(Ha & -> & _ & _ & ->)]].
  - specialize (IH r' (m + 1) Hd'). rewrite Htat in IH.
    destruct (attempts key em tol (replicate n a) r') as [adm r'']. cbn [fst length Z.eqb Pos.eqb] in *.
    rewrite IH by lia. assert (m + 1 <= tol / em) by (apply Z.div_le_lower_bound; lia). lia.
  - specialize (IH r m Hd Ht Hm).
    destruct (attempts key em tol (replicate n a) r) as [adm r'']. cbn [fst length Z.eqb Pos.eqb] in *.
    rewrite IH. assert (tol / em < m + 1) by (apply Z.div_lt_upper_bound; lia). lia.
Qed.

(** Exactly [Burst] requests are admitted at once from an idle key, and an idle key is one
    that was never used or whose schedule has drained. *)
Theorem burst_exact c l key now n r :
  NewRedis c = Ok l -> whole c -> drains r ->
  (forall e, r !! key = Some e -> Tat e <= now) ->
  length (attempts key (emissionUS l) (toleranceUS l) (replicate n now) r).1 =
    Nat.min n (Z.to_nat (Burst c)).
Proof.
  intros Hn Hw Hd Hidle. destruct (NewRedis_whole c l Hn Hw) as (Hb & He & _ & ->).
  rewrite (attempts_same _ _ _ _ _ _ 0); [|done|done| |done].
  - rewrite Z.mul_comm, Z.div_mul by lia. f_equal. lia.
  - unfold tatAt. destruct (r !! key) as [e|] eqn:E; [|lia]. specialize (Hidle e eq_refl). lia.
Qed.

(** The advice is exact, and being rejected costs nothing: after a rejection at [now] the
    store is untouched, and a call at a later instant with no other call on the key in
    between is admitted if and only if it waits at least the advertised time. *)
Theorem retry_exact c l key now later r retry :
  NewRedis c = Ok l -> whole c -> drains r -> now <= later ->
  (gcraScript key (emissionUS l) (toleranceUS l) now r).1 = (0, retry, 0) ->
  (gcraScript key (emissionUS l) (toleranceUS l) now r).2 = r /\ 0 < retry /\
  ((gcraScript key (emissionUS l) (toleranceUS l) later r).1.1.1 = 1 <-> now + retry <= later).
Proof.
  intros Hn Hw Hd Hle Hrej. destruct (NewRedis_whole c l Hn Hw) as (Hb & He & _ & Htol).
  assert (emissionUS l <= toleranceUS l) by (rewrite Htol; nia). clear Htol.
  pose proof (gcraScript_spec key (emissionUS l) (toleranceUS l) now r Hd) as Hs. cbn zeta in Hs.
  pose proof (gcraScript_spec key (emissionUS l) (toleranceUS l) later r Hd) as Hl. cbn zeta in Hl.
  destruct (gcraScript key _ _ now r) as [[[al re] rem] r'].
  destruct (gcraScript key _ _ later r) as [[[al2 re2] rem2] r2]. cbn in *.
  injection Hrej as -> -> ->.
  destruct Hs as [_ [(_ & [=] & _)|(Hlt & _ & -> & _ & ->)]].
  assert (tatAt later key r = Z.max (tatAt now key r) later) as E
    by (unfold tatAt; destruct (r !! key); lia).
  rewrite E in Hl. split_ands; [done|lia|].
  destruct Hl as [_ [(Ha & -> & _)|(Ha & -> & _)]]; split; intros; try done; lia.
Qed.

(** * The interceptor's decision *)

Lemma retrySeconds_ceil result :
  0 <= RetryAfter result ->
  1 <= retrySeconds result /\ RetryAfter result <= retrySeconds result * 1000000000 /\
  (1000000000 < RetryAfter result ->
     (retrySeconds result - 1) * 1000000000 < RetryAfter result).
Proof.
  intros Hr. unfold retrySeconds.
  pose proof (Z.quot_rem' (RetryAfter result) 1000000000).
  pose proof (Z.rem_bound_pos (RetryAfter result) 1000000000 Hr ltac:(lia)).
  destruct (RetryAfter result >? _) eqn:E1;
    match goal with |- context [if ?c <? 1 then _ else _] => destruct (c <? 1) eqn:E2 end;
    to_prop; lia.
Qed.

(** The quota check refuses a call in one case only, a limiter that answered "not allowed"
    for the caller's own tenant and method; a call without a principal is not billed, and a
    failing limiter is reported apart from a refusal.  A refusal is [ResourceExhausted],
    carries the limiter's exact delay, and its [retry-after] header never advises an earlier
    return than that delay. *)
Theorem checkQuota_spec `{Limiter L} ds ctx m (l : L) :
  match checkQuota ds ctx m l with
  | (Unbilled, l') => TenantFrom ctx = None /\ l' = l
  | (Unavailable t e, l') =>
      TenantFrom ctx = Some t /\ Allow (limitKey t m) l = (Err e, l')
  | (Permitted _, l') =>
      exists t r, TenantFrom ctx = Some t /\ Allow (limitKey t m) l = (Ok r, l') /\
        Allowed r = true
  | (Refused e headers, l') =>
      exists t r, TenantFrom ctx = Some t /\ Allow (limitKey t m) l = (Ok r, l') /\
        Allowed r = false /\ KindOf (Some e) = KindResourceExhausted /\
        headers = [("retry-after", pretty (retrySeconds r))] /\
        (forall mar d, mar [ErrorInfo "RATE_LIMITED" d {["retry_after" := ds (RetryAfter r)]};
                       RetryInfo (RetryAfter r)] = true ->
           RetryInfo (RetryAfter r) ∈ SDetails (ToStatus mar (Some e) d)) /\
        (0 <= RetryAfter r -> RetryAfter r <= retrySeconds r * 1000000000)
  end.
Proof.
  unfold checkQuota, TenantFrom. destruct (PrincipalFrom ctx) as [p|]; [|done].
  destruct (PTenantID p =? "")%string; [done|].
  destruct (Allow _ l) as [[r|e] l'] eqn:E; [|done].
  destruct (Allowed r) eqn:Ha; cbn [negb]; exists (PTenantID p), r; [done|].
  split_ands; try done.
  - intros mar d Hmar. erewrite ToStatus_reported by reflexivity. cbn [SDetails Redacts].
    rewrite (right_id_L ∅ (∪)). change (Redacts _) with false. cbn [app]. rewrite Hmar. set_solver.
  - intros Hr. by apply retrySeconds_ceil.
Qed.

(** One tenant's calls to one method never consume another key's quota. *)
Lemma limitKey_inj t t' m m' :
  string_forallb (fun c => negb (Ascii.eqb c ":"%char)) t = true ->
  string_forallb (fun c => negb (Ascii.eqb c ":"%char)) t' = true ->
  limitKey t m = limitKey t' m' -> t = t' /\ m = m'.
Proof.
  unfold limitKey. intros Ht Ht' E. injection E as E. revert t' Ht' E.
  induction t as [|c t IH]; intros [|c' t'] Ht' E; cbn in *.
  - by injection E.
  - injection E as <- _. discriminate Ht'.
  - injection E as -> _. discriminate Ht.
  - injection E as <- E. apply andb_true_iff in Ht as [_ Ht], Ht' as [_ Ht'].
    by destruct (IH Ht t' Ht' E) as [-> ->].
Qed.

(** * The theorems at a concrete quota: 600 a minute, bursts of 3 *)

Definition quota : Config := mkConfig 600 60000000000 3.
Definition quota_limiter : RedisLimiter := mkLimiter quota 100000 300000.

Lemma quota_whole : whole quota.
Proof. unfold whole. split_ands; vm_compute; done. Qed.

Lemma quota_enforced_witness :
  (Z.of_nat (length (attempts "k" 100000 300000
     (replicate 5 1000000 ++ replicate 4 1250000) ∅).1) - 3) * 100000000 <= 250000 * 1000.
Proof.
  apply (quota_enforced quota quota_limiter "k" 1000000 1250000
           (replicate 5 1000000 ++ replicate 4 1250000) ∅).
  - reflexivity.
  - exact quota_whole.
  - apply map_Forall_empty.
  - lia.
  - repeat constructor; lia.
Defined.

Lemma burst_exact_witness :
  length (attempts "k" 100000 300000 (replicate 5 1000000) ∅).1 = 3%nat.
Proof.
  apply (burst_exact quota quota_limiter "k" 1000000 5 ∅).
  - reflexivity.
  - exact quota_whole.
  - apply map_Forall_empty.
  - intros e. by rewrite lookup_empty.
Defined.

(** An exhausted key: three requests at once, then one more. *)
Definition exhausted : redis := (attempts "k" 100000 300000 (replicate 3 1000000) ∅).2.

Lemma exhausted_drains : drains exhausted.
Proof. by apply (bool_decide_unpack _); vm_compute. Qed.

Lemma retry_exact_witness :
  (gcraScript "k" 100000 300000 1100000 exhausted).1.1.1 = 1 <-> 1000000 + 100000 <= 1100000.
Proof.
  apply (retry_exact quota quota_limiter "k" 1000000 1100000 exhausted 100000).
  - reflexivity.
  - exact quota_whole.
  - exact exhausted_drains.
  - lia.
  - vm_compute. reflexivity.
Defined.

(** The two truncations to microseconds do not commute: at 700000 requests a second the
    tolerance admits 1428 at once from an idle key where the configured burst is 1000. *)
Lemma truncated_burst :
  match NewRedis (mkConfig 700000 1000000000 1000) with
  | Ok l => toleranceUS l / emissionUS l = 1428
  | Err _ => False
  end.
Proof. reflexivity. Qed.
