(* ===== verification/Interceptor.v ===== *)
(** internal/platform/interceptor: the server interceptors.

    A call runs in a [world]: the process-wide state its interceptors share (the slots
    in use, the clock, the log, the response headers, the limiter) and whatever else the
    verifier and the handlers act on.  It returns, or panics with a value. *)

From S2P Require Import Prelude GoErr GoStr GoLog AppErr Auth RateLimit.

(** * Calls *)

Record world (L X : Type) := mkWorld {
  InUse : Z; Now : Z; Logs : list logline; Headers : list (string * string);
  LimiterState : L; Ext : X }.
Arguments mkWorld {L X}.
Arguments InUse {L X}. Arguments Now {L X}. Arguments Logs {L X}.
Arguments Headers {L X}. Arguments LimiterState {L X}. Arguments Ext {L X}.

Inductive outcome (A : Type) := Done (a : A) | Panicked (v : text).
Arguments Done {A}. Arguments Panicked {A}.

Definition io (L X A : Type) : Type := world L X -> outcome A * world L X.

#[export] Instance io_ret L X : MRet (io L X) := fun A a w => (Done a, w).
#[export] Instance io_bind L X : MBind (io L X) := fun A B k m w =>
  match m w with (Done a, w') => k a w' | (Panicked v, w') => (Panicked v, w') end.

Section Effects.
Context {L X : Type}.

Definition log (l : logline) : io L X unit := fun w =>
  (Done tt, mkWorld (InUse w) (Now w) (Logs w ++ [l]) (Headers w) (LimiterState w) (Ext w)).

Definition setHeaders (h : list (string * string)) : io L X unit := fun w =>
  (Done tt, mkWorld (InUse w) (Now w) (Logs w) (Headers w ++ h) (LimiterState w) (Ext w)).

Definition timeNow : io L X Z := fun w => (Done (Now w), w).

Definition setInUse (n : Z) (w : world L X) : world L X :=
  mkWorld n (Now w) (Logs w) (Headers w) (LimiterState w) (Ext w).

Definition setLimiter (l : L) : io L X unit := fun w =>
  (Done tt, mkWorld (InUse w) (Now w) (Logs w) (Headers w) l (Ext w)).

(** [defer f(); return m()]: [f] runs on the way out, panicking or not. *)
Definition deferred {A} (f : world L X -> world L X) (m : io L X A) : io L X A := fun w =>
  let '(r, w') := m w in (r, f w').
End Effects.

(** A gRPC status inside an error, as [status.FromError] and [status.Code] find it. *)
Class StatusLib := { statusOf : error -> option code }.

Definition as_status (e : error) : option code :=
  match e with EStatus c _ _ => Some c | _ => None end.

(** Documented: an error built from a status has its code, one that neither is nor wraps
    a status has none. *)
Class StatusLaws `{StatusLib} := {
  statusOf_status : forall c m d, statusOf (EStatus c m d) = Some c;
  statusOf_none : forall e, errAs as_status e = None -> statusOf e = None }.

(** [status.Code]. *)
Definition statusCode `{StatusLib} (err : option error) : code :=
  match err with
  | None => COK
  | Some e => match statusOf e with Some c => c | None => CUnknown end
  end.

(** * admission.go *)

Definition HealthCheckMethod : string := "/grpc.health.v1.Health/Check".

(** [FilterHealthChecks]: a health check makes no span. *)
Definition FilterHealthChecks (fullMethod : string) : bool :=
  negb (fullMethod =? HealthCheckMethod)%string.

Definition overloaded : error :=
  WithDetails [RetryInfo (100 * 1000000)]
    (New KindResourceExhausted "SERVER_OVERLOADED" "too many concurrent requests").

Inductive admission := Exempt | Expired | Acquired | Shed.

(** The decision [Admission] takes for one call; [inUse] is the fill of the channel. *)
Definition acquireSlot (limit : Z) (method : string) (deadline : option Z) (now inUse : Z)
    : admission :=
  if (method =? HealthCheckMethod)%string then Exempt
  else if (match deadline with Some d => now >? d | None => false end) then Expired
  else if inUse <? Z.max limit 1 then Acquired
  else Shed.

(** * auth.go *)

Definition bearerToken `{Unicode} (ctx : context) : string :=
  match CtxMetadata ctx with
  | None => ""
  | Some md =>
      match md !! "authorization" with
      | None | Some [] => ""
      | Some (raw :: _) =>
          let prefix := "bearer " in
          if (strlen raw <? strlen prefix) ||
             negb (EqualFold (take_bytes (String.length prefix) raw) prefix)
          then ""
          else TrimSpace (drop_bytes (String.length prefix) raw)
      end
  end.

(** * deadline.go *)

(** [context.WithTimeout]: an earlier deadline of the parent is kept. *)
Definition WithTimeout (ctx : context) (now d : Z) : context :=
  mkContext (CtxPrincipal ctx)
    (Some (match CtxDeadline ctx with Some p => Z.min p (now + d) | None => now + d end))
    (CtxMetadata ctx).

Definition applyDeadline (ctx : context) (now defaultTimeout maxTimeout : Z) : context :=
  match CtxDeadline ctx with
  | None => WithTimeout ctx now defaultTimeout
  | Some deadline =>
      let remaining := deadline - now in
      if remaining >? maxTimeout then WithTimeout ctx now maxTimeout else ctx
  end.

Definition applyStreamDeadline (ctx : context) (now maxTimeout : Z) : context :=
  match CtxDeadline ctx with
  | Some _ => ctx
  | None => WithTimeout ctx now maxTimeout
  end.

(** * validate.go *)

(** What protovalidate reports: a list of violations, or a failure of its own. *)
Inductive validation := Violations (l : list FieldViolation) | EngineError (e : error).

Definition toBadRequest (v : validation) : error :=
  match v with
  | EngineError err => Wrap err KindInternal "VALIDATION_ENGINE_ERROR" [PStr "validation engine failed"]
  | Violations l =>
      WithDetails [BadRequest l]
        (New KindInvalidArgument "VALIDATION_FAILED" "request failed validation")
  end.

Definition isServerFault (c : code) : bool :=
  match c with CInternal | CUnknown | CDataLoss | CUnavailable => true | _ => false end.

(** * The interceptors *)

Section Interceptors.
Context `{Unicode, StatusLib} {L X : Type} `{!Limiter L} {Req Resp : Type}.
(** Libraries: whether protobuf can encode error details, [debug.Stack],
    [Duration.String], and whether a request is a proto message. *)
Context (marshals : list detail -> bool) (debugStack : string) (durationString : Z -> string).
Context (isProto : Req -> bool).

Definition handler : Type := context -> Req -> io L X (option Resp * option error).
Definition interceptor : Type := string -> handler -> handler.

(** A stream handler works on its stream, which is part of the world; its context is what
    [ss.Context()] returns. *)
Definition streamHandler : Type := context -> io L X (option error).
Definition streamInterceptor : Type := string -> streamHandler -> streamHandler.

(** ** recovery.go *)

Definition handlePanic (domain method : string) (r : text) : io L X (option error) :=
  _ ← log (mkLog LevelError "panic recovered in handler"
             [("grpc.method", AStr method); ("panic", AAny r); ("stack", AStr debugStack)]);
  let cause := EFmt (PStr "panic: " :: r) in
  mret (ToError marshals (Some (Wrap cause KindInternal "PANIC" [PStr "handler panicked"])) domain).

Definition Recovery (domain : string) : interceptor := fun method h ctx req w =>
  match h ctx req w with
  | (Done r, w') => (Done r, w')
  | (Panicked v, w') => (err ← handlePanic domain method v; mret (None, err)) w'
  end.

Definition RecoveryStream (domain : string) : streamInterceptor := fun method h ctx w =>
  match h ctx w with
  | (Done r, w') => (Done r, w')
  | (Panicked v, w') => handlePanic domain method v w'
  end.

(** ** logging.go *)

Definition record (method : string) (start : Z) (err : option error) : io L X unit :=
  now ← timeNow;
  let code := statusCode err in
  let attrs := [("grpc.method", AStr method); ("grpc.code", ACode code);
                ("duration_ms", AInt (Z.quot (now - start) 1000000))] in
  match err with
  | None => log (mkLog LevelInfo "rpc finished" attrs)
  | Some e =>
      log (mkLog (if isServerFault code then LevelError else LevelWarn) "rpc finished"
             (attrs ++ [("error", AErr e)]))
  end.

Definition Logging : interceptor := fun method h ctx req =>
  start ← timeNow;
  r ← h ctx req;
  _ ← record method start r.2;
  mret r.

Definition LoggingStream : streamInterceptor := fun method h ctx =>
  start ← timeNow;
  err ← h ctx;
  _ ← record method start err;
  mret err.

(** ** errmap.go *)

Definition mapErr (err : error) (domain : string) : option error :=
  match statusOf err with
  | Some _ =>
      match From err with
      | None => Some err
      | Some _ => ToError marshals (Some err) domain
      end
  | None => ToError marshals (Some err) domain
  end.

Definition ErrorMap (domain : string) : interceptor := fun _ h ctx req =>
  r ← h ctx req;
  match r.2 with
  | None => mret (r.1, None)
  | Some err => mret (r.1, mapErr err domain)
  end.

Definition ErrorMapStream (domain : string) : streamInterceptor := fun _ h ctx =>
  err ← h ctx;
  match err with
  | Some err => mret (mapErr err domain)
  | None => mret None
  end.

(** ** admission.go *)

Definition Admission (limit : Z) : interceptor := fun method h ctx req w =>
  match acquireSlot limit method (CtxDeadline ctx) (Now w) (InUse w) with
  | Exempt => h ctx req w
  | Expired =>
      (Done (None, Some (New KindResourceExhausted "DEADLINE_ALREADY_EXPIRED"
                           "request deadline expired before admission")), w)
  | Acquired =>
      deferred (fun w' => setInUse (InUse w' - 1) w') (h ctx req) (setInUse (InUse w + 1) w)
  | Shed => (Done (None, Some overloaded), w)
  end.

(** ** auth.go *)

(** The verifier: the raw token to a principal, or an error. *)
Context (Verify : context -> string -> io L X (result Principal)).

Definition authorize (policy : Policy) (method : string) (ctx : context)
    : io L X (result context) :=
  match policy !! method with
  | None =>
      _ ← log (mkLog LevelError "no authorisation policy for method -- denying"
                 [("method", AStr method);
                  ("fix", AStr "add a Rule in internal/grpcapi/policy.go")]);
      mret (Err (New KindPermissionDenied "NO_POLICY" "not authorised"))
  | Some rule =>
      if Public rule then mret (Ok ctx)
      else
        verified ← Verify ctx (bearerToken ctx);
        match verified with
        | Err err =>
            _ ← log (mkLog LevelWarn "authentication failed"
                       [("method", AStr method); ("reason", AErr err)]);
            mret (Err (New KindUnauthenticated "UNAUTHENTICATED" "invalid or missing credentials"))
        | Ok principal =>
            match Check policy method principal true with
            | Err err =>
                _ ← log (mkLog LevelWarn "authorisation denied"
                           [("method", AStr method); ("subject", AStr (Subject principal));
                            ("tenant", AStr (PTenantID principal)); ("reason", AErr err)]);
                mret (Err (New KindPermissionDenied "PERMISSION_DENIED" "not authorised"))
            | Ok _ => mret (Ok (WithPrincipal ctx principal))
            end
        end
  end.

Definition Auth (policy : Policy) : interceptor := fun method h ctx req =>
  r ← authorize policy method ctx;
  match r with
  | Err err => mret (None, Some err)
  | Ok authCtx => h authCtx req
  end.

Definition AuthStream (policy : Policy) : streamInterceptor := fun method h ctx =>
  r ← authorize policy method ctx;
  match r with
  | Err err => mret (Some err)
  | Ok authCtx => h authCtx
  end.

(** ** ratelimit.go *)

(** [checkQuota] with the log line and the headers written: a limiter that cannot be
    reached lets the call through. *)
Definition quotaGate (ctx : context) (method : string) : io L X (option error) := fun w =>
  let '(v, l) := checkQuota durationString ctx method (LimiterState w) in
  (_ ← setLimiter l;
   match v with
   | Unbilled => mret None
   | Unavailable tenant err =>
       _ ← log (mkLog LevelWarn "rate limiter unavailable, allowing the request"
                  [("method", AStr method); ("tenant", AStr tenant); ("error", AErr err)]);
       mret None
   | Refused err headers => _ ← setHeaders headers; mret (Some err)
   | Permitted headers => _ ← setHeaders headers; mret None
   end) w.

Definition RateLimit : interceptor := fun method h ctx req =>
  err ← quotaGate ctx method;
  match err with
  | Some err => mret (None, Some err)
  | None => h ctx req
  end.

Definition RateLimitStream : streamInterceptor := fun method h ctx =>
  err ← quotaGate ctx method;
  match err with
  | Some err => mret (Some err)
  | None => h ctx
  end.

(** ** deadline.go *)

Definition Deadline (defaultTimeout maxTimeout : Z) : interceptor := fun _ h ctx req =>
  now ← timeNow;
  h (applyDeadline ctx now defaultTimeout maxTimeout) req.

Definition DeadlineStream (maxTimeout : Z) : streamInterceptor := fun _ h ctx =>
  now ← timeNow;
  h (applyStreamDeadline ctx now maxTimeout).

(** ** validate.go *)

Definition Validate (validator : Req -> option validation) : interceptor := fun _ h ctx req =>
  if negb (isProto req) then h ctx req
  else match validator req with
       | Some v => mret (None, Some (toBadRequest v))
       | None => h ctx req
       end.

(** * The chains of internal/grpcapi/chain.go *)

(** [grpc.ChainUnaryInterceptor]: the first is outermost. *)
Definition chain (l : list interceptor) (method : string) (h : handler) : handler :=
  foldr (fun i h => i method h) h l.
Definition streamChain (l : list streamInterceptor) (method : string) (h : streamHandler)
    : streamHandler := foldr (fun i h => i method h) h l.

(** The settings of [Deps] the chains read; the metrics interceptors are a library's. *)
Record settings := mkSettings {
  ServiceName : string; AdmissionLimit : Z; DefaultTimeout : Z; MaxTimeout : Z;
  DPolicy : Policy; Validator : Req -> option validation;
  Metrics : interceptor; MetricsStream : streamInterceptor }.

Definition unary (d : settings) : list interceptor :=
  [Recovery (ServiceName d);
   Metrics d;
   Logging;
   ErrorMap (ServiceName d);
   Admission (AdmissionLimit d);
   Auth (DPolicy d);
   RateLimit;
   Deadline (DefaultTimeout d) (MaxTimeout d);
   Validate (Validator d)].

Definition stream (d : settings) : list streamInterceptor :=
  [RecoveryStream (ServiceName d);
   MetricsStream d;
   LoggingStream;
   ErrorMapStream (ServiceName d);
   AuthStream (DPolicy d);
   RateLimitStream;
   DeadlineStream (MaxTimeout d)].

End Interceptors.
