(* ===== verification/InterceptorSpec.v ===== *)
(** What the interceptor chains guarantee, whatever handler they are put around. *)

From S2P Require Import Prelude GoErr GoStr GoLog AppErr Auth RateLimit Interceptor.

Section Chain.
Context `{Unicode, StatusLaws} {L X : Type} `{!Limiter L} {Req Resp : Type}.
Context (marshals : list detail -> bool) (debugStack : string) (durationString : Z -> string).
Context (isProto : Req -> bool).
Context (Verify : Auth.context -> string -> io L X (result Principal)).

Abbreviation handler := (@handler L X Req Resp).
Abbreviation interceptor := (@interceptor L X Req Resp).
Abbreviation settings := (@settings L X Req Resp).
Abbreviation unary := (unary marshals debugStack durationString isProto Verify).
Abbreviation stream := (stream marshals debugStack durationString Verify).

(** * Who reaches the handler *)

(** Two handlers that behave alike on one request. *)
Definition same (h1 h2 : handler) (ctx : Auth.context) (req : Req) : Prop :=
  forall w, h1 ctx req w = h2 ctx req w.

Definition transparent (i : interceptor) : Prop :=
  forall m h ctx req w, i m h ctx req w = h ctx req w.

Lemma run_Recovery dom m (h1 h2 : handler) ctx req w :
  h1 ctx req w = h2 ctx req w ->
  Recovery marshals debugStack dom m h1 ctx req w = Recovery marshals debugStack dom m h2 ctx req w.
Proof. unfold Recovery. by intros ->. Qed.

Lemma same_bind {A B} (m1 m2 : io L X A) (k1 k2 : A -> io L X B) w :
  m1 w = m2 w -> (forall a w', k1 a w' = k2 a w') -> (m1 ≫= k1) w = (m2 ≫= k2) w.
Proof. unfold mbind, io_bind. intros -> Hk. destruct (m2 w) as [[a|v] w']; auto. Qed.

Lemma run_Logging m (h1 h2 : handler) ctx req w :
  h1 ctx req w = h2 ctx req w -> Logging m h1 ctx req w = Logging m h2 ctx req w.
Proof. intros Hs. unfold Logging, mbind, io_bind, timeNow. by rewrite Hs. Qed.

Lemma run_ErrorMap dom m (h1 h2 : handler) ctx req w :
  h1 ctx req w = h2 ctx req w ->
  ErrorMap marshals dom m h1 ctx req w = ErrorMap marshals dom m h2 ctx req w.
Proof. intros Hs. by apply same_bind. Qed.

(** The world a call goes on in once it is admitted: with a slot more in use, unless the
    method takes none. *)
Definition admitted (limit : Z) (m : string) (ctx : Auth.context) (w : world L X) : world L X :=
  match acquireSlot limit m (CtxDeadline ctx) (Now w) (InUse w) with
  | Acquired => setInUse (InUse w + 1) w
  | _ => w
  end.

Lemma run_Admission limit m (h1 h2 : handler) ctx req w :
  h1 ctx req (admitted limit m ctx w) = h2 ctx req (admitted limit m ctx w) ->
  Admission limit m h1 ctx req w = Admission limit m h2 ctx req w.
Proof. unfold Admission, admitted, deferred. destruct (acquireSlot _ _ _ _ _); try done; by intros ->. Qed.

(** The contexts [authorize] lets a call continue with in the world [w]: that of a public
    method, or one holding the principal the verifier answers there for the presented token,
    when the rule admits it. *)
Definition granted (policy : Policy) (m : string) (ctx : Auth.context) (w : world L X)
    (ctx' : Auth.context) : Prop :=
  exists rule, policy !! m = Some rule /\
    ((Public rule = true /\ ctx' = ctx) \/
     (Public rule = false /\
      exists p w', Verify ctx (bearerToken ctx) w = (Done (Ok p), w') /\
        Forall (fun s => s ∈ Scopes p) (RScopes rule) /\ ctx' = WithPrincipal ctx p)).

Lemma authorize_granted policy m ctx w :
  match authorize Verify policy m ctx w with
  | (Done (Ok ctx'), _) => granted policy m ctx w ctx'
  | _ => True
  end.
Proof.
  unfold authorize, granted. destruct (policy !! m) as [rule|] eqn:Hrule; [|done].
  destruct (Public rule) eqn:Hp; [cbn; eauto|].
  unfold mbind at 1, io_bind at 1.
  destruct (Verify ctx (bearerToken ctx) w) as [[[p|e]|v] w'] eqn:Hv; [|done|done].
  destruct (Check policy m p true) as [[]|e] eqn:Hc; [|done]. cbn.
  apply Check_Ok in Hc as (r & Hr & Hsc). rewrite Hrule in Hr. injection Hr as <-.
  exists rule. split; [done|]. right. split; [done|]. exists p, w'. split_ands; [done| |done].
  destruct Hsc as [?|[_ ?]]; [congruence|done].
Qed.

Lemma run_Auth policy m (h1 h2 : handler) ctx req w :
  (forall ctx', granted policy m ctx w ctx' -> same h1 h2 ctx' req) ->
  Auth Verify policy m h1 ctx req w = Auth Verify policy m h2 ctx req w.
Proof.
  intros Hs. unfold Auth, mbind, io_bind. pose proof (authorize_granted policy m ctx w) as Hg.
  destruct (authorize Verify policy m ctx w) as [[[ctx'|e]|v] w']; [|done|done].
  by apply Hs.
Qed.

Lemma same_RateLimit m h1 h2 ctx req :
  same h1 h2 ctx req ->
  same (RateLimit durationString m h1) (RateLimit durationString m h2) ctx req.
Proof. intros Hs w. apply same_bind; [done|]. intros [e|] w'; [done|apply Hs]. Qed.

Lemma same_Deadline dt mt m h1 h2 ctx req :
  (forall now, same h1 h2 (applyDeadline ctx now dt mt) req) ->
  same (Deadline dt mt m h1) (Deadline dt mt m h2) ctx req.
Proof. intros Hs w. unfold Deadline, mbind, io_bind, timeNow. apply Hs. Qed.

Lemma same_Validate v m h1 h2 ctx req :
  ((isProto req = true -> v req = None) -> same h1 h2 ctx req) ->
  same (Validate isProto v m h1) (Validate isProto v m h2) ctx req.
Proof.
  intros Hs w. unfold Validate. destruct (isProto req); cbn; [|by apply Hs].
  destruct (v req); [done|by apply Hs].
Qed.

(** The contexts with which a request that arrives in the world [w] may reach the handler of
    method [m]. *)
Definition admissible (d : settings) (m : string) (ctx : Auth.context) (req : Req)
    (w : world L X) (ctx' : Auth.context) : Prop :=
  (isProto req = true -> Validator d req = None) /\
  exists authCtx now, granted (DPolicy d) m ctx (admitted (AdmissionLimit d) m ctx w) authCtx /\
    ctx' = applyDeadline authCtx now (DefaultTimeout d) (MaxTimeout d).

(** C9. Default deny: what the chain does with a call depends on the handler only through calls
    it is allowed to make, with a validated request, for a method with a rule, in a context
    that holds a principal whose scopes the rule accepts (unless the rule is public), and that
    principal is the one the verifier answers for the presented token in this call, in the
    world the call is verified in.  Where no such context exists the handler is not run at
    all: replacing it changes nothing. *)
Theorem only_admissible_calls (d : settings) m (h1 h2 : handler) ctx req w :
  transparent (Metrics d) ->
  (forall ctx', admissible d m ctx req w ctx' -> same h1 h2 ctx' req) ->
  chain (unary d) m h1 ctx req w = chain (unary d) m h2 ctx req w.
Proof.
  intros Hmet Hs. unfold chain, unary. cbn [foldr].
  apply run_Recovery. rewrite !Hmet.
  apply run_Logging, run_ErrorMap, run_Admission, run_Auth. intros authCtx Hg.
  apply same_RateLimit, same_Deadline. intros now. apply same_Validate. intros Hv.
  apply Hs. split; eauto.
Qed.

Lemma same_RecoveryStream dom m (h1 h2 : @streamHandler L X) ctx w :
  h1 ctx w = h2 ctx w ->
  RecoveryStream marshals debugStack dom m h1 ctx w = RecoveryStream marshals debugStack dom m h2 ctx w.
Proof. unfold RecoveryStream. by intros ->. Qed.

(** The contexts with which a stream opened in the world [w] may reach the handler. *)
Definition admissibleStream (d : settings) (m : string) (ctx : Auth.context) (w : world L X)
    (ctx' : Auth.context) : Prop :=
  exists authCtx now, granted (DPolicy d) m ctx w authCtx /\
    ctx' = applyStreamDeadline authCtx now (MaxTimeout d).

(** The same of the stream chain: a handler is run only in a context whose principal the
    verifier accepted, or for a public method. *)
Lemma only_admissible_streams (d : settings) m (h1 h2 : @streamHandler L X) ctx w :
  (forall m h ctx w, MetricsStream d m h ctx w = h ctx w) ->
  (forall ctx', admissibleStream d m ctx w ctx' -> forall w, h1 ctx' w = h2 ctx' w) ->
  streamChain (stream d) m h1 ctx w = streamChain (stream d) m h2 ctx w.
Proof.
  intros Hmet Hs. unfold streamChain, stream. cbn [foldr].
  assert (AuthStream Verify (DPolicy d) m
      (RateLimitStream durationString m (DeadlineStream (MaxTimeout d) m h1)) ctx w =
    AuthStream Verify (DPolicy d) m
      (RateLimitStream durationString m (DeadlineStream (MaxTimeout d) m h2)) ctx w) as Hauth.
  { unfold AuthStream, mbind, io_bind.
    pose proof (authorize_granted (DPolicy d) m ctx w) as Hg.
    destruct (authorize _ _ _ _ _) as [[[authCtx|e]|v] w2]; [|done|done].
    unfold RateLimitStream, DeadlineStream. apply same_bind; [done|]. intros [e|] w3; [done|].
    apply Hs. by exists authCtx, (Now w3). }
  apply same_RecoveryStream. rewrite !Hmet. unfold LoggingStream, ErrorMapStream.
  unfold mbind, io_bind, timeNow. by rewrite Hauth.
Qed.

(** Every handler runs under a deadline no further than the longer of the two configured
    timeouts, and never later than the one its caller asked for. *)
Lemma applyDeadline_bound ctx now dt mt :
  exists dl, CtxDeadline (applyDeadline ctx now dt mt) = Some dl /\
    dl <= now + Z.max dt mt /\
    (forall asked, CtxDeadline ctx = Some asked -> dl <= asked) /\
    CtxPrincipal (applyDeadline ctx now dt mt) = CtxPrincipal ctx.
Proof.
  unfold applyDeadline, WithTimeout. destruct (CtxDeadline ctx) as [dl|] eqn:Hd; cbn.
  - destruct (dl - now >? mt) eqn:E; to_prop; cbn; rewrite ?Hd;
      eexists; split_ands; try done; try lia; intros ? [= <-]; lia.
  - eexists. split_ands; [done|lia|done|done].
Qed.

(** * What leaves the chain *)

Lemma ToError_status e dom :
  exists c m d, ToError marshals (Some e) dom = Some (EStatus c m d).
Proof. cbn. eauto. Qed.

Lemma mapErr_status e dom :
  exists e' c, mapErr marshals e dom = Some e' /\ statusOf e' = Some c.
Proof.
  unfold mapErr. destruct (ToError_status e dom) as (c & m & d & E).
  pose proof (statusOf_status c m d).
  destruct (statusOf e) as [c'|] eqn:Hst; [destruct (From e)|]; eauto.
Qed.

(** The line [record] writes. *)
Definition finished (e : option error) (l : logline) : Prop :=
  LMsg l = "rpc finished" /\ ("grpc.code", ACode (statusCode e)) ∈ LAttrs l /\
  LLevel l = (match e with
              | None => LevelInfo
              | Some _ => if isServerFault (statusCode e) then LevelError else LevelWarn
              end).

Lemma record_line m start e (w : world L X) :
  exists l, record m start e w = (Done tt,
    mkWorld (InUse w) (Now w) (Logs w ++ [l]) (Headers w) (LimiterState w) (Ext w)) /\
    finished e l.
Proof.
  unfold record, finished. destruct e as [e|]; cbn; eexists; (split; [reflexivity|]);
    cbn; split_ands; try done; set_solver.
Qed.

(** C30. No panic and no unmapped error leaves the chain, and the log tells the truth: the call
    always returns; its error, if any, is a gRPC status; and the last line logged is either
    the "rpc finished" line, with the code the caller receives, or the report of a panic
    whose caller receives [Internal], the text "internal error" and no metadata. *)
Theorem chain_contains_failures (d : settings) m (h : handler) ctx req (w : world L X) :
  transparent (Metrics d) ->
  exists resp e w' pre line,
    chain (unary d) m h ctx req w = (Done (resp, e), w') /\
    (forall err, e = Some err -> is_Some (statusOf err)) /\
    Logs w' = pre ++ [line] /\
    (finished e line \/
     (LMsg line = "panic recovered in handler" /\
      exists det, e = Some (EStatus CInternal [PStr "internal error"] det) /\
        forall r dom md, ErrorInfo r dom md ∈ det -> md = ∅)).
Proof.
  intros Hmet. unfold chain, unary. cbn [foldr].
  set (inner := Admission _ _ _). clearbody inner.
  unfold Recovery. rewrite Hmet.
  assert (match Logging m (ErrorMap marshals (ServiceName d) m inner) ctx req w with
          | (Done (resp, e), w') => (forall err, e = Some err -> is_Some (statusOf err)) /\
              exists pre line, Logs w' = pre ++ [line] /\ finished e line
          | (Panicked _, _) => True
          end) as Hlog.
  { unfold Logging, mbind at 1, io_bind at 1, timeNow. cbn [fst].
    unfold mbind at 1, io_bind at 1.
    assert (match ErrorMap marshals (ServiceName d) m inner ctx req w with
            | (Done (resp, e), _) => forall err, e = Some err -> is_Some (statusOf err)
            | (Panicked _, _) => True
            end) as Hmap.
    { unfold ErrorMap, mbind, io_bind. destruct (inner ctx req w) as [[[resp [e|]]|v] w1]; [| |done].
      - cbn. destruct (mapErr_status e (ServiceName d)) as (e' & c & -> & Hc).
        intros err [= <-]. eauto.
      - done. }
    destruct (ErrorMap _ _ _ _ _ _ _) as [[[resp e]|v] w1]; [|done].
    unfold mbind at 1, io_bind at 1. cbn [snd].
    destruct (record_line m (Now w) e w1) as (l & -> & Hl). cbn. eauto. }
  destruct (Logging _ _ _ _ _) as [[[resp e]|v] w1].
  - destruct Hlog as (He & pre & line & Hpre & Hl). eauto 12.
  - unfold handlePanic, log, mbind, io_bind. cbn -[ToError].
    eexists None, _, _, (Logs w1), _. split_ands; [reflexivity| |reflexivity|].
    + intros err. cbn. intros [= <-]. rewrite statusOf_status. eauto.
    + right. split; [done|]. cbn. eexists. split; [reflexivity|].
      intros r dom md. case_match; set_solver.
Qed.
End Chain.

(** * Admission under concurrency

    Calls arrive and finish in any order.  The channel's fill is [slots]; [holders] are
    the calls between their acquire and their deferred release. *)

Record admissions := mkAdm { slots : Z; holders : gset nat }.

Inductive adm_step (limit : Z) : admissions -> admissions -> Prop :=
  | Enters id method deadline now s :
      id ∉ holders s -> acquireSlot limit method deadline now (slots s) = Acquired ->
      adm_step limit s (mkAdm (slots s + 1) ({[id]} ∪ holders s))
  | Passed_or_refused method deadline now s :
      acquireSlot limit method deadline now (slots s) <> Acquired -> adm_step limit s s
  | Released id s :
      id ∈ holders s -> adm_step limit s (mkAdm (slots s - 1) (holders s ∖ {[id]})).

Definition adm_reachable (limit : Z) : admissions -> Prop :=
  rtc (adm_step limit) (mkAdm 0 ∅).

Lemma adm_invariant limit s :
  adm_reachable limit s -> slots s = Z.of_nat (size (holders s)) /\ slots s <= Z.max limit 1.
Proof.
  intros Hr. revert s Hr.
  apply (rtc_ind_r (fun s => slots s = Z.of_nat (size (holders s)) /\ slots s <= Z.max limit 1));
    [cbn; rewrite size_empty; lia|].
  intros s s' _ Hs [Hsize Hle].
  destruct Hs as [id method deadline now s Hid Ha|method deadline now s _|id s Hid]; cbn; [|done|].
  - rewrite size_union, size_singleton by set_solver. split; [lia|].
    unfold acquireSlot in Ha. destruct (method =? _)%string; [done|].
    destruct (match deadline with Some _ => _ | None => _ end); [done|].
    destruct (slots s <? Z.max limit 1) eqn:E; to_prop; [lia|done].
  - rewrite size_difference, size_singleton by set_solver.
    assert (size (holders s) <> 0%nat) by (intros E%size_empty_inv; set_solver). lia.
Qed.

(** The bound holds under any interleaving: never more than [max limit 1] admitted calls
    run at once, and a call is shed only when that many are running; a health check is
    always let through and a call whose deadline has passed never takes a slot. *)
Theorem admission_bounds limit s method deadline now :
  adm_reachable limit s ->
  Z.of_nat (size (holders s)) <= Z.max limit 1 /\
  (acquireSlot limit method deadline now (slots s) = Exempt <-> method = HealthCheckMethod) /\
  (method <> HealthCheckMethod ->
     (acquireSlot limit method deadline now (slots s) = Expired <->
        exists dl, deadline = Some dl /\ dl < now) /\
     (acquireSlot limit method deadline now (slots s) = Shed ->
        Z.of_nat (size (holders s)) = Z.max limit 1) /\
     (acquireSlot limit method deadline now (slots s) = Acquired ->
        Z.of_nat (size (holders s)) < Z.max limit 1)).
Proof.
  intros Hr. destruct (adm_invariant limit s Hr) as [Hsize Hle]. rewrite <- Hsize.
  split; [done|]. unfold acquireSlot.
  destruct (method =? HealthCheckMethod)%string eqn:Hm; to_prop; [by split|].
  destruct deadline as [dl|].
  - destruct (now >? dl) eqn:Hd; to_prop.
    + split; [by split|]. intros _. split_ands; try done. split; [eauto with lia|done].
    + destruct (slots s <? Z.max limit 1) eqn:E; to_prop; (split; [by split|]); intros _;
        split_ands; try done; try lia; split; try done; intros (? & [= <-] & ?); lia.
  - destruct (slots s <? Z.max limit 1) eqn:E; to_prop; (split; [by split|]); intros _;
      split_ands; try done; try lia; split; try done; by intros (? & ? & _).
Qed.

(** The methods that make no span are the methods that take no slot. *)
Lemma untraced_exempt limit method deadline now slots :
  FilterHealthChecks method = false <-> acquireSlot limit method deadline now slots = Exempt.
Proof.
  unfold FilterHealthChecks, acquireSlot. destruct (method =? HealthCheckMethod)%string; [done|].
  split; [done|]. destruct deadline as [d|]; [destruct (now >? d); [done|]|];
    by destruct (slots <? Z.max limit 1).
Qed.

Lemma admission_bounds_witness :
  let full := mkAdm 2 {[1%nat; 2%nat]} in
  acquireSlot 2 "/order.v1.OrderService/GetOrder" None 5 (slots full) = Shed /\
  Z.of_nat (size (holders full)) = 2.
Proof.
  intros full.
  assert (acquireSlot 2 "/order.v1.OrderService/GetOrder" None 5 (slots full) = Shed) as E
    by reflexivity.
  split; [exact E|].
  apply (admission_bounds 2 full "/order.v1.OrderService/GetOrder" None 5); [|discriminate|exact E].
  unfold adm_reachable, full.
  eapply rtc_l; [eapply (Enters _ 2%nat "m" None 0); [set_solver|reflexivity]|].
  eapply rtc_l; [eapply (Enters _ 1%nat "m" None 0); [cbn; set_solver|reflexivity]|].
  cbn. rewrite (right_id_L ∅ (∪)). apply rtc_refl.
Defined.

(** The slot is given back on every way out of the handler, a panic included. *)
Lemma Admission_releases {L X Req Resp} limit m (h : @handler L X Req Resp) ctx req w :
  (forall ctx req w, InUse (h ctx req w).2 = InUse w) ->
  InUse (Admission limit m h ctx req w).2 = InUse w.
Proof.
  intros Hh. unfold Admission, deferred. destruct (acquireSlot _ _ _ _ _); try done; try apply Hh.
  pose proof (Hh ctx req (setInUse (InUse w + 1) w)) as E.
  destruct (h ctx req _) as [r w']. cbn in *. lia.
Qed.

(** * The chain theorems on a concrete server *)

Section Example.
#[local] Existing Instance ascii_tables.
#[local] Existing Instance AllowAll.
#[local] Instance status_of : StatusLib := {| statusOf := errAs as_status |}.

#[local] Instance status_laws : StatusLaws.
Proof. split; [done|]. intros e He. exact He. Defined.

Let example_settings : @settings unit unit string string :=
  mkSettings "orders" 4 1000 2000 {["/svc/Get" := mkRule false ["read"]]} (fun _ => None)
    (fun _ h => h) (fun _ h => h).
Let everyone (ctx : Auth.context) (tok : string) : io unit unit (result Principal) :=
  mret (Ok (mkPrincipal "u" "acme" [] false)).
Let start : world unit unit := mkWorld 0 0 [] [] tt tt.
Let secret : @handler unit unit string string := fun _ _ => mret (Some "secret", None).
Let crash : @handler unit unit string string := fun _ _ w => (Panicked [PStr "boom"], w).

(** A caller without the scope: the handler might as well panic. *)
Lemma only_admissible_calls_witness :
  chain (unary (fun _ => true) "" (fun _ => "") (fun _ => false) everyone example_settings)
    "/svc/Get" secret Background "req" start =
  chain (unary (fun _ => true) "" (fun _ => "") (fun _ => false) everyone example_settings)
    "/svc/Get" crash Background "req" start.
Proof.
  apply only_admissible_calls; [done|].
  intros ctx' (_ & authCtx & now & (rule & Hrule & Hg) & _). exfalso.
  change (({["/svc/Get" := mkRule false ["read"]]} : gmap string Rule) !! "/svc/Get" = Some rule) in Hrule.
  apply lookup_singleton_Some in Hrule as [_ <-].
  destruct Hg as [[[=] _]|(_ & p & w' & [= <- _] & Hs & _)].
  inversion Hs as [|? ? Hin _]; subst. cbn in Hin. by apply elem_of_nil in Hin.
Defined.

Lemma chain_contains_failures_witness :
  exists resp e w' pre line,
    chain (unary (fun _ => true) "" (fun _ => "") (fun _ => false) everyone
             (mkSettings "orders" 4 1000 2000 {["/svc/Get" := mkRule true []]} (fun _ => None)
                (fun _ h => h) (fun _ h => h)))
      "/svc/Get" crash Background "req" start = (Done (resp, e), w') /\
    (forall err, e = Some err -> is_Some (statusOf err)) /\
    Logs w' = pre ++ [line] /\
    (finished e line \/
     (LMsg line = "panic recovered in handler" /\
      exists det, e = Some (EStatus CInternal [PStr "internal error"] det) /\
        forall r dom md, ErrorInfo r dom md ∈ det -> md = ∅)).
Proof. by apply chain_contains_failures. Defined.
End Example.
