(* ===== verification/Outbox.v ===== *)
(** internal/platform/outbox: the transactional outbox's relay, pruner and observer.

    The table is a map from row ids to rows and each SQL statement of the code is a
    function on it.  What the database, the broker and the clock answer to one drain is
    the environment [env]; a database call that fails leaves the table alone.  A drain runs
    on rows no other transaction holds: [Locked] lists the rows that others hold, which
    SKIP LOCKED passes over. *)

From S2P Require Import Prelude GoErr GoStr GoLog.

(** * outbox.go *)

Record Message := mkMessage {
  MID : Z; MTenantID : string; MAggregateID : string; MEventType : string;
  MPayload : string; MOccurredAt : Z; MTraceParent : string }.

#[export] Instance Message_eq_dec : EqDecision Message.
Proof. solve_decision. Defined.

Definition Permanent (err : option error) : option error :=
  match err with None => None | Some e => Some (EPermanent e) end.

Definition as_permanent (e : error) : option error :=
  match e with EPermanent e' => Some e' | _ => None end.

Definition IsPermanent (err : error) : bool :=
  match errAs as_permanent err with Some _ => true | None => false end.

(** * The table *)

Record row := mkRow {
  RTenantID : string; RAggregateID : string; REventType : string; RPayload : string;
  ROccurredAt : Z; RTraceParent : option string;
  PublishedAt : option Z; FailedAt : option Z; FailureReason : option text }.

Abbreviation table := (gmap Z row).

(** [coalesce(trace_parent, '')]. *)
Definition message (id : Z) (r : row) : Message :=
  mkMessage id (RTenantID r) (RAggregateID r) (REventType r) (RPayload r) (ROccurredAt r)
    (match RTraceParent r with Some tp => tp | None => "" end).

(** [published_at IS NULL AND failed_at IS NULL]. *)
Definition is_pending (r : row) : bool :=
  bool_decide (PublishedAt r = None) && bool_decide (FailedAt r = None).

(** The rows a predicate selects, ORDER BY id. *)
Definition id_le (a b : Z * row) : Prop := a.1 <= b.1.

#[export] Instance id_le_dec a b : Decision (id_le a b).
Proof. unfold id_le. apply _. Defined.
#[export] Instance id_le_total : Total id_le.
Proof. intros a b. unfold id_le. lia. Qed.
#[export] Instance id_le_trans : Transitive id_le.
Proof. intros a b c. unfold id_le. lia. Qed.

Definition rows_by_id (p : row -> bool) (t : table) : list (Z * row) :=
  List.filter (fun kr => p kr.2) (merge_sort id_le (map_to_list t)).

Definition claimSQL (batchSize : nat) (locked : gset Z) (t : table) : list (Z * row) :=
  take batchSize (List.filter (fun kr => negb (bool_decide (kr.1 ∈ locked)))
                    (rows_by_id is_pending t)).

Definition set_published (now : Z) (r : row) : row :=
  mkRow (RTenantID r) (RAggregateID r) (REventType r) (RPayload r) (ROccurredAt r)
    (RTraceParent r) (Some now) (FailedAt r) (FailureReason r).

Definition set_failed (now : Z) (reason : text) (r : row) : row :=
  mkRow (RTenantID r) (RAggregateID r) (REventType r) (RPayload r) (ROccurredAt r)
    (RTraceParent r) (PublishedAt r) (Some now) (Some reason).

(** [UPDATE outbox SET published_at = now() WHERE id = ANY(ids)], and the rows it hit. *)
Definition markSQL (now : Z) (ids : list Z) (t : table) : table * Z :=
  (map_imap (fun id r => Some (if bool_decide (id ∈ ids) then set_published now r else r)) t,
   Z.of_nat (length (List.filter (fun kr : Z * row => bool_decide (kr.1 ∈ ids)) (map_to_list t)))).

(** [UPDATE outbox SET failed_at = now(), failure_reason = reason
    WHERE id = id AND published_at IS NULL]. *)
Definition quarantineSQL (now : Z) (id : Z) (reason : text) (t : table) : table * Z :=
  match t !! id with
  | Some r =>
      if bool_decide (PublishedAt r = None)
      then (<[id := set_failed now reason r]> t, 1) else (t, 0)
  | None => (t, 0)
  end.

(** * relay.go *)

(** What the world answers to one drain.  [PublishR k m] is the answer to the [k]-th publish
    of the drain: whether the broker stored the message, and the error returned.  A COMMIT, and
    the quarantine's UPDATE on its own, can fail after the database has applied them:
    [CommitErr] and [QuarantineErr] say so beside the error. *)
Record env := mkEnv {
  DbNow : Z; Locked : gset Z;
  BeginErr : option error; ClaimErr : option error; ScanErr : nat -> option error;
  RowsErr : option error; CloseErr : option error; EmptyCommitErr : option error;
  PublishR : nat -> Message -> bool * option error;
  MarkErr : option error; MarkAffectedErr : option error; CommitErr : option (error * bool);
  QuarantineErr : option (error * bool); QuarantineAffectedErr : option error }.

(** A nil error from the publisher means the broker has stored the message. *)
Definition publisher_honest (e : env) : Prop :=
  forall k m, (PublishR e k m).2 = None -> (PublishR e k m).1 = true.

Record outbox := mkOutbox { Table : table; Broker : list Message; RLogs : list logline }.

Definition log (l : logline) (o : outbox) : outbox :=
  mkOutbox (Table o) (Broker o) (RLogs o ++ [l]).

(** The [rows.Next] loop: the batch, or the scan error that ended it. *)
Fixpoint scanRows (scanErr : nat -> option error) (k : nat) (l : list (Z * row))
    : result (list Message) :=
  match l with
  | [] => Ok []
  | (id, r) :: rest =>
      match scanErr k with
      | Some err => Err (wrapf [PStr "scan"] err)
      | None => batch ← scanRows scanErr (S k) rest; mret (message id r :: batch)
      end
  end.

(** The publish loop: the messages the broker stored, and the first failure. *)
Fixpoint publishAll (publish : nat -> Message -> bool * option error) (k : nat)
    (batch : list Message) : list Message * option (Message * error) :=
  match batch with
  | [] => ([], None)
  | m :: rest =>
      let '(stored, err) := publish k m in
      let kept := if stored then [m] else [] in
      match err with
      | None =>
          let '(sent, failure) := publishAll publish (S k) rest in (kept ++ sent, failure)
      | Some e => (kept, Some (m, e))
      end
  end.

Definition quarantine (e : env) (m : Message) (cause : error) (o : outbox)
    : option error * outbox :=
  match QuarantineErr e with
  | Some (err, applied) =>
      (Some (wrapf [PStr "quarantine outbox row "; PInt (MID m)] err),
       if applied
       then mkOutbox (quarantineSQL (DbNow e) (MID m) [PVal cause] (Table o)).1 (Broker o) (RLogs o)
       else o)
  | None =>
      let '(t, affected) := quarantineSQL (DbNow e) (MID m) [PVal cause] (Table o) in
      let o := mkOutbox t (Broker o) (RLogs o) in
      if bool_decide (QuarantineAffectedErr e = None) && (affected =? 0) then (None, o)
      else (None, log (mkLog LevelError
              "outbox row quarantined; it will not be retried until an operator clears failed_at"
              [("outbox_id", AInt (MID m)); ("event_type", AStr (MEventType m));
               ("tenant_id", AStr (MTenantID m)); ("error", AErr cause)]) o)
  end.

(** [markPublished]: the table of the transaction after it. *)
Definition markPublished (e : env) (batch : list Message) (t : table) : result table :=
  match MarkErr e with
  | Some err => Err (wrapf [PStr "mark published"] err)
  | None =>
      let '(t', affected) := markSQL (DbNow e) (MID <$> batch) t in
      if bool_decide (MarkAffectedErr e = None) && negb (affected =? Z.of_nat (length batch))
      then Err (EFmt [PStr "marked "; PInt affected; PStr " rows published but claimed ";
                      PInt (Z.of_nat (length batch)); PStr "; the relay would republish ";
                      PStr "the difference on every drain"])
      else Ok t'
  end.

(** [DrainOnce]: the count and error it returns, and the outbox after it.  A return before
    the commit rolls the transaction back: the table is the one it started from.  After a COMMIT
    that reports an error the table is either that one or the marked one. *)
Definition DrainOnce (batchSize : nat) (e : env) (o : outbox) : (Z * option error) * outbox :=
  match BeginErr e with
  | Some err => ((0, Some (wrapf [PStr "begin"] err)), o)
  | None =>
  match ClaimErr e with
  | Some err => ((0, Some (wrapf [PStr "claim"] err)), o)
  | None =>
  match scanRows (ScanErr e) 0 (claimSQL batchSize (Locked e) (Table o)) with
  | Err err => ((0, Some err), o)
  | Ok batch =>
  match RowsErr e with
  | Some err => ((0, Some (wrapf [PStr "claim rows"] err)), o)
  | None =>
  match CloseErr e with
  | Some err => ((0, Some (wrapf [PStr "close claim"] err)), o)
  | None =>
  if (length batch =? 0)%nat then ((0, EmptyCommitErr e), o)
  else
    let '(sent, failure) := publishAll (PublishR e) 0 batch in
    let o := mkOutbox (Table o) (Broker o ++ sent) (RLogs o) in
    match failure with
    | Some (m, err) =>
        if negb (IsPermanent err)
        then ((0, Some (wrapf [PStr "publish outbox row "; PInt (MID m)] err)), o)
        else
          match quarantine e m err o with
          | (Some qErr, o) =>
              ((0, Some (wrapf [PStr "publish outbox row "; PInt (MID m);
                                PStr " failed permanently ("; PVal err;
                                PStr ") and it could not be quarantined"] qErr)), o)
          | (None, o) =>
              ((0, Some (wrapf [PStr "quarantined outbox row "; PInt (MID m)] err)), o)
          end
    | None =>
        match markPublished e batch (Table o) with
        | Err err => ((0, Some err), o)
        | Ok t =>
            match CommitErr e with
            | Some (err, applied) =>
                ((0, Some (wrapf [PStr "commit"] err)),
                 log (mkLog LevelWarn "outbox batch published but not marked; it will be republished"
                        [("batch", AInt (Z.of_nat (length batch))); ("error", AErr err)])
                   (if applied then mkOutbox t (Broker o) (RLogs o) else o))
            | None => ((Z.of_nat (length batch), None), mkOutbox t (Broker o) (RLogs o))
            end
        end
    end
  end end end end end.

(** [NewRelay]'s batch size: each option may replace it, [WithBatchSize] only with a positive
    number. *)
Definition Option : Type := Z -> Z.

Definition WithBatchSize (n : Z) : Option := fun batchSize => if n >? 0 then n else batchSize.

Definition NewRelay (opts : list Option) : Z := foldl (fun r opt => opt r) 100 opts.

(** Whatever the options, a relay claims at least one row a drain. *)
Lemma NewRelay_positive l : 0 < NewRelay (WithBatchSize <$> l).
Proof.
  unfold NewRelay. assert (0 < 100) as H0 by lia. revert H0. generalize 100.
  induction l as [|n l IH]; intros b Hb; [done|]. cbn. apply IH. unfold WithBatchSize.
  destruct (n >? 0) eqn:E; lia.
Qed.

(** What one [select] of a loop yields: its context is done, or its timer or ticker fired, with
    what the round it starts meets. *)
Inductive wake (A : Type) := CtxDone | Fired (a : A).
Arguments CtxDone {A}.
Arguments Fired {A} _.

(** [Run] over what its successive selects yield.  The result: what it returned, if these
    selects made it return; the selects it left; and the delay set before each further one. *)
Fixpoint Run (batchSize : nat) (interval : Z) (wakes : list (wake env)) (o : outbox)
    : (option (option error) * list (wake env) * list Z) * outbox :=
  let interval := if interval <=? 0 then 1000000000 else interval in
  match wakes with
  | [] => ((None, [], []), o)
  | CtxDone :: rest => ((Some None, rest, []), o)
  | Fired e :: rest =>
      let '((published, err), o) := DrainOnce batchSize e o in
      let next o :=
        let delay := if (published =? Z.of_nat batchSize) && bool_decide (err = None)
                     then 0 else interval in
        let '((returned, left_, delays), o) := Run batchSize interval rest o in
        ((returned, left_, delay :: delays), o) in
      match err with
      | Some err =>
          if errIs Canceled err || errIs DeadlineExceeded err then ((Some None, rest, []), o)
          else next (log (mkLog LevelError "outbox drain failed" [("error", AErr err)]) o)
      | None =>
          if published >? 0
          then next (log (mkLog LevelDebug "outbox drained" [("published", AInt published)]) o)
          else next o
      end
  end.

(** * prune.go *)

(** [published_at IS NOT NULL AND published_at < $1]: a NULL never compares. *)
Definition prunable (cutoff : Z) (r : row) : bool :=
  match PublishedAt r with Some p => p <? cutoff | None => false end.

(** A bounded DELETE over the rows in the order the database scans them. *)
Definition pruneSQL {A} (eligible : A -> bool) (scan : gmap Z A -> list (Z * A))
    (batchSize : nat) (t : gmap Z A) : gmap Z A * Z :=
  let victims := take batchSize (List.filter (fun kr => eligible kr.2) (scan t)) in
  (foldr (fun kr t => delete kr.1 t) t victims, Z.of_nat (length victims)).

Definition pruneOutboxSQL (cutoff : Z) := pruneSQL (prunable cutoff).

(** [processed_events], as the times its rows were processed. *)
Definition pruneProcessedEventsSQL (cutoff : Z) :=
  pruneSQL (fun processed_at : Z => processed_at <? cutoff).

Definition NewPruner_batchSize (batchSize : Z) : Z := if batchSize <=? 0 then 1000 else batchSize.

(** What each iteration meets: the context's error, that of the statement, and that of
    counting the rows it hit. *)
Record batch_env := mkBatchEnv {
  CtxErr : nat -> option error; ExecErr : nat -> option error; CountErr : nat -> option error }.

(** The loop of [deleteInBatches], [k] iterations in; [None] when the fuel is too small.
    The log lines it writes are not kept. *)
Fixpoint deleteInBatches {T} (fuel : nat) (be : batch_env) (name : string) (batchSize : nat)
    (query : T -> T * Z) (k : nat) (total : Z) (t : T) : option ((Z * option error) * T) :=
  match fuel with
  | O => None
  | S fuel =>
      match CtxErr be k with
      | Some err => Some ((total, Some err), t)
      | None =>
          match ExecErr be k with
          | Some err => Some ((total, Some (wrapf [PStr "prune "; PStr name] err)), t)
          | None =>
              let '(t, n) := query t in
              match CountErr be k with
              | Some err =>
                  Some ((total, Some (wrapf [PStr "prune "; PStr name; PStr ": rows affected"] err)), t)
              | None =>
                  let total := total + n in
                  if n <? Z.of_nat batchSize then Some ((total, None), t)
                  else deleteInBatches fuel be name batchSize query (S k) total t
              end
          end
      end
  end.

Record PruneResult := mkPrune { POutbox : Z; PProcessedEvents : Z }.

Definition Prune (fuel : nat) (be1 be2 : batch_env) (batchSize : nat)
    (scan : table -> list (Z * row)) (scan' : gmap Z Z -> list (Z * Z))
    (now outboxAge processedAge : Z) (t : table) (pe : gmap Z Z)
    : option ((PruneResult * option error) * table * gmap Z Z) :=
  match deleteInBatches fuel be1 "outbox" batchSize
          (pruneOutboxSQL (now - outboxAge) scan batchSize) 0 0 t with
  | None => None
  | Some ((deleted, Some err), t) => Some ((mkPrune deleted 0, Some err), t, pe)
  | Some ((deleted, None), t) =>
      match deleteInBatches fuel be2 "processed_events" batchSize
              (pruneProcessedEventsSQL (now - processedAge) scan' batchSize) 0 0 pe with
      | None => None
      | Some ((deleted', err), pe) => Some ((mkPrune deleted deleted', err), t, pe)
      end
  end.

(** [Eligible]; [err1] and [err2] are what its two queries fail with. *)
Definition count_rows {A} (p : A -> bool) (t : gmap Z A) : Z :=
  Z.of_nat (length (List.filter (fun kr => p kr.2) (map_to_list t))).

Definition Eligible (err1 err2 : option error) (now outboxAge processedAge : Z) (t : table)
    (pe : gmap Z Z) : PruneResult * option error :=
  match err1 with
  | Some err => (mkPrune 0 0, Some (wrapf [PStr "count eligible outbox rows"] err))
  | None =>
      let n := count_rows (prunable (now - outboxAge)) t in
      match err2 with
      | Some err => (mkPrune n 0, Some (wrapf [PStr "count eligible processed_events rows"] err))
      | None =>
          (mkPrune n (count_rows (fun at_ => at_ <? now - processedAge) pe), None)
      end
  end.

(** * observer.go *)

Definition is_quarantined (r : row) : bool := negb (bool_decide (FailedAt r = None)).

Definition pendingSQL (t : table) : Z := Z.of_nat (length (rows_by_id is_pending t)).
Definition quarantinedSQL (t : table) : Z := Z.of_nat (length (rows_by_id is_quarantined t)).

(** The age of the first pending row, in nanoseconds; no row is [sql.ErrNoRows]. *)
Definition oldestPendingSQL (now : Z) (t : table) : result Z :=
  match rows_by_id is_pending t with
  | [] => Err SqlErrNoRows
  | (_, r) :: _ => Ok (now - ROccurredAt r)
  end.

Record gauges := mkGauges {
  GPending : Z; GQuarantined : Z; GOldestAge : Z; GLastObservation : Z; GFailures : Z }.

(** [Observe]: the gauges are set together, after every query has succeeded. *)
Definition Observe (err1 err2 err3 : option error) (now : Z) (t : table) (g : gauges)
    : option error * gauges :=
  match err1 with
  | Some err => (Some (wrapf [PStr "count pending outbox rows"] err), g)
  | None =>
      match err2 with
      | Some err => (Some (wrapf [PStr "count quarantined outbox rows"] err), g)
      | None =>
          let set age := (None, mkGauges (pendingSQL t) (quarantinedSQL t) age now (GFailures g)) in
          match (match err3 with Some err => Err err | None => oldestPendingSQL now t end) with
          | Ok age => set age
          | Err err =>
              if errIs SqlErrNoRows err then set 0
              else (Some (wrapf [PStr "read the oldest pending outbox row"] err), g)
          end
      end
  end.

(** [observeOnce]; [ctxErr] is the error of the worker's own context. *)
Definition observeOnce (err1 err2 err3 ctxErr : option error) (now : Z) (t : table) (g : gauges)
    : gauges :=
  let '(err, g) := Observe err1 err2 err3 now t g in
  match err with
  | None => g
  | Some _ =>
      match ctxErr with
      | Some _ => g
      | None => mkGauges (GPending g) (GQuarantined g) (GOldestAge g) (GLastObservation g)
                  (GFailures g + 1)
      end
  end.

(** What one observation meets. *)
Record observation := mkObservation {
  ObsErr1 : option error; ObsErr2 : option error; ObsErr3 : option error;
  ObsCtxErr : option error; ObsNow : Z; ObsTable : table }.

Definition observing (o : observation) (g : gauges) : gauges :=
  observeOnce (ObsErr1 o) (ObsErr2 o) (ObsErr3 o) (ObsCtxErr o) (ObsNow o) (ObsTable o) g.

Fixpoint observerLoop (wakes : list (wake observation)) (g : gauges)
    : option (option error) * gauges :=
  match wakes with
  | [] => (None, g)
  | CtxDone :: _ => (Some None, g)
  | Fired o :: rest => observerLoop rest (observing o g)
  end.

(** [Run] of the observer: the interval it ticks at, and over an observation at once and what
    its selects yield, what it returned, if it did, and the gauges. *)
Definition ObserverRun (interval : Z) (first : observation) (wakes : list (wake observation))
    (g : gauges) : Z * (option (option error) * gauges) :=
  (if interval <=? 0 then 15 * 1000000000 else interval,
   observerLoop wakes (observing first g)).
