(* ===== verification/OutboxSpec.v ===== *)
(** What the relay guarantees: nothing is lost, nothing is dropped by a failure, a backlog
    clears, and one kind of failure that stops it. *)

From S2P Require Import Prelude GoErr GoStr GoLog Outbox.

(** * The statements *)

Definition is_claim (t : table) (l : list (Z * row)) : Prop :=
  NoDup l.*1 /\ forall id r, (id, r) ∈ l -> t !! id = Some r /\ is_pending r = true.

Lemma rows_by_id_elem p t id r : (id, r) ∈ rows_by_id p t <-> t !! id = Some r /\ p r = true.
Proof.
  unfold rows_by_id. rewrite elem_of_filter_list, merge_sort_Permutation, elem_of_map_to_list.
  cbn. naive_solver.
Qed.

Lemma rows_by_id_NoDup p t : NoDup (rows_by_id p t).*1.
Proof.
  apply NoDup_fst_filter. rewrite merge_sort_Permutation. apply NoDup_fst_map_to_list.
Qed.

Lemma claim_is_claim n locked t : is_claim t (claimSQL n locked t).
Proof.
  unfold claimSQL. split.
  - eapply sublist_NoDup; [|apply fmap_sublist, sublist_take].
    apply NoDup_fst_filter, rows_by_id_NoDup.
  - intros id r (i & Hi & _)%elem_of_take.
    apply list_elem_of_lookup_2, elem_of_filter_list in Hi as [_ Hi].
    by apply rows_by_id_elem in Hi.
Qed.

Lemma markSQL_lookup now ids t id :
  (markSQL now ids t).1 !! id =
    (fun r => if bool_decide (id ∈ ids) then set_published now r else r) <$> t !! id.
Proof. cbn. rewrite map_lookup_imap. by destruct (t !! id). Qed.

(** The UPDATE hits as many rows as the batch has, so the check on it never fires. *)
Lemma markSQL_affected now ids t :
  NoDup ids -> (forall id, id ∈ ids -> is_Some (t !! id)) ->
  (markSQL now ids t).2 = Z.of_nat (length ids).
Proof.
  intros Hnd Hin. cbn. f_equal. rewrite <- (length_fmap fst).
  apply Permutation_length, NoDup_Permutation; [|done|].
  - apply NoDup_fst_filter, NoDup_fst_map_to_list.
  - intros id. rewrite list_elem_of_fmap. split.
    + by intros ([id' r] & -> & [Hx%bool_decide_eq_true _]%elem_of_filter_list).
    + intros Hid. destruct (Hin id Hid) as [r Hr]. exists (id, r). split; [done|].
      by rewrite elem_of_filter_list, elem_of_map_to_list, bool_decide_eq_true.
Qed.

(** * One drain *)

Definition batch_of (l : list (Z * row)) : list Message := (fun kr => message kr.1 kr.2) <$> l.

Lemma scanRows_Ok scanErr k l batch : scanRows scanErr k l = Ok batch -> batch = batch_of l.
Proof.
  revert k batch. induction l as [|[id r] l IH]; intros k batch; cbn; [by intros [= <-]|].
  destruct (scanErr k); [done|]. destruct (scanRows scanErr (S k) l) eqn:E; [|done].
  cbn. intros [= <-]. f_equal. by apply (IH (S k)).
Qed.

Lemma batch_ids l : MID <$> batch_of l = l.*1.
Proof. unfold batch_of. rewrite <- list_fmap_compose. done. Qed.

(** The messages the broker stores in a drain are among the claimed ones; without a failure
    an honest publisher has stored them all. *)
Lemma publishAll_stored publish k batch sent failure :
  publishAll publish k batch = (sent, failure) ->
  (forall m, m ∈ sent -> m ∈ batch) /\
  (failure = None -> (forall k m, (publish k m).2 = None -> (publish k m).1 = true) ->
     sent = batch) /\
  (forall m e, failure = Some (m, e) -> m ∈ batch /\ exists k, (publish k m).2 = Some e).
Proof.
  revert k sent. induction batch as [|m batch IH]; intros k sent; cbn.
  { intros [= <- <-]. split_ands; [by intros m []%elem_of_nil|done|done]. }
  destruct (publish k m) as [stored [e|]] eqn:Hp.
  - intros [= <- <-]. split_ands; [|done|].
    + intros x. destruct stored; set_solver.
    + intros m' e' [= <- <-]. split; [set_solver|]. exists k. by rewrite Hp.
  - destruct (publishAll publish (S k) batch) as [sent' failure'] eqn:E. intros [= <- <-].
    destruct (IH _ _ E) as (Hin & Hall & Hfail). split_ands.
    + intros x. destruct stored; set_solver.
    + intros Hf Hh. pose proof (Hh k m) as Hm. rewrite Hp in Hm. cbn in Hm. rewrite Hm by done.
      cbn. f_equal. by apply Hall.
    + intros m' e' Hf. destruct (Hfail m' e' Hf). set_solver.
Qed.

(** The outcomes of a drain: the table as it was, one row of the batch quarantined, or the
    whole batch published and marked, whatever the commit reports. *)
Inductive drained (n : nat) (e : env) (o o' : outbox) (k : Z) (err : option error) : Prop :=
  | Unchanged sent :
      Table o' = Table o -> Broker o' = Broker o ++ sent ->
      (forall m, m ∈ sent -> m ∈ batch_of (claimSQL n (Locked e) (Table o))) ->
      k = 0 -> (err = None -> claimSQL n (Locked e) (Table o) = []) ->
      drained n e o o' k err
  | Quarantined sent m cause :
      Table o' = (quarantineSQL (DbNow e) (MID m) [PVal cause] (Table o)).1 ->
      Broker o' = Broker o ++ sent ->
      (forall m, m ∈ sent -> m ∈ batch_of (claimSQL n (Locked e) (Table o))) ->
      m ∈ batch_of (claimSQL n (Locked e) (Table o)) ->
      IsPermanent cause = true -> (exists i, (PublishR e i m).2 = Some cause) ->
      k = 0 -> err <> None ->
      drained n e o o' k err
  | Published :
      let l := claimSQL n (Locked e) (Table o) in
      Table o' = (markSQL (DbNow e) l.*1 (Table o)).1 ->
      Broker o' = Broker o ++ batch_of l -> l <> [] ->
      (k = Z.of_nat (length l) /\ err = None \/ k = 0 /\ is_Some err /\ is_Some (CommitErr e)) ->
      drained n e o o' k err.

Lemma DrainOnce_drained n e o :
  publisher_honest e ->
  drained n e o (DrainOnce n e o).2 (DrainOnce n e o).1.1 (DrainOnce n e o).1.2.
Proof.
  intros Hh. unfold DrainOnce.
  assert (forall k err, k = 0 -> (err = None -> claimSQL n (Locked e) (Table o) = []) ->
            drained n e o o k err) as Hstop.
  { intros k err Hk He. by apply (Unchanged _ _ _ _ _ _ []); rewrite ?app_nil_r; auto; intros m []%elem_of_nil. }
  destruct (BeginErr e); [by apply Hstop|]. destruct (ClaimErr e); [by apply Hstop|].
  destruct (scanRows _ _ _) as [batch|err] eqn:Hscan; [|by apply Hstop].
  apply scanRows_Ok in Hscan. destruct (RowsErr e); [by apply Hstop|].
  destruct (CloseErr e); [by apply Hstop|].
  assert (length batch = length (claimSQL n (Locked e) (Table o))) as Hlen
    by (rewrite Hscan; apply length_fmap).
  destruct (length batch =? 0)%nat eqn:Hz.
  { apply Nat.eqb_eq in Hz. apply Hstop; [done|]. intros _. apply nil_length_inv. lia. }
  apply Nat.eqb_neq in Hz.
  destruct (publishAll (PublishR e) 0 batch) as [sent failure] eqn:Hpub.
  destruct (publishAll_stored _ _ _ _ _ Hpub) as (Hin & Hall & Hfail). subst batch.
  destruct failure as [[m err]|].
  - destruct (Hfail m err eq_refl) as (Hm & i & Hi).
    destruct (IsPermanent err) eqn:Hperm; cbn [negb];
      [|by apply (Unchanged _ _ _ _ _ _ sent)].
    unfold quarantine. cbn [Table Broker RLogs].
    destruct (QuarantineErr e) as [[qErr []]|].
    { by apply (Quarantined _ _ _ _ _ _ sent m err); eauto. }
    { by apply (Unchanged _ _ _ _ _ _ sent). }
    destruct (quarantineSQL _ _ _ _) as [t' affected] eqn:Hq.
    destruct (bool_decide _ && _); apply (Quarantined _ _ _ _ _ _ sent m err); cbn;
      rewrite ?Hq; eauto.
  - specialize (Hall eq_refl Hh). subst sent. cbn [Table Broker RLogs].
    assert (batch_of (claimSQL n (Locked e) (Table o)) <> []) as Hne
      by (by intros E; rewrite E in Hz).
    unfold markPublished. destruct (MarkErr e).
    { by apply (Unchanged _ _ _ _ _ _ (batch_of (claimSQL n (Locked e) (Table o)))). }
    destruct (markSQL _ _ _) as [t' affected] eqn:Hmark. rewrite batch_ids in Hmark.
    destruct (_ && _).
    { by apply (Unchanged _ _ _ _ _ _ (batch_of (claimSQL n (Locked e) (Table o)))). }
    assert (claimSQL n (Locked e) (Table o) <> []) as Hl by (intros E; by rewrite E in Hz).
    destruct (CommitErr e) as [[cErr []]|] eqn:Hce.
    { apply Published; [by rewrite Hmark|done|done|right]. cbn. rewrite Hce. eauto. }
    { by apply (Unchanged _ _ _ _ _ _ (batch_of (claimSQL n (Locked e) (Table o)))). }
    apply Published; [by rewrite Hmark|done|done|left]. cbn [fst]. by rewrite Hlen.
Qed.

(** * The life of an event

    The system as a state machine: business transactions write rows, relays drain, an
    operator replays a quarantined row, the pruner deletes.  [Written] records every event
    a committed transaction wrote. *)

Record sys := mkSys { Out : outbox; Written : gmap Z Message }.

Definition fresh_row (r : row) : Prop := is_pending r = true.

Definition set_replayed (r : row) : row :=
  mkRow (RTenantID r) (RAggregateID r) (REventType r) (RPayload r) (ROccurredAt r)
    (RTraceParent r) (PublishedAt r) None None.

Definition honest_scan (scan : table -> list (Z * row)) : Prop :=
  forall t, scan t ≡ₚ map_to_list t.

Inductive sys_step : sys -> sys -> Prop :=
  | Write id r s :
      Written s !! id = None -> fresh_row r ->
      sys_step s (mkSys (mkOutbox (<[id := r]> (Table (Out s))) (Broker (Out s)) (RLogs (Out s)))
                    (<[id := message id r]> (Written s)))
  | Drain n e s :
      publisher_honest e -> sys_step s (mkSys (DrainOnce n e (Out s)).2 (Written s))
  | Replay id r s :
      Table (Out s) !! id = Some r ->
      sys_step s (mkSys (mkOutbox (<[id := set_replayed r]> (Table (Out s))) (Broker (Out s))
                           (RLogs (Out s))) (Written s))
  | PruneBatch cutoff scan n s :
      honest_scan scan ->
      sys_step s (mkSys (mkOutbox (pruneOutboxSQL cutoff scan n (Table (Out s))).1
                           (Broker (Out s)) (RLogs (Out s))) (Written s)).

Definition sys_init : sys := mkSys (mkOutbox ∅ [] []) ∅.

(** What every reachable state satisfies. *)
Record sys_ok (s : sys) : Prop := {
  ok_rows : forall id r, Table (Out s) !! id = Some r ->
    Written s !! id = Some (message id r) /\
    (PublishedAt r <> None -> message id r ∈ Broker (Out s));
  ok_written : forall id m, Written s !! id = Some m ->
    m ∈ Broker (Out s) \/
    exists r, Table (Out s) !! id = Some r /\ message id r = m /\ PublishedAt r = None }.

(** A change of the table that keeps every row's content, and its publication unless the
    broker has the event. *)
Definition keeps (b : list Message) (t t' : table) : Prop := forall id,
  match t !! id, t' !! id with
  | Some r, Some r' => message id r' = message id r /\
      (PublishedAt r' = PublishedAt r \/ message id r ∈ b)
  | None, None => True
  | _, _ => False
  end.

Lemma keeps_ok s t' b' logs' :
  sys_ok s -> keeps b' (Table (Out s)) t' -> (forall m, m ∈ Broker (Out s) -> m ∈ b') ->
  sys_ok (mkSys (mkOutbox t' b' logs') (Written s)).
Proof.
  intros [Hr Hw] Hk Hb. split; cbn.
  - intros id r' Hr'. specialize (Hk id). rewrite Hr' in Hk.
    destruct (Table (Out s) !! id) as [r|] eqn:E; [|done]. destruct Hk as [-> Hp].
    destruct (Hr id r E) as [Hw' Hpub]. split; [done|]. intros Hne.
    destruct Hp as [Hp|?]; [|done]. apply Hb, Hpub. by rewrite <- Hp.
  - intros id m Hm. destruct (Hw id m Hm) as [?|(r & E & <- & Hp)]; [left; auto|].
    specialize (Hk id). rewrite E in Hk. destruct (t' !! id) as [r'|] eqn:E'; [|done].
    destruct Hk as [Hmsg [Hp'|?]]; [right|by left]. exists r'. split_ands; congruence.
Qed.

Lemma keeps_refl b t : keeps b t t.
Proof. intros id. destruct (t !! id); auto. Qed.

Lemma keeps_quarantine b now id reason t : keeps b t (quarantineSQL now id reason t).1.
Proof.
  intros j. unfold quarantineSQL. destruct (t !! id) as [r|] eqn:E; [|apply keeps_refl].
  case_bool_decide; [|apply keeps_refl]. cbn. rewrite lookup_insert.
  case_decide as Hj; [subst; rewrite E; cbn; auto|]. destruct (t !! j); auto.
Qed.

Lemma keeps_mark b now l t :
  is_claim t l -> (forall m, m ∈ batch_of l -> m ∈ b) -> keeps b t (markSQL now l.*1 t).1.
Proof.
  intros [_ Hl] Hb j. rewrite markSQL_lookup. destruct (t !! j) as [r|] eqn:E; [|done]. cbn.
  case_bool_decide as Hj; [|auto]. split; [done|]. right. apply Hb.
  apply list_elem_of_fmap in Hj as ([j' r'] & -> & Hin). cbn in *.
  destruct (Hl _ _ Hin) as [Hr _]. rewrite E in Hr. injection Hr as <-.
  unfold batch_of. apply list_elem_of_fmap. by exists (j', r).
Qed.

Lemma Drain_ok n e s :
  publisher_honest e -> sys_ok s -> sys_ok (mkSys (DrainOnce n e (Out s)).2 (Written s)).
Proof.
  intros Hh Hs. pose proof (DrainOnce_drained n e (Out s) Hh) as Hd.
  destruct (DrainOnce n e (Out s)) as [[k err] [t' b' logs']]. cbn [fst snd] in Hd.
  destruct Hd as [sent Ht Hb _ _ _|sent m cause Ht Hb _ _ _ _ _ _|l Ht Hb _ _];
    cbn [Table Broker] in *; subst t' b'; (apply keeps_ok; [done| |set_solver]).
  - apply keeps_refl.
  - apply keeps_quarantine.
  - apply keeps_mark; [apply claim_is_claim|set_solver].
Qed.

Lemma delete_all_lookup {A} (l : list (Z * A)) (t : gmap Z A) id :
  foldr (fun kr t => delete kr.1 t) t l !! id = if bool_decide (id ∈ l.*1) then None else t !! id.
Proof.
  induction l as [|x l IH]; cbn; [by rewrite bool_decide_eq_false_2 by set_solver|].
  destruct (decide (x.1 = id)) as [<-|Hne].
  - rewrite lookup_delete_eq, bool_decide_eq_true_2; [done|by left].
  - rewrite lookup_delete_ne, IH by done. apply (f_equal (fun b : bool => if b then _ else _)).
    apply bool_decide_ext. rewrite elem_of_cons. naive_solver.
Qed.

Lemma pruneSQL_lookup {A} (p : A -> bool) scan n (t : gmap Z A) id r :
  scan t ≡ₚ map_to_list t -> t !! id = Some r ->
  (pruneSQL p scan n t).1 !! id = Some r \/ p r = true /\ (pruneSQL p scan n t).1 !! id = None.
Proof.
  intros Hs Hr. cbn. rewrite delete_all_lookup. case_bool_decide as Hin; [|by left].
  right. split; [|done]. apply list_elem_of_fmap in Hin as ([id' r'] & -> & Hx).
  apply elem_of_take in Hx as (i & Hi & _).
  apply list_elem_of_lookup_2, elem_of_filter_list in Hi as [Hp Hi]. cbn in *.
  rewrite Hs, elem_of_map_to_list in Hi. congruence.
Qed.

Lemma sys_step_ok s s' : sys_step s s' -> sys_ok s -> sys_ok s'.
Proof.
  intros Hstep Hok. destruct Hstep as [id r s Hid Hf|n e s Hh|id r s Hr|cutoff scan n s Hsc].
  - destruct Hok as [Hrows Hw]. unfold fresh_row, is_pending in Hf. to_prop.
    split; cbn; intros j x; rewrite !lookup_insert; case_decide as Hj.
    + subst j. intros [= <-]. split; [done|]. congruence.
    + auto.
    + subst j. intros [= <-]. right. by exists r.
    + intros Hm. destruct (Hw j x Hm) as [?|(r' & E & Hx)]; [by left|right].
      by exists r'.
  - by apply Drain_ok.
  - apply keeps_ok; [done| |done]. intros j. rewrite lookup_insert.
    case_decide; [subst; rewrite Hr; cbn; auto|]. destruct (_ !! j); auto.
  - destruct Hok as [Hrows Hw].
    assert (forall id r, Table (Out s) !! id = Some r -> _) as Hprune
      by exact (fun id r => pruneSQL_lookup (prunable cutoff) scan n _ id r (Hsc _)).
    split; cbn [Out Written Table Broker].
    + intros id r Hr. apply Hrows. revert Hr. unfold pruneOutboxSQL, pruneSQL. cbn [fst].
      rewrite delete_all_lookup. by case_bool_decide.
    + intros id m Hm. destruct (Hw id m Hm) as [?|(r & E & Hmsg & Hp)]; [by left|right].
      exists r. split; [|done]. destruct (Hprune id r E) as [?|[Hpr _]]; [done|].
      unfold prunable in Hpr. by rewrite Hp in Hpr.
Qed.

Lemma reachable_ok s : rtc sys_step sys_init s -> sys_ok s.
Proof.
  intros Hr. revert s Hr. apply (rtc_ind_r sys_ok).
  - split; cbn; intros *; by rewrite lookup_empty.
  - intros s s' _ Hs Hok. by apply (sys_step_ok s).
Qed.

(** ** What is marked is done

    A row the relay has marked published, or that was pruned after it, is never published
    again. *)

Definition settled (id : Z) (s : sys) : Prop :=
  is_Some (Written s !! id) /\ forall r, Table (Out s) !! id = Some r -> PublishedAt r <> None.

Definition copies (id : Z) (b : list Message) : list Message :=
  List.filter (fun m => MID m =? id) b.

Lemma copies_none id b : (forall m, m ∈ b -> MID m <> id) -> copies id b = [].
Proof.
  unfold copies. induction b as [|m b IH]; intros Hb; [done|]. cbn.
  assert ((MID m =? id) = false) as -> by (apply Z.eqb_neq, Hb; left). apply IH.
  intros x Hx. apply Hb. by right.
Qed.

Lemma copies_app id b b' : copies id (b ++ b') = copies id b ++ copies id b'.
Proof. apply List.filter_app. Qed.

(** Nothing a drain claims is marked. *)
Lemma claim_unsettled n locked s id m :
  settled id s -> m ∈ batch_of (claimSQL n locked (Table (Out s))) -> MID m <> id.
Proof.
  intros [_ Hs] ([j r] & -> & Hin)%list_elem_of_fmap. cbn. intros ->.
  destruct (claim_is_claim n locked (Table (Out s))) as [_ Hc]. destruct (Hc id r Hin) as [Hr Hp].
  apply (Hs r Hr). unfold is_pending in Hp. by to_prop.
Qed.

Lemma settled_drain n e s id :
  publisher_honest e -> settled id s ->
  settled id (mkSys (DrainOnce n e (Out s)).2 (Written s)) /\
  copies id (Broker (DrainOnce n e (Out s)).2) = copies id (Broker (Out s)).
Proof.
  intros Hh Hs. pose proof (DrainOnce_drained n e (Out s) Hh) as Hd.
  destruct (DrainOnce n e (Out s)) as [[k err] [t' b' logs']]. cbn [fst snd Broker] in *.
  assert (forall sent, (forall m, m ∈ sent -> m ∈ batch_of (claimSQL n (Locked e) (Table (Out s)))) ->
    copies id (Broker (Out s) ++ sent) = copies id (Broker (Out s))) as Hcop.
  { intros sent Hin. rewrite copies_app, (copies_none id sent); [apply app_nil_r|].
    intros m Hm. by eapply claim_unsettled, Hin. }
  destruct Hs as [Hw Hs].
  destruct Hd as [sent Ht Hb Hin _ _|sent m cause Ht Hb Hin _ _ _ _ _|l Ht Hb _ _];
    cbn [Table Broker] in *; subst t' b'; (split; [split; [done|]; cbn [Out Table]|auto]).
  - done.
  - intros r. unfold quarantineSQL. destruct (Table (Out s) !! MID m) as [r0|] eqn:E; [|apply Hs].
    case_bool_decide; [|apply Hs]. cbn. rewrite lookup_insert. case_decide as Hid; [|apply Hs].
    intros [= <-]. cbn. apply Hs. by rewrite <- Hid.
  - intros r. rewrite markSQL_lookup. destruct (Table (Out s) !! id) as [r0|] eqn:E; [|done].
    cbn. intros [= <-]. specialize (Hs r0 eq_refl). by case_bool_decide.
Qed.

Lemma settled_step s s' id :
  sys_step s s' -> settled id s ->
  settled id s' /\ copies id (Broker (Out s')) = copies id (Broker (Out s)).
Proof.
  intros Hstep Hs. destruct Hstep as [j r s Hj Hf|n e s Hh|j r s Hr|cutoff scan n s Hsc].
  - split; [|done]. destruct Hs as [[m Hm] Hs].
    assert (j <> id) as Hne by congruence. split; cbn [Out Written Table];
      rewrite lookup_insert_ne by done; [by eexists|apply Hs].
  - by apply settled_drain.
  - split; [|done]. destruct Hs as [Hw Hs]. split; [done|]. cbn. intros r'. rewrite lookup_insert.
    case_decide as Hid; [|apply Hs]. intros [= <-]. cbn. apply Hs. by rewrite <- Hid.
  - split; [|done]. destruct Hs as [Hw Hs]. split; [done|]. cbn [Out Table]. intros r Hr. apply Hs.
    revert Hr. unfold pruneOutboxSQL, pruneSQL. cbn [fst]. rewrite delete_all_lookup. by case_bool_decide.
Qed.

(** The stream only grows. *)
Lemma sys_step_stream s s' : sys_step s s' -> exists sent, Broker (Out s') = Broker (Out s) ++ sent.
Proof.
  intros Hstep. destruct Hstep as [id r s Hid Hf|n e s Hh|id r s Hr|cutoff scan n s Hsc];
    [exists []; by rewrite app_nil_r| |exists []; by rewrite app_nil_r..].
  cbn. by destruct (DrainOnce_drained n e (Out s) Hh) as [sent _ Hb|sent m cause _ Hb|l _ Hb];
    eexists.
Qed.

(** C6. No event is lost, as long as the relay's publisher answers nil only for a message the
    broker has stored.  (The NATS publisher does, by [EventsSpec.Publish_contract]; the log
    publisher of a worker without NATS_URL has no broker and gives the guarantee up.)  In every
    state reachable by any sequence of business transactions, drains, operator replays and
    pruning, where a drain may meet any failure of the database (a COMMIT or UPDATE that took
    effect although it reports an error included), of the broker or of the bookkeeping, each
    event a transaction wrote has been stored by the broker or is still in the table,
    unpublished and with its content; and a row marked published is one the broker has. *)
Theorem no_lost_event s id m :
  rtc sys_step sys_init s -> Written s !! id = Some m ->
  (m ∈ Broker (Out s) \/
   exists r, Table (Out s) !! id = Some r /\ message id r = m /\ PublishedAt r = None) /\
  (forall r, Table (Out s) !! id = Some r -> PublishedAt r <> None -> m ∈ Broker (Out s)).
Proof.
  intros Hr%reachable_ok Hm. split; [by apply (ok_written s Hr)|].
  intros r Ht Hp. destruct (ok_rows s Hr id r Ht) as [Hw Hb]. rewrite Hm in Hw.
  injection Hw as ->. auto.
Qed.

(** * Progress *)

(** An environment without database failures, where every publish succeeds or fails for
    good. *)
Definition env_ok (e : env) : Prop :=
  Locked e = ∅ /\
  (BeginErr e = None /\ ClaimErr e = None /\ (forall k, ScanErr e k = None) /\
   RowsErr e = None /\ CloseErr e = None /\ EmptyCommitErr e = None /\ MarkErr e = None /\
   CommitErr e = None /\ QuarantineErr e = None) /\
  (forall k m err, (PublishR e k m).2 = Some err -> IsPermanent err = true) /\
  publisher_honest e.

Definition pend (t : table) : gset Z := dom (filter (fun kr => is_pending kr.2 = true) t).

Lemma elem_of_pend id t :
  id ∈ pend t <-> exists r, t !! id = Some r /\ is_pending r = true.
Proof.
  unfold pend. rewrite elem_of_dom. split.
  - by intros [r [Hr Hp]%map_lookup_filter_Some]; exists r.
  - intros (r & Hr & Hp). exists r. by apply map_lookup_filter_Some.
Qed.

Lemma claim_pend n t l :
  l = claimSQL n ∅ t -> (forall id, id ∈ l.*1 -> id ∈ pend t) /\ (0 < n -> l = [] -> pend t = ∅)%nat.
Proof.
  intros ->. split.
  - intros id ([id' r] & -> & Hin)%list_elem_of_fmap. apply elem_of_pend.
    apply (claim_is_claim n ∅ t) in Hin. eauto.
  - intros Hn Hnil. apply set_eq. intros id. rewrite elem_of_pend. split; [|set_solver].
    intros (r & Hr & Hp). exfalso. unfold claimSQL in Hnil.
    assert ((id, r) ∈ List.filter (fun kr : Z * row => negb (bool_decide (kr.1 ∈ (∅ : gset Z))))
              (rows_by_id is_pending t)) as Hin
      by (rewrite elem_of_filter_list, rows_by_id_elem; split; [by rewrite bool_decide_eq_false_2 by set_solver|done]).
    destruct (List.filter _ _); [set_solver|]. by destruct n; [lia|].
Qed.

Lemma scanRows_total scanErr k l :
  (forall k, scanErr k = None) -> scanRows scanErr k l = Ok (batch_of l).
Proof.
  intros Hs. revert k. induction l as [|[id r] l IH]; intros k; cbn; [done|].
  by rewrite Hs, IH.
Qed.

Lemma DrainOnce_ok n e o :
  env_ok e -> claimSQL n ∅ (Table o) <> [] ->
  let l := claimSQL n ∅ (Table o) in
  Table (DrainOnce n e o).2 = (markSQL (DbNow e) l.*1 (Table o)).1 \/
  exists m cause, m ∈ batch_of l /\
    Table (DrainOnce n e o).2 = (quarantineSQL (DbNow e) (MID m) [PVal cause] (Table o)).1.
Proof.
  intros (Hlock & (Hb & Hc & Hs & Hr & Hcl & _ & Hm & Hco & Hq) & Hperm & Hh) Hne l.
  unfold DrainOnce. rewrite Hb, Hc, Hr, Hcl, Hlock. fold l.
  rewrite (scanRows_total _ _ _ Hs).
  assert ((length (batch_of l) =? 0)%nat = false) as ->.
  { apply Nat.eqb_neq. unfold batch_of. rewrite length_fmap. by intros ?%nil_length_inv. }
  destruct (publishAll (PublishR e) 0 (batch_of l)) as [sent failure] eqn:Hpub.
  destruct (publishAll_stored _ _ _ _ _ Hpub) as (_ & _ & Hfail).
  destruct failure as [[m err]|].
  - destruct (Hfail m err eq_refl) as (Hin & k & Hk). rewrite (Hperm k m err Hk). cbn [negb].
    right. exists m, err. split; [done|]. unfold quarantine. rewrite Hq. cbn [Table].
    destruct (quarantineSQL _ _ _ _) as [t' a]. by destruct (bool_decide _ && _).
  - left. unfold markPublished. rewrite Hm. cbn [Table].
    pose proof (markSQL_affected (DbNow e) (MID <$> batch_of l) (Table o)) as Ha.
    rewrite batch_ids in *. destruct (claim_is_claim n ∅ (Table o)) as [Hnd Hl].
    destruct (markSQL _ _ _) as [t' a]. cbn [snd fst] in *. rewrite Ha; [|done|].
    + unfold batch_of at 1. rewrite !length_fmap, Z.eqb_refl, andb_false_r, Hco. done.
    + intros id ([id' r] & -> & Hx)%list_elem_of_fmap. apply Hl in Hx as [Hx _]. by exists r.
Qed.

Lemma drain_progress n e o :
  (0 < n)%nat -> env_ok e -> pend (Table o) <> ∅ ->
  pend (Table (DrainOnce n e o).2) ⊂ pend (Table o).
Proof.
  intros Hn He Hp. destruct (claim_pend n (Table o) _ eq_refl) as [Hin Hnil].
  assert (claimSQL n ∅ (Table o) <> []) as Hne by (intros E; apply Hp; auto).
  pose proof (DrainOnce_ok n e o He Hne) as Hd. cbn zeta in Hd.
  set (l := claimSQL n ∅ (Table o)) in *. clearbody l.
  destruct Hd as [-> | (m & cause & Hm & ->)].
  - destruct l as [|x l]; [done|]. split.
    + intros id. rewrite !elem_of_pend, markSQL_lookup. intros (r & Hr & Hpr).
      destruct (Table o !! id) as [r0|]; [|done]. injection Hr as <-. exists r0. split; [done|].
      by case_bool_decide.
    + assert (x.1 ∈ pend (Table o)) as Hx by (apply Hin; by left).
      intros Hsub. apply Hsub in Hx. rewrite elem_of_pend, markSQL_lookup in Hx.
      rewrite bool_decide_eq_true_2 in Hx by (by left).
      destruct Hx as (r & Hr & Hpr). destruct (Table o !! x.1); [|done].
      injection Hr as <-. by unfold is_pending in Hpr.
  - assert (MID m ∈ pend (Table o)) as Hx.
    { apply Hin. rewrite <- batch_ids. by apply list_elem_of_fmap_2. }
    apply elem_of_pend in Hx as Hx'. destruct Hx' as (r & Hr & Hpr).
    unfold quarantineSQL. rewrite Hr. unfold is_pending in Hpr. to_prop.
    rewrite bool_decide_eq_true_2 by done. cbn [fst]. split.
    + intros id. rewrite !elem_of_pend, lookup_insert. intros (r' & Hr' & Hp').
      case_decide; [|eauto]. injection Hr' as <-.
      unfold is_pending in Hp'. cbn in Hp'. by rewrite andb_false_r in Hp'.
    + intros Hsub. apply Hsub in Hx. rewrite elem_of_pend, lookup_insert_eq in Hx.
      destruct Hx as (r' & [= <-] & Hp'). unfold is_pending in Hp'. cbn in Hp'.
      by rewrite andb_false_r in Hp'.
Qed.

Definition drains (n : nat) (envs : list env) (o : outbox) : outbox :=
  foldl (fun o e => (DrainOnce n e o).2) o envs.

Lemma drain_idle n e o :
  env_ok e -> pend (Table o) = ∅ -> pend (Table (DrainOnce n e o).2) = ∅.
Proof.
  intros He Hp. destruct (claim_pend n (Table o) _ eq_refl) as [Hin _].
  pose proof (DrainOnce_drained n e o) as Hd.
  destruct He as (Hlock & _ & _ & Hh). specialize (Hd Hh).
  assert (claimSQL n ∅ (Table o) = []) as Hnil.
  { destruct (claimSQL n ∅ (Table o)) as [|x l]; [done|].
    assert (x.1 ∈ pend (Table o)) as Hx by (apply Hin; by left). set_solver. }
  destruct Hd as [sent Ht|sent m cause _ _ _ Hm|l _ _ Hne].
  - by rewrite Ht.
  - rewrite Hlock, Hnil in Hm. by apply elem_of_nil in Hm.
  - subst l. by rewrite Hlock, Hnil in Hne.
Qed.

(** C34. A backlog clears, poison included: when the database works and every publish either
    succeeds or fails permanently, as many drains as there are pending rows leave none
    pending, whatever the batch size; no unpublishable row blocks the rows behind it. *)
Theorem backlog_clears n envs o :
  (0 < n)%nat -> Forall env_ok envs -> (size (pend (Table o)) <= length envs)%nat ->
  rows_by_id is_pending (Table (drains n envs o)) = [].
Proof.
  intros Hn He Hlen.
  assert (pend (Table (drains n envs o)) = ∅) as Hp.
  { revert o Hlen. induction He as [|e envs He _ IH]; intros o Hlen; cbn in *.
    - apply leibniz_equiv, size_empty_inv. lia.
    - apply IH. destruct (decide (pend (Table o) = ∅)) as [E|E].
      + rewrite drain_idle by done. rewrite size_empty. lia.
      + pose proof (subset_size _ _ (drain_progress n e o Hn He E)). lia. }
  destruct (rows_by_id _ _) as [|[id r] l] eqn:E; [done|].
  assert ((id, r) ∈ rows_by_id is_pending (Table (drains n envs o))) as Hin
    by (rewrite E; by left).
  apply rows_by_id_elem in Hin. assert (id ∈ pend (Table (drains n envs o))) by (apply elem_of_pend; eauto).
  set_solver.
Qed.

(** * A publish that times out *)

(** A publish that times out stops the relay: [Run] takes any error wrapping a context
    error for its own shutdown, and a publisher whose own deadline expires fails with such an
    error, which is not permanent, while the relay's context is live; the first drain that
    meets it is the last, and the rows stay pending. *)
Theorem publish_timeout_stops_relay n interval e rest o m l err :
  env_ok (mkEnv (DbNow e) (Locked e) (BeginErr e) (ClaimErr e) (ScanErr e) (RowsErr e)
            (CloseErr e) (EmptyCommitErr e) (fun _ _ => (true, None)) (MarkErr e)
            (MarkAffectedErr e) (CommitErr e) (QuarantineErr e) (QuarantineAffectedErr e)) ->
  claimSQL n ∅ (Table o) = m :: l ->
  (PublishR e 0 (message m.1 m.2)).2 = Some err ->
  IsPermanent err = false -> errIs DeadlineExceeded err = true ->
  (Run n interval (Fired e :: rest) o).1 = (Some None, rest, []) /\
  Table (Run n interval (Fired e :: rest) o).2 = Table o.
Proof.
  intros (Hlock & (Hb & Hc & Hs & Hr & Hcl & _ & _) & _) Hcla Hpub Hperm Hdl. cbn in *.
  unfold DrainOnce. rewrite Hb, Hc, Hr, Hcl, Hlock, Hcla, (scanRows_total _ _ _ Hs).
  cbn [batch_of fmap list_fmap length Nat.eqb publishAll].
  destruct (PublishR e 0 (message m.1 m.2)) as [stored err'] eqn:E. cbn in Hpub. subst err'.
  cbn [IsPermanent]. rewrite Hperm. cbn [negb errIs wrapf app].
  rewrite Hdl. cbn. by rewrite !orb_true_r.
Qed.

(** * Pruning *)

Lemma size_delete_all {A} (l : list (Z * A)) (m : gmap Z A) :
  NoDup l.*1 -> (forall kr, kr ∈ l -> m !! kr.1 = Some kr.2) ->
  (size (foldr (fun kr t => delete kr.1 t) m l) + length l = size m)%nat.
Proof.
  induction l as [|x l IH]; cbn; [lia|]. intros [Hx Hnd]%NoDup_cons Hm.
  rewrite map_size_delete, delete_all_lookup, bool_decide_eq_false_2 by done.
  rewrite (Hm x) by (by left).
  assert (size (foldr (fun kr t => delete kr.1 t) m l) + length l = size m)%nat as E
    by (apply IH; [done|]; intros kr Hk; apply Hm; by right).
  assert (size (foldr (fun kr t => delete kr.1 t) m l) <> 0)%nat as Hne.
  { intros Hz%map_size_empty_inv. pose proof (delete_all_lookup l m x.1) as Hl.
    rewrite Hz, lookup_empty, bool_decide_eq_false_2, (Hm x) in Hl by (done || by left). done. }
  lia.
Qed.

Lemma filter_delete_all {A} (p : A -> bool) (l : list (Z * A)) (m : gmap Z A) :
  filter (fun kr => p kr.2 = true) (foldr (fun kr t => delete kr.1 t) m l) =
  foldr (fun kr t => delete kr.1 t) (filter (fun kr => p kr.2 = true) m) l.
Proof. induction l as [|x l IH]; cbn; [done|]. by rewrite map_filter_delete, IH. Qed.

Definition eligible_count {A} (p : A -> bool) (t : gmap Z A) : nat :=
  size (filter (fun kr : Z * A => p kr.2 = true) t).

Lemma count_rows_size {A} (p : A -> bool) (t : gmap Z A) scan :
  scan ≡ₚ map_to_list t ->
  length (List.filter (fun kr => p kr.2) scan) = eligible_count p t.
Proof.
  intros Hs. unfold eligible_count. rewrite <- length_map_to_list.
  apply Permutation_length, NoDup_Permutation.
  - apply (NoDup_fmap_1 fst), NoDup_fst_filter. rewrite Hs. apply NoDup_fst_map_to_list.
  - apply NoDup_map_to_list.
  - intros [k x]. rewrite elem_of_filter_list, Hs, !elem_of_map_to_list, map_lookup_filter_Some.
    cbn. naive_solver.
Qed.

Lemma count_rows_eligible {A} (p : A -> bool) (t : gmap Z A) :
  count_rows p t = Z.of_nat (eligible_count p t).
Proof. unfold count_rows. by rewrite (count_rows_size p t (map_to_list t)). Qed.

(** One bounded DELETE: it removes eligible rows only, counts them, and leaves an eligible
    row only when its batch is full. *)
Lemma pruneSQL_spec {A} (p : A -> bool) scan n (t : gmap Z A) :
  scan t ≡ₚ map_to_list t ->
  let '(t', k) := pruneSQL p scan n t in
  (forall id r, t !! id = Some r -> p r = false -> t' !! id = Some r) /\ t' ⊆ t /\
  k = Z.of_nat (Nat.min n (eligible_count p t)) /\
  (eligible_count p t' + Nat.min n (eligible_count p t) = eligible_count p t)%nat.
Proof.
  intros Hs. pose proof (count_rows_size p t (scan t) Hs) as Hc. unfold pruneSQL.
  set (L := List.filter (fun kr => p kr.2) (scan t)) in *.
  assert (NoDup (take n L).*1) as Hnd.
  { eapply sublist_NoDup; [|apply fmap_sublist, sublist_take].
    apply NoDup_fst_filter. rewrite Hs. apply NoDup_fst_map_to_list. }
  assert (forall kr, kr ∈ take n L -> t !! kr.1 = Some kr.2 /\ p kr.2 = true) as Hin.
  { intros [k r] (i & Hi & _)%elem_of_take. apply list_elem_of_lookup_2, elem_of_filter_list in Hi.
    rewrite Hs, elem_of_map_to_list in Hi. cbn in *. naive_solver. }
  assert (length (take n L) = Nat.min n (eligible_count p t)) as Hlen
    by (rewrite length_take; lia).
  split_ands.
  - intros id r Hr Hp. rewrite delete_all_lookup. case_bool_decide as Hd; [|done].
    apply list_elem_of_fmap in Hd as ([k r'] & -> & Hx). destruct (Hin _ Hx). cbn in *. congruence.
  - apply map_subseteq_spec. intros id r. rewrite delete_all_lookup. by case_bool_decide.
  - by rewrite Hlen.
  - unfold eligible_count at 1. rewrite filter_delete_all, <- Hlen. apply size_delete_all; [done|].
    intros kr Hk. apply map_lookup_filter_Some. by destruct (Hin kr Hk).
Qed.

(** The loop, on either table: with fuel for the rows there are it always returns; it never
    removes a row that is not eligible; and when nothing fails exactly the eligible rows are
    gone and counted. *)
Lemma deleteInBatches_spec {A} (p : A -> bool) scan n fuel be name k total (t : gmap Z A) :
  (0 < n)%nat -> (forall t, scan t ≡ₚ map_to_list t) -> (eligible_count p t < fuel)%nat ->
  exists total' err t',
    deleteInBatches fuel be name n (pruneSQL p scan n) k total t = Some ((total', err), t') /\
    (forall id r, t !! id = Some r -> p r = false -> t' !! id = Some r) /\ t' ⊆ t /\
    (err = None -> eligible_count p t' = 0%nat /\ total' = total + Z.of_nat (eligible_count p t)) /\
    ((forall k, CtxErr be k = None /\ ExecErr be k = None /\ CountErr be k = None) -> err = None).
Proof.
  intros Hn Hs. revert k total t. induction fuel as [|fuel IH]; intros k total t Hf; [lia|].
  cbn [deleteInBatches].
  destruct (CtxErr be k) eqn:E1;
    [eexists _, _, t; split_ands; eauto; try done; intros H; destruct (H k) as (? & _); congruence|].
  destruct (ExecErr be k) eqn:E2;
    [eexists _, _, t; split_ands; eauto; try done; intros H; destruct (H k) as (_ & ? & _); congruence|].
  pose proof (pruneSQL_spec p scan n t (Hs t)) as Hq.
  destruct (pruneSQL p scan n t) as [t1 d]. destruct Hq as (Hkeep & Hsub & -> & Hcount).
  destruct (CountErr be k) eqn:E3;
    [eexists _, _, t1; split_ands; eauto; try done; intros H; destruct (H k) as (_ & _ & ?); congruence|].
  destruct (Z.of_nat (Nat.min n (eligible_count p t)) <? Z.of_nat n) eqn:Hlt; to_prop.
  - eexists _, _, t1. split_ands; [reflexivity|done|done| |done]. intros _. lia.
  - destruct (IH (S k) (total + Z.of_nat (Nat.min n (eligible_count p t))) t1)
      as (total' & err & t' & E & Hkeep' & Hsub' & Hdone & Hok); [lia|].
    exists total', err, t'. split_ands; [done|auto|by etrans| |done].
    intros He. destruct (Hdone He) as [? ->]. lia.
Qed.

(** What [Prune] does to both tables, wherever it fails. *)
Lemma Prune_outcome n scan scan' fuel be1 be2 now outboxAge processedAge t pe :
  (0 < n)%nat -> honest_scan scan -> (forall p, scan' p ≡ₚ map_to_list p) ->
  (size t < fuel)%nat -> (size pe < fuel)%nat ->
  exists res err t' pe',
    Prune fuel be1 be2 n scan scan' now outboxAge processedAge t pe = Some ((res, err), t', pe') /\
    (forall id r, t !! id = Some r -> prunable (now - outboxAge) r = false -> t' !! id = Some r) /\
    (forall id at_, pe !! id = Some at_ -> now - processedAge <= at_ -> pe' !! id = Some at_) /\
    t' ⊆ t /\ pe' ⊆ pe /\
    (err = None ->
       (forall id r, t' !! id = Some r -> prunable (now - outboxAge) r = false) /\
       res = (Eligible None None now outboxAge processedAge t pe).1).
Proof.
  intros Hn Hsc Hsc' Hf Hf'.
  assert (forall A (p : A -> bool) m, eligible_count p m <= size m)%nat as Hle
    by (intros; apply map_size_filter).
  pose proof (Hle _ (prunable (now - outboxAge)) t).
  pose proof (Hle _ (fun at_ => at_ <? now - processedAge) pe).
  destruct (deleteInBatches_spec (prunable (now - outboxAge)) scan n fuel be1 "outbox" 0 0 t)
    as (d1 & err1 & t' & E1 & Hk1 & Hs1 & Hd1 & _); [done|done|lia|].
  destruct (deleteInBatches_spec (fun at_ => at_ <? now - processedAge) scan' n fuel be2
              "processed_events" 0 0 pe)
    as (d2 & err2 & pe' & E2 & Hk2 & Hs2 & Hd2 & _); [done|done|lia|].
  assert (forall id at_, pe !! id = Some at_ -> now - processedAge <= at_ -> pe' !! id = Some at_)
    as Hkeep by (intros id at_ Hi Ha; apply Hk2; [done|by apply Z.ltb_ge]).
  unfold Prune, pruneOutboxSQL, pruneProcessedEventsSQL. rewrite E1.
  destruct err1 as [err1|]; [by eexists _, _, t', pe|].
  rewrite E2. eexists _, err2, t', pe'. split_ands; [reflexivity|done|done|done|done|].
  intros ->. destruct (Hd1 eq_refl) as [Hz ->], (Hd2 eq_refl) as [_ ->].
  unfold Eligible. rewrite !count_rows_eligible. split; [|done].
  intros id r Hr. destruct (prunable (now - outboxAge) r) eqn:Hp; [|done].
  apply map_size_empty_inv in Hz.
  assert (filter (fun kr => prunable (now - outboxAge) kr.2 = true) t' !! id = Some r) as Hin
    by (by apply map_lookup_filter_Some).
  by rewrite Hz, lookup_empty in Hin.
Qed.

(** Retention never eats an undelivered event: whatever the batch size and wherever the
    database or the context fails, [Prune] returns, and it removes only rows published
    before the cutoff; pending and quarantined rows survive at any age.  When nothing fails it
    removes exactly the rows [Eligible] counts beforehand. *)
Theorem Prune_spec n scan scan' fuel be1 be2 now outboxAge processedAge t pe :
  (0 < n)%nat -> honest_scan scan -> (forall p, scan' p ≡ₚ map_to_list p) ->
  (size t < fuel)%nat -> (size pe < fuel)%nat ->
  exists res err t' pe',
    Prune fuel be1 be2 n scan scan' now outboxAge processedAge t pe = Some ((res, err), t', pe') /\
    (forall id r, t !! id = Some r ->
       (PublishedAt r = None \/ exists p, PublishedAt r = Some p /\ now - outboxAge <= p) ->
       t' !! id = Some r) /\ t' ⊆ t /\ pe' ⊆ pe /\
    (err = None ->
       (forall id r, t' !! id = Some r -> prunable (now - outboxAge) r = false) /\
       res = (Eligible None None now outboxAge processedAge t pe).1).
Proof.
  intros Hn Hsc Hsc' Hf Hf'.
  destruct (Prune_outcome n scan scan' fuel be1 be2 now outboxAge processedAge t pe)
    as (res & err & t' & pe' & E & Hk & _ & Hs & Hs' & Hd); [done..|].
  exists res, err, t', pe'. split_ands; try done. intros id r Hr Hp. apply Hk; [done|].
  unfold prunable. destruct Hp as [-> | (p & -> & Hp)]; [done|by apply Z.ltb_ge].
Qed.

(** * The observer *)

Lemma claim_unlocked t n : claimSQL n ∅ t = take n (rows_by_id is_pending t).
Proof.
  unfold claimSQL. f_equal. induction (rows_by_id is_pending t) as [|x l IH]; cbn; [done|].
  rewrite bool_decide_eq_false_2 by set_solver. cbn. by rewrite IH.
Qed.

(** The age of the row a claim of one would take, zero when there is none. *)
Definition next_age (now : Z) (t : table) : Z :=
  match claimSQL 1 ∅ t with [] => 0 | (_, r) :: _ => now - ROccurredAt r end.

(** The gauges describe what a relay would do next: after a successful observation the
    pending gauge is the number of rows an unbounded claim would take, the age gauge is that
    of the row a claim of one would take first (zero when there is none), and a failed
    observation moves no gauge but the failure counter. *)
Theorem Observe_matches_claim e1 e2 e3 ctxErr now t g :
  match Observe e1 e2 e3 now t g with
  | (None, g') =>
      observeOnce e1 e2 e3 ctxErr now t g = g' /\
      GPending g' = Z.of_nat (length (claimSQL (size t) ∅ t)) /\
      (e3 = None -> GOldestAge g' = next_age now t) /\
      GLastObservation g' = now
  | (Some _, g') =>
      g' = g /\
      (ctxErr = None -> observeOnce e1 e2 e3 ctxErr now t g =
         mkGauges (GPending g) (GQuarantined g) (GOldestAge g) (GLastObservation g)
           (GFailures g + 1))
  end.
Proof.
  assert (length (rows_by_id is_pending t) <= size t)%nat as Hle.
  { rewrite <- (length_fmap fst), <- length_map_to_list, <- (length_fmap fst (map_to_list t)).
    apply submseteq_length, NoDup_submseteq; [apply rows_by_id_NoDup|].
    intros id ([id' r] & -> & Hr)%list_elem_of_fmap. apply rows_by_id_elem in Hr as [Hr _].
    apply list_elem_of_fmap. exists (id', r). split; [done|]. by apply elem_of_map_to_list. }
  unfold observeOnce, next_age. destruct (Observe e1 e2 e3 now t g) as [[err|] g'] eqn:E.
  - unfold Observe in E. repeat case_match; simplify_eq; split; try done; by intros ->.
  - split; [done|]. rewrite !claim_unlocked, (take_ge _ (size t)) by done. clear Hle.
    unfold Observe, oldestPendingSQL, pendingSQL in E.
    destruct e1; [done|]. destruct e2; [done|].
    destruct e3 as [e|].
    + destruct (errIs SqlErrNoRows e); [|done]. injection E as <-. done.
    + destruct (rows_by_id is_pending t) as [|[id r] l]; injection E as <-; done.
Qed.

(** * The theorems on a small outbox: rows 1, 2 and 3, of which 2 is poison *)

Definition some_row (payload : string) : row :=
  mkRow "acme" "o-1" "order.v1.OrderCreated" payload 100 None None None None.
Definition some_table : table :=
  {[1 := some_row "a"; 2 := some_row "poison"; 3 := some_row "b"]}.
Definition too_big : error := EPermanent (errorsNew "nats: maximum payload exceeded").
Definition quiet (publish : nat -> Message -> bool * option error) : env :=
  mkEnv 200 ∅ None None (fun _ => None) None None None publish None None None None None.
Definition poison_publish (k : nat) (m : Message) : bool * option error :=
  if (MPayload m =? "poison")%string then (false, Some too_big) else (true, None).

Lemma quiet_poison_ok : env_ok (quiet poison_publish).
Proof.
  unfold env_ok. split_ands; try done.
  - intros k m err. cbn. unfold poison_publish. destruct (_ =? _)%string; [|done]. by intros [= <-].
  - intros k m. cbn. unfold poison_publish. by destruct (_ =? _)%string.
Qed.

Lemma backlog_clears_witness :
  rows_by_id is_pending (Table (drains 10 (replicate 3 (quiet poison_publish))
    (mkOutbox some_table [] []))) = [].
Proof.
  apply backlog_clears; [lia| |vm_compute; lia].
  apply Forall_replicate. exact quiet_poison_ok.
Defined.

Definition after_write : sys := mkSys (mkOutbox {[1 := some_row "a"]} [] [])
  {[1 := message 1 (some_row "a")]}.

Lemma no_lost_event_witness :
  let s := mkSys (DrainOnce 10 (quiet poison_publish) (Out after_write)).2 (Written after_write) in
  message 1 (some_row "a") ∈ Broker (Out s) \/
  exists r, Table (Out s) !! 1 = Some r /\ message 1 r = message 1 (some_row "a") /\
    PublishedAt r = None.
Proof.
  intros s. apply (no_lost_event s 1 (message 1 (some_row "a"))); [|reflexivity].
  eapply rtc_l; [exact (Write 1 (some_row "a") sys_init eq_refl eq_refl)|].
  eapply rtc_l; [exact (Drain 10 (quiet poison_publish) after_write (proj2 (proj2 (proj2 quiet_poison_ok))))|].
  apply rtc_refl.
Defined.

Definition ack_timeout (k : nat) (m : Message) : bool * option error :=
  (true, Some (wrapf [PStr "nats"] DeadlineExceeded)).

(** The broker stored row 1 but its acknowledgement timed out: the relay returns with an
    hour of drains left. *)
Lemma publish_timeout_stops_relay_witness :
  (Run 10 1000000000 (replicate 3600 (Fired (quiet ack_timeout)))
     (mkOutbox some_table [] [])).1
    = (Some None, replicate 3599 (Fired (quiet ack_timeout)), []).
Proof.
  apply (publish_timeout_stops_relay 10 1000000000 (quiet ack_timeout)
           (replicate 3599 (Fired (quiet ack_timeout))) (mkOutbox some_table [] [])
           (1, some_row "a") [(2, some_row "poison"); (3, some_row "b")]
           (wrapf [PStr "nats"] DeadlineExceeded)).
  - unfold env_ok. split_ands; done.
  - vm_compute. reflexivity.
  - reflexivity.
  - reflexivity.
  - reflexivity.
Defined.

Lemma Prune_spec_witness :
  exists res err t' pe',
    Prune 10 (mkBatchEnv (fun _ => None) (fun _ => None) (fun _ => None))
      (mkBatchEnv (fun _ => None) (fun _ => None) (fun _ => None)) 1 map_to_list map_to_list
      1000 100 100 (<[4 := set_published 150 (some_row "old")]> some_table) {[7 := 5]}
      = Some ((res, err), t', pe') /\
    (forall id r, (<[4 := set_published 150 (some_row "old")]> some_table) !! id = Some r ->
       (PublishedAt r = None \/ exists p, PublishedAt r = Some p /\ 1000 - 100 <= p) ->
       t' !! id = Some r).
Proof.
  destruct (Prune_spec 1 map_to_list map_to_list 10
    (mkBatchEnv (fun _ => None) (fun _ => None) (fun _ => None))
    (mkBatchEnv (fun _ => None) (fun _ => None) (fun _ => None)) 1000 100 100
    (<[4 := set_published 150 (some_row "old")]> some_table) {[7 := 5]})
    as (res & err & t' & pe' & E & Hkeep & _);
    [lia|by intros ?|by intros ?|vm_compute; lia|vm_compute; lia|].
  exists res, err, t', pe'. by split.
Defined.
