(* ===== verification/Shutdown.v ===== *)
(** internal/app/shutdown.go: the ordered, bounded shutdown.

    A step's function acts on the process, the state [W] with its clock, under a context
    with a deadline. *)

From S2P Require Import Prelude GoErr GoStr GoLog AppErr Auth RateLimit Interceptor.

Section Shutdown.
Context {W : Type} (clock : W -> Z).

Record Step := mkStep {
  StepName : string; Timeout : Z; Fn : option (context -> W -> option error * W) }.

(** One iteration of the loop: nothing for a step without a function. *)
Definition runStep (ctx : context) (step : Step) (w : W) : option error * W :=
  match Fn step with
  | None => (None, w)
  | Some fn =>
      let timeout := if Timeout step <=? 0 then 10 * 1000000000 else Timeout step in
      let stepCtx := WithTimeout ctx (clock w) timeout in
      let '(err, w) := fn stepCtx w in
      match err with
      | None => (None, w)
      | Some err => (Some (wrapf [PStr "shutdown step "; PQuote (StepName step)] err), w)
      end
  end.

(** The loop, from index [i - 1] down to 0, over the errors collected so far. *)
Fixpoint shutdownLoop (ctx : context) (steps : list Step) (i : nat) (errs : list error) (w : W)
    : list error * W :=
  match i with
  | O => (errs, w)
  | S i =>
      match steps !! i with
      | None => (errs, w)
      | Some step =>
          let '(err, w) := runStep ctx step w in
          shutdownLoop ctx steps i (errs ++ match err with Some e => [e] | None => [] end) w
      end
  end.

Definition Shutdown (ctx : context) (steps : list Step) (w : W) : option error * W :=
  let '(errs, w) := shutdownLoop ctx steps (length steps) [] w in (errorsJoin errs, w).

(** * Every step runs, last first *)

(** Running a list of steps first to last, whatever they return. *)
Fixpoint runAll (ctx : context) (steps : list Step) (w : W) : list error * W :=
  match steps with
  | [] => ([], w)
  | step :: rest =>
      let '(err, w) := runStep ctx step w in
      let '(errs, w) := runAll ctx rest w in
      (match err with Some e => e :: errs | None => errs end, w)
  end.

Lemma shutdownLoop_runAll ctx steps i errs w :
  (i <= length steps)%nat ->
  shutdownLoop ctx steps i errs w =
    let '(errs', w') := runAll ctx (reverse (take i steps)) w in (errs ++ errs', w').
Proof.
  revert errs w. induction i as [|i IH]; intros errs w Hi.
  - change (take 0 steps) with (@nil Step). rewrite reverse_nil. cbn. by rewrite app_nil_r.
  - cbn [shutdownLoop]. destruct (lookup_lt_is_Some_2 steps i) as [s Hs]; [lia|].
    rewrite Hs, (take_S_r steps i s Hs), reverse_snoc. cbn [runAll].
    destruct (runStep ctx s w) as [err w1]. rewrite IH by lia.
    destruct (runAll _ _ w1) as [errs' w2]. destruct err; cbn; by rewrite ?app_nil_r, <- ?app_assoc.
Qed.

(** Shutdown runs every step exactly once, last registered first, each under the deadline
    of its own timeout, whether or not the steps before it failed; it returns nil exactly
    when all of them succeeded, and otherwise the join of all their errors in that order. *)
Theorem Shutdown_runs_all ctx steps w :
  let '(errs, w') := runAll ctx (reverse steps) w in
  Shutdown ctx steps w = (errorsJoin errs, w') /\
  (fst (Shutdown ctx steps w) = None <-> errs = []) /\
  (forall s e, e ∈ errs -> errIs s e = true -> exists j, fst (Shutdown ctx steps w) = Some j /\
     errIs s j = true).
Proof.
  assert (Shutdown ctx steps w =
            let '(errs, w') := runAll ctx (reverse steps) w in (errorsJoin errs, w')) as E.
  { unfold Shutdown. rewrite shutdownLoop_runAll by done. rewrite firstn_all.
    by destruct (runAll _ _ _). }
  destruct (runAll ctx (reverse steps) w) as [errs w']. rewrite E. split; [done|]. cbn.
  split; [by destruct errs|]. intros s e He Hs. destruct errs as [|e0 errs]; [by apply elem_of_nil in He|].
  eexists. split; [done|]. revert He. generalize (e0 :: errs). intros l. cbn.
  induction l as [|x l IH]; [by intros ?%elem_of_nil|]. rewrite elem_of_cons. intros [<-|He].
  - by rewrite Hs.
  - rewrite IH by done. by rewrite orb_true_r.
Qed.

End Shutdown.
