(* ===== verification/Oidc.v ===== *)
(** internal/platform/auth/jwks.go and oidc.go: the OIDC verifier and its key cache.

    Parameters stand for the libraries: JSON and URL parsing, IP addresses, elliptic-curve
    points, and the JWT parser.  The answer of the identity provider to a request is an
    argument of the operation that makes it.  A fetch is serialised by [refreshMu] and the
    cache is read and swapped under [mu], so the operations are atomic up to the clock: an
    operation that fetches has the instant it starts at and the instant the fetch ends at.
    Log lines are not kept. *)

From S2P Require Import Prelude GoErr GoStr Cursor Auth.

(** * jwks.go: keys *)

(** [crypto.PublicKey]: the dynamic types [keyFunc] distinguishes. *)
Inductive pubkey :=
  | RSAPublicKey (n e : Z)
  | ECDSAPublicKey (crv : string) (x y : Z)
  | OtherKey (goType : string).

Record parsedKey := mkParsed { PKey : pubkey; PAlg : string }.

Definition maxJWKSBytes : Z := 2 ^ 20.
Definition minRSABits : Z := 2048.
Definition maxRSABits : Z := 8192.
Definition defaultMaxAge : Z := 15 * 60 * 1000000000.

Record jwk := mkJwk {
  Kty : string; Kid : string; Use : string; Alg : string;
  N : string; E : string; Crv : string; X : string; Y : string }.

(** [new(big.Int).SetBytes(b)] and [BitLen]. *)
Definition SetBytes (b : string) : Z :=
  foldl (fun z c => z * 256 + byte_of c) 0 (to_list b).
Definition BitLen (z : Z) : Z := if z =? 0 then 0 else Z.log2 (Z.abs z) + 1.

(** Base64url with the padding some issuers add trimmed. *)
Definition b64 (s : string) : result string :=
  if (s =? "")%string then Err (errorsNew "empty")
  else match DecodeString (TrimRight (fun c => Ascii.eqb c "="%char) s) with
       | Some b => Ok b
       | None => Err (ELib "base64.CorruptInputError")
       end.

Definition parseRSA (j : jwk) : result pubkey :=
  nBytes ← mapErr (wrapf [PStr "modulus"]) (b64 (N j));
  eBytes ← mapErr (wrapf [PStr "exponent"]) (b64 (E j));
  if (strlen eBytes =? 0) || (strlen eBytes >? 8)
  then Err (EFmt [PStr "exponent is "; PInt (strlen eBytes); PStr " bytes, want 1-8"])
  else
    let n := SetBytes nBytes in
    let e := SetBytes eBytes in
    if negb (bool_decide (int_ok 64 e)) || (e >? 2 ^ 32 - 1)
    then Err (errorsNew "exponent does not fit in an int")
    else if n <=? 0 then Err (errorsNew "modulus is not positive")
    else if (e <? 3) || (Z.rem e 2 =? 0)
    then Err (EFmt [PStr "exponent "; PInt e; PStr " is invalid"])
    else if (BitLen n <? minRSABits) || (BitLen n >? maxRSABits)
    then Err (EFmt [PStr "modulus is "; PInt (BitLen n); PStr " bits, want between ";
                    PInt minRSABits; PStr " and "; PInt maxRSABits])
    else Ok (RSAPublicKey n e).

(** The coordinate size in bytes of the curves the code supports. *)
Definition curveSize (crv : string) : option Z :=
  if (crv =? "P-256")%string then Some 32
  else if (crv =? "P-384")%string then Some 48
  else if (crv =? "P-521")%string then Some 66
  else None.

Record header := mkHeader { HKid : string; HAlg : string }.
Record discoveryDocument := mkDiscovery { Issuer : string; JWKSURI : string }.
Record parsed_url := mkUrl { Scheme : string; Hostname : string }.

(** The options [Verify] passes to the JWT parser. *)
Record parse_opts := mkParseOpts {
  ValidMethods : list string; WithIssuer : string; WithAudience : string; WithLeeway : Z;
  ExpirationRequired : bool }.

(** The libraries. *)
Class AuthLib := {
  (** [ecdh.Curve.NewPublicKey] on an uncompressed point. *)
  ecdh_NewPublicKey : string -> string -> option error;
  json_jwks : string -> result (list jwk);
  json_discovery : string -> result discoveryDocument;
  url_Parse : string -> result parsed_url;
  (** [net.ParseIP] and [IP.IsLoopback]. *)
  ip_loopback : string -> option bool;
  (** golang-jwt: the header of a well-formed token whose algorithm is allowed, then the
      claims once signature and standard claims check out under a key. *)
  jwt_header : parse_opts -> string -> result header;
  jwt_claims : parse_opts -> string -> pubkey -> result MapClaims }.

Section WithLib.
Context `{Unicode, AuthLib}.

Definition parseEC (j : jwk) : result pubkey :=
  match curveSize (Crv j) with
  | None => Err (EFmt [PStr "unsupported curve "; PQuote (Crv j)])
  | Some size =>
      xBytes ← mapErr (wrapf [PStr "x"]) (b64 (X j));
      yBytes ← mapErr (wrapf [PStr "y"]) (b64 (Y j));
      if negb (strlen xBytes =? size) || negb (strlen yBytes =? size)
      then Err (EFmt [PStr "coordinates are "; PInt (strlen xBytes); PStr "/";
                      PInt (strlen yBytes); PStr " bytes, want "; PInt size; PStr " each for ";
                      PStr (Crv j)])
      else
        let point := String (of_byte 4) (xBytes +:+ yBytes) in
        match ecdh_NewPublicKey (Crv j) point with
        | Some err => Err (wrapf [PStr "point is not on curve "; PStr (Crv j)] err)
        | None => Ok (ECDSAPublicKey (Crv j) (SetBytes xBytes) (SetBytes yBytes))
        end
  end.

Definition parse (j : jwk) : result pubkey :=
  if negb (Use j =? "")%string && negb (Use j =? "sig")%string
  then Err (EFmt [PStr "key use "; PQuote (Use j); PStr " is not "; PQuote "sig"])
  else if (Kty j =? "RSA")%string then parseRSA j
  else if (Kty j =? "EC")%string then parseEC j
  else if (Kty j =? "oct")%string
  then Err (errorsNew "symmetric (oct) keys are refused: a published symmetric key lets anyone who can read the JWKS forge tokens")
  else Err (EFmt [PStr "unsupported key type "; PQuote (Kty j)]).

(** What the endpoint answers a GET: the transport fails, the status is not 200, the request
    cannot be built or the body cannot be read (both errors are returned bare), or this
    body. *)
Inductive http_answer :=
  | TransportErr (e : error) | BadStatus (status : string) | ReadErr (e : error)
  | Body (b : string).

(** [io.ReadAll(io.LimitReader(body, n))]. *)
Fixpoint LimitReader (n : Z) (b : string) : string :=
  match b with
  | EmptyString => EmptyString
  | String c r => if n <=? 0 then EmptyString else String c (LimitReader (n - 1) r)
  end.

(** The loop of [fetch] over the document. *)
Fixpoint collect (keys : list jwk) (out : gmap string parsedKey) : gmap string parsedKey :=
  match keys with
  | [] => out
  | j :: r =>
      match parse j with
      | Err _ => collect r out
      | Ok key =>
          if (Kid j =? "")%string then collect r out
          else collect r (<[Kid j := mkParsed key (Alg j)]> out)
      end
  end.

Definition fetch (a : http_answer) : result (gmap string parsedKey) :=
  match a with
  | TransportErr e => Err e
  | BadStatus status => Err (EFmt [PStr "jwks endpoint returned "; PStr status])
  | ReadErr e => Err e
  | Body b =>
      keys ← mapErr (wrapf [PStr "jwks is not valid JSON"]) (json_jwks (LimitReader maxJWKSBytes b));
      mret (collect keys ∅)
  end.

(** * jwks.go: the cache; the zero time is [None] *)

Record keyCache := mkCache {
  Url : string; MinRefreshC : Z; MaxAge : Z;
  Keys : gmap string parsedKey; FetchedAt : option Z; LastAttempt : option Z; Warm : bool }.

Definition newKeyCache (url : string) (minRefresh maxAge : Z) : keyCache :=
  mkCache url minRefresh (if maxAge =? 0 then defaultMaxAge else maxAge) ∅ None None false.

Definition fresh (now : Z) (c : keyCache) : bool :=
  (MaxAge c <=? 0) ||
  match FetchedAt c with Some t => now - t <? MaxAge c | None => false end.

Definition lookupKey (now : Z) (kid : string) (c : keyCache) : option parsedKey * bool :=
  (Keys c !! kid, fresh now c).

(** Whether [refresh] is inside its rate-limit window. *)
Definition limited (now : Z) (c : keyCache) : bool :=
  (MinRefreshC c >? 0) &&
  match LastAttempt c with Some t => now - t <? MinRefreshC c | None => false end.

Definition refresh (now later : Z) (a : http_answer) (c : keyCache) : option error * keyCache :=
  if limited now c
  then (if Warm c then None
        else Some (errorsNew "jwks refresh rate-limited and no keys cached"), c)
  else
    let c := mkCache (Url c) (MinRefreshC c) (MaxAge c) (Keys c) (FetchedAt c) (Some now)
               (Warm c) in
    match fetch a with
    | Err err => (Some err, c)
    | Ok keys =>
        if bool_decide (size keys = 0%nat)
        then (Some (errorsNew "jwks contained no usable signing keys"), c)
        else (None, mkCache (Url c) (MinRefreshC c) (MaxAge c) keys (Some later) (LastAttempt c) true)
    end.

Definition keyFor (now later : Z) (a : http_answer) (kid : string) (c : keyCache)
    : result parsedKey * keyCache :=
  match lookupKey now kid c with
  | (Some k, true) => (Ok k, c)
  | _ =>
      let '(refreshErr, c) := refresh now later a c in
      match lookupKey later kid c with
      | (Some k, _) => (Ok k, c)
      | (None, _) =>
          match refreshErr with
          | Some err =>
              if negb (Warm c)
              then (Err (wrapf [PStr "jwks unavailable and no keys cached"] err), c)
              else (Err (EFmt [PStr "unknown key id "; PQuote kid; PStr " (refresh failed: ";
                               PErr err; PStr ")"]), c)
          | None => (Err (EFmt [PStr "unknown key id "; PQuote kid]), c)
          end
      end
  end.

(** * oidc.go *)

Record OIDCOptions := mkOIDC {
  IssuerURL : string; Audience : string; JWKSURL : string; Leeway : Z;
  OClaims : ClaimOptions; AllowInsecureIssuer : bool; MaxKeyAge : Z; MinRefresh : Z }.

Definition signingAlgorithms : list string :=
  ["RS256"; "RS384"; "RS512"; "PS256"; "PS384"; "PS512"; "ES256"; "ES384"; "ES512"].

Definition isLoopback (host : string) : bool :=
  if (host =? "localhost")%string then true
  else match ip_loopback host with Some b => b | None => false end.

Definition requireSecureURL (raw field : string) (allowInsecure : bool) : result unit :=
  if (raw =? "")%string then Ok tt
  else
    u ← mapErr (wrapf [PStr field; PStr " is not a valid URL"]) (url_Parse raw);
    if (Scheme u =? "https")%string then Ok tt
    else if (Scheme u =? "http")%string then
      if isLoopback (Hostname u) || allowInsecure then Ok tt
      else Err (EFmt [PStr field; PStr " uses http:// with non-loopback host "; PQuote (Hostname u);
                PStr ": bearer tokens and signing keys must not cross a network in cleartext. If this is a container name on a development network, set OIDC_ALLOW_INSECURE_ISSUER=true -- which APP_ENV=production refuses"])
    else Err (EFmt [PStr field; PStr " has unsupported scheme "; PQuote (Scheme u)]).

(** The verifier: its options and, lazily, its key cache. *)
Record OIDCVerifier := mkVerifier {
  Opts : OIDCOptions; LastDiscovery : option Z; VKeys : option keyCache;
  DiscoverErr : option error }.

Definition err_list (r : result unit) : list error := match r with Err e => [e] | Ok _ => [] end.

Definition NewOIDCVerifier (opts : OIDCOptions) : result OIDCVerifier :=
  let errs :=
    (if (IssuerURL opts =? "")%string
     then [errorsNew "OIDC_ISSUER_URL is required when AUTH_MODE=oidc"] else []) ++
    (if (Audience opts =? "")%string
     then [errorsNew "OIDC_AUDIENCE is required when AUTH_MODE=oidc: without it this service would accept any token the issuer signed, including tokens meant for other applications"] else []) ++
    (if (TenantClaim (OClaims opts) =? "")%string
     then [errorsNew "OIDC_TENANT_CLAIM is required: the tenant must come from the verified token"] else []) ++
    (if negb (IssuerURL opts =? "")%string
     then err_list (requireSecureURL (IssuerURL opts) "OIDC_ISSUER_URL" (AllowInsecureIssuer opts)) else []) ++
    (if negb (JWKSURL opts =? "")%string
     then err_list (requireSecureURL (JWKSURL opts) "OIDC_JWKS_URL" (AllowInsecureIssuer opts)) else []) in
  match errs with
  | _ :: _ => Err (EJoin errs)
  | [] =>
      Ok (mkVerifier
            (mkOIDC (IssuerURL opts) (Audience opts) (JWKSURL opts) (Leeway opts) (OClaims opts)
               (AllowInsecureIssuer opts) (MaxKeyAge opts)
               (if MinRefresh opts =? 0 then 30 * 1000000000 else MinRefresh opts))
            None None None)
  end.

(** [strings.TrimSuffix(s, "/")]. *)
Definition TrimSlash (s : string) : string :=
  match reverse (to_list s) with
  | c :: r => if Ascii.eqb c "/"%char then of_list (reverse r) else s
  | [] => s
  end.

Definition discover (opts : OIDCOptions) (a : http_answer) : result string :=
  let endpoint := TrimSlash (IssuerURL opts) +:+ "/.well-known/openid-configuration" in
  match a with
  | TransportErr e => Err (wrapf [PStr "oidc discovery at "; PStr endpoint] e)
  | BadStatus status => Err (EFmt [PStr "oidc discovery at "; PStr endpoint; PStr " returned "; PStr status])
  | ReadErr e => Err e
  | Body b =>
      doc ← mapErr (wrapf [PStr "oidc discovery document is not valid JSON"]) (json_discovery (LimitReader maxJWKSBytes b));
      if negb (Issuer doc =? IssuerURL opts)%string
      then Err (EFmt [PStr "oidc discovery issuer mismatch: document says "; PQuote (Issuer doc);
                      PStr ", configured issuer is "; PQuote (IssuerURL opts)])
      else if (JWKSURI doc =? "")%string
      then Err (errorsNew "oidc discovery document has no jwks_uri")
      else
        _ ← requireSecureURL (JWKSURI doc) "jwks_uri" (AllowInsecureIssuer opts);
        mret (JWKSURI doc)
  end.

Definition keySet (now : Z) (a : http_answer) (v : OIDCVerifier)
    : (option keyCache * option error) * OIDCVerifier :=
  match VKeys v with
  | Some c => ((Some c, None), v)
  | None =>
      let opts := Opts v in
      if negb (JWKSURL opts =? "")%string
      then
        let c := newKeyCache (JWKSURL opts) (MinRefresh opts) (MaxKeyAge opts) in
        ((Some c, None), mkVerifier opts (LastDiscovery v) (Some c) (DiscoverErr v))
      else if (MinRefresh opts >? 0) &&
              match LastDiscovery v with Some t => now - t <? MinRefresh opts | None => false end
      then ((None, DiscoverErr v), v)
      else
        match discover opts a with
        | Err err => ((None, Some err), mkVerifier opts (Some now) None (Some err))
        | Ok url =>
            let c := newKeyCache url (MinRefresh opts) (MaxKeyAge opts) in
            ((Some c, None), mkVerifier opts (Some now) (Some c) None)
        end
  end.

(** The key of a token: from the cache, under the algorithm it was published for and of
    the family its type can verify. *)
Definition keyFunc (now later : Z) (a : http_answer) (token : header) (c : keyCache)
    : result pubkey * keyCache :=
  let kid := HKid token in
  if (kid =? "")%string then (Err (errorsNew "token header has no kid"), c)
  else
    let '(found, c) := keyFor now later a kid c in
    (pk ← found;
     let alg := HAlg token in
     if negb (PAlg pk =? "")%string && negb (PAlg pk =? alg)%string
     then Err (EFmt [PStr "token alg "; PQuote alg; PStr " does not match the algorithm ";
                     PQuote (PAlg pk); PStr " published for key "; PQuote kid])
     else match PKey pk with
          | RSAPublicKey _ _ =>
              if negb (HasPrefix alg "RS") && negb (HasPrefix alg "PS")
              then Err (EFmt [PStr "key "; PQuote kid; PStr " is RSA but the token asks for "; PQuote alg])
              else Ok (PKey pk)
          | ECDSAPublicKey _ _ _ =>
              if negb (HasPrefix alg "ES")
              then Err (EFmt [PStr "key "; PQuote kid; PStr " is ECDSA but the token asks for "; PQuote alg])
              else Ok (PKey pk)
          | OtherKey ty =>
              Err (EFmt [PStr "key "; PQuote kid; PStr " has an unsupported type "; PStr ty])
          end, c).

(** [fmt.Errorf("%w: %w", ErrInvalidToken, err)]. *)
Definition invalid (err : error) : error := errorf ErrInvalidToken [PErr err].

Definition verifyOpts (opts : OIDCOptions) : parse_opts :=
  mkParseOpts signingAlgorithms (IssuerURL opts) (Audience opts) (Leeway opts) true.

(** [ad] answers a discovery request and [aj] a JWKS request, should they be made. *)
Definition Verify (now later : Z) (ad aj : http_answer) (raw : string) (v : OIDCVerifier)
    : result Principal * OIDCVerifier :=
  if (TrimSpace raw =? "")%string then (Err ErrNoCredentials, v)
  else
    let '(ks, v) := keySet now ad v in
    match ks with
    | (_, Some err) => (Err (invalid err), v)
    | (None, None) => (Err (invalid (ELib "nil key cache")), v)
    | (Some c, None) =>
        let po := verifyOpts (Opts v) in
        match jwt_header po raw with
        | Err err => (Err (invalid err), v)
        | Ok h =>
            let '(key, c) := keyFunc now later aj h c in
            let v := mkVerifier (Opts v) (LastDiscovery v) (Some c) (DiscoverErr v) in
            (claims ← mapErr invalid (key ≫= jwt_claims po raw);
             principalFrom (OClaims (Opts v)) claims, v)
        end
    end.

End WithLib.
