(* ===== verification/OidcSpec.v ===== *)
(** What the OIDC verifier guarantees: which keys it will ever use, when it refetches
    them, and what an accepted token proves. *)

From S2P Require Import Prelude GoErr GoStr Cursor Auth Oidc.

Section Spec.
Context `{Unicode, AuthLib}.

(** * Keys *)

(** A key fit for verification: an RSA modulus of 2048 to 8192 bits with an odd exponent
    of at least 3 and at most 32 bits, or a point the curve library accepts. *)
Definition strong (k : pubkey) : Prop :=
  match k with
  | RSAPublicKey n e =>
      0 < n /\ minRSABits <= BitLen n <= maxRSABits /\ 3 <= e < 2 ^ 32 /\ Z.odd e = true
  | ECDSAPublicKey crv x y =>
      exists size xb yb, curveSize crv = Some size /\ strlen xb = size /\ strlen yb = size /\
        ecdh_NewPublicKey crv (String (of_byte 4) (xb +:+ yb)) = None /\
        x = SetBytes xb /\ y = SetBytes yb
  | OtherKey _ => False
  end.

Lemma parseRSA_strong j k : parseRSA j = Ok k -> strong k.
Proof.
  unfold parseRSA. intros Hk.
  apply bind_Ok in Hk as (nb & _ & Hk). apply bind_Ok in Hk as (eb & _ & Hk).
  destruct (_ || _) in Hk; [done|].
  destruct (negb (bool_decide _) || _) eqn:He in Hk; [done|].
  destruct (SetBytes nb <=? 0) eqn:Hn in Hk; [done|].
  destruct ((SetBytes eb <? 3) || _) eqn:Hodd in Hk; [done|].
  destruct ((BitLen _ <? minRSABits) || _) eqn:Hb in Hk; [done|].
  injection Hk as <-. to_prop. cbn.
  assert (Z.odd (SetBytes eb) = true) as Ho.
  { rewrite <- Z.negb_even. apply negb_true_iff. apply not_true_is_false.
    intros [m Hm]%Z.even_spec. rewrite Hm, Z.mul_comm, Z.rem_mul in * by lia. done. }
  change (2 ^ 32 - 1) with 4294967295 in *. change (2 ^ 32) with 4294967296. split_ands; lia || done.
Qed.

Lemma parseEC_strong j k : parseEC j = Ok k -> strong k.
Proof.
  unfold parseEC. destruct (curveSize (Crv j)) as [size|] eqn:Hs; [|done]. intros Hk.
  apply bind_Ok in Hk as (xb & _ & Hk). apply bind_Ok in Hk as (yb & _ & Hk).
  destruct (negb _ || _) eqn:Hlen in Hk; [done|].
  destruct (ecdh_NewPublicKey _ _) eqn:Hp in Hk; [done|]. injection Hk as <-.
  to_prop. exists size, xb, yb. done.
Qed.

Lemma parse_strong j k :
  parse j = Ok k -> strong k /\ (Use j = "" \/ Use j = "sig") /\ Kty j <> "oct".
Proof.
  unfold parse. destruct (negb (Use j =? "")%string && _) eqn:Hu; [done|].
  assert (Use j = "" \/ Use j = "sig") by (to_prop; destruct Hu; to_prop; auto).
  destruct (Kty j =? "RSA")%string eqn:E1; to_prop.
  { intros ?%parseRSA_strong. rewrite E1. by split_ands. }
  destruct (Kty j =? "EC")%string eqn:E2; to_prop.
  { intros ?%parseEC_strong. rewrite E2. by split_ands. }
  by destruct (Kty j =? "oct")%string.
Qed.

(** A published key: named, meant for signatures, not symmetric, strong. *)
Definition published (keys : list jwk) (kid : string) (pk : parsedKey) : Prop :=
  kid <> "" /\ exists j, j ∈ keys /\ Kid j = kid /\ PAlg pk = Alg j /\ parse j = Ok (PKey pk) /\
    Kty j <> "oct" /\ (Use j = "" \/ Use j = "sig").

Lemma collect_published keys out kid pk :
  collect keys out !! kid = Some pk -> published keys kid pk \/ out !! kid = Some pk.
Proof.
  revert out. induction keys as [|j r IH]; intros out; cbn [collect]; [by right|].
  assert (forall kid pk, published r kid pk -> published (j :: r) kid pk) as Hcons.
  { intros ?? (? & j' & ? & ?). split; [done|]. exists j'. split; [by right|done]. }
  destruct (parse j) as [k|e] eqn:Hp; [|intros [?|?]%IH; auto].
  destruct (Kid j =? "")%string eqn:Hk; to_prop; [intros [?|?]%IH; auto|].
  intros [?|Hin]%IH; [auto|]. rewrite lookup_insert in Hin. case_decide as Hd; [|auto].
  injection Hin as <-. left. split; [congruence|]. exists j. destruct (parse_strong j k Hp).
  split; [by left|]. cbn. naive_solver.
Qed.

Definition cache_ok (c : keyCache) : Prop :=
  forall kid pk, Keys c !! kid = Some pk -> kid <> "" /\ strong (PKey pk).

Lemma published_strong keys kid pk : published keys kid pk -> kid <> "" /\ strong (PKey pk).
Proof. intros (? & j & _ & _ & _ & Hp & _). split; [done|]. by apply parse_strong in Hp as [? _]. Qed.

Lemma fetch_published a keys kid pk :
  fetch a = Ok keys -> keys !! kid = Some pk -> kid <> "" /\ strong (PKey pk).
Proof.
  destruct a; cbn; try done. intros Hf Hk. apply bind_Ok in Hf as (l & _ & [= <-]).
  apply collect_published in Hk as [Hk|Hk]; [by apply published_strong in Hk|].
  by rewrite lookup_empty in Hk.
Qed.

(** * The cache *)

(** The keys a successful fetch answers with; a document without usable keys counts as a
    failure. *)
Definition fetched (a : http_answer) : option (gmap string parsedKey) :=
  match fetch a with
  | Ok keys => if bool_decide (size keys = 0%nat) then None else Some keys
  | Err _ => None
  end.

Lemma refresh_spec now later a c :
  let '(err, c') := refresh now later a c in
  if limited now c then c' = c /\ (err = None <-> Warm c = true)
  else match fetched a with
       | Some keys => err = None /\ Keys c' = keys /\ FetchedAt c' = Some later /\ Warm c' = true /\
                      LastAttempt c' = Some now
       | None => err <> None /\ Keys c' = Keys c /\ FetchedAt c' = FetchedAt c /\
                 Warm c' = Warm c /\ LastAttempt c' = Some now
       end.
Proof.
  unfold refresh, fetched. destruct (limited now c).
  - split; [done|]. by destruct (Warm c).
  - destruct (fetch a) as [keys|e]; [|done]. by case_bool_decide.
Qed.

(** The decision table of [keyFor]: a fresh hit is served without touching the network; a
    stale or missing key is looked up in what a successful fetch returned and in nothing else,
    so a key the issuer withdrew is refused as soon as the cache is past its age; through a
    failed or rate-limited fetch a key already held is served and an unknown one refused. *)
Lemma keyFor_table now later a kid c :
  let '(r, c') := keyFor now later a kid c in
  match Keys c !! kid with
  | Some k =>
      if fresh now c then r = Ok k /\ c' = c
      else match (if limited now c then None else fetched a) with
           | Some keys => match keys !! kid with Some k' => r = Ok k' | None => is_ok r = false end
           | None => r = Ok k
           end
  | None =>
      match (if limited now c then None else fetched a) with
      | Some keys => match keys !! kid with Some k' => r = Ok k' | None => is_ok r = false end
      | None => is_ok r = false
      end
  end.
Proof.
  unfold keyFor, lookupKey. pose proof (refresh_spec now later a c) as Hs.
  destruct (refresh now later a c) as [err c1].
  assert (Keys c1 !! kid = match (if limited now c then None else fetched a) with
                           | Some keys => keys !! kid | None => Keys c !! kid end) as Hk.
  { destruct (limited now c); [by destruct Hs as [-> _]|].
    destruct (fetched a); by destruct Hs as (_ & -> & _). }
  clear Hs. destruct (Keys c !! kid) as [k|] eqn:E.
  - destruct (fresh now c); [done|]. rewrite Hk.
    destruct (if limited now c then None else fetched a) as [keys|]; [|done].
    destruct (keys !! kid); [done|]. destruct err; [destruct (negb _)|]; done.
  - rewrite Hk. destruct (if limited now c then None else fetched a) as [keys|].
    + destruct (keys !! kid); [done|]. destruct err; [destruct (negb _)|]; done.
    + destruct err; [destruct (negb _)|]; done.
Qed.

Lemma refresh_ok now later a c : cache_ok c -> cache_ok (refresh now later a c).2.
Proof.
  intros Hc. unfold refresh. destruct (limited now c); [done|].
  destruct (fetch a) as [keys|e] eqn:Hf; [|exact Hc].
  case_bool_decide; [exact Hc|]. intros kid pk. apply (fetch_published a keys kid pk Hf).
Qed.

Lemma keyFor_ok now later a kid c :
  cache_ok c ->
  cache_ok (keyFor now later a kid c).2 /\
  (forall k, (keyFor now later a kid c).1 = Ok k -> Keys (keyFor now later a kid c).2 !! kid = Some k).
Proof.
  intros Hc. pose proof (refresh_ok now later a c Hc) as Hr. unfold keyFor, lookupKey.
  destruct (refresh now later a c) as [err c1]. cbn in Hr.
  assert (cache_ok c1 /\ forall k, Keys c1 !! kid = Some k -> Keys c1 !! kid = Some k) by done.
  destruct (Keys c !! kid) as [k|] eqn:E; [destruct (fresh now c)|].
  1:{ split; [done|]. by intros k' [= <-]. }
  all: destruct (Keys c1 !! kid) as [k'|] eqn:E'; [split; [done|]; by intros ? [= <-]|].
  all: destruct err; [destruct (negb _)|]; by split.
Qed.

(** ** Provenance *)

(** The document a JWKS answer carries. *)
Definition document (a : http_answer) (keys : list jwk) : Prop :=
  exists b, a = Body b /\ json_jwks (LimitReader maxJWKSBytes b) = Ok keys.

(** Every key of the cache was published, under the id it is held by, in one of the answers. *)
Definition cache_from (answers : list http_answer) (c : keyCache) : Prop :=
  forall kid pk, Keys c !! kid = Some pk ->
    exists a keys, a ∈ answers /\ document a keys /\ published keys kid pk.

Lemma cache_from_mono l l' c : cache_from l c -> l ⊆ l' -> cache_from l' c.
Proof. intros Hc Hsub kid pk Hk. destruct (Hc kid pk Hk) as (a & keys & ? & ?). eauto. Qed.

Lemma fetch_from a keys kid pk :
  fetch a = Ok keys -> keys !! kid = Some pk -> exists doc, document a doc /\ published doc kid pk.
Proof.
  destruct a as [| | |b]; cbn; try done. intros Hf Hk. apply bind_Ok in Hf as (l & Hl & [= <-]).
  apply collect_published in Hk as [Hk|Hk]; [|by rewrite lookup_empty in Hk].
  exists l. split; [|done]. exists b. split; [done|]. by destruct (json_jwks _).
Qed.

Lemma refresh_from now later a c l :
  cache_from l c -> cache_from (l ++ [a]) (refresh now later a c).2.
Proof.
  intros Hc. assert (cache_from (l ++ [a]) c) as Hc' by (eapply cache_from_mono; [done|set_solver]).
  unfold refresh. destruct (limited now c); [done|]. destruct (fetch a) as [keys|e] eqn:Hf; [|done].
  case_bool_decide; [done|]. intros kid pk Hk. destruct (fetch_from a keys kid pk Hf Hk) as (doc & ? & ?).
  exists a, doc. split; [set_solver|done].
Qed.

Lemma keyFunc_from now later a h c l :
  cache_from l c -> cache_from (l ++ [a]) (keyFunc now later a h c).2.
Proof.
  intros Hc. assert (cache_from (l ++ [a]) c) as Hc' by (eapply cache_from_mono; [done|set_solver]).
  unfold keyFunc. destruct (HKid h =? "")%string; [done|]. unfold keyFor, lookupKey.
  pose proof (refresh_from now later a c l Hc) as Hr. destruct (refresh now later a c) as [err c1].
  destruct (Keys c !! HKid h); [destruct (fresh now c)|]; [done|..];
    (destruct (Keys c1 !! HKid h); [done|]; destruct err; [by destruct (negb _)|done]).
Qed.

(** ** Rate *)

(** The instants at which a sequence of lookups contacts the issuer: [limited] lets the
    fetch through. *)
Definition contacts (now : Z) (kid : string) (c : keyCache) : bool :=
  negb (match Keys c !! kid with Some _ => fresh now c | None => false end) && negb (limited now c).

Fixpoint lookups (l : list (Z * Z * http_answer * string)) (c : keyCache) : list Z * keyCache :=
  match l with
  | [] => ([], c)
  | (now, later, a, kid) :: r =>
      let '(ts, c') := lookups r (keyFor now later a kid c).2 in
      ((if contacts now kid c then [now] else []) ++ ts, c')
  end.

Lemma keyFor_attempt now later a kid c :
  LastAttempt (keyFor now later a kid c).2 =
    (if contacts now kid c then Some now else LastAttempt c) /\
  MinRefreshC (keyFor now later a kid c).2 = MinRefreshC c.
Proof.
  unfold keyFor, lookupKey, contacts.
  assert ((LastAttempt (refresh now later a c).2 =
             if negb (limited now c) then Some now else LastAttempt c) /\
          MinRefreshC (refresh now later a c).2 = MinRefreshC c) as Hr.
  { unfold refresh. destruct (limited now c); [done|].
    destruct (fetch a); [by case_bool_decide|done]. }
  destruct (refresh now later a c) as [err c1]. cbn in Hr.
  destruct (Keys c !! kid) as [k|]; [destruct (fresh now c)|]; cbn [negb andb]; [done| |];
    destruct (Keys c1 !! kid); try exact Hr; destruct err; try exact Hr; by destruct (negb (Warm c1)).
Qed.

(** An unknown key id is not an amplifier: however many lookups arrive and whatever keys
    they name, two requests to the issuer are never closer than the refresh interval. *)
Theorem fetches_are_spaced l c :
  0 < MinRefreshC c ->
  StronglySorted (fun a b : Z * Z * http_answer * string => a.1.1.1 <= b.1.1.1) l ->
  (forall t, LastAttempt c = Some t -> Forall (fun x : Z * Z * http_answer * string => t <= x.1.1.1) l) ->
  StronglySorted (fun a b => a + MinRefreshC c <= b) (lookups l c).1 /\
  (forall t, LastAttempt c = Some t -> Forall (fun b => t + MinRefreshC c <= b) (lookups l c).1).
Proof.
  intros Hpos Hs. revert c Hpos. induction Hs as [|[[[now later] a] kid] l Hs IH Hx];
    intros c Hpos Hlast; cbn [lookups]; [split; [constructor|by intros; constructor]|].
  destruct (keyFor_attempt now later a kid c) as [Ha Hm].
  specialize (IH (keyFor now later a kid c).2). rewrite Hm in IH. specialize (IH Hpos).
  rewrite Ha in IH. destruct (lookups l (keyFor now later a kid c).2) as [ts c'].
  cbn [fst] in *. destruct (contacts now kid c) eqn:Hc.
  - destruct IH as [IH1 IH2].
    { intros t [= <-]. eapply Forall_impl; [exact Hx|]. by intros [[[? ?] ?] ?]. }
    specialize (IH2 now eq_refl). split; [by constructor|].
    intros t Ht. constructor.
    + unfold contacts in Hc. to_prop. unfold limited in *. rewrite Ht in *.
      match goal with H : (MinRefreshC c >? 0) && _ = false |- _ =>
        apply andb_false_iff in H as [?|?] end; to_prop; lia.
    + specialize (Hlast t Ht). apply Forall_inv in Hlast. cbn in Hlast.
      eapply Forall_impl; [exact IH2|]. cbn. intros b Hb. lia.
  - destruct IH as [IH1 IH2].
    { intros t Ht. specialize (Hlast t Ht). by apply Forall_inv_tail in Hlast. }
    split; [done|]. intros t Ht. by apply IH2.
Qed.

(** * The verifier *)

(** Where the verifier may send a request: https, http to a loopback address, or http to
    anywhere when the operator allowed it. *)
Definition secure (allow : bool) (raw : string) : Prop :=
  exists u, url_Parse raw = Ok u /\
    (Scheme u = "https" \/ Scheme u = "http" /\ (isLoopback (Hostname u) = true \/ allow = true)).

Lemma requireSecureURL_Ok raw field allow :
  requireSecureURL raw field allow = Ok tt <-> raw = "" \/ secure allow raw.
Proof.
  unfold requireSecureURL, secure. destruct (raw =? "")%string eqn:E; to_prop; [naive_solver|].
  destruct (url_Parse raw) as [u|e]; cbn; [|naive_solver].
  destruct (Scheme u =? "https")%string eqn:E1; to_prop; [naive_solver|].
  destruct (Scheme u =? "http")%string eqn:E2; to_prop; [|naive_solver].
  destruct (isLoopback (Hostname u) || allow) eqn:E3; to_prop; [naive_solver|].
  split; [done|]. intros [?|(u' & [= <-] & [?|[_ [?|?]]])]; congruence.
Qed.

Record verifier_ok (v : OIDCVerifier) : Prop := {
  issuer_set : IssuerURL (Opts v) <> "";
  audience_set : Audience (Opts v) <> "";
  tenant_set : TenantClaim (OClaims (Opts v)) <> "";
  issuer_secure : secure (AllowInsecureIssuer (Opts v)) (IssuerURL (Opts v));
  jwks_secure : JWKSURL (Opts v) = "" \/ secure (AllowInsecureIssuer (Opts v)) (JWKSURL (Opts v));
  keys_ok : forall c, VKeys v = Some c ->
    cache_ok c /\ secure (AllowInsecureIssuer (Opts v)) (Url c);
  discovery_failed : VKeys v = None -> LastDiscovery v <> None -> DiscoverErr v <> None }.

Lemma err_list_nil r : err_list r = [] <-> r = Ok tt.
Proof. by destruct r as [[]|]. Qed.

Lemma NewOIDCVerifier_ok opts v : NewOIDCVerifier opts = Ok v -> verifier_ok v.
Proof.
  unfold NewOIDCVerifier.
  destruct (IssuerURL opts =? "")%string eqn:E1, (Audience opts =? "")%string eqn:E2,
    (TenantClaim (OClaims opts) =? "")%string eqn:E3; cbn [app negb]; try done.
  destruct (err_list (requireSecureURL (IssuerURL opts) _ _)) eqn:E4; [|done].
  apply err_list_nil, requireSecureURL_Ok in E4. to_prop.
  destruct (JWKSURL opts =? "")%string eqn:E5; cbn [app negb]; to_prop.
  - intros [= <-]. split; cbn; auto; [naive_solver|done].
  - destruct (err_list (requireSecureURL (JWKSURL opts) _ _)) eqn:E6; [|done].
    apply err_list_nil, requireSecureURL_Ok in E6.
    intros [= <-]. split; cbn; auto; [naive_solver|done].
Qed.

Lemma NewOIDCVerifier_opts opts v :
  NewOIDCVerifier opts = Ok v ->
  IssuerURL (Opts v) = IssuerURL opts /\ JWKSURL (Opts v) = JWKSURL opts /\
  Audience (Opts v) = Audience opts /\ OClaims (Opts v) = OClaims opts /\
  AllowInsecureIssuer (Opts v) = AllowInsecureIssuer opts.
Proof. unfold NewOIDCVerifier. destruct (_ ++ _); [by intros [= <-]|done]. Qed.

Lemma NewOIDCVerifier_cold opts v : NewOIDCVerifier opts = Ok v -> VKeys v = None.
Proof. unfold NewOIDCVerifier. destruct (_ ++ _); [by intros [= <-]|done]. Qed.

Lemma newKeyCache_ok url a b : cache_ok (newKeyCache url a b).
Proof. intros kid pk Hk. cbn in Hk. by rewrite lookup_empty in Hk. Qed.

Lemma discover_secure opts a url :
  discover opts a = Ok url -> secure (AllowInsecureIssuer opts) url.
Proof.
  destruct a; try done. unfold discover. intros Hd. apply bind_Ok in Hd as (doc & _ & Hd).
  destruct (negb _); [done|]. destruct (JWKSURI doc =? "")%string eqn:E; [done|]. to_prop.
  apply bind_Ok in Hd as ([] & Hs%requireSecureURL_Ok & [= <-]). by destruct Hs.
Qed.

(** [keySet] answers with a cache or an error, never with neither. *)
Lemma keySet_ok now a v :
  verifier_ok v ->
  let '(ks, v') := keySet now a v in
  verifier_ok v' /\ Opts v' = Opts v /\
  match ks with
  | (Some c, None) => VKeys v' = Some c
  | (None, Some _) => VKeys v' = None
  | _ => False
  end.
Proof.
  intros Hv. pose proof (jwks_secure v Hv) as Hj. pose proof (discovery_failed v Hv) as Hd.
  unfold keySet. destruct (VKeys v) as [c|] eqn:E; [done|].
  destruct (negb (JWKSURL (Opts v) =? "")%string) eqn:Ej; to_prop.
  { split_ands; try done. destruct Hv. split; cbn; auto; try done. intros c [= <-].
    split; [apply newKeyCache_ok|]. by destruct Hj. }
  destruct ((MinRefresh (Opts v) >? 0) && _) eqn:El.
  { split_ands; try done. destruct (LastDiscovery v); [|by rewrite andb_false_r in El].
    destruct (DiscoverErr v); [done|]. by apply Hd. }
  destruct (discover (Opts v) a) as [url|err] eqn:Ed; split_ands; try done;
    destruct Hv; split; cbn; auto; try done.
  intros c [= <-]. eauto using newKeyCache_ok, discover_secure.
Qed.

Lemma keyFor_Url c now later a kid : Url (keyFor now later a kid c).2 = Url c.
Proof.
  unfold keyFor, lookupKey. assert (Url (refresh now later a c).2 = Url c) as Hr.
  { unfold refresh. destruct (limited now c); [done|]. destruct (fetch a); [by case_bool_decide|done]. }
  destruct (refresh now later a c) as [err c1]. cbn in Hr.
  destruct (Keys c !! kid); [destruct (fresh now c)|]; cbn; try done;
    destruct (Keys c1 !! kid); try done; destruct err; try done; by destruct (negb (Warm c1)).
Qed.

(** The algorithms a key can verify. *)
Definition suits (k : pubkey) (alg : string) : Prop :=
  match k with
  | RSAPublicKey _ _ => HasPrefix alg "RS" = true \/ HasPrefix alg "PS" = true
  | ECDSAPublicKey _ _ _ => HasPrefix alg "ES" = true
  | OtherKey _ => False
  end.

Definition key_for (c : keyCache) (h : header) (k : pubkey) : Prop :=
  exists pk, HKid h <> "" /\ Keys c !! HKid h = Some pk /\ k = PKey pk /\ strong k /\
    (PAlg pk = "" \/ PAlg pk = HAlg h) /\ suits k (HAlg h).

Lemma keyFunc_ok now later a h c :
  cache_ok c ->
  let '(r, c') := keyFunc now later a h c in
  cache_ok c' /\ Url c' = Url c /\ forall k, r = Ok k -> key_for c' h k.
Proof.
  intros Hc. unfold keyFunc. destruct (HKid h =? "")%string eqn:Ek; [done|]. to_prop.
  destruct (keyFor_ok now later a (HKid h) c Hc) as [Hc' Hk].
  pose proof (keyFor_Url c now later a (HKid h)) as Hu.
  destruct (keyFor now later a (HKid h) c) as [found c']. cbn [fst snd] in *.
  split_ands; [done..|]. intros k Hf. apply bind_Ok in Hf as (pk & -> & Hf).
  specialize (Hk pk eq_refl). destruct (Hc' _ _ Hk) as [_ Hstrong].
  destruct (negb (PAlg pk =? "")%string && _) eqn:Ea; [done|].
  exists pk. assert (PAlg pk = "" \/ PAlg pk = HAlg h).
  { to_prop. destruct Ea; to_prop; auto. }
  assert (k = PKey pk /\ suits (PKey pk) (HAlg h)) as [-> Hsuit]; [|by split_ands].
  destruct (PKey pk); [destruct (negb _ && _) eqn:Ef in Hf|destruct (negb _) eqn:Ef in Hf|];
    try done; injection Hf as <-; split; try done; cbn; to_prop; [|done].
  destruct Ef; to_prop; auto.
Qed.

(** One call of [Verify], with the clock and the answers of the network it would see. *)
Record attempt := mkAttempt {
  ANow : Z; ALater : Z; ADiscovery : http_answer; AJwks : http_answer; ARaw : string }.

Definition verify (a : attempt) (v : OIDCVerifier) : result Principal * OIDCVerifier :=
  Verify (ANow a) (ALater a) (ADiscovery a) (AJwks a) (ARaw a) v.

Fixpoint verifies (l : list attempt) (v : OIDCVerifier) : OIDCVerifier :=
  match l with [] => v | a :: r => verifies r (verify a v).2 end.

(** What an accepted token proves, when [answers] are the JWKS endpoint's answers so far: the
    key it was checked under was published in one of them for the token's key id. *)
Definition proves (answers : list http_answer) (v : OIDCVerifier) (raw : string) (p : Principal) : Prop :=
  exists c h pk claims,
    VKeys v = Some c /\ secure (AllowInsecureIssuer (Opts v)) (Url c) /\
    jwt_header (verifyOpts (Opts v)) raw = Ok h /\
    Keys c !! HKid h = Some pk /\ strong (PKey pk) /\
    (PAlg pk = "" \/ PAlg pk = HAlg h) /\ suits (PKey pk) (HAlg h) /\
    (exists a keys, a ∈ answers /\ document a keys /\ published keys (HKid h) pk) /\
    jwt_claims (verifyOpts (Opts v)) raw (PKey pk) = Ok claims /\
    principalFrom (OClaims (Opts v)) claims = Ok p.

(** The verifier's cache comes from [answers]. *)
Definition keys_from (answers : list http_answer) (v : OIDCVerifier) : Prop :=
  forall c, VKeys v = Some c -> cache_from answers c.

Lemma principalFrom_invalid opts claims e :
  principalFrom opts claims = Err e -> errIs ErrInvalidToken e = true.
Proof.
  unfold principalFrom. destruct (_ =? "")%string; [intros [= <-]; auto with go|].
  destruct (stringClaim _ _); cbn; [done|]. intros [= <-]. auto with go.
Qed.

Lemma set_keys_ok v c :
  verifier_ok v -> cache_ok c -> secure (AllowInsecureIssuer (Opts v)) (Url c) ->
  verifier_ok (mkVerifier (Opts v) (LastDiscovery v) (Some c) (DiscoverErr v)).
Proof. intros [] ? ?. split; cbn; auto; try done. by intros c' [= <-]. Qed.

Lemma keySet_from now a v answers :
  keys_from answers v -> keys_from answers (keySet now a v).2.
Proof.
  intros Hv. unfold keySet. destruct (VKeys v) eqn:E; [exact Hv|].
  assert (forall url x y, cache_from answers (newKeyCache url x y)) as Hnew
    by (intros url x y kid pk; cbn; by rewrite lookup_empty).
  destruct (negb _); [by intros c [= <-]|]. destruct (_ && _); [exact Hv|].
  destruct (discover _ _); [by intros c [= <-]|done].
Qed.

Lemma verify_ok a v answers :
  verifier_ok v -> keys_from answers v ->
  let '(r, v') := verify a v in
  verifier_ok v' /\ keys_from (answers ++ [AJwks a]) v' /\ Opts v' = Opts v /\
  match r with
  | Ok p => TrimSpace (ARaw a) <> "" /\ proves (answers ++ [AJwks a]) v' (ARaw a) p
  | Err e => if (TrimSpace (ARaw a) =? "")%string then e = ErrNoCredentials /\ v' = v
             else errIs ErrInvalidToken e = true
  end.
Proof.
  intros Hv Hfrom.
  assert (forall v, keys_from answers v -> keys_from (answers ++ [AJwks a]) v) as Hmore.
  { intros v0 Hv0 c Hc. eapply cache_from_mono; [by apply Hv0|set_solver]. }
  unfold verify, Verify. destruct (TrimSpace (ARaw a) =? "")%string eqn:Er; [auto|].
  to_prop. pose proof (keySet_ok (ANow a) (ADiscovery a) v Hv) as Hks.
  pose proof (keySet_from (ANow a) (ADiscovery a) v answers Hfrom) as Hfrom1.
  destruct (keySet (ANow a) (ADiscovery a) v) as [[[c|] [err|]] v1];
    destruct Hks as (Hv1 & Ho & Hc); cbn [snd] in Hfrom1; auto; try done.
  destruct (jwt_header _ _) as [h|err] eqn:Hh; [|auto].
  destruct (keys_ok v1 Hv1 c Hc) as [Hck Hu].
  pose proof (keyFunc_ok (ANow a) (ALater a) (AJwks a) h c Hck) as Hf.
  pose proof (keyFunc_from (ANow a) (ALater a) (AJwks a) h c answers (Hfrom1 c Hc)) as Hcf.
  destruct (keyFunc _ _ _ h c) as [key c1]. destruct Hf as (Hc1 & Hu1 & Hkey).
  cbn [snd] in Hcf. rewrite <- Hu1 in Hu. cbv beta iota zeta.
  split_ands; [by apply set_keys_ok|by intros c' [= <-]|done|].
  destruct key as [k|err]; [|done]. cbn.
  destruct (jwt_claims _ _ k) as [claims|err] eqn:Hcl; [|done]. cbn.
  destruct (principalFrom _ claims) as [p|e] eqn:Hp; [|by apply principalFrom_invalid in Hp].
  split; [done|]. destruct (Hkey k eq_refl) as (pk & _ & Hk & -> & Hst & Halg & Hsuit).
  exists c1, h, pk, claims. cbn. split_ands; auto.
Qed.

Lemma verifies_ok l v answers :
  verifier_ok v -> keys_from answers v ->
  verifier_ok (verifies l v) /\ keys_from (answers ++ (AJwks <$> l)) (verifies l v) /\
  Opts (verifies l v) = Opts v.
Proof.
  revert v answers. induction l as [|a l IH]; intros v answers Hv Hf; [by rewrite app_nil_r|]. cbn.
  pose proof (verify_ok a v answers Hv Hf) as Ha. destruct (verify a v) as [r v'].
  destruct Ha as (Hv' & Hf' & Ho & _). destruct (IH v' _ Hv' Hf') as (? & Hff & ?).
  rewrite <- app_assoc in Hff. split_ands; [done|done|]. cbn. congruence.
Qed.

(** C8. Whatever the network answered before, a verifier that was constructed accepts a token
    only on proof: the library checked it under the configured issuer, audience and an expiry
    against a strong asymmetric key that the JWKS endpoint has published, in one of its answers
    to this verifier, for exactly the token's key id, for the token's algorithm and of its
    family; and the principal is read from the claims so checked.  The endpoint asked is https,
    http to a loopback address, or http where the operator allowed it; an answer is whatever the
    HTTP client brings back from there, through redirects, which nothing checks.  Every refusal is
    [ErrNoCredentials] for a blank header and [ErrInvalidToken] otherwise. *)
Theorem only_proven_tokens opts v l a :
  NewOIDCVerifier opts = Ok v ->
  let '(r, v') := verify a (verifies l v) in
  IssuerURL (Opts v') <> "" /\ Audience (Opts v') <> "" /\ TenantClaim (OClaims (Opts v')) <> "" /\
  match r with
  | Ok p => TrimSpace (ARaw a) <> "" /\ proves (AJwks <$> l ++ [a]) v' (ARaw a) p
  | Err e => if (TrimSpace (ARaw a) =? "")%string then e = ErrNoCredentials
             else errIs ErrInvalidToken e = true
  end.
Proof.
  intros Hn. pose proof (NewOIDCVerifier_ok _ _ Hn) as Hv.
  assert (keys_from [] v) as Hcold by (intros c; by rewrite (NewOIDCVerifier_cold _ _ Hn)).
  destruct (verifies_ok l v [] Hv Hcold) as (Hl & Hf & _). pose proof (verify_ok a _ _ Hl Hf) as Ha.
  destruct (verify a (verifies l v)) as [r v']. destruct Ha as (Hv' & _ & _ & Ha).
  rewrite fmap_app. destruct Hv'. split_ands; try done.
  destruct r; [done|]. by destruct (_ =? "")%string; [destruct Ha|].
Qed.

(** ** Outages *)

(** A key already held keeps verifying when the issuer cannot be reached: if discovery has
    succeeded once and the cache holds the token's key, then for every failing answer of the
    JWKS endpoint the outcome is the one of a fresh cache, whatever the cache's age. *)
Theorem outage_keeps_known_keys a v c h pk :
  TrimSpace (ARaw a) <> "" -> VKeys v = Some c ->
  jwt_header (verifyOpts (Opts v)) (ARaw a) = Ok h -> HKid h <> "" ->
  Keys c !! HKid h = Some pk -> fetched (AJwks a) = None ->
  PAlg pk = "" \/ PAlg pk = HAlg h -> suits (PKey pk) (HAlg h) ->
  (verify a v).1 = (claims ← mapErr invalid (jwt_claims (verifyOpts (Opts v)) (ARaw a) (PKey pk));
                    principalFrom (OClaims (Opts v)) claims).
Proof.
  intros Hr Hc Hh Hkid Hpk Hout Halg Hsuit. unfold verify, Verify, keySet. rewrite Hc.
  destruct (TrimSpace (ARaw a) =? "")%string eqn:Er; [to_prop; done|]. rewrite Hh.
  unfold keyFunc. destruct (HKid h =? "")%string eqn:Ek; [to_prop; done|].
  assert (exists c', keyFor (ANow a) (ALater a) (AJwks a) (HKid h) c = (Ok pk, c')) as [c' ->].
  { unfold keyFor, lookupKey. rewrite Hpk. destruct (fresh _ c); [eauto|].
    pose proof (refresh_spec (ANow a) (ALater a) (AJwks a) c) as Hs.
    destruct (refresh _ _ _ c) as [err c1]. assert (Keys c1 = Keys c) as ->.
    { destruct (limited _ c); [by destruct Hs as [-> _]|]. rewrite Hout in Hs. apply Hs. }
    rewrite Hpk. eauto. }
  cbn. assert (negb (PAlg pk =? "")%string && negb (PAlg pk =? HAlg h)%string = false) as ->.
  { destruct Halg as [->| ->]; [done|]. rewrite String.eqb_refl. apply andb_false_r. }
  assert ((match PKey pk with
           | RSAPublicKey _ _ => negb (HasPrefix (HAlg h) "RS") && negb (HasPrefix (HAlg h) "PS")
           | ECDSAPublicKey _ _ _ => negb (HasPrefix (HAlg h) "ES")
           | OtherKey _ => true end) = false) as Hf.
  { destruct (PKey pk); cbn in Hsuit; [destruct Hsuit as [-> | ->]; [done|]; apply andb_false_r
      |by rewrite Hsuit|done]. }
  destruct (PKey pk) eqn:Ep; rewrite ?Hf; done.
Qed.
End Spec.

(** * Concrete instances *)

Section Examples.
Existing Instance ascii_tables.

(** A provider that publishes one P-256 key and a library that accepts its tokens. *)
Definition demo_claims : MapClaims := {[ "sub" := JString "alice"; "tenant" := JString "acme" ]}.

Definition demo_jwk : jwk :=
  let zeros := "AAAAAAAAAAAAAAAAAAAAAAAAAAAAAAAAAAAAAAAAAAA" in
  mkJwk "EC" "k1" "sig" "ES256" "" "" "P-256" zeros zeros.

Instance demo_lib : AuthLib := {|
  ecdh_NewPublicKey crv p := None;
  json_jwks b := Ok [demo_jwk];
  json_discovery b := Ok (mkDiscovery "https://idp" "https://idp/keys");
  url_Parse raw := Ok (mkUrl "https" "idp");
  ip_loopback host := None;
  jwt_header po raw := Ok (mkHeader "k1" "ES256");
  jwt_claims po raw k := Ok demo_claims |}.

Definition demo_opts : OIDCOptions :=
  mkOIDC "https://idp" "orders" "" 0 (mkClaimOptions "tenant" "scope" "") false 0 0.

Definition demo_verifier : OIDCVerifier :=
  match NewOIDCVerifier demo_opts with
  | Ok v => v | Err _ => mkVerifier demo_opts None None None end.

Definition demo_attempt (now : Z) (a : http_answer) : attempt := mkAttempt now (now + 1) a a "t".

Lemma only_proven_tokens_witness :
  exists v' p, verify (demo_attempt 9 (Body "")) (verifies [demo_attempt 1 (BadStatus "500")] demo_verifier)
    = (Err (invalid (EFmt [PStr "oidc discovery at ";
                           PStr "https://idp/.well-known/openid-configuration";
                           PStr " returned "; PStr "500"])), v') /\
  (verify (demo_attempt 9 (Body "")) demo_verifier).1 = Ok p /\
  proves [Body ""] (verify (demo_attempt 9 (Body "")) demo_verifier).2 "t" p.
Proof.
  exists (verify (demo_attempt 9 (Body "")) (verifies [demo_attempt 1 (BadStatus "500")] demo_verifier)).2,
    (mkPrincipal "alice" "acme" [] false).
  split; [vm_compute; reflexivity|]. split; [vm_compute; reflexivity|].
  assert (NewOIDCVerifier demo_opts = Ok demo_verifier) as Hn by reflexivity.
  assert ((verify (demo_attempt 9 (Body "")) demo_verifier).1 = Ok (mkPrincipal "alice" "acme" [] false))
    as Hv by (vm_compute; reflexivity).
  pose proof (only_proven_tokens demo_opts demo_verifier [] (demo_attempt 9 (Body "")) Hn) as Ht.
  cbn [verifies] in Ht. destruct (verify (demo_attempt 9 (Body "")) demo_verifier) as [r v'].
  cbn [fst snd] in *. rewrite Hv in Ht. destruct Ht as (_ & _ & _ & _ & Ht). exact Ht.
Defined.

(** A cache filled an hour ago and an issuer that is down. *)
Definition demo_key : parsedKey := mkParsed (ECDSAPublicKey "P-256" 0 0) "ES256".
Definition demo_cache : keyCache :=
  mkCache "https://idp/keys" 30 900 {[ "k1" := demo_key ]} (Some 0) (Some 0) true.
Definition stale_verifier : OIDCVerifier := mkVerifier demo_opts (Some 0) (Some demo_cache) None.

Lemma outage_keeps_known_keys_witness :
  (verify (demo_attempt 3600 (BadStatus "503")) stale_verifier).1 =
    Ok (mkPrincipal "alice" "acme" [] false).
Proof.
  pose proof (outage_keeps_known_keys (demo_attempt 3600 (BadStatus "503")) stale_verifier
    demo_cache (mkHeader "k1" "ES256") demo_key ltac:(by vm_compute) eq_refl eq_refl
    ltac:(done) ltac:(by vm_compute) eq_refl ltac:(by right) ltac:(by vm_compute)) as ->.
  vm_compute. reflexivity.
Defined.

(** Two unknown key ids in one window: one request. *)
Lemma fetches_are_spaced_witness :
  let l := [(100, 101, BadStatus "500", "x"); (110, 111, Body "", "y"); (140, 141, Body "", "z")] in
  let c := newKeyCache "https://idp/keys" 30 0 in
  (lookups l c).1 = [100; 140] /\ StronglySorted (fun a b => a + MinRefreshC c <= b) (lookups l c).1.
Proof.
  intros l c. split; [vm_compute; reflexivity|].
  destruct (fetches_are_spaced l c) as [Hs _].
  - done.
  - unfold l. repeat constructor; cbn; lia.
  - intros t Ht. done.
  - exact Hs.
Defined.
End Examples.
