(* ===== verification/Events.v ===== *)
(** internal/platform/events: subjects, the publisher and the consumer's dispatch.

    The broker is not modelled.  What it answers to a publish, an ack or a negative ack is
    an argument; a delivery is any message it chooses to hand over, in any order and any
    number of times.  Connecting, creating the stream and the consumer, and tracing spans are
    calls into libraries and have no counterpart here. *)

From S2P Require Import Prelude GoErr GoStr GoLog Outbox.

(** The [nats.Header] of a message; [nats.Header] is declared as this map. *)
Abbreviation header := (gmap string (list string)).

(** The libraries: header access, the order snapshot in a payload, the text of an error, the
    RFC 3339 form of an instant, [%q] of the first rune of a string, and the value a
    timestamptz column keeps of an instant. *)
Class EventLib := {
  hGet : header -> string -> string;
  hSet : header -> string -> string -> header;
  hAdd : header -> string -> string -> header;
  errString : error -> string;
  FormatNano : Z -> string;
  ParseNano : string -> option Z;
  quoteRune : string -> string;
  timestamptz : Z -> Z }.

(** Their documented behaviour: [Get] answers the first value of a key, [Set] replaces the
    values of a key and [Add] appends one; an instant with a four-digit year survives
    RFC3339Nano. *)
Class EventLaws `{EventLib} (printable : Z -> Prop) := {
  hGet_spec : forall h k, hGet h k = match h !! k with Some (v :: _) => v | _ => "" end;
  hSet_spec : forall h k v, hSet h k v = <[k := [v]]> h;
  hAdd_spec : forall h k v,
    hAdd h k v = <[k := (match h !! k with Some l => l | None => [] end) ++ [v]]> h;
  Parse_Format : forall t, printable t -> ParseNano (FormatNano t) = Some t }.

(** * events.go *)

Definition HeaderTenantID : string := "X-Tenant-Id".
Definition HeaderEventType : string := "X-Event-Type".
Definition HeaderAggregateID : string := "X-Aggregate-Id".
Definition HeaderOccurredAt : string := "X-Occurred-At".
Definition HeaderTraceParent : string := "traceparent".
Definition HeaderDLQReason : string := "X-Dlq-Reason".
Definition HeaderDLQDeliveries : string := "X-Dlq-Deliveries".

(** [jetstream.MsgIDHeader]. *)
Definition MsgIDHeader : string := "Nats-Msg-Id".

Record natsMsg := mkMsg { MsgSubject : string; MsgHeader : header; MsgData : string }.

(** The bytes the [switch] over a token's runes lets through; a rune beyond ASCII, or an
    invalid one, begins with a byte that is none of them. *)
Definition token_byte (c : ascii) : bool :=
  let r := byte_of c in
  ((97 <=? r) && (r <=? 122)) || ((65 <=? r) && (r <=? 90)) || ((48 <=? r) && (r <=? 57)) ||
  (r =? 95) || (r =? 45).

Section WithLib.
Context `{EventLib}.

(** [range token]: the first rune not allowed ends the function. *)
Fixpoint checkRunes (what s token : string) : result unit :=
  match token with
  | EmptyString => Ok tt
  | String c r =>
      if token_byte c then checkRunes what s r
      else Err (EFmt [PStr what; PStr " "; PQuote s; PStr " contains "; PStr (quoteRune token);
                      PStr ", which is not allowed in a subject token (letters, digits, underscore and hyphen only)"])
  end.

Fixpoint checkTokens (what s : string) (tokens : list string) : result unit :=
  match tokens with
  | [] => Ok tt
  | token :: r =>
      if (token =? "")%string
      then Err (EFmt [PStr what; PStr " "; PQuote s; PStr " has an empty token"])
      else _ ← checkRunes what s token; checkTokens what s r
  end.

Definition validTokens (what s : string) : result unit :=
  if (s =? "")%string then Err (EFmt [PStr what; PStr " is empty"])
  else checkTokens what s (Split "."%char s).

Definition Subject (prefix eventType : string) : result string :=
  _ ← GoErr.mapErr EPermanent (validTokens "subject prefix" prefix);
  _ ← GoErr.mapErr EPermanent (validTokens "event type" eventType);
  mret (prefix +:+ "." +:+ eventType).

(** * publisher.go *)

Record Publisher := mkPublisher { Prefix : string; Service : string }.

Definition msgID (p : Publisher) (id : Z) : string := Service p +:+ "-" +:+ pretty id.

Definition classify (err : error) : error :=
  if errIs NatsErrMaxPayload err
  then EPermanent (wrapf [PStr "payload exceeds the server's max_payload"] err)
  else if errIs NatsErrBadSubject err then EPermanent err
  else err.

(** The message [Publish] builds. *)
Definition envelope (p : Publisher) (m : Message) : result natsMsg :=
  subject ← Subject (Prefix p) (MEventType m);
  let h := hSet ∅ MsgIDHeader (msgID p (MID m)) in
  let h := hSet h HeaderTenantID (MTenantID m) in
  let h := hSet h HeaderEventType (MEventType m) in
  let h := hSet h HeaderAggregateID (MAggregateID m) in
  let h := hSet h HeaderOccurredAt (FormatNano (MOccurredAt m)) in
  let h := if negb (MTraceParent m =? "")%string
           then hSet h HeaderTraceParent (MTraceParent m) else h in
  mret (mkMsg subject h (MPayload m)).

(** [js] answers whether the broker stored the message, and the error of the call or
    whether the ack says duplicate. *)
Definition Publish (p : Publisher) (js : natsMsg -> bool * result bool) (m : Message)
    : (bool * option error) * list logline :=
  match envelope p m with
  | Err err => ((false, Some err), [])
  | Ok msg =>
      match js msg with
      | (stored, Err err) => ((stored, Some (classify err)), [])
      | (stored, Ok duplicate) =>
          ((stored, None),
           if duplicate
           then [mkLog LevelDebug "jetstream deduplicated a republished event"
                   [("outbox_id", AInt (MID m)); ("subject", AStr (MsgSubject msg))]]
           else [])
      end
  end.

(** * consumer.go *)

Record Event := mkEvent {
  EvID : string; EvTenantID : string; EvType : string; EvAggregateID : string;
  EvPayload : string; EvOccurredAt : Z; Deliveries : Z; EvTraceParent : string }.

(** [jetstream.MsgMetadata], of which [NumDelivered] is a uint64. *)
Record metadata := mkMeta {
  NumDelivered : Z; Timestamp : Z; Stream : string; StreamSequence : Z }.

Definition eventFrom (msg : natsMsg) (md : metadata) : Event :=
  let h := MsgHeader msg in
  let occurred := match ParseNano (hGet h HeaderOccurredAt) with
                  | Some t => t | None => Timestamp md end in
  let id := if (hGet h MsgIDHeader =? "")%string
            then Stream md +:+ "-seq-" +:+ pretty (StreamSequence md)
            else hGet h MsgIDHeader in
  mkEvent id (hGet h HeaderTenantID) (hGet h HeaderEventType) (hGet h HeaderAggregateID)
    (MsgData msg) occurred (NumDelivered md) (hGet h HeaderTraceParent).

Definition truncate (s : string) (n : Z) : string :=
  if strlen s <=? n then s else take_bytes (Z.to_nat n) s.

Record NATSConfig := mkNATS { CMaxDeliver : Z; DLQSubjectPrefix : string }.

(** What the broker answers to the calls of one dispatch.  The copy of a dead letter may be
    stored although its publish reports an error. *)
Record brokerEnv := mkBroker {
  AckErr : option error; NakErr : option error; TermErr : option error;
  CopyStored : bool; CopyErr : option error }.

Inductive action :=
  | Acked | Naked | Termed (reason : string) | Copied (m : natsMsg).

(** [for k, vals := range msg.Headers() { for _, v := range vals { Add(k, v) } }] in the
    order [entries] the runtime walks the map. *)
Definition copyHeaders (entries : list (string * list string)) : header :=
  foldl (fun h kv => foldl (fun h v => hAdd h kv.1 v) h kv.2) ∅ entries.

Definition deadLetterCopy (cfg : NATSConfig) (entries : list (string * list string))
    (msg : natsMsg) (e : Event) (cause : error) : natsMsg :=
  let h := copyHeaders entries in
  let h := hSet h MsgIDHeader ("dlq-" +:+ EvID e) in
  let h := hSet h HeaderDLQReason (errString cause) in
  let h := hSet h HeaderDLQDeliveries (pretty (Deliveries e)) in
  mkMsg (DLQSubjectPrefix cfg +:+ "." +:+ MsgSubject msg) h (MsgData msg).

Definition deadLetter (cfg : NATSConfig) (env : brokerEnv) (entries : list (string * list string))
    (msg : natsMsg) (e : Event) (cause : error) : list action * list logline :=
  let copied := deadLetterCopy cfg entries msg e cause in
  let stored := if CopyStored env then [Copied copied] else [] in
  match CopyErr env with
  | Some err =>
      (stored ++ [Naked],
       [mkLog LevelError "could not dead-letter an event; leaving it for redelivery"
          [("event_id", AStr (EvID e)); ("dlq_subject", AStr (MsgSubject copied));
           ("error", AErr err)]])
  | None =>
      (stored ++ [Termed (truncate (errString cause) 256)],
       mkLog LevelError "event dead-lettered"
         [("event_id", AStr (EvID e)); ("event_type", AStr (EvType e));
          ("tenant_id", AStr (EvTenantID e)); ("deliveries", AInt (Deliveries e));
          ("dlq_subject", AStr (MsgSubject copied)); ("reason", AErr cause)] ::
       match TermErr env with
       | Some err =>
           [mkLog LevelWarn "dead-lettered an event but failed to terminate the original"
              [("event_id", AStr (EvID e)); ("error", AErr err)]]
       | None => []
       end)
  end.

(** [Handler]: an effect on the world [W] and an error.  [dispatch] answers what the broker
    was told about the message. *)
Definition dispatch {W} (cfg : NATSConfig) (handle : Event -> W -> option error * W)
    (env : brokerEnv) (entries : list (string * list string)) (msg : natsMsg)
    (md : result metadata) (w : W) : (list action * list logline) * W :=
  match md with
  | Err err =>
      (([], [mkLog LevelError "received a message with no JetStream metadata"
               [("error", AErr err)]]), w)
  | Ok md =>
      let e := eventFrom msg md in
      let '(err, w) := handle e w in
      match err with
      | None =>
          (([Acked],
            match AckErr env with
            | Some ackErr =>
                [mkLog LevelWarn "handled an event but failed to ack it; it will be redelivered"
                   [("event_id", AStr (EvID e)); ("error", AErr ackErr)]]
            | None => []
            end), w)
      | Some err =>
          if IsPermanent err then (deadLetter cfg env entries msg e err, w)
          else if Deliveries e >=? uwrap 64 (CMaxDeliver cfg)
          then (deadLetter cfg env entries msg e err, w)
          else
            (([Naked],
              mkLog LevelWarn "event handler failed; will retry"
                [("event_id", AStr (EvID e)); ("event_type", AStr (EvType e));
                 ("delivery", AInt (Deliveries e)); ("error", AErr err)] ::
              match NakErr env with
              | Some nakErr =>
                  [mkLog LevelDebug "nak failed; redelivery falls back to AckWait"
                     [("error", AErr nakErr)]]
              | None => []
              end), w)
      end
  end.

End WithLib.
