(* ===== verification/EventsSpec.v ===== *)
(** What the event pipe guarantees: well-formed subjects, deduplication ids that collide
    for no two events, an envelope the consumer reads back as the event that was written, and
    no message dropped without a trace. *)

From S2P Require Import Prelude GoErr GoStr GoLog Outbox Cursor Events.

(** * Subjects *)

(** A dot-separated list of non-empty tokens of letters, digits, underscores and hyphens. *)
Definition subject_ok (s : string) : Prop :=
  Forall (fun token => token <> "" /\ string_forallb token_byte token = true) (Split "."%char s).

Section Subjects.
Context `{EventLib}.

Lemma checkRunes_Ok what s token :
  checkRunes what s token = Ok tt <-> string_forallb token_byte token = true.
Proof.
  induction token as [|c r IH]; cbn [checkRunes string_forallb]; [done|].
  destruct (token_byte c); cbn; [exact IH|done].
Qed.

Lemma checkTokens_Ok what s l :
  checkTokens what s l = Ok tt <->
  Forall (fun token => token <> "" /\ string_forallb token_byte token = true) l.
Proof.
  induction l as [|token l IH]; cbn [checkTokens]; [done|]. rewrite Forall_cons.
  destruct (token =? "")%string eqn:E; to_prop; [naive_solver|].
  rewrite bind_Ok. setoid_rewrite IH. split.
  - intros ([] & ?%checkRunes_Ok & ?). naive_solver.
  - intros [[_ ?] ?]. exists tt. by rewrite checkRunes_Ok.
Qed.

Lemma validTokens_Ok what s : validTokens what s = Ok tt <-> subject_ok s.
Proof.
  unfold validTokens. destruct (s =? "")%string eqn:E; to_prop; [|apply checkTokens_Ok].
  subst s. split; [done|]. intros Hs. cbn in Hs. by apply Forall_inv in Hs as [? _].
Qed.
End Subjects.

Lemma split_on_app sep l c r :
  sep c = true -> split_on sep (l ++ c :: r) = split_on sep l ++ split_on sep r.
Proof.
  intros Hc. induction l as [|a l IH]; cbn; [by rewrite Hc|]. rewrite IH.
  destruct (sep a); [done|]. by destruct (split_on sep l) eqn:E; [destruct l; cbn in E; repeat case_match|].
Qed.

Lemma subject_ok_app s t : subject_ok (s +:+ "." +:+ t) <-> subject_ok s /\ subject_ok t.
Proof.
  unfold subject_ok, Split. rewrite to_list_app. cbn [to_list list_ascii_of_string append].
  change (to_list ("." +:+ t)) with ("."%char :: to_list t).
  rewrite split_on_app, fmap_app, Forall_app by apply Ascii.eqb_refl. done.
Qed.

(** An event type becomes a subject as it is, and only when that subject means what it
    says: [Subject] succeeds exactly when prefix and type are dot-separated lists of
    non-empty tokens of letters, digits, underscores and hyphens, so that no wildcard and no
    empty token reaches the broker; a refusal is permanent. *)
Theorem Subject_exact `{EventLib} prefix eventType :
  match Subject prefix eventType with
  | Ok s => s = prefix +:+ "." +:+ eventType /\ subject_ok s
  | Err e => IsPermanent e = true /\ ~ subject_ok (prefix +:+ "." +:+ eventType)
  end.
Proof.
  unfold Subject. pose proof (subject_ok_app prefix eventType) as Happ.
  pose proof (validTokens_Ok "subject prefix" prefix) as Hp.
  destruct (validTokens "subject prefix" prefix) as [[]|e]; cbn -[append]; [|naive_solver].
  pose proof (validTokens_Ok "event type" eventType) as Ht.
  destruct (validTokens "event type" eventType) as [[]|e]; cbn -[append]; [|naive_solver].
  split; [done|]. apply Happ. naive_solver.
Qed.

(** * Publishing *)

(** [js] never reports success without storing. *)
Definition broker_honest (js : natsMsg -> bool * result bool) : Prop :=
  forall msg d, (js msg).2 = Ok d -> (js msg).1 = true.

(** The errors the client library reports for a message no retry can send. *)
Definition unsendable (err : error) : Prop :=
  errIs NatsErrMaxPayload err = true \/ errIs NatsErrBadSubject err = true.

Lemma classify_permanent err :
  IsPermanent err = false -> IsPermanent (classify err) = true <-> unsendable err.
Proof.
  unfold classify, unsendable. intros Hp.
  destruct (errIs NatsErrMaxPayload err); [naive_solver|].
  destruct (errIs NatsErrBadSubject err); [naive_solver|]. rewrite Hp. naive_solver.
Qed.

(** C38. The contract the relay counts on: a nil error from [Publish] means that the broker has
    stored the envelope of this very row; a permanent one, that no retry can succeed (the event
    type makes no subject, or the client refuses the message for its size or subject); and
    every other error is transient, so the row stays pending. *)
Theorem Publish_contract `{EventLib} p js m :
  broker_honest js -> (forall msg err, (js msg).2 = Err err -> IsPermanent err = false) ->
  match (Publish p js m).1 with
  | (stored, None) => stored = true /\ exists msg, envelope p m = Ok msg /\ (js msg).1 = true
  | (_, Some e) =>
      IsPermanent e = true <->
      ~ subject_ok (Prefix p +:+ "." +:+ MEventType m) \/
      exists msg err, envelope p m = Ok msg /\ (js msg).2 = Err err /\ unsendable err
  end.
Proof.
  intros Hb Hplain. unfold Publish, envelope.
  pose proof (subject_ok_app (Prefix p) (MEventType m)) as Happ. unfold Subject.
  pose proof (validTokens_Ok "subject prefix" (Prefix p)) as Hp.
  destruct (validTokens "subject prefix" (Prefix p)) as [[]|e]; cbn -[append]; [|naive_solver].
  pose proof (validTokens_Ok "event type" (MEventType m)) as Ht.
  destruct (validTokens "event type" (MEventType m)) as [[]|e]; cbn -[append]; [|naive_solver].
  match goal with |- context [js ?x] => set (msg := x) end.
  specialize (Hb msg). specialize (Hplain msg). destruct (js msg) as [stored [d|err]] eqn:E; cbn in *.
  - split; [by eapply Hb|]. exists msg. rewrite E. split; [done|]. by eapply Hb.
  - rewrite (classify_permanent err (Hplain err eq_refl)). split.
    + intros Hu. right. exists msg, err. by rewrite E.
    + intros [Hn|(msg' & err' & [= <-] & He & Hu)]; [by destruct Hn; apply Happ; naive_solver|].
      rewrite E in He. by injection He as ->.
Qed.

(** So the relay's proofs apply to it: [publisher_honest] of Outbox.v. *)
Lemma relay_publisher_honest `{EventLib} p (js : nat -> natsMsg -> bool * result bool) k m :
  broker_honest (js k) -> (Publish p (js k) m).1.2 = None -> (Publish p (js k) m).1.1 = true.
Proof.
  intros Hb. unfold Publish. destruct (envelope p m) as [msg|]; [|done]. specialize (Hb msg).
  destruct (js k msg) as [stored [d|err]]; cbn in *; [|done]. intros _. by eapply Hb.
Qed.

(** * Deduplication ids *)

Lemma last_separator {A} (c : A) x y u v :
  c ∉ u -> c ∉ v -> x ++ c :: u = y ++ c :: v -> x = y /\ u = v.
Proof.
  intros Hu Hv. revert y. induction x as [|a x IH]; intros [|b y] He; cbn in He.
  - by injection He as ->.
  - injection He as <- ->. destruct Hu. apply elem_of_app. right. by left.
  - injection He as -> <-. destruct Hv. apply elem_of_app. right. by left.
  - injection He as -> He. destruct (IH y He) as [-> ->]. done.
Qed.

Lemma digits_no_dash x s :
  "-"%char ∉ to_list s -> "-"%char ∉ to_list (pretty_N_go x s).
Proof.
  revert s. induction (N.lt_wf_0 x) as [x _ IH]; intros s Hs.
  assert (x = 0 \/ 0 < x)%N as [->|Hx] by lia; [by rewrite pretty_N_go_0|].
  rewrite pretty_N_go_step by done. apply IH; [by apply N.div_lt|].
  change (to_list (String ?c s)) with (c :: to_list s). intros [Hc|?]%elem_of_cons; [|done].
  revert Hc. unfold pretty_N_char. by repeat case_match.
Qed.

Lemma pretty_no_dash z : 0 <= z -> "-"%char ∉ to_list (pretty z).
Proof.
  destruct z as [|p|p]; [|intros _|lia].
  - intros _. cbn. intros [?|[]%elem_of_nil]%elem_of_cons. done.
  - unfold pretty, pretty_Z, pretty, pretty_positive, pretty, pretty_N.
    rewrite decide_False by done. apply digits_no_dash. apply not_elem_of_nil.
Qed.

(** Deduplication never drops an event: two outbox rows, of one service or of two that share
    a stream, have the same [Nats-Msg-Id] only if they are the same row of the same
    service. *)
Theorem msgID_collision_free p p' a b :
  0 <= a -> 0 <= b -> msgID p a = msgID p' b -> Service p = Service p' /\ a = b.
Proof.
  unfold msgID. intros Ha Hb He.
  assert (to_list (Service p) ++ "-"%char :: to_list (pretty a) =
          to_list (Service p') ++ "-"%char :: to_list (pretty b)) as Hl.
  { change ("-"%char :: to_list (pretty a)) with (to_list ("-" +:+ pretty a)).
    change ("-"%char :: to_list (pretty b)) with (to_list ("-" +:+ pretty b)).
    rewrite <- !to_list_app. by f_equal. }
  apply last_separator in Hl as [Hs Hd]; [|by apply pretty_no_dash..].
  apply (f_equal string_of_list_ascii) in Hs, Hd. unfold to_list in *.
  rewrite !string_of_list_ascii_of_string in *. split; [done|]. by apply (inj pretty).
Qed.

(** * The envelope *)

Section Envelope.
Context `{EventLib} (printable : Z -> Prop) `{!EventLaws printable}.

Lemma msgID_nonempty p id : msgID p id <> "".
Proof. unfold msgID. by destruct (Service p). Qed.

(** Headers of a built message, one key at a time. *)
Ltac headers :=
  repeat (rewrite ?hGet_spec, ?hSet_spec; first
    [ rewrite lookup_insert_eq | rewrite lookup_insert_ne by done ]).

(** What the consumer's handler sees is what the transaction wrote: reading back the message
    built for an outbox row gives its tenant, type, aggregate, payload, time and trace, and
    the row's deduplication id, whatever the delivery's metadata. *)
Theorem eventFrom_envelope p m msg md :
  printable (MOccurredAt m) -> envelope p m = Ok msg ->
  eventFrom msg md =
    mkEvent (msgID p (MID m)) (MTenantID m) (MEventType m) (MAggregateID m) (MPayload m)
      (MOccurredAt m) (NumDelivered md) (MTraceParent m).
Proof.
  intros Ht He. apply bind_Ok in He as (subject & _ & [= <-]).
  unfold eventFrom. cbn [MsgHeader MsgData].
  destruct (MTraceParent m =? "")%string eqn:Etp; cbn [negb]; to_prop; headers.
  - rewrite lookup_empty, (Parse_Format (printable:=printable) _ Ht), Etp.
    pose proof (msgID_nonempty p (MID m)) as Hne. apply String.eqb_neq in Hne as ->. done.
  - rewrite (Parse_Format (printable:=printable) _ Ht).
    pose proof (msgID_nonempty p (MID m)) as Hne. apply String.eqb_neq in Hne as ->. done.
Qed.

(** * The fate of a message *)

Definition told (a : action) (x : list action * list logline) : Prop := a ∈ x.1.

(** The copy differs from the original in nothing but its subject and the three headers that
    say why and after how many attempts it was given up. *)
Definition faithful_copy (cfg : NATSConfig) (msg copy : natsMsg) (e : Event) (cause : error) : Prop :=
  MsgSubject copy = DLQSubjectPrefix cfg +:+ "." +:+ MsgSubject msg /\
  MsgData copy = MsgData msg /\
  hGet (MsgHeader copy) HeaderDLQReason = errString cause /\
  hGet (MsgHeader copy) HeaderDLQDeliveries = pretty (Deliveries e) /\
  hGet (MsgHeader copy) MsgIDHeader = "dlq-" +:+ EvID e /\
  (forall k, k ∉ [MsgIDHeader; HeaderDLQReason; HeaderDLQDeliveries] ->
     hGet (MsgHeader copy) k = hGet (MsgHeader msg) k).

Lemma addAll_lookup h key l k :
  foldl (fun h v => hAdd h key v) h l !! k =
    if decide (k = key /\ l <> [])
    then Some ((match h !! k with Some l' => l' | None => [] end) ++ l) else h !! k.
Proof.
  revert h. induction l as [|v l IH]; intros h; cbn [foldl]; [by rewrite decide_False by naive_solver|].
  rewrite IH, hAdd_spec. destruct (decide (k = key)) as [->|Hk].
  - rewrite lookup_insert_eq, (decide_True (P:=key = key /\ v :: l <> [])) by done.
    case_decide as Hd; [by rewrite <- app_assoc|].
    destruct l; [done|]. destruct Hd. done.
  - rewrite lookup_insert_ne, !decide_False by naive_solver. done.
Qed.

Lemma copyHeaders_lookup entries h k :
  NoDup entries.*1 -> (forall kv, kv ∈ entries -> h !! kv.1 = None) ->
  foldl (fun h kv => foldl (fun h v => hAdd h kv.1 v) h kv.2) h entries !! k =
    match (list_to_map entries : header) !! k with Some (v :: l) => Some (v :: l) | _ => h !! k end.
Proof.
  revert h. induction entries as [|[key l] r IH]; intros h Hn Hh; cbn [foldl].
  { cbn [list_to_map foldr]. by rewrite lookup_empty. }
  cbn [fmap list_fmap] in Hn. apply NoDup_cons in Hn as [Hkey Hn]. rewrite IH.
  - rewrite addAll_lookup. cbn [list_to_map foldr uncurry fst snd].
    destruct (decide (k = key)) as [->|Hk].
    + rewrite lookup_insert_eq.
      replace ((list_to_map r : header) !! key) with (@None (list string))
        by (symmetry; by apply not_elem_of_list_to_map_1).
      pose proof (Hh (key, l) ltac:(by left)) as E. cbn [fst] in E. rewrite E.
      destruct l; case_decide; naive_solver.
    + rewrite lookup_insert_ne by done. rewrite decide_False by naive_solver. done.
  - done.
  - intros kv Hkv. rewrite addAll_lookup, decide_False; [apply Hh; by right|].
    intros [He _]. apply Hkey. rewrite <- He. by apply list_elem_of_fmap_2.
Qed.

(** Whatever the order in which the runtime walks the map, the copy holds its headers. *)
Lemma copyHeaders_get entries h k :
  entries ≡ₚ map_to_list h -> hGet (copyHeaders entries) k = hGet h k.
Proof.
  intros He. assert (NoDup entries.*1) as Hn by (rewrite He; apply NoDup_fst_map_to_list).
  unfold copyHeaders. rewrite !hGet_spec, copyHeaders_lookup by (done || intros; apply lookup_empty).
  rewrite (list_to_map_proper entries (map_to_list h)), list_to_map_to_list, lookup_empty by done.
  by destruct (h !! k) as [[|]|].
Qed.

Lemma deadLetterCopy_faithful cfg entries msg e cause :
  entries ≡ₚ map_to_list (MsgHeader msg) ->
  faithful_copy cfg msg (deadLetterCopy cfg entries msg e cause) e cause.
Proof.
  intros He. unfold faithful_copy, deadLetterCopy. cbn [MsgSubject MsgData MsgHeader].
  split_ands; try (headers; done). intros k Hk. rewrite !not_elem_of_cons in Hk.
  destruct Hk as (H1 & H2 & H3 & _). rewrite <- (copyHeaders_get entries (MsgHeader msg) k He).
  rewrite !hGet_spec, !hSet_spec. by rewrite !lookup_insert_ne by congruence.
Qed.

Lemma deadLetter_spec cfg env entries msg e cause :
  entries ≡ₚ map_to_list (MsgHeader msg) -> (CopyErr env = None -> CopyStored env = true) ->
  let x := deadLetter cfg env entries msg e cause in
  ~ told Acked x /\
  (forall reason, told (Termed reason) x ->
     exists copy, CopyErr env = None /\ told (Copied copy) x /\ faithful_copy cfg msg copy e cause) /\
  (told Naked x <-> CopyErr env <> None) /\
  (CopyErr env = None -> exists reason, told (Termed reason) x).
Proof.
  intros He Hst. unfold deadLetter, told.
  pose proof (deadLetterCopy_faithful cfg entries msg e cause He) as Hf.
  destruct (CopyErr env) as [err|]; [|rewrite (Hst eq_refl)]; cbn [fst].
  - split_ands; [|intros reason|split; [done|intros _; apply elem_of_app; right; by left]|done].
    all: destruct (CopyStored env); cbn; rewrite ?elem_of_cons, elem_of_nil; naive_solver.
  - split_ands; [cbn; rewrite !elem_of_cons, elem_of_nil; naive_solver| | |].
    3:{ intros _. eexists. right. by left. }
    + intros reason _. exists (deadLetterCopy cfg entries msg e cause). split_ands; [done|by left|done].
    + cbn. rewrite !elem_of_cons, elem_of_nil. naive_solver.
Qed.

(** No message is dropped in silence: whatever the handler does and the broker answers, one
    dispatch acknowledges the message exactly when the handler applied it; terminates it only
    after the broker confirmed a faithful copy under the dead-letter prefix, and only for a
    permanent failure or on the last delivery; and otherwise asks for it again.  The broker is
    always told one of the three. *)
Theorem dispatch_never_drops {W} cfg (handle : Event -> W -> option error * W) env entries msg md w :
  entries ≡ₚ map_to_list (MsgHeader msg) -> (CopyErr env = None -> CopyStored env = true) ->
  let e := eventFrom msg md in
  let x := (dispatch cfg handle env entries msg (Ok md) w).1 in
  (dispatch cfg handle env entries msg (Ok md) w).2 = (handle e w).2 /\
  (told Acked x <-> (handle e w).1 = None) /\
  (forall reason, told (Termed reason) x ->
     exists cause copy, (handle e w).1 = Some cause /\
       (IsPermanent cause = true \/ uwrap 64 (CMaxDeliver cfg) <= Deliveries e) /\
       CopyErr env = None /\ told (Copied copy) x /\ faithful_copy cfg msg copy e cause) /\
  (told Naked x <-> exists cause, (handle e w).1 = Some cause /\
     ((IsPermanent cause = true \/ uwrap 64 (CMaxDeliver cfg) <= Deliveries e) ->
        CopyErr env <> None)) /\
  (told Acked x \/ told Naked x \/ exists reason, told (Termed reason) x).
Proof.
  intros He Hst e. unfold dispatch. fold e. clearbody e. destruct (handle e w) as [[err|] w'].
  2:{ unfold told. cbn. split_ands; [done| | | |left; by left]; [by split; [|by left]| |].
      - intros reason [?|[]%elem_of_nil]%elem_of_cons. done.
      - split; [intros [?|[]%elem_of_nil]%elem_of_cons; done|]. by intros (? & ? & _). }
  pose proof (deadLetter_spec cfg env entries msg e err He Hst) as Hd.
  destruct (IsPermanent err) eqn:Hp; [|destruct (Deliveries e >=? _) eqn:Hn]; to_prop; cbn [fst snd].
  - destruct Hd as (Ha & Ht & Hk & Hc). split_ands; [done| | | |].
    + split; [by intros ?%Ha|done].
    + intros reason (copy & ? & ? & ?)%Ht. exists err, copy. split_ands; auto.
    + rewrite Hk. split; [eauto|]. intros (? & [= <-] & Hx). auto.
    + rewrite Hk. destruct (CopyErr env); [right; by left|eauto].
  - destruct Hd as (Ha & Ht & Hk & Hc). split_ands; [done| | | |].
    + split; [by intros ?%Ha|done].
    + intros reason (copy & ? & ? & ?)%Ht. exists err, copy. split_ands; auto.
    + rewrite Hk. split; [eauto|]. intros (? & [= <-] & Hx). auto.
    + rewrite Hk. destruct (CopyErr env); [right; by left|eauto].
  - unfold told. cbn. split_ands; [done| | | |right; left; by left].
    + split; [intros [?|[]%elem_of_nil]%elem_of_cons; done|done].
    + intros reason [?|[]%elem_of_nil]%elem_of_cons. done.
    + split; [|by left]. intros _. exists err. split; [done|]. intros [?|?]; [congruence|lia].
Qed.
End Envelope.

(** * A concrete pipe *)

Section Examples.

Instance plain_events : EventLib := {|
  hGet h k := match h !! k with Some (v :: _) => v | _ => "" end;
  hSet h k v := <[k := [v]]> h;
  hAdd h k v := <[k := (match h !! k with Some l => l | None => [] end) ++ [v]]> h;
  errString e := "error";
  FormatNano t := bits_write (encode t);
  ParseNano s := bits_read s ≫= decode;
  quoteRune s := "'?'";
  timestamptz t := t / 1000 * 1000 |}.

Lemma plain_events_laws : EventLaws (fun _ => True).
Proof.
  split; try done. intros t _. cbn. rewrite bits_read_write. cbn. apply decode_encode.
Defined.
Existing Instance plain_events_laws.

Definition some_publisher : Publisher := mkPublisher "events" "orders-api".
Definition some_message : Message :=
  mkMessage 7 "acme" "o-1" "order.v1.OrderCreated" "{}" 1700000000000000000 "00-ab-cd-01".
Definition some_natsMsg : natsMsg :=
  match envelope some_publisher some_message with Ok m => m | Err _ => mkMsg "" ∅ "" end.
Definition some_meta : metadata := mkMeta 5 1 "EVENTS" 12.

Lemma eventFrom_envelope_witness :
  eventFrom some_natsMsg some_meta =
    mkEvent "orders-api-7" "acme" "order.v1.OrderCreated" "o-1" "{}" 1700000000000000000 5
      "00-ab-cd-01".
Proof.
  apply (eventFrom_envelope (fun _ => True) some_publisher some_message some_natsMsg some_meta);
    [exact I|vm_compute; reflexivity].
Defined.

(** A payload the server would refuse, and a sendable one. *)
Definition small_only (msg : natsMsg) : bool * result bool :=
  if strlen (MsgData msg) >? 2 then (false, Err (wrapf [PStr "nats"] NatsErrMaxPayload)) else (true, Ok false).

Lemma Publish_contract_witness :
  (Publish some_publisher small_only some_message).1 = (true, None) /\
  exists msg, envelope some_publisher some_message = Ok msg /\ (small_only msg).1 = true.
Proof.
  assert (broker_honest small_only) as Hb.
  { intros msg d. unfold small_only. by destruct (_ >? _). }
  assert (forall msg err, (small_only msg).2 = Err err -> IsPermanent err = false) as Hp.
  { intros msg err. unfold small_only. destruct (_ >? _); [|done]. by intros [= <-]. }
  assert ((Publish some_publisher small_only some_message).1 = (true, None)) as E
    by (vm_compute; reflexivity).
  split; [exact E|]. pose proof (Publish_contract some_publisher small_only some_message Hb Hp) as Hc.
  rewrite E in Hc. apply Hc.
Defined.

Lemma msgID_collision_free_witness :
  Service some_publisher = Service some_publisher /\ 7 = 7.
Proof. apply (msgID_collision_free some_publisher some_publisher 7 7); [lia|lia|reflexivity]. Defined.

(** A transient failure on the last of five deliveries: copied, then terminated. *)
Lemma dispatch_never_drops_witness :
  let env := mkBroker None None None true None in
  let handle (e : Event) (n : nat) := (Some (errorsNew "down"), S n) in
  let x := (dispatch (mkNATS 5 "dlq") handle env (map_to_list (MsgHeader some_natsMsg)) some_natsMsg
              (Ok some_meta) 0%nat).1 in
  told (Termed "error") x /\ exists copy, told (Copied copy) x /\
    MsgSubject copy = "dlq.events.order.v1.OrderCreated".
Proof.
  intros env handle x.
  destruct (dispatch_never_drops (fun _ => True) (mkNATS 5 "dlq") handle env
    (map_to_list (MsgHeader some_natsMsg)) some_natsMsg some_meta 0%nat
    (Permutation_refl _) (fun _ => eq_refl)) as (_ & _ & Ht & _).
  assert (told (Termed "error") x) as Hx by (right; left).
  split; [exact Hx|]. destruct (Ht _ Hx) as (cause & copy & _ & _ & _ & Hc & Hs & _).
  exists copy. split; [exact Hc|]. rewrite Hs. reflexivity.
Defined.
End Examples.
