(* ===== verification/OrderProj.v ===== *)
(** internal/order/orderproj: the read model fed by the event pipe.

    The two tables are the set of (consumer, message id) pairs already processed and the
    counters per tenant.  A transaction that does not commit leaves both alone; one that
    reports a commit error may have committed, so the database answers both.  The database
    serialises the claims of concurrent workers on the primary key, so deliveries are
    handled one after the other here. *)

From S2P Require Import Prelude GoErr GoStr GoLog Order Store Outbox Events EventsSpec.

(** [encoding/json] on an order snapshot. *)
Class SnapshotLib := { json_Order : string -> result Order }.

Record counter := mkCounter { COrders : Z; CLastOrderAt : Z }.

Record tables := mkTables {
  Processed : gset (string * string); Counts : gmap string counter }.

(** What the database answers to one [Handle]: an error per statement, and whether the
    transaction is durable. *)
Record projEnv := mkProjEnv {
  PBeginErr : option error; PClaimErr : option error; PAffectedErr : option error;
  PUpsertErr : option error; PCommitted : bool; PCommitErr : option error }.

(** A nil error from Commit means that the transaction is durable. *)
Definition commit_honest (env : projEnv) : Prop := PCommitErr env = None -> PCommitted env = true.

Section WithLib.
Context `{EventLib, SnapshotLib}.

(** [INSERT INTO processed_events ... ON CONFLICT DO NOTHING], and the rows it added. *)
Definition claimEvent (k : string * string) (t : tables) : tables * Z :=
  if bool_decide (k ∈ Processed t) then (t, 0)
  else (mkTables ({[k]} ∪ Processed t) (Counts t), 1).

(** [INSERT INTO order_counts ... ON CONFLICT (tenant_id) DO UPDATE]. *)
Definition upsertCount (tenant : string) (at_ : Z) (t : tables) : tables :=
  let c := match Counts t !! tenant with
           | None => mkCounter 1 (timestamptz at_)
           | Some c => mkCounter (COrders c + 1) (Z.max (CLastOrderAt c) (timestamptz at_))
           end in
  mkTables (Processed t) (<[tenant := c]> (Counts t)).

(** The tenant an event is counted for. *)
Definition eventTenant (e : Event) (snapshot : Order) : string :=
  if (EvTenantID e =? "")%string then TenantID snapshot else EvTenantID e.

Definition Handle (consumer : string) (env : projEnv) (e : Event) (t : tables)
    : option error * tables :=
  if negb (EvType e =? EventOrderCreated)%string then (None, t)
  else
    match json_Order (EvPayload e) with
    | Err err => (Some (EPermanent (wrapf [PStr "decode "; PStr (EvType e); PStr " payload"] err)), t)
    | Ok snapshot =>
        let tenant := eventTenant e snapshot in
        if (tenant =? "")%string
        then (Some (EPermanent (errorsNew "event carries no tenant, so it cannot be projected")), t)
        else
          match PBeginErr env with
          | Some err => (Some (wrapf [PStr "begin"] err), t)
          | None =>
              match PClaimErr env with
              | Some err => (Some (wrapf [PStr "claim event "; PStr (EvID e)] err), t)
              | None =>
                  let '(claimed, affected) := claimEvent (consumer, EvID e) t in
                  match PAffectedErr env with
                  | Some err => (Some (wrapf [PStr "claim event "; PStr (EvID e)] err), t)
                  | None =>
                      if affected =? 0 then (None, t)
                      else
                        match PUpsertErr env with
                        | Some err => (Some (wrapf [PStr "project "; PStr (EvID e)] err), t)
                        | None =>
                            let t' := if PCommitted env
                                      then upsertCount tenant (EvOccurredAt e) claimed else t in
                            match PCommitErr env with
                            | Some err =>
                                (Some (wrapf [PStr "commit projection of "; PStr (EvID e)] err), t')
                            | None => (None, t')
                            end
                        end
                  end
              end
          end
    end.

(** [Count]: a tenant without a row has no orders. *)
Definition Count (queryErr : option error) (tenantID : string) (t : tables) : result Z :=
  match queryErr with
  | Some err => Err (wrapf [PStr "read order count for "; PQuote tenantID] err)
  | None => Ok (match Counts t !! tenantID with Some c => COrders c | None => 0 end)
  end.

(** * Exactly once *)

(** A schedule of deliveries to one consumer, each with what the database answers to it. *)
Fixpoint handleAll (consumer : string) (ds : list (projEnv * Event)) (t : tables)
    : list (option error) * tables :=
  match ds with
  | [] => ([], t)
  | (env, e) :: r =>
      let '(err, t') := Handle consumer env e t in
      let '(errs, t'') := handleAll consumer r t' in (err :: errs, t'')
  end.

(** The tenant an event counts for, if it counts at all. *)
Definition counted_for (e : Event) : option string :=
  if (EvType e =? EventOrderCreated)%string then
    match json_Order (EvPayload e) with
    | Ok snapshot =>
        if (eventTenant e snapshot =? "")%string then None else Some (eventTenant e snapshot)
    | Err _ => None
    end
  else None.

(** The counter of tenant [t] for the events [ids] name: how many are its own, and the
    latest of their times. *)
Definition add_event (t : string) (e : Event) (c : option counter) : option counter :=
  if bool_decide (counted_for e = Some t) then
    match c with
    | None => Some (mkCounter 1 (timestamptz (EvOccurredAt e)))
    | Some c => Some (mkCounter (COrders c + 1) (Z.max (CLastOrderAt c) (timestamptz (EvOccurredAt e))))
    end
  else c.

Definition tally (content : string -> Event) (t : string) (ids : list string) : option counter :=
  foldr (fun id => add_event t (content id)) None ids.

(** Deliveries of one id carry one event: redelivery changes nothing but the count. *)
Definition carries (content : string -> Event) (e : Event) : Prop :=
  counted_for e = counted_for (content (EvID e)) /\
  EvOccurredAt e = EvOccurredAt (content (EvID e)).

(** What one delivery does, failures included. *)
Lemma Handle_spec consumer env e t :
  commit_honest env ->
  let '(err, t') := Handle consumer env e t in
  match counted_for e with
  | None => t' = t /\
      (err = None <-> EvType e <> EventOrderCreated) /\
      (forall x, err = Some x -> IsPermanent x = true)
  | Some tenant =>
      (t' = t /\ (err = None -> (consumer, EvID e) ∈ Processed t)) \/
      (~ ((consumer, EvID e) ∈ Processed t) /\
       t' = upsertCount tenant (EvOccurredAt e)
              (mkTables ({[(consumer, EvID e)]} ∪ Processed t) (Counts t)))
  end.
Proof.
  unfold commit_honest, Handle, counted_for. intros Hc.
  destruct (EvType e =? EventOrderCreated)%string eqn:Et; cbn [negb]; to_prop; [|naive_solver].
  destruct (json_Order (EvPayload e)) as [snapshot|err]; [|naive_solver].
  destruct (eventTenant e snapshot =? "")%string eqn:En; to_prop; [naive_solver|].
  destruct (PBeginErr env); [by left|]. destruct (PClaimErr env); [by left|].
  unfold claimEvent. case_bool_decide as Hk; destruct (PAffectedErr env); cbn [Z.eqb];
    [by left|by left|by left|].
  destruct (PUpsertErr env); [by left|].
  destruct (PCommitErr env), (PCommitted env); try (by left); try (by right).
  by specialize (Hc eq_refl).
Qed.

Lemma add_event_comm t a b c : add_event t a (add_event t b c) = add_event t b (add_event t a c).
Proof.
  unfold add_event. destruct (bool_decide (counted_for a = _)), (bool_decide (counted_for b = _));
    try done.
  destruct c; cbn; do 2 f_equal; lia.
Qed.

Lemma tally_perm content t ids ids' : ids ≡ₚ ids' -> tally content t ids = tally content t ids'.
Proof.
  unfold tally. induction 1 as [|x l l' _ IH|x y l|l l' l'' _ IH1 _ IH2]; cbn [foldr].
  - done.
  - by rewrite IH.
  - apply add_event_comm.
  - by rewrite IH1.
Qed.

(** [ids] are the ids processed so far, and the counters are their tally. *)
Record counted (content : string -> Event) (consumer : string) (t : tables) (ids : list string)
    : Prop := {
  ids_nodup : NoDup ids;
  ids_processed : forall k, k ∈ Processed t <-> exists id, id ∈ ids /\ k = (consumer, id);
  ids_tally : forall tn, Counts t !! tn = tally content tn ids }.

Lemma counted_add content consumer t ids e tenant :
  counted content consumer t ids -> (consumer, EvID e) ∉ Processed t ->
  counted_for e = Some tenant -> carries content e ->
  counted content consumer
    (upsertCount tenant (EvOccurredAt e)
       (mkTables ({[(consumer, EvID e)]} ∪ Processed t) (Counts t))) (EvID e :: ids).
Proof.
  intros [Hn Hp Ht] Hk He [Hf Ho]. split.
  - constructor; [|done]. intros Hin. apply Hk, Hp. eauto.
  - intros k. cbn. rewrite elem_of_union, elem_of_singleton, Hp. setoid_rewrite elem_of_cons.
    naive_solver.
  - intros tn. unfold upsertCount. cbn [Counts]. rewrite lookup_insert.
    change (tally content tn (EvID e :: ids)) with (add_event tn (content (EvID e)) (tally content tn ids)).
    unfold add_event. rewrite <- Hf, He, <- Ho. rewrite !Ht. case_decide as Hd.
    + subst tn. rewrite bool_decide_eq_true_2 by done. by destruct (tally content tenant ids).
    + rewrite bool_decide_eq_false_2 by congruence. done.
Qed.

Lemma handleAll_counted content consumer ds t ids :
  Forall (fun d => commit_honest d.1 /\ carries content d.2) ds -> counted content consumer t ids ->
  let '(errs, t') := handleAll consumer ds t in
  Processed t ⊆ Processed t' /\
  (exists new, counted content consumer t' (new ++ ids) /\
     forall id, id ∈ new -> exists d, d ∈ ds /\ EvID d.2 = id /\ counted_for d.2 <> None) /\
  (forall d, (d, None) ∈ zip ds errs -> counted_for d.2 <> None ->
     (consumer, EvID d.2) ∈ Processed t').
Proof.
  intros Hds. revert t ids. induction Hds as [|[env e] ds [Hc Hcar] _ IH]; intros t ids Hi;
    cbn [handleAll].
  { split; [done|]. split; [|by intros ? ?%elem_of_nil].
    exists []. split; [done|]. by intros ? ?%elem_of_nil. }
  pose proof (Handle_spec consumer env e t Hc) as Hs. cbn [snd] in *.
  destruct (Handle consumer env e t) as [err t1].
  assert (exists add, counted content consumer t1 (add ++ ids) /\ Processed t ⊆ Processed t1 /\
            (forall id, id ∈ add -> EvID e = id /\ counted_for e <> None) /\
            (err = None -> counted_for e <> None -> (consumer, EvID e) ∈ Processed t1))
    as (add & Hi1 & Hsub & Hadd & Hnow).
  { destruct (counted_for e) as [tenant|] eqn:Hf.
    - destruct Hs as [[-> Hin]|[Hk ->]].
      + exists []. split_ands; [done|done|by intros ? ?%elem_of_nil|auto].
      + exists [EvID e]. split_ands; [by apply counted_add|cbn; set_solver| |cbn; set_solver].
        intros id ->%list_elem_of_singleton. done.
    - destruct Hs as [-> _]. exists []. split_ands; [done|done|by intros ? ?%elem_of_nil|done]. }
  specialize (IH t1 (add ++ ids) Hi1). destruct (handleAll consumer ds t1) as [errs t2].
  destruct IH as (Hsub2 & (new & Hi2 & Hnew) & Hdone). split; [by etrans|]. split.
  - exists (new ++ add). rewrite <- app_assoc. split; [done|].
    intros id [(d & ? & ? & ?)%Hnew|[? ?]%Hadd]%elem_of_app.
    + exists d. split; [by right|done].
    + exists (env, e). split; [by left|done].
  - intros d [[= -> <-]|Hd]%elem_of_cons Hf; [|by apply Hdone]. cbn in *. by apply Hsub2, Hnow.
Qed.

(** C18. Exactly once: whatever the broker delivers, in whatever order and however often, and
    wherever the database fails (a commit that reports an error may or may not have
    happened), an event the handler accepted is processed, nothing undelivered is, and every
    tenant's row holds exactly the number of its processed events and the latest of their
    times: no event is counted twice and none is missed. *)
Theorem projection_exactly_once content consumer ds :
  Forall (fun d => commit_honest d.1 /\ carries content d.2) ds ->
  let '(errs, t) := handleAll consumer ds (mkTables ∅ ∅) in
  (forall d, (d, None) ∈ zip ds errs -> counted_for d.2 <> None ->
     (consumer, EvID d.2) ∈ Processed t) /\
  (forall k, k ∈ Processed t -> exists d, d ∈ ds /\ k = (consumer, EvID d.2)) /\
  (forall ids tn, NoDup ids -> (forall id, id ∈ ids <-> (consumer, id) ∈ Processed t) ->
     Counts t !! tn = tally content tn ids).
Proof.
  intros Hds.
  assert (counted content consumer (mkTables ∅ ∅) []) as Hempty.
  { split; [apply NoDup_nil_2| |done].
    intros k. cbn. setoid_rewrite elem_of_nil. set_solver. }
  pose proof (handleAll_counted content consumer ds _ _ Hds Hempty) as Hr.
  destruct (handleAll consumer ds (mkTables ∅ ∅)) as [errs t].
  destruct Hr as (_ & (new & [Hn Hp Ht] & Hnew) & Hdone). rewrite app_nil_r in *.
  split; [done|]. split.
  - intros k (id & (d & ? & <- & _)%Hnew & ->)%Hp. eauto.
  - intros ids tn Hids Hin. rewrite Ht. apply tally_perm, NoDup_Permutation; [done|done|].
    intros id. rewrite Hin, Hp. naive_solver.
Qed.

End WithLib.

Section Examples.
Existing Instance plain_events.

Instance demo_snapshots : SnapshotLib :=
  {| json_Order p := if (p =? "broken")%string then Err (ELib "json.SyntaxError") else Ok two_lines |}.

Definition demo_content (id : string) : Event :=
  mkEvent id "" EventOrderCreated "o-1" "{}" (if (id =? "svc-2")%string then 9000 else 5000) 1 "".

Definition calm : projEnv := mkProjEnv None None None None true None.

(** A commit that happened but was reported lost, its redelivery, a later event first failing
    to begin and then applied twice over. *)
Definition demo_deliveries : list (projEnv * Event) :=
  [(mkProjEnv None None None None true (Some (errorsNew "connection reset")), demo_content "svc-2");
   (calm, demo_content "svc-2");
   (mkProjEnv (Some (errorsNew "down")) None None None true None, demo_content "svc-1");
   (calm, demo_content "svc-1"); (calm, demo_content "svc-1")].

Lemma projection_exactly_once_witness :
  Counts (handleAll "counts" demo_deliveries (mkTables ∅ ∅)).2 !! "acme" = Some (mkCounter 2 9000).
Proof.
  assert (Forall (fun d : projEnv * Event => commit_honest d.1 /\ carries demo_content d.2)
            demo_deliveries) as Hds.
  { unfold demo_deliveries. repeat constructor; by intros ?. }
  pose proof (projection_exactly_once demo_content "counts" demo_deliveries Hds) as Hx.
  assert (Processed (handleAll "counts" demo_deliveries (mkTables ∅ ∅)).2 =
            {[("counts", "svc-1"); ("counts", "svc-2")]}) as Hp by (vm_compute; reflexivity).
  destruct (handleAll "counts" demo_deliveries (mkTables ∅ ∅)) as [errs t]. cbn [snd] in *.
  destruct Hx as (_ & _ & Ht). rewrite (Ht ["svc-1"; "svc-2"] "acme").
  - vm_compute. reflexivity.
  - apply (bool_decide_unpack _). vm_compute. exact I.
  - intros id. rewrite Hp. set_solver.
Defined.
End Examples.
