(* ===== verification/Config.v ===== *)
(** internal/platform/config/config.go: reading and checking the environment.

    The environment is a map of strings.  The parser accumulates one error per malformed
    variable while it keeps reading; [parser] is that accumulation.  [Validate] collects
    every problem of a parsed configuration.  Durations are nanoseconds, [int] is 64 bits
    wide, float64 is [spec_float]; how [%v] prints a float64 is the one parameter. *)

From Stdlib Require Import SpecFloat.
From S2P Require Import Prelude GoErr GoStr GoNum.

(** Environment names, store drivers, auth modes. *)
Definition EnvDevelopment : string := "development".
Definition EnvStaging : string := "staging".
Definition EnvProduction : string := "production".
Definition StoreMemory : string := "memory".
Definition StorePostgres : string := "postgres".
Definition AuthDev : string := "dev".
Definition AuthOIDC : string := "oidc".

(** Which binary is reading the configuration. *)
Inductive Role := RoleServer | RoleWorker.

#[export] Instance Role_eq_dec : EqDecision Role.
Proof. solve_decision. Defined.

(** * Secrets *)

(** A value that prints as [[REDACTED]] through every formatting route. *)
Inductive Secret := mkSecret (s : string).

Definition SecretString (s : Secret) : string := "[REDACTED]".
Definition SecretGoString (s : Secret) : string := "[REDACTED]".
Definition SecretMarshalJSON (s : Secret) : string :=
  of_list [of_byte 34] +:+ "[REDACTED]" +:+ of_list [of_byte 34].
Definition SecretLogValue (s : Secret) : string := "[REDACTED]".
Definition Reveal (s : Secret) : string := let 'mkSecret v := s in v.

(** * The configuration *)

Record TelemetryConfig := mkTelemetry {
  OTLPEndpoint : string; TraceSampleRatio : spec_float }.

Record PostgresConfig := mkPostgres {
  DSN : Secret; MaxOpenConns : Z; MaxIdleConns : Z; ConnMaxLifetime : Z;
  ConnMaxIdleTime : Z }.

Record OIDCConfig := mkOIDC {
  IssuerURL : string; Audience : string; JWKSURL : string; Leeway : Z;
  TenantClaim : string; ScopeClaim : string; ServiceClaim : string; MaxKeyAge : Z;
  AllowInsecureIssuer : bool }.

Record RedisConfig := mkRedis {
  RedisAddr : string; Password : Secret; RedisDB : Z; RateLimitPerMinute : Z;
  RateLimitBurst : Z }.

Record OutboxConfig := mkOutbox {
  OutboxBatchSize : Z; PollInterval : Z; MaxConns : Z; ObserveInterval : Z }.

Record RetentionConfig := mkRetention {
  RetentionOutbox : Z; ProcessedEvents : Z; RetentionBatchSize : Z }.

Record NATSConfig := mkNATS {
  URL : string; Stream : string; SubjectPrefix : string; DLQSubjectPrefix : string;
  DuplicateWindow : Z; StreamMaxAge : Z; Consumer : string; MaxDeliver : Z; AckWait : Z }.

Record UpstreamConfig := mkUpstream {
  UpstreamDefaultTimeout : Z; ReserveFraction : spec_float; MinBudget : Z }.

Record ServerConfig := mkServer {
  MaxConcurrentStreams : Z; MaxRecvMsgBytes : Z; MaxConnectionAge : Z;
  MaxConnectionAgeGrace : Z; KeepaliveMinTime : Z; AdmissionLimit : Z;
  DefaultTimeout : Z; MaxTimeout : Z }.

Record ShutdownConfig := mkShutdown { DrainDelay : Z; GracePeriod : Z }.

Record Config := mkConfig {
  CRole : Role; AppEnv : string; ServiceName : string; Version : string;
  GRPCAddr : string; AdminAddr : string; GatewayAddr : string;
  LogLevel : string; LogFormat : string;
  StoreDriver : string; AuthMode : string; Postgres : PostgresConfig;
  OIDC : OIDCConfig; Redis : RedisConfig; Outbox : OutboxConfig;
  Retention : RetentionConfig; NATS : NATSConfig; Upstream : UpstreamConfig;
  Telemetry : TelemetryConfig; Server : ServerConfig; Shutdown : ShutdownConfig }.

(** * Helpers *)

Definition oneOf (v : string) (allowed : list string) : bool :=
  existsb (fun a => (v =? a)%string) allowed.

Section Helpers.
Context `{Unicode}.

Definition parseLevel (s : string) : result Z :=
  let l := ToLower s in
  if (l =? "debug")%string then Ok (-4)
  else if (l =? "info")%string then Ok 0
  else if ((l =? "warn") || (l =? "warning"))%string then Ok 4
  else if (l =? "error")%string then Ok 8
  else Err (EFmt [PStr "LOG_LEVEL "; PQuote s;
                  PStr " must be one of debug, info, warn, error"]).

End Helpers.

(** [subject] sits inside [prefix]'s subject subtree, token by token. *)
Definition prefixed (subject prefix : string) : bool :=
  (subject =? prefix)%string || HasPrefix subject (prefix +:+ ".").

(** [strings.ContainsAny(v, "*> \t\r\n")]. *)
Definition unsafe_byte (c : ascii) : bool :=
  bool_decide (byte_of c ∈ [42; 62; 32; 9; 13; 10]).
Definition unsafe_subject (v : string) : bool :=
  negb (string_forallb (fun c => negb (unsafe_byte c)) v).

Definition IsProduction (c : Config) : bool := (AppEnv c =? EnvProduction)%string.

(** * The parser *)

Definition env : Type := gmap string string.

Definition parser (A : Type) : Type := env -> list error -> A * list error.

#[export] Instance parser_ret : MRet parser := fun A a e errs => (a, errs).
#[export] Instance parser_bind : MBind parser :=
  fun A B f m e errs => let '(a, errs) := m e errs in f a e errs.

(** Absent and empty both mean the default. *)
Definition str (k def : string) : parser string := fun e errs =>
  (match e !! k with
   | Some v => if (v =? "")%string then def else v
   | None => def
   end, errs).

(** An explicit empty value survives. *)
Definition strOptional (k def : string) : parser string := fun e errs =>
  (match e !! k with Some v => v | None => def end, errs).

(** A typed variable: the default when absent or empty, an error and the default when it
    does not parse. *)
Definition typed {A} (parse : string -> option A) (complaint : string) (k : string) (def : A)
    : parser A := fun e errs =>
  match e !! k with
  | None => (def, errs)
  | Some raw =>
      if (raw =? "")%string then (def, errs)
      else match parse raw with
           | Some v => (v, errs)
           | None => (def, errs ++ [EFmt [PStr k; PStr ": "; PQuote raw; PStr complaint]])
           end
  end.

Definition boolVal := typed ParseBool " is not a boolean (try true or false)".
Definition intVal := typed Atoi " is not an integer".
Definition floatVal := typed ParseFloat " is not a number".
Definition dur := typed ParseDuration " is not a duration (try 30s, 5m)".

(** [os.Environ()] as a map: the text before the first [=] is the name, a later entry
    replaces an earlier one, an entry without [=] is skipped. *)
Definition cut_eq (kv : string) : option (string * string) :=
  let '(k, r) := span (fun c => negb (Ascii.eqb c "=")) (to_list kv) in
  match r with
  | _ :: v => Some (of_list k, of_list v)
  | [] => None
  end.

Definition environ (entries : list string) : env :=
  fold_left (fun m kv => match cut_eq kv with Some (k, v) => <[k := v]> m | None => m end)
    entries ∅.

(** The float64 values of the literals [0.1], [1.0], [0] and [1]. *)
Definition tenth : spec_float := scaled false 10 1 (-1).
Definition fone : spec_float := float_of_Z 1.
Definition fzero : spec_float := S754_zero false.

(** The composite literal of [ParseFor]: the readers run in the order they are written. *)
Definition readPostgres : parser PostgresConfig :=
  dsn ← str "POSTGRES_DSN" "";
  opened ← intVal "POSTGRES_MAX_OPEN_CONNS" 10;
  idle ← intVal "POSTGRES_MAX_IDLE_CONNS" 5;
  life ← dur "POSTGRES_CONN_MAX_LIFETIME" (30 * Minute);
  idleTime ← dur "POSTGRES_CONN_MAX_IDLE_TIME" (5 * Minute);
  mret (mkPostgres (mkSecret dsn) opened idle life idleTime).

Definition readOIDC : parser OIDCConfig :=
  issuer ← str "OIDC_ISSUER_URL" "";
  audience ← str "OIDC_AUDIENCE" "";
  jwks ← str "OIDC_JWKS_URL" "";
  leeway ← dur "OIDC_LEEWAY" (30 * Second);
  tenant ← str "OIDC_TENANT_CLAIM" "tenant_id";
  scope ← str "OIDC_SCOPE_CLAIM" "scope";
  service ← str "OIDC_SERVICE_CLAIM" "token_use";
  maxKeyAge ← dur "OIDC_MAX_KEY_AGE" (15 * Minute);
  insecure ← boolVal "OIDC_ALLOW_INSECURE_ISSUER" false;
  mret (mkOIDC issuer audience jwks leeway tenant scope service maxKeyAge insecure).

Definition readRedis : parser RedisConfig :=
  addr ← str "REDIS_ADDR" "";
  password ← str "REDIS_PASSWORD" "";
  db ← intVal "REDIS_DB" 0;
  perMinute ← intVal "RATE_LIMIT_PER_MINUTE" 600;
  burst ← intVal "RATE_LIMIT_BURST" 100;
  mret (mkRedis addr (mkSecret password) db perMinute burst).

Definition readOutbox : parser OutboxConfig :=
  batch ← intVal "OUTBOX_BATCH_SIZE" 100;
  poll ← dur "OUTBOX_POLL_INTERVAL" Second;
  conns ← intVal "OUTBOX_MAX_CONNS" 2;
  observe ← dur "OUTBOX_OBSERVE_INTERVAL" (15 * Second);
  mret (mkOutbox batch poll conns observe).

Definition readRetention : parser RetentionConfig :=
  outbox ← dur "RETENTION_OUTBOX" (168 * Hour);
  processed ← dur "RETENTION_PROCESSED_EVENTS" (192 * Hour);
  batch ← intVal "RETENTION_BATCH_SIZE" 1000;
  mret (mkRetention outbox processed batch).

Definition readNATS : parser NATSConfig :=
  url ← str "NATS_URL" "";
  stream ← str "NATS_STREAM" "EVENTS";
  prefix ← str "NATS_SUBJECT_PREFIX" "events";
  dlq ← str "NATS_DLQ_SUBJECT_PREFIX" "dlq";
  window ← dur "NATS_DUPLICATE_WINDOW" (2 * Minute);
  maxAge ← dur "NATS_STREAM_MAX_AGE" (168 * Hour);
  consumer ← str "NATS_CONSUMER" "order-projection";
  maxDeliver ← intVal "NATS_MAX_DELIVER" 5;
  ackWait ← dur "NATS_ACK_WAIT" (30 * Second);
  mret (mkNATS url stream prefix dlq window maxAge consumer maxDeliver ackWait).

Definition readUpstream : parser UpstreamConfig :=
  timeout ← dur "UPSTREAM_DEFAULT_TIMEOUT" (10 * Second);
  reserve ← floatVal "UPSTREAM_RESERVE_FRACTION" tenth;
  minBudget ← dur "UPSTREAM_MIN_BUDGET" (50 * Millisecond);
  mret (mkUpstream timeout reserve minBudget).

Definition readTelemetry : parser TelemetryConfig :=
  endpoint ← str "OTEL_EXPORTER_OTLP_ENDPOINT" "";
  ratio ← floatVal "OTEL_TRACE_SAMPLE_RATIO" fone;
  mret (mkTelemetry endpoint ratio).

(** [uint32(...)] keeps the low 32 bits. *)
Definition readServer : parser ServerConfig :=
  streams ← intVal "GRPC_MAX_CONCURRENT_STREAMS" 250;
  recv ← intVal "GRPC_MAX_RECV_MSG_BYTES" (Z.shiftl 4 20);
  age ← dur "GRPC_MAX_CONNECTION_AGE" (30 * Minute);
  grace ← dur "GRPC_MAX_CONNECTION_AGE_GRACE" (30 * Second);
  keepalive ← dur "GRPC_KEEPALIVE_MIN_TIME" (30 * Second);
  admission ← intVal "ADMISSION_LIMIT" 0;
  default ← dur "DEFAULT_TIMEOUT" (15 * Second);
  max ← dur "MAX_TIMEOUT" (60 * Second);
  mret (mkServer (uwrap 32 streams) recv age grace keepalive admission default max).

Definition readShutdown : parser ShutdownConfig :=
  drain ← dur "SHUTDOWN_DRAIN_DELAY" (5 * Second);
  grace ← dur "SHUTDOWN_GRACE_PERIOD" (25 * Second);
  mret (mkShutdown drain grace).

Definition readConfig (role : Role) : parser Config :=
  appEnv ← str "APP_ENV" EnvDevelopment;
  service ← str "SERVICE_NAME" "orderd";
  version ← str "VERSION" "dev";
  grpcAddr ← str "GRPC_ADDR" ":50051";
  adminAddr ← str "ADMIN_ADDR" "127.0.0.1:9090";
  gatewayAddr ← strOptional "GATEWAY_ADDR" ":8080";
  level ← str "LOG_LEVEL" "info";
  format ← str "LOG_FORMAT" "json";
  driver ← str "STORE_DRIVER" StoreMemory;
  auth ← str "AUTH_MODE" AuthDev;
  postgres ← readPostgres;
  oidc ← readOIDC;
  redis ← readRedis;
  outbox ← readOutbox;
  retention ← readRetention;
  nats ← readNATS;
  upstream ← readUpstream;
  telemetry ← readTelemetry;
  server ← readServer;
  shutdown ← readShutdown;
  mret (mkConfig role appEnv service version grpcAddr adminAddr gatewayAddr level format
          driver auth postgres oidc redis outbox retention nats upstream telemetry server
          shutdown).

(** * Validation *)

Definition check (bad : bool) (e : error) : list error := if bad then [e] else [].

Section Validation.
Context `{Unicode} (float_text : spec_float -> string).

Definition validateNATS (c : Config) : list error :=
  let n := NATS c in
  if (URL n =? "")%string then []
  else
    concat
      ((fun '(name, value) =>
          if (TrimSpace value =? "")%string
          then [EFmt [PStr name; PStr " must not be empty when NATS_URL is set"]]
          else check (unsafe_subject value)
                 (EFmt [PStr name; PStr " "; PQuote value;
                        PStr " must not contain a wildcard (* or >) or whitespace"])) <$>
       [("NATS_STREAM", Stream n); ("NATS_SUBJECT_PREFIX", SubjectPrefix n);
        ("NATS_DLQ_SUBJECT_PREFIX", DLQSubjectPrefix n); ("NATS_CONSUMER", Consumer n)])
    ++ check (prefixed (DLQSubjectPrefix n) (SubjectPrefix n))
         (EFmt [PStr "NATS_DLQ_SUBJECT_PREFIX "; PQuote (DLQSubjectPrefix n);
                PStr " is inside NATS_SUBJECT_PREFIX "; PQuote (SubjectPrefix n);
                PStr ": the consumer would redeliver its own dead letters forever"])
    ++ (if DuplicateWindow n <=? 0
        then [EFmt [PStr "NATS_DUPLICATE_WINDOW must be positive, got ";
                    PStr (DurationString (DuplicateWindow n))]]
        else check (DuplicateWindow n <=? PollInterval (Outbox c))
               (EFmt [PStr "NATS_DUPLICATE_WINDOW ("; PStr (DurationString (DuplicateWindow n));
                      PStr ") must exceed OUTBOX_POLL_INTERVAL (";
                      PStr (DurationString (PollInterval (Outbox c)));
                      PStr "): a republished batch arriving after the window is stored again instead of deduplicated"]))
    ++ check (StreamMaxAge n <=? 0)
         (EFmt [PStr "NATS_STREAM_MAX_AGE must be positive, got ";
                PStr (DurationString (StreamMaxAge n))])
    ++ check (MaxDeliver n <=? 0)
         (EFmt [PStr "NATS_MAX_DELIVER must be positive, got "; PInt (MaxDeliver n)])
    ++ check (AckWait n <=? 0)
         (EFmt [PStr "NATS_ACK_WAIT must be positive, got "; PStr (DurationString (AckWait n))]).

Definition oidcProblems (c : Config) : list error :=
  if (AuthMode c =? AuthOIDC)%string
  then
    check (IssuerURL (OIDC c) =? "")%string
      (errorsNew "OIDC_ISSUER_URL is required when AUTH_MODE=oidc")
    ++ check (Audience (OIDC c) =? "")%string
         (errorsNew "OIDC_AUDIENCE is required when AUTH_MODE=oidc: without it this service accepts any token the issuer signed, including tokens issued to other applications")
    ++ check (TrimSpace (TenantClaim (OIDC c)) =? "")%string
         (errorsNew "OIDC_TENANT_CLAIM must not be empty: the tenant comes from the verified token, never from the request body")
  else [].

Definition redisProblems (c : Config) : list error :=
  if (RedisAddr (Redis c) =? "")%string then []
  else
    check (RateLimitPerMinute (Redis c) <=? 0)
      (EFmt [PStr "RATE_LIMIT_PER_MINUTE must be positive when REDIS_ADDR is set, got ";
             PInt (RateLimitPerMinute (Redis c))])
    ++ check (RateLimitBurst (Redis c) <=? 0)
         (EFmt [PStr "RATE_LIMIT_BURST must be positive when REDIS_ADDR is set, got ";
                PInt (RateLimitBurst (Redis c))]).

Definition retentionProblems (c : Config) : list error :=
  let r := Retention c in
  check ((ProcessedEvents r >? 0) && (ProcessedEvents r <=? StreamMaxAge (NATS c)))
    (EFmt [PStr "RETENTION_PROCESSED_EVENTS ("; PStr (DurationString (ProcessedEvents r));
           PStr ") must be GREATER than NATS_STREAM_MAX_AGE (";
           PStr (DurationString (StreamMaxAge (NATS c)));
           PStr "): a deduplication row deleted while the broker can still redeliver its message lets the consumer apply that event twice, silently and permanently"])
  ++ check (RetentionOutbox r <=? 0)
       (EFmt [PStr "RETENTION_OUTBOX ("; PStr (DurationString (RetentionOutbox r));
              PStr ") must be positive"])
  ++ check (ProcessedEvents r <=? 0)
       (EFmt [PStr "RETENTION_PROCESSED_EVENTS ("; PStr (DurationString (ProcessedEvents r));
              PStr ") must be positive"])
  ++ check (RetentionBatchSize r <=? 0)
       (EFmt [PStr "RETENTION_BATCH_SIZE ("; PInt (RetentionBatchSize r);
              PStr ") must be positive; an unbounded DELETE holds a lock for its whole duration"]).

Definition upstreamProblems (c : Config) : list error :=
  let u := Upstream c in
  check (fle (ReserveFraction u) fzero || fle fone (ReserveFraction u))
    (EFmt [PStr "UPSTREAM_RESERVE_FRACTION "; PStr (float_text (ReserveFraction u));
           PStr " must be between 0 and 1 exclusive: at 0 an upstream call consumes the caller's whole deadline and your handler is cancelled with it"])
  ++ check (UpstreamDefaultTimeout u <=? 0)
       (EFmt [PStr "UPSTREAM_DEFAULT_TIMEOUT must be positive, got ";
              PStr (DurationString (UpstreamDefaultTimeout u))])
  ++ check (MinBudget u <=? 0)
       (EFmt [PStr "UPSTREAM_MIN_BUDGET must be positive, got ";
              PStr (DurationString (MinBudget u))])
  ++ check (MinBudget u >=? UpstreamDefaultTimeout u)
       (EFmt [PStr "UPSTREAM_MIN_BUDGET ("; PStr (DurationString (MinBudget u));
              PStr ") must be less than UPSTREAM_DEFAULT_TIMEOUT (";
              PStr (DurationString (UpstreamDefaultTimeout u));
              PStr "), or every call with no deadline is refused before it is made"]).

(** The rules that stand alone, at the end of [Validate]. *)
Definition boundsProblems (c : Config) : list error :=
  check (MaxOpenConns (Postgres c) <=? 0)
       (errorsNew "POSTGRES_MAX_OPEN_CONNS must be positive and explicit")
  ++ check (MaxTimeout (Server c) <? DefaultTimeout (Server c))
       (EFmt [PStr "MAX_TIMEOUT ("; PStr (DurationString (MaxTimeout (Server c)));
              PStr ") must be >= DEFAULT_TIMEOUT (";
              PStr (DurationString (DefaultTimeout (Server c))); PStr ")"])
  ++ check (flt (TraceSampleRatio (Telemetry c)) fzero || flt fone (TraceSampleRatio (Telemetry c)))
       (EFmt [PStr "OTEL_TRACE_SAMPLE_RATIO "; PStr (float_text (TraceSampleRatio (Telemetry c)));
              PStr " must be between 0 and 1"])
  ++ check (negb (oneOf (LogFormat c) ["json"; "text"]))
       (EFmt [PStr "LOG_FORMAT "; PQuote (LogFormat c); PStr " must be json or text"])
  ++ match parseLevel (LogLevel c) with Ok _ => [] | Err e => [e] end.

(** Every problem of a configuration, in the order the code finds them. *)
Definition problems (c : Config) : list error :=
  check (negb (oneOf (AppEnv c) [EnvDevelopment; EnvStaging; EnvProduction]))
    (EFmt [PStr "APP_ENV "; PQuote (AppEnv c);
           PStr " must be one of development, staging, production"])
  ++ check (negb (oneOf (StoreDriver c) [StoreMemory; StorePostgres]))
       (EFmt [PStr "STORE_DRIVER "; PQuote (StoreDriver c);
              PStr " must be one of memory, postgres"])
  ++ check (negb (oneOf (AuthMode c) [AuthDev; AuthOIDC]))
       (EFmt [PStr "AUTH_MODE "; PQuote (AuthMode c); PStr " must be one of dev, oidc"])
  ++ check (bool_decide (CRole c = RoleServer) && (AppEnv c =? EnvProduction)%string
            && (AuthMode c =? AuthDev)%string)
       (errorsNew "AUTH_MODE=dev is refused when APP_ENV=production: the dev verifier accepts any token")
  ++ check ((AppEnv c =? EnvProduction)%string && AllowInsecureIssuer (OIDC c))
       (errorsNew "OIDC_ALLOW_INSECURE_ISSUER=true is refused when APP_ENV=production: it permits an http:// issuer on a routable host, so bearer tokens and signing keys would cross the network in cleartext")
  ++ check (bool_decide (CRole c = RoleWorker) && (Reveal (DSN (Postgres c)) =? "")%string)
       (errorsNew "POSTGRES_DSN is required: the outbox lives in the database")
  ++ check ((StoreDriver c =? StorePostgres)%string && (Reveal (DSN (Postgres c)) =? "")%string)
       (errorsNew "POSTGRES_DSN is required when STORE_DRIVER=postgres")
  ++ retentionProblems c
  ++ oidcProblems c
  ++ redisProblems c
  ++ check (OutboxBatchSize (Outbox c) <=? 0)
       (EFmt [PStr "OUTBOX_BATCH_SIZE must be positive, got "; PInt (OutboxBatchSize (Outbox c))])
  ++ check (MaxConns (Outbox c) <=? 0)
       (EFmt [PStr "OUTBOX_MAX_CONNS must be positive, got "; PInt (MaxConns (Outbox c))])
  ++ validateNATS c
  ++ upstreamProblems c
  ++ boundsProblems c.

Definition Validate (c : Config) : option error := errorsJoin (problems c).

(** [if cfg.Server.AdmissionLimit == 0 { ... = MaxOpenConns * 4 }]. *)
Definition deriveAdmission (c : Config) : Config :=
  let s := Server c in
  if AdmissionLimit s =? 0
  then mkConfig (CRole c) (AppEnv c) (ServiceName c) (Version c) (GRPCAddr c) (AdminAddr c)
         (GatewayAddr c) (LogLevel c) (LogFormat c) (StoreDriver c) (AuthMode c) (Postgres c)
         (OIDC c) (Redis c) (Outbox c) (Retention c) (NATS c) (Upstream c) (Telemetry c)
         (mkServer (MaxConcurrentStreams s) (MaxRecvMsgBytes s) (MaxConnectionAge s)
            (MaxConnectionAgeGrace s) (KeepaliveMinTime s)
            (wrap64 (MaxOpenConns (Postgres c) * 4)) (DefaultTimeout s) (MaxTimeout s))
         (Shutdown c)
  else c.

Definition ParseFor (e : env) (role : Role) : result Config :=
  let '(cfg, errs) := readConfig role e [] in
  match errorsJoin errs with
  | Some err => Err err
  | None =>
      let cfg := deriveAdmission cfg in
      match Validate cfg with
      | Some err => Err err
      | None => Ok cfg
      end
  end.

Definition Parse (e : env) : result Config := ParseFor e RoleServer.

(** The process environment, as [os.Environ] lists it. *)
Definition Load (entries : list string) : result Config := Parse (environ entries).
Definition LoadWorker (entries : list string) : result Config :=
  ParseFor (environ entries) RoleWorker.

End Validation.
