(* ===== verification/ConfigSpec.v ===== *)
(** What a loaded configuration guarantees: every malformed variable and every setting
    that breaks a rule is reported at once, and a configuration that loads satisfies the rules the
    other components rely on. *)

From Stdlib Require Import SpecFloat.
From S2P Require Import Prelude GoErr GoStr GoNum Config.
From S2P Require Events EventsSpec.

(** * The typed variables *)

Inductive kind := KBool | KInt | KFloat | KDur.
#[export] Instance kind_eq : EqDecision kind.
Proof. solve_decision. Defined.

Definition kind_parses (k : kind) (raw : string) : bool :=
  match k with
  | KBool => bool_decide (is_Some (ParseBool raw))
  | KInt => bool_decide (is_Some (Atoi raw))
  | KFloat => match ParseFloat raw with Some _ => true | None => false end
  | KDur => bool_decide (is_Some (ParseDuration raw))
  end.

Definition kind_complaint (k : kind) : string :=
  match k with
  | KBool => " is not a boolean (try true or false)"
  | KInt => " is not an integer"
  | KFloat => " is not a number"
  | KDur => " is not a duration (try 30s, 5m)"
  end.

(** The variables that are not plain text, in the order they are read. *)
Definition settings : list (string * kind) :=
  [("POSTGRES_MAX_OPEN_CONNS", KInt); ("POSTGRES_MAX_IDLE_CONNS", KInt);
   ("POSTGRES_CONN_MAX_LIFETIME", KDur); ("POSTGRES_CONN_MAX_IDLE_TIME", KDur);
   ("OIDC_LEEWAY", KDur); ("OIDC_MAX_KEY_AGE", KDur); ("OIDC_ALLOW_INSECURE_ISSUER", KBool);
   ("REDIS_DB", KInt); ("RATE_LIMIT_PER_MINUTE", KInt); ("RATE_LIMIT_BURST", KInt);
   ("OUTBOX_BATCH_SIZE", KInt); ("OUTBOX_POLL_INTERVAL", KDur); ("OUTBOX_MAX_CONNS", KInt);
   ("OUTBOX_OBSERVE_INTERVAL", KDur);
   ("RETENTION_OUTBOX", KDur); ("RETENTION_PROCESSED_EVENTS", KDur);
   ("RETENTION_BATCH_SIZE", KInt);
   ("NATS_DUPLICATE_WINDOW", KDur); ("NATS_STREAM_MAX_AGE", KDur); ("NATS_MAX_DELIVER", KInt);
   ("NATS_ACK_WAIT", KDur);
   ("UPSTREAM_DEFAULT_TIMEOUT", KDur); ("UPSTREAM_RESERVE_FRACTION", KFloat);
   ("UPSTREAM_MIN_BUDGET", KDur);
   ("OTEL_TRACE_SAMPLE_RATIO", KFloat);
   ("GRPC_MAX_CONCURRENT_STREAMS", KInt); ("GRPC_MAX_RECV_MSG_BYTES", KInt);
   ("GRPC_MAX_CONNECTION_AGE", KDur); ("GRPC_MAX_CONNECTION_AGE_GRACE", KDur);
   ("GRPC_KEEPALIVE_MIN_TIME", KDur); ("ADMISSION_LIMIT", KInt); ("DEFAULT_TIMEOUT", KDur);
   ("MAX_TIMEOUT", KDur);
   ("SHUTDOWN_DRAIN_DELAY", KDur); ("SHUTDOWN_GRACE_PERIOD", KDur)].

(** The variable is set to a text that is not of its kind. *)
Definition malformed (e : env) (s : string * kind) : bool :=
  match e !! s.1 with
  | Some raw => negb (raw =? "")%string && negb (kind_parses s.2 raw)
  | None => false
  end.

Definition complaint (e : env) (s : string * kind) : error :=
  EFmt [PStr s.1; PStr ": "; PQuote (default "" (e !! s.1)); PStr (kind_complaint s.2)].

Definition complaints (e : env) : list error :=
  complaint e <$> List.filter (malformed e) settings.

(** * Readers that report what [l] says *)

Definition reads {A} (m : parser A) (l : list (string * kind)) : Prop :=
  forall e errs, m e errs = ((m e []).1, errs ++ (complaint e <$> List.filter (malformed e) l)).

Lemma reads_ret {A} (a : A) : reads (mret a) [].
Proof. intros e errs. cbn. by rewrite app_nil_r. Qed.

Lemma reads_bind {A B} (m : parser A) (k : A -> parser B) l l' :
  reads m l -> (forall a, reads (k a) l') -> reads (m ≫= k) (l ++ l').
Proof.
  intros Hm Hk e errs. unfold mbind, parser_bind. rewrite (Hm e errs), (Hm e []).
  rewrite (Hk _ e (errs ++ _)), (Hk _ e ([] ++ _)). cbn.
  by rewrite List.filter_app, fmap_app, app_assoc.
Qed.

Lemma reads_str k d : reads (str k d) [].
Proof. intros e errs. unfold str. cbn. by rewrite app_nil_r. Qed.
Lemma reads_strOptional k d : reads (strOptional k d) [].
Proof. intros e errs. unfold strOptional. cbn. by rewrite app_nil_r. Qed.

Lemma reads_typed {A} (parse : string -> option A) kd k d :
  (forall raw, kind_parses kd raw = match parse raw with Some _ => true | None => false end) ->
  reads (typed parse (kind_complaint kd) k d) [(k, kd)].
Proof.
  intros Hp e errs. unfold typed. cbn [List.filter fmap list_fmap].
  unfold malformed at 1. cbn [fst snd]. destruct (e !! k) as [raw|] eqn:Hk.
  - destruct (raw =? "")%string eqn:He; cbn; [by rewrite app_nil_r|].
    rewrite Hp. destruct (parse raw); cbn; [by rewrite app_nil_r|].
    unfold complaint. cbn [fst snd]. by rewrite Hk.
  - cbn. by rewrite app_nil_r.
Qed.

Lemma reads_bool k d : reads (boolVal k d) [(k, KBool)].
Proof. apply (reads_typed _ KBool). intros raw. cbn. by destruct (ParseBool raw). Qed.
Lemma reads_int k d : reads (intVal k d) [(k, KInt)].
Proof. apply (reads_typed _ KInt). intros raw. cbn. by destruct (Atoi raw). Qed.
Lemma reads_float k d : reads (floatVal k d) [(k, KFloat)].
Proof. by apply (reads_typed _ KFloat). Qed.
Lemma reads_dur k d : reads (dur k d) [(k, KDur)].
Proof. apply (reads_typed _ KDur). intros raw. cbn. by destruct (ParseDuration raw). Qed.

Lemma reads_eq {A} (m : parser A) l l' : reads m l -> l = l' -> reads m l'.
Proof. by intros ? ->. Qed.

Create HintDb config discriminated.
#[export] Hint Resolve reads_ret reads_str reads_strOptional reads_bool reads_int
  reads_float reads_dur : config.

Ltac reads_tac :=
  repeat first [ match goal with |- forall _, _ => intro end | solve [eauto with config] | eapply reads_bind ].

Lemma readConfig_reads role : reads (readConfig role) settings.
Proof.
  eapply reads_eq.
  - unfold readConfig, readPostgres, readOIDC, readRedis, readOutbox, readRetention, readNATS,
      readUpstream, readTelemetry, readServer, readShutdown. reads_tac.
  - reflexivity.
Qed.

Lemma readConfig_errors role e :
  readConfig role e [] = ((readConfig role e []).1, complaints e).
Proof.
  generalize (readConfig_reads role). generalize (readConfig role). intros m Hm.
  rewrite (Hm e []) at 1. unfold complaints. by rewrite (app_nil_l (_ <$> _)).
Qed.

(** * Validation *)

Lemma check_nil b e : check b e = [] <-> b = false.
Proof. by destruct b. Qed.

Lemma errorsJoin_None es : errorsJoin es = None <-> es = [].
Proof. by destruct es. Qed.

Lemma app_nil_iff {A} (l k : list A) : l ++ k = [] <-> l = [] /\ k = [].
Proof. split; [apply app_eq_nil|by intros [-> ->]]. Qed.

Lemma oneOf_elem v l : oneOf v l = true <-> v ∈ l.
Proof.
  unfold oneOf. rewrite existsb_exists. setoid_rewrite String.eqb_eq.
  setoid_rewrite <- list_elem_of_In. split; [by intros (? & ? & ->)|eauto].
Qed.

Section Spec.
Context `{Unicode} (float_text : spec_float -> string).

(** The name or prefix can be part of a subject. *)
Definition subject_ok (v : string) : Prop :=
  TrimSpace v <> "" /\ unsafe_subject v = false.

(** A broker configuration that can be served. *)
Record nats_ok (c : Config) : Prop := {
  nats_stream : subject_ok (Stream (NATS c));
  nats_prefix : subject_ok (SubjectPrefix (NATS c));
  nats_dlq : subject_ok (DLQSubjectPrefix (NATS c));
  nats_consumer : subject_ok (Consumer (NATS c));
  nats_no_loop : prefixed (DLQSubjectPrefix (NATS c)) (SubjectPrefix (NATS c)) = false;
  nats_window : 0 < DuplicateWindow (NATS c) /\ PollInterval (Outbox c) < DuplicateWindow (NATS c);
  nats_max_age : 0 < StreamMaxAge (NATS c);
  nats_max_deliver : 0 < MaxDeliver (NATS c);
  nats_ack_wait : 0 < AckWait (NATS c) }.

(** The rules a configuration obeys before a process starts on it. *)
Record well_configured (c : Config) : Prop := {
  wc_env : AppEnv c ∈ [EnvDevelopment; EnvStaging; EnvProduction];
  wc_store : StoreDriver c ∈ [StoreMemory; StorePostgres];
  wc_auth : AuthMode c ∈ [AuthDev; AuthOIDC];
  wc_no_dev_auth : CRole c = RoleServer -> AppEnv c = EnvProduction -> AuthMode c <> AuthDev;
  wc_no_insecure : AppEnv c = EnvProduction -> AllowInsecureIssuer (OIDC c) = false;
  wc_dsn : CRole c = RoleWorker \/ StoreDriver c = StorePostgres ->
    Reveal (DSN (Postgres c)) <> "";
  wc_retention : StreamMaxAge (NATS c) < ProcessedEvents (Retention c) /\
    0 < ProcessedEvents (Retention c) /\ 0 < RetentionOutbox (Retention c) /\
    0 < RetentionBatchSize (Retention c);
  wc_oidc : AuthMode c = AuthOIDC -> IssuerURL (OIDC c) <> "" /\ Audience (OIDC c) <> "" /\
    TrimSpace (TenantClaim (OIDC c)) <> "";
  wc_redis : RedisAddr (Redis c) <> "" ->
    0 < RateLimitPerMinute (Redis c) /\ 0 < RateLimitBurst (Redis c);
  wc_outbox : 0 < OutboxBatchSize (Outbox c) /\ 0 < MaxConns (Outbox c);
  wc_nats : URL (NATS c) <> "" -> nats_ok c;
  wc_reserve : fle (ReserveFraction (Upstream c)) fzero = false /\
    fle fone (ReserveFraction (Upstream c)) = false;
  wc_budget : 0 < MinBudget (Upstream c) < UpstreamDefaultTimeout (Upstream c);
  wc_pool : 0 < MaxOpenConns (Postgres c);
  wc_timeouts : DefaultTimeout (Server c) <= MaxTimeout (Server c);
  wc_ratio : flt (TraceSampleRatio (Telemetry c)) fzero = false /\
    flt fone (TraceSampleRatio (Telemetry c)) = false;
  wc_format : LogFormat c ∈ ["json"; "text"];
  wc_level : is_ok (parseLevel (LogLevel c)) = true }.

Lemma subject_check_nil name v :
  (if (TrimSpace v =? "")%string
   then [EFmt [PStr name; PStr " must not be empty when NATS_URL is set"]]
   else check (unsafe_subject v)
          (EFmt [PStr name; PStr " "; PQuote v;
                 PStr " must not contain a wildcard (* or >) or whitespace"])) = [] <->
  subject_ok v.
Proof.
  unfold subject_ok. destruct (String.eqb_spec (TrimSpace v) "").
  - split; [done|by intros []].
  - rewrite check_nil. tauto.
Qed.

Lemma window_nil n p e e' :
  (if n <=? 0 then [e] else check (n <=? p) e') = [] <-> 0 < n /\ p < n.
Proof.
  destruct (Z.leb_spec n 0); [split; [done|lia]|]. rewrite check_nil, Z.leb_gt. lia.
Qed.

Lemma validateNATS_nil c : validateNATS c = [] <-> (URL (NATS c) <> "" -> nats_ok c).
Proof.
  unfold validateNATS. destruct (String.eqb_spec (URL (NATS c)) ""); [by split|].
  cbn [fmap list_fmap concat]. rewrite app_nil_r, !app_nil_iff.
  rewrite !subject_check_nil, !check_nil, window_nil, !Z.leb_gt.
  split; [intros Hn _; decompose [and] Hn; split; tauto|intros Hok; destruct (Hok n); tauto].
Qed.

Lemma retentionProblems_nil c : retentionProblems c = [] <->
  StreamMaxAge (NATS c) < ProcessedEvents (Retention c) /\
  0 < ProcessedEvents (Retention c) /\ 0 < RetentionOutbox (Retention c) /\
  0 < RetentionBatchSize (Retention c).
Proof.
  unfold retentionProblems. rewrite !app_nil_iff, !check_nil, !Z.leb_gt, andb_false_iff,
    Z.gtb_ltb, Z.ltb_ge, Z.leb_gt. lia.
Qed.

Lemma oidcProblems_nil c : oidcProblems c = [] <->
  (AuthMode c = AuthOIDC -> IssuerURL (OIDC c) <> "" /\ Audience (OIDC c) <> "" /\
    TrimSpace (TenantClaim (OIDC c)) <> "").
Proof.
  unfold oidcProblems. destruct (String.eqb_spec (AuthMode c) AuthOIDC); [|by split].
  rewrite !app_nil_iff, !check_nil, !String.eqb_neq. tauto.
Qed.

Lemma redisProblems_nil c : redisProblems c = [] <->
  (RedisAddr (Redis c) <> "" -> 0 < RateLimitPerMinute (Redis c) /\ 0 < RateLimitBurst (Redis c)).
Proof.
  unfold redisProblems. destruct (String.eqb_spec (RedisAddr (Redis c)) ""); [by split|].
  rewrite !app_nil_iff, !check_nil, !Z.leb_gt. tauto.
Qed.

Lemma upstreamProblems_nil c : upstreamProblems float_text c = [] <->
  (fle (ReserveFraction (Upstream c)) fzero = false /\
   fle fone (ReserveFraction (Upstream c)) = false) /\
  0 < MinBudget (Upstream c) < UpstreamDefaultTimeout (Upstream c).
Proof.
  unfold upstreamProblems.
  rewrite !app_nil_iff, !check_nil, !Z.leb_gt, orb_false_iff, Z.geb_leb, Z.leb_gt.
  split; intros; destruct_and?; split_ands; try done; lia.
Qed.

Lemma guard_dev c :
  bool_decide (CRole c = RoleServer) && (AppEnv c =? EnvProduction)%string
    && (AuthMode c =? AuthDev)%string = false <->
  (CRole c = RoleServer -> AppEnv c = EnvProduction -> AuthMode c <> AuthDev).
Proof.
  rewrite !andb_false_iff, bool_decide_eq_false, !String.eqb_neq.
  destruct (CRole c); [|intuition congruence].
  destruct (String.eqb_spec (AppEnv c) EnvProduction); intuition congruence.
Qed.

Lemma guard_dsn c :
  bool_decide (CRole c = RoleWorker) && (Reveal (DSN (Postgres c)) =? "")%string = false /\
  (StoreDriver c =? StorePostgres)%string && (Reveal (DSN (Postgres c)) =? "")%string = false <->
  (CRole c = RoleWorker \/ StoreDriver c = StorePostgres -> Reveal (DSN (Postgres c)) <> "").
Proof.
  rewrite !andb_false_iff, bool_decide_eq_false, !String.eqb_neq.
  destruct (String.eqb_spec (Reveal (DSN (Postgres c))) "") as [->|];
    destruct (CRole c); intuition congruence.
Qed.

(** [Validate] accepts exactly the well-configured configurations. *)
Lemma Validate_decides c : Validate float_text c = None <-> well_configured c.
Proof.
  unfold Validate, problems, boundsProblems. rewrite errorsJoin_None, !app_nil_iff, !check_nil.
  rewrite !negb_false_iff, !oneOf_elem, retentionProblems_nil, oidcProblems_nil,
    redisProblems_nil, validateNATS_nil, upstreamProblems_nil, guard_dev.
  rewrite !Z.leb_gt, Z.ltb_ge, orb_false_iff.
  rewrite (andb_false_iff _ (AllowInsecureIssuer _)), String.eqb_neq.
  assert ((match parseLevel (LogLevel c) with Ok _ => [] | Err e => [e] end) = [] <->
          is_ok (parseLevel (LogLevel c)) = true) as -> by (by destruct (parseLevel _)).
  pose proof (guard_dsn c). split.
  - intros. destruct_and?. split; tauto.
  - intros []. destruct_and?.
    assert (AppEnv c <> EnvProduction \/ AllowInsecureIssuer (OIDC c) = false).
    { destruct (String.eqb_spec (AppEnv c) EnvProduction); auto. }
    tauto.
Qed.


(** * Loading *)

(** Every result of the reader satisfies [P]. *)
Definition yields {A} (m : parser A) (P : A -> Prop) : Prop := forall e errs, P (m e errs).1.

Lemma yields_bind {A B} (m : parser A) (k : A -> parser B) P :
  (forall a, yields (k a) P) -> yields (m ≫= k) P.
Proof. intros Hk e errs. unfold mbind, parser_bind. destruct (m e errs). apply Hk. Qed.

Lemma readConfig_role role : yields (readConfig role) (fun c => CRole c = role).
Proof. repeat (apply yields_bind; intros ?). by intros e errs. Qed.

(** The same with what is known of the value read first. *)
Lemma yields_then {A B} (m : parser A) (k : A -> parser B) (Q : A -> Prop) P :
  yields m Q -> (forall a, Q a -> yields (k a) P) -> yields (m ≫= k) P.
Proof.
  intros Hm Hk e errs. unfold mbind, parser_bind. specialize (Hm e errs).
  destruct (m e errs). by apply Hk.
Qed.

Lemma yields_ret {A} (a : A) (P : A -> Prop) : P a -> yields (mret a) P.
Proof. by intros ? e errs. Qed.

Lemma yields_typed {A} (parse : string -> option A) msg k d (P : A -> Prop) :
  P d -> (forall s v, parse s = Some v -> P v) -> yields (typed parse msg k d) P.
Proof.
  intros Hd Hp e errs. unfold typed. destruct (e !! k) as [raw|]; [|done].
  destruct (raw =? "")%string; [done|]. destruct (parse raw) eqn:E; [|done].
  by eapply Hp.
Qed.

Lemma yields_int k d : int_ok 64 d -> yields (intVal k d) (int_ok 64).
Proof. intros. apply yields_typed; [done|apply Atoi_width]. Qed.
Lemma yields_dur k d : int_ok 64 d -> yields (dur k d) (int_ok 64).
Proof. intros. apply yields_typed; [done|apply ParseDuration_width]. Qed.

(** Reads a section of the configuration: known integers and durations keep their width. *)
Ltac width_step :=
  first [ eapply yields_then; [first [apply yields_int | apply yields_dur]; by vm_compute|];
          intros ? ?
        | apply yields_bind; intros ? ].
Ltac width_tac := repeat width_step; apply yields_ret; by split_ands.

Definition postgres_width (p : PostgresConfig) : Prop :=
  int_ok 64 (MaxOpenConns p) /\ int_ok 64 (MaxIdleConns p) /\ int_ok 64 (ConnMaxLifetime p) /\
  int_ok 64 (ConnMaxIdleTime p).
Definition oidc_width (o : OIDCConfig) : Prop := int_ok 64 (Leeway o) /\ int_ok 64 (MaxKeyAge o).
Definition redis_width (r : RedisConfig) : Prop :=
  int_ok 64 (RedisDB r) /\ int_ok 64 (RateLimitPerMinute r) /\ int_ok 64 (RateLimitBurst r).
Definition outbox_width (o : OutboxConfig) : Prop :=
  int_ok 64 (OutboxBatchSize o) /\ int_ok 64 (PollInterval o) /\ int_ok 64 (MaxConns o) /\
  int_ok 64 (ObserveInterval o).
Definition retention_width (r : RetentionConfig) : Prop :=
  int_ok 64 (RetentionOutbox r) /\ int_ok 64 (ProcessedEvents r) /\
  int_ok 64 (RetentionBatchSize r).
Definition nats_width (n : NATSConfig) : Prop :=
  int_ok 64 (DuplicateWindow n) /\ int_ok 64 (StreamMaxAge n) /\ int_ok 64 (MaxDeliver n) /\
  int_ok 64 (AckWait n).
Definition upstream_width (u : UpstreamConfig) : Prop :=
  int_ok 64 (UpstreamDefaultTimeout u) /\ int_ok 64 (MinBudget u).
Definition server_width (s : ServerConfig) : Prop :=
  0 <= MaxConcurrentStreams s < 2 ^ 32 /\ int_ok 64 (MaxRecvMsgBytes s) /\
  int_ok 64 (MaxConnectionAge s) /\ int_ok 64 (MaxConnectionAgeGrace s) /\
  int_ok 64 (KeepaliveMinTime s) /\ int_ok 64 (AdmissionLimit s) /\
  int_ok 64 (DefaultTimeout s) /\ int_ok 64 (MaxTimeout s).
Definition shutdown_width (s : ShutdownConfig) : Prop :=
  int_ok 64 (DrainDelay s) /\ int_ok 64 (GracePeriod s).


Lemma readPostgres_width : yields readPostgres postgres_width.
Proof. unfold readPostgres. width_tac. Qed.
Lemma readOIDC_width : yields readOIDC oidc_width.
Proof. unfold readOIDC. width_tac. Qed.
Lemma readRedis_width : yields readRedis redis_width.
Proof. unfold readRedis. width_tac. Qed.
Lemma readOutbox_width : yields readOutbox outbox_width.
Proof. unfold readOutbox. width_tac. Qed.
Lemma readRetention_width : yields readRetention retention_width.
Proof. unfold readRetention. width_tac. Qed.
Lemma readNATS_width : yields readNATS nats_width.
Proof. unfold readNATS. width_tac. Qed.
Lemma readUpstream_width : yields readUpstream upstream_width.
Proof. unfold readUpstream. width_tac. Qed.
Lemma readServer_width : yields readServer server_width.
Proof.
  unfold readServer. repeat width_step. apply yields_ret.
  split; [by apply Z.mod_pos_bound|by split_ands].
Qed.
Lemma readShutdown_width : yields readShutdown shutdown_width.
Proof. unfold readShutdown. width_tac. Qed.

#[local] Hint Resolve readPostgres_width readOIDC_width readRedis_width readOutbox_width
  readRetention_width readNATS_width readUpstream_width readServer_width
  readShutdown_width : config.


(** ** Settings and their variables *)



(** What a reader returns for a variable. *)
Definition valueOf (parse : string -> option Z) (e : env) (k : string) (d : Z) : Z :=
  match e !! k with
  | Some raw => if (raw =? "")%string then d else default d (parse raw)
  | None => d
  end.

(** Every result the reader has in the environment [e] satisfies [P]. *)
Definition gives {A} (e : env) (m : parser A) (P : A -> Prop) : Prop := forall errs, P (m e errs).1.

Lemma gives_bind {A B} e (m : parser A) (k : A -> parser B) P :
  (forall a, gives e (k a) P) -> gives e (m ≫= k) P.
Proof. intros Hk errs. unfold mbind, parser_bind. destruct (m e errs). apply Hk. Qed.

Lemma gives_then {A B} e (m : parser A) (k : A -> parser B) (Q : A -> Prop) P :
  gives e m Q -> (forall a, Q a -> gives e (k a) P) -> gives e (m ≫= k) P.
Proof.
  intros Hm Hk errs. unfold mbind, parser_bind. specialize (Hm errs).
  destruct (m e errs). by apply Hk.
Qed.

Lemma gives_typed parse e msg k d : gives e (typed parse msg k d) (fun v => v = valueOf parse e k d).
Proof.
  intros errs. unfold typed, valueOf. destruct (e !! k) as [raw|]; [|done].
  destruct (raw =? "")%string; [done|]. by destruct (parse raw).
Qed.

Lemma gives_int e k d : gives e (intVal k d) (fun v => v = valueOf Atoi e k d).
Proof. apply gives_typed. Qed.
Lemma gives_dur e k d : gives e (dur k d) (fun v => v = valueOf ParseDuration e k d).
Proof. apply gives_typed. Qed.

(** Reads a section of the configuration: integers and durations are their variables'. *)
Ltac gives_step :=
  first [ eapply gives_then; [first [apply gives_int | apply gives_dur]|]; intros ? ->
        | apply gives_bind; intros ? ].
Ltac gives_tac := repeat gives_step; intros errs; cbn; by split_ands.

(** The settings of one section, each what its variable gives. *)
Abbreviation int_is e k d v := (v = valueOf Atoi e k d).
Abbreviation dur_is e k d v := (v = valueOf ParseDuration e k d).

Lemma readPostgres_gives e : gives e readPostgres (fun p =>
  int_is e "POSTGRES_MAX_OPEN_CONNS" 10 (MaxOpenConns p) /\
  int_is e "POSTGRES_MAX_IDLE_CONNS" 5 (MaxIdleConns p) /\
  dur_is e "POSTGRES_CONN_MAX_LIFETIME" (30 * Minute) (ConnMaxLifetime p) /\
  dur_is e "POSTGRES_CONN_MAX_IDLE_TIME" (5 * Minute) (ConnMaxIdleTime p)).
Proof. unfold readPostgres. gives_tac. Qed.
Lemma readOIDC_gives e : gives e readOIDC (fun o =>
  dur_is e "OIDC_LEEWAY" (30 * Second) (Leeway o) /\
  dur_is e "OIDC_MAX_KEY_AGE" (15 * Minute) (MaxKeyAge o)).
Proof. unfold readOIDC. gives_tac. Qed.
Lemma readRedis_gives e : gives e readRedis (fun r =>
  int_is e "REDIS_DB" 0 (RedisDB r) /\
  int_is e "RATE_LIMIT_PER_MINUTE" 600 (RateLimitPerMinute r) /\
  int_is e "RATE_LIMIT_BURST" 100 (RateLimitBurst r)).
Proof. unfold readRedis. gives_tac. Qed.
Lemma readOutbox_gives e : gives e readOutbox (fun o =>
  int_is e "OUTBOX_BATCH_SIZE" 100 (OutboxBatchSize o) /\
  dur_is e "OUTBOX_POLL_INTERVAL" Second (PollInterval o) /\
  int_is e "OUTBOX_MAX_CONNS" 2 (MaxConns o) /\
  dur_is e "OUTBOX_OBSERVE_INTERVAL" (15 * Second) (ObserveInterval o)).
Proof. unfold readOutbox. gives_tac. Qed.
Lemma readRetention_gives e : gives e readRetention (fun r =>
  dur_is e "RETENTION_OUTBOX" (168 * Hour) (RetentionOutbox r) /\
  dur_is e "RETENTION_PROCESSED_EVENTS" (192 * Hour) (ProcessedEvents r) /\
  int_is e "RETENTION_BATCH_SIZE" 1000 (RetentionBatchSize r)).
Proof. unfold readRetention. gives_tac. Qed.
Lemma readNATS_gives e : gives e readNATS (fun n =>
  dur_is e "NATS_DUPLICATE_WINDOW" (2 * Minute) (DuplicateWindow n) /\
  dur_is e "NATS_STREAM_MAX_AGE" (168 * Hour) (StreamMaxAge n) /\
  int_is e "NATS_MAX_DELIVER" 5 (MaxDeliver n) /\
  dur_is e "NATS_ACK_WAIT" (30 * Second) (AckWait n)).
Proof. unfold readNATS. gives_tac. Qed.
Lemma readUpstream_gives e : gives e readUpstream (fun u =>
  dur_is e "UPSTREAM_DEFAULT_TIMEOUT" (10 * Second) (UpstreamDefaultTimeout u) /\
  dur_is e "UPSTREAM_MIN_BUDGET" (50 * Millisecond) (MinBudget u)).
Proof. unfold readUpstream. gives_tac. Qed.
Lemma readServer_gives e : gives e readServer (fun s =>
  MaxConcurrentStreams s = uwrap 32 (valueOf Atoi e "GRPC_MAX_CONCURRENT_STREAMS" 250) /\
  int_is e "GRPC_MAX_RECV_MSG_BYTES" 4194304 (MaxRecvMsgBytes s) /\
  dur_is e "GRPC_MAX_CONNECTION_AGE" (30 * Minute) (MaxConnectionAge s) /\
  dur_is e "GRPC_MAX_CONNECTION_AGE_GRACE" (30 * Second) (MaxConnectionAgeGrace s) /\
  dur_is e "GRPC_KEEPALIVE_MIN_TIME" (30 * Second) (KeepaliveMinTime s) /\
  int_is e "ADMISSION_LIMIT" 0 (AdmissionLimit s) /\
  dur_is e "DEFAULT_TIMEOUT" (15 * Second) (DefaultTimeout s) /\
  dur_is e "MAX_TIMEOUT" (60 * Second) (MaxTimeout s)).
Proof. unfold readServer. gives_tac. Qed.
Lemma readShutdown_gives e : gives e readShutdown (fun s =>
  dur_is e "SHUTDOWN_DRAIN_DELAY" (5 * Second) (DrainDelay s) /\
  dur_is e "SHUTDOWN_GRACE_PERIOD" (25 * Second) (GracePeriod s)).
Proof. unfold readShutdown. gives_tac. Qed.

#[local] Hint Resolve readPostgres_gives readOIDC_gives readRedis_gives readOutbox_gives
  readRetention_gives readNATS_gives readUpstream_gives readServer_gives
  readShutdown_gives : config.



#[local] Opaque readConfig.

(** The configuration the environment describes, defaults filled in. *)
Definition described (e : env) (role : Role) : Config :=
  deriveAdmission (readConfig role e []).1.

(** Loading reports every malformed variable in one error, in the order the code reads
    them; when none is, every problem of the resulting settings in one error; and when
    there is none either, it returns the described configuration. *)
Theorem ParseFor_reports_all e role :
  ParseFor float_text e role =
    match complaints e, problems float_text (described e role) with
    | (_ :: _) as cs, _ => Err (EJoin cs)
    | [], (_ :: _) as ps => Err (EJoin ps)
    | [], [] => Ok (described e role)
    end.
Proof.
  pose proof (readConfig_errors role e) as Hr.
  unfold ParseFor, Validate, described. destruct (readConfig role e []) as [c errs].
  injection Hr as ->. cbn [fst]. destruct (complaints e); cbn [errorsJoin]; [|reflexivity].
  destruct (problems _ _); reflexivity.
Qed.

Lemma ParseFor_Ok e role c :
  ParseFor float_text e role = Ok c <->
  complaints e = [] /\ c = described e role /\ well_configured c.
Proof.
  rewrite <- Validate_decides, ParseFor_reports_all. unfold Validate.
  destruct (complaints e); [|split; [intros [=]|intros (? & _); done]].
  destruct (problems float_text (described e role)) eqn:Hp.
  - split; [intros [= <-]; by rewrite Hp|by intros (_ & -> & _)].
  - split; [intros [=]|]. intros (_ & -> & Hn). by rewrite Hp in Hn.
Qed.

Lemma described_role e role : CRole (described e role) = role.
Proof.
  pose proof (readConfig_role role e []) as Hr. unfold described, deriveAdmission.
  by destruct (_ =? 0).
Qed.

(** C22. Whatever the environment, a process starts only on a configuration that obeys every rule
    of [Validate] ([well_configured]), for the role its binary asked for.  In particular a
    production server that starts verifies tokens by OIDC, names an issuer and an audience,
    and does not permit a cleartext issuer on a routable host; a worker has a database; and
    deduplication rows are kept longer than the stream keeps its messages.  The rules are not
    complete: a NaN passes the checks of the two fractions ([nan_accepted]) and event subjects
    inside the dead-letter subtree pass the check of the prefixes
    ([dead_letter_loop_accepted]). *)
Theorem loaded_is_coherent e role c :
  ParseFor float_text e role = Ok c ->
  well_configured c /\ CRole c = role /\
  (role = RoleServer -> AppEnv c = EnvProduction ->
   AuthMode c = AuthOIDC /\ IssuerURL (OIDC c) <> "" /\ Audience (OIDC c) <> "" /\
   AllowInsecureIssuer (OIDC c) = false) /\
  (role = RoleWorker -> Reveal (DSN (Postgres c)) <> "") /\
  StreamMaxAge (NATS c) < ProcessedEvents (Retention c).
Proof.
  rewrite ParseFor_Ok. intros (_ & -> & Hc). pose proof (described_role e role) as Hr.
  split_ands; [done|done| |intros ->; apply (wc_dsn _ Hc); by left|apply (wc_retention _ Hc)]. intros -> He.
  assert (AuthMode (described e RoleServer) = AuthOIDC) as Ha.
  { pose proof (wc_auth _ Hc) as Hm. pose proof (wc_no_dev_auth _ Hc Hr He).
    rewrite !elem_of_cons, elem_of_nil in Hm. tauto. }
  pose proof (wc_oidc _ Hc Ha). split_ands; try tauto. by apply wc_no_insecure.
Qed.












(** * The dead-letter subtree *)

(** The consumer's [FilterSubject]: [SubjectPrefix + ".>"]. *)
Definition FilterSubject (c : Config) (subject : string) : bool :=
  HasPrefix subject (SubjectPrefix (NATS c) +:+ ".").

(** The part of the configuration the consumer works with. *)
Definition consumerConfig (c : Config) : Events.NATSConfig :=
  Events.mkNATS (MaxDeliver (NATS c)) (DLQSubjectPrefix (NATS c)).

Lemma prefixed_app s p : prefixed s p = true <-> s = p \/ exists r, s = p +:+ "." +:+ r.
Proof.
  unfold prefixed, HasPrefix. rewrite orb_true_iff, String.eqb_eq, prefix_app.
  split; (intros [->|[r Hr]]; [by left|right; exists r]); apply to_list_inj;
    rewrite Hr, !to_list_app; by rewrite <- ?app_assoc.
Qed.

Lemma subtrees_disjoint p d s :
  prefixed d p = false -> prefixed p d = false ->
  HasPrefix (d +:+ "." +:+ s) (p +:+ ".") = false.
Proof.
  intros Hd Hp. destruct (HasPrefix _ _) eqn:Hx; [|done]. exfalso.
  apply prefix_app in Hx as [r Hr]. apply (f_equal to_list) in Hr.
  rewrite !to_list_app in Hr. change (to_list ".") with ["."%char] in Hr.
  rewrite <- app_assoc in Hr.
  assert (forall u v k, to_list u = to_list v ++ k -> k = [] \/ (exists k', k = "."%char :: k') ->
            prefixed u v = true) as Hin.
  { intros u v k Hu Hk. apply prefixed_app. destruct Hk as [->|[k' ->]].
    - left. apply to_list_inj. by rewrite Hu, app_nil_r.
    - right. exists (of_list k'). apply to_list_inj.
      rewrite !to_list_app, Hu. unfold of_list, to_list at 4.
      by rewrite list_ascii_of_string_of_list_ascii. }
  apply app_eq_inv in Hr as [(k & Hk & Hr)|(k & Hk & Hr)].
  - rewrite (Hin d p k Hk) in Hd; [done|]. destruct k as [|c k]; [by left|right].
    injection Hr as -> _. eauto.
  - rewrite (Hin p d k Hk) in Hp; [done|]. destruct k as [|c k]; [by left|right].
    injection Hr as -> _. eauto.
Qed.

(** Under a configuration that loads with a broker, a dead letter never comes back to the
    consumer that gave up on it, as long as the events themselves do not live inside the
    dead-letter subtree. *)
Theorem dead_letters_stay_out `{Events.EventLib} e role c entries msg ev cause :
  ParseFor float_text e role = Ok c -> URL (NATS c) <> "" ->
  prefixed (SubjectPrefix (NATS c)) (DLQSubjectPrefix (NATS c)) = false ->
  FilterSubject c
    (Events.MsgSubject (Events.deadLetterCopy (consumerConfig c) entries msg ev cause)) = false.
Proof.
  rewrite ParseFor_Ok. intros (_ & _ & Hc) Hu Hp.
  apply subtrees_disjoint; [|done]. apply nats_no_loop. by apply wc_nats.
Qed.

End Spec.

(** * At concrete environments *)

#[local] Existing Instance ascii_tables.
#[local] Existing Instance EventsSpec.plain_events.

Definition production : env := environ
  ["APP_ENV=production"; "AUTH_MODE=oidc"; "OIDC_ISSUER_URL=https://id.example";
   "OIDC_AUDIENCE=orders"; "STORE_DRIVER=postgres"; "POSTGRES_DSN=postgres://db";
   "NATS_URL=nats://broker:4222"; "RETENTION_PROCESSED_EVENTS=193h30m"].

Definition quiet (x : spec_float) : string := "".

Definition loaded (r : result Config) : Config :=
  match r with Ok c => c | Err _ => (readConfig RoleServer ∅ []).1 end.

Lemma loaded_is_coherent_witness :
  let c := loaded (ParseFor quiet production RoleServer) in
  AuthMode c = AuthOIDC /\ AppEnv c = "production" /\
  ProcessedEvents (Retention c) = 193 * Hour + 30 * Minute /\
  AdmissionLimit (Server c) = 40 /\ well_configured c.
Proof.
  intros c.
  destruct (loaded_is_coherent quiet production RoleServer c ltac:(vm_compute; reflexivity))
    as (Hw & _ & Hp & _).
  split_ands; [apply Hp; by vm_compute|by vm_compute..|exact Hw].
Defined.

Lemma dead_letters_stay_out_witness :
  let c := loaded (ParseFor quiet production RoleWorker) in
  let msg := Events.mkMsg "events.order.v1.OrderCreated" ∅ "{}" in
  let ev := Events.eventFrom msg (Events.mkMeta 5 0 "EVENTS" 1) in
  FilterSubject c (Events.MsgSubject msg) = true /\
  FilterSubject c (Events.MsgSubject
    (Events.deadLetterCopy (consumerConfig c) [] msg ev (errorsNew "poison"))) = false.
Proof.
  intros c msg ev. split; [by vm_compute|].
  apply (dead_letters_stay_out quiet production RoleWorker);
    [vm_compute; reflexivity|by vm_compute|by vm_compute].
Defined.



(** The check of the dead-letter prefix looks at one direction only: events that live
    inside the dead-letter subtree are accepted, and then the consumer's own filter selects
    the dead letters it has just written. *)
Lemma dead_letter_loop_accepted :
  let c := loaded (ParseFor quiet (environ
    ["POSTGRES_DSN=postgres://db"; "NATS_URL=nats://broker:4222";
     "NATS_SUBJECT_PREFIX=dlq.dlq"; "NATS_DLQ_SUBJECT_PREFIX=dlq"]) RoleWorker) in
  let msg := Events.mkMsg "dlq.dlq.OrderCreated" ∅ "{}" in
  let ev := Events.eventFrom msg (Events.mkMeta 5 0 "EVENTS" 1) in
  Validate quiet c = None /\ FilterSubject c (Events.MsgSubject msg) = true /\
  FilterSubject c (Events.MsgSubject
    (Events.deadLetterCopy (consumerConfig c) [] msg ev (errorsNew "poison"))) = true.
Proof. by vm_compute. Qed.

(** A reserve fraction that is not a number is neither at most 0 nor at least 1, and a
    sampling ratio that is not a number is neither below 0 nor above 1: both load. *)
Lemma nan_accepted :
  match ParseFor quiet (environ
    ["UPSTREAM_RESERVE_FRACTION=NaN"; "OTEL_TRACE_SAMPLE_RATIO=nan"]) RoleServer with
  | Ok c => ReserveFraction (Upstream c) = S754_nan /\ TraceSampleRatio (Telemetry c) = S754_nan
  | Err _ => False
  end.
Proof. by vm_compute. Qed.

(** The conversion to uint32 keeps the low bits: a limit of 2^32 streams loads as 0. *)
Lemma streams_wrap :
  match ParseFor quiet (environ ["GRPC_MAX_CONCURRENT_STREAMS=4294967296"]) RoleServer with
  | Ok c => MaxConcurrentStreams (Server c) = 0
  | Err _ => False
  end.
Proof. by vm_compute. Qed.

(** Two malformed variables and a third problem: only the malformed ones are reported, in
    the order they are read. *)
Example two_complaints :
  ParseFor quiet (environ ["OIDC_LEEWAY=soon"; "REDIS_DB=one"; "APP_ENV=moon"]) RoleServer =
  Err (EJoin [EFmt [PStr "OIDC_LEEWAY"; PStr ": "; PQuote "soon";
                    PStr " is not a duration (try 30s, 5m)"];
              EFmt [PStr "REDIS_DB"; PStr ": "; PQuote "one"; PStr " is not an integer"]]).
Proof. by vm_compute. Qed.
