(* ===== verification/OrderPg.v ===== *)
(** internal/order/orderpg and internal/platform/gormx/tenant.go: the Postgres store.

    The three tables are values and each statement GORM sends is a function on them that
    succeeds, or fails leaving them alone.  [Answers] is what the connection makes of the
    statements to come: an answer, or a failure, which for a COMMIT and for a statement
    outside a transaction may still have been applied.  A transaction is BEGIN, the body,
    COMMIT; inside [InTx] it is a SAVEPOINT.  The sequence behind the outbox ids is not
    rolled back.

    What Postgres makes of a uuid, text, char(3), timestamptz or jsonb value and what
    encoding/json makes of an order are the fields of [PgLib]; [PgLaws] is what the code
    relies on. *)

From S2P Require Import Prelude GoErr GoStr Money Order Cursor Store Paging.
From S2P Require Outbox OutboxSpec.

Class PgLib := {
  pg_uuid : string -> option string;     (* the canonical text of a uuid *)
  pg_text : string -> bool;              (* UTF-8 without a NUL byte *)
  pg_char3 : string -> option string;    (* what a char(3) column returns *)
  pg_time : Z -> Z;                      (* what a timestamptz column keeps *)
  pg_jsonb : string -> option string;    (* what a jsonb column returns *)
  order_Marshal : Order -> result string;
  order_Unmarshal : string -> result Order }.

(** * model.go *)

Record itemRow := mkItemRow {
  iOrderID : string; iLineNo : Z; iSKU : string; iQuantity : Z;
  iUnitCurrency : string; iUnitUnits : Z; iUnitNanos : Z }.

Record orderRow := mkOrderRow {
  rID : string; rTenantID : string; rCustomerID : string; rStatus : string;
  rCurrencyCode : string; rTotalUnits : Z; rTotalNanos : Z;
  rCreatedAt : Z; rUpdatedAt : Z; rItems : list itemRow }.

#[export] Instance itemRow_eq_dec : EqDecision itemRow.
Proof. solve_decision. Defined.
#[export] Instance orderRow_eq_dec : EqDecision orderRow.
Proof. solve_decision. Defined.

Fixpoint toItemRows (id : string) (i : nat) (items : list Item) : list itemRow :=
  match items with
  | [] => []
  | item :: rest =>
      mkItemRow id (Z.of_nat i) (SKU item) (Quantity item) (CurrencyCode (UnitPrice item))
        (Units (UnitPrice item)) (Nanos (UnitPrice item)) :: toItemRows id (S i) rest
  end.

Definition toRow (o : Order) : orderRow * list itemRow :=
  (mkOrderRow (ID o) (TenantID o) (CustomerID o) (StatusString (OStatus o))
     (CurrencyCode (OTotal o)) (Units (OTotal o)) (Nanos (OTotal o))
     (CreatedAt o) (UpdatedAt o) [],
   toItemRows (ID o) 0 (Items o)).

Section Model.
Context `{Unicode}.

Fixpoint toItems (rows : list itemRow) : result (list Item) :=
  match rows with
  | [] => Ok []
  | it :: rest =>
      price ← NewMoney (iUnitCurrency it) (iUnitUnits it) (iUnitNanos it);
      items ← toItems rest;
      mret (mkItem (iSKU it) (iQuantity it) price :: items)
  end.

Definition toDomain (row : orderRow) : result Order :=
  status ← ParseStatus (rStatus row);
  total ← NewMoney (rCurrencyCode row) (rTotalUnits row) (rTotalNanos row);
  items ← toItems (rItems row);
  mret (mkOrder (rID row) (rTenantID row) (rCustomerID row) status items total
          (rCreatedAt row) (rUpdatedAt row)).

(** The loop over a page's rows. *)
Fixpoint toDomains (rows : list orderRow) : result (list Order) :=
  match rows with
  | [] => Ok []
  | row :: rest => o ← toDomain row; os ← toDomains rest; mret (o :: os)
  end.

End Model.

Definition withItems (items : list itemRow) (r : orderRow) : orderRow :=
  mkOrderRow (rID r) (rTenantID r) (rCustomerID r) (rStatus r) (rCurrencyCode r)
    (rTotalUnits r) (rTotalNanos r) (rCreatedAt r) (rUpdatedAt r) items.

(** * gormx/tenant.go *)

(** The shapes GORM hands the guard, and the column a model declares on its value or on its
    pointer receiver. *)
Inductive shape :=
  | SStruct (valueColumn pointerColumn : option string)
  | SPointer (s : shape) | SSlice (s : shape) | SArray (s : shape)
  | SOther.

(** The type has a [TenantColumn] method: a value has those of its value receivers, a
    pointer those of both. *)
Definition asTenantScoped (s : shape) : option string :=
  match s with
  | SStruct v _ => v
  | SPointer (SStruct v p) => match v with Some c => Some c | None => p end
  | _ => None
  end.

Fixpoint elemOf (s : shape) : option string :=
  match s with
  | SPointer s | SSlice s | SArray s => elemOf s
  | SStruct _ _ => asTenantScoped (SPointer s)
  | SOther => None
  end.

(** [None] is the nil interface. *)
Fixpoint tenantScopedOf (candidates : list (option shape)) : option string :=
  match candidates with
  | [] => None
  | None :: rest => tenantScopedOf rest
  | Some c :: rest =>
      match asTenantScoped c with
      | Some col => Some col
      | None => match elemOf c with Some col => Some col | None => tenantScopedOf rest end
      end
  end.

(** The tenant value of a context; the empty string is no tenant. *)
Definition WithTenant (tenantID : string) : option string := Some tenantID.
Definition TenantFromContext (ctx : option string) : option string :=
  match ctx with
  | Some t => if (t =? "")%string then None else Some t
  | None => None
  end.

(** What the guard makes of a statement: raw SQL and models without a tenant pass, a scoped
    model gets its predicate, and a scoped model without a tenant fails. *)
Definition tenantGuard (raw : bool) (model dest : option shape) (ctx : option string)
    : result (option (string * string)) :=
  if raw then Ok None
  else match tenantScopedOf [model; dest] with
       | None => Ok None
       | Some column =>
           match TenantFromContext ctx with
           | None => Err ErrNoTenantInContext
           | Some tenant => Ok (Some (column, tenant))
           end
       end.

(** [RegisterTenantGuard]: the guard goes before GORM's own callback of four chains, in this
    order, and the first refusal is the answer.  The chain of inserts is not one of them. *)
Definition guardedChains : list (string * string) :=
  [("gorm:query", "gomicro:tenant_query"); ("gorm:update", "gomicro:tenant_update");
   ("gorm:delete", "gomicro:tenant_delete"); ("gorm:row", "gomicro:tenant_row")].

Fixpoint RegisterTenantGuard (Register : string -> string -> option error)
    (chains : list (string * string)) : option error :=
  match chains with
  | [] => None
  | (before, name) :: rest =>
      match Register before name with
      | Some err => Some err
      | None => RegisterTenantGuard Register rest
      end
  end.

(** Registration succeeds only with the guard before every query, update, delete and row scan. *)
Lemma RegisterTenantGuard_ok Register chains :
  RegisterTenantGuard Register chains = None <->
  Forall (fun c => Register c.1 c.2 = None) chains.
Proof.
  induction chains as [|[before name] rest IH]; cbn; [by split|].
  rewrite Forall_cons. cbn. destruct (Register before name); [split; [done|by intros [? _]]|]. tauto.
Qed.

(** [orderRow] declares its column on the value receiver; [itemRow] and [outboxRow] do
    not declare one. *)
Definition orderRow_shape : shape := SStruct (Some "tenant_id") None.
Definition plain_shape : shape := SStruct None None.

(** The predicate the guard adds to a statement on [orders]. *)
Definition guard (model dest : option shape) (ctx : option string) : result (orderRow -> bool) :=
  g ← tenantGuard false model dest ctx;
  mret (fun r => match g with
                 | Some (_, tenant) => (rTenantID r =? tenant)%string
                 | None => true
                 end).

(** * The database *)

Record tables := mkTables {
  TOrders : gmap string orderRow; TItems : list itemRow; TOutbox : Outbox.table }.

Inductive answer := Answered | Failed (e : error) (applied : bool).

Record pg := mkPg {
  Tables : tables; NextID : Z; Answers : list answer; Trace : string }.

(** One statement. *)
Definition stmt {A} (f : tables * Z -> result A * (tables * Z)) : stm pg A := fun s =>
  match Answers s with
  | Failed e applied :: rest =>
      let '(_, (t, n)) := f (Tables s, NextID s) in
      (Err e, mkPg (if applied then t else Tables s) (if applied then n else NextID s)
                rest (Trace s))
  | l =>
      let '(r, (t, n)) := f (Tables s, NextID s) in
      (r, mkPg t n (tail l) (Trace s))
  end.

(** A statement that reads, and one that writes the tables. *)
Definition query {A} (f : tables -> result A) : stm pg A :=
  stmt (fun '(t, n) => (f t, (t, n))).
Definition execute {A} (f : tables -> result (A * tables)) : stm pg A :=
  stmt (fun '(t, n) => match f t with
                       | Ok (a, t') => (Ok a, (t', n))
                       | Err e => (Err e, (t, n))
                       end).

Definition restore (t : tables) (s : pg) : pg := mkPg t (NextID s) (Answers s) (Trace s).

(** [db.Transaction] on a connection: BEGIN, the body, then COMMIT or ROLLBACK. *)
Definition transaction {A} (fn : stm pg A) : stm pg A := fun s =>
  match query (fun _ => Ok tt) s with
  | (Err e, s0) => (Err e, s0)
  | (Ok _, s0) =>
      match fn s0 with
      | (Err e, s1) => (Err e, restore (Tables s0) s1)
      | (Ok a, s1) =>
          match Answers s1 with
          | Failed e applied :: rest =>
              (Err e, mkPg (if applied then Tables s1 else Tables s0) (NextID s1) rest (Trace s1))
          | l => (Ok a, mkPg (Tables s1) (NextID s1) (tail l) (Trace s1))
          end
      end
  end.

(** [tx.Transaction] inside a transaction: SAVEPOINT, the body, ROLLBACK TO on failure. *)
Definition savepoint {A} (fn : stm pg A) : stm pg A := fun s =>
  match query (fun _ => Ok tt) s with
  | (Err e, s0) => (Err e, s0)
  | (Ok _, s0) =>
      match fn s0 with
      | (Err e, s1) => (Err e, restore (Tables s0) s1)
      | (Ok a, s1) => (Ok a, s1)
      end
  end.

Definition pgUniqueViolation : string := "23505".
Definition pgCheckViolation : string := "23514".

Definition as_pgError (e : error) : option (string * string) :=
  match e with EPg c n => Some (c, n) | _ => None end.

Definition mapWriteError (err : error) : error :=
  let fallback := if errIs GormErrDuplicatedKey err then ESentinel ErrDuplicate else err in
  match errAs as_pgError err with
  | Some (code, constraint) =>
      if (code =? pgUniqueViolation)%string then ErrDuplicate
      else if (code =? pgCheckViolation)%string
      then errorf ErrInvalidItem [PStr "constraint "; PStr constraint]
      else fallback
  | None => fallback
  end.

(** [if err := ...; err != nil { return mapWriteError(err) }]. *)
Definition written {A} (m : stm pg A) : stm pg A := fun s =>
  let '(r, s') := m s in (mapErr mapWriteError r, s').

Section WithLib.
Context `{PgLib}.

(** Values bound to columns and parameters. *)
Definition uuid_arg (s : string) : result string :=
  match pg_uuid s with Some u => Ok u | None => Err (EPg "22P02" "") end.
Definition text_arg (s : string) : result string :=
  if pg_text s then Ok s else Err (EPg "22021" "").
Definition char3_arg (s : string) : result string :=
  match pg_char3 s with Some c => Ok c | None => Err (EPg "22001" "") end.
Definition jsonb_arg (s : string) : result string :=
  match pg_jsonb s with Some j => Ok j | None => Err (EPg "22P05" "") end.

(** The CHECK constraints of [orders]. *)
Definition orders_checks (r : orderRow) : result unit :=
  if (rTenantID r =? "")%string then Err (EPg pgCheckViolation "orders_tenant_not_empty")
  else if negb ((rTotalNanos r >? -1000000000) && (rTotalNanos r <? 1000000000))
  then Err (EPg pgCheckViolation "orders_nanos_range")
  else Ok tt.

Definition stored_order (row : orderRow) : result orderRow :=
  id ← uuid_arg (rID row); tenant ← text_arg (rTenantID row);
  customer ← text_arg (rCustomerID row); status ← text_arg (rStatus row);
  currency ← char3_arg (rCurrencyCode row);
  mret (mkOrderRow id tenant customer status currency (rTotalUnits row) (rTotalNanos row)
          (pg_time (rCreatedAt row)) (pg_time (rUpdatedAt row)) []).

(** [tx.Create(&row)]. *)
Definition insertOrder (row : orderRow) (t : tables) : result (unit * tables) :=
  r ← stored_order row;
  _ ← orders_checks r;
  match TOrders t !! rID r with
  | Some _ => Err (EPg pgUniqueViolation "orders_pkey")
  | None => Ok (tt, mkTables (<[rID r := r]> (TOrders t)) (TItems t) (TOutbox t))
  end.

Definition same_line (a b : itemRow) : bool :=
  (iOrderID a =? iOrderID b)%string && (iLineNo a =? iLineNo b).

Definition stored_item (it : itemRow) : result itemRow :=
  id ← uuid_arg (iOrderID it); sku ← text_arg (iSKU it); cur ← char3_arg (iUnitCurrency it);
  mret (mkItemRow id (iLineNo it) sku (iQuantity it) cur (iUnitUnits it) (iUnitNanos it)).

(** [tx.Create(&items)]: one INSERT of all the rows. *)
Fixpoint insertItems (items : list itemRow) (t : tables) : result (unit * tables) :=
  match items with
  | [] => Ok (tt, t)
  | it :: rest =>
      r ← stored_item it;
      if iQuantity r <=? 0 then Err (EPg pgCheckViolation "order_items_quantity_positive")
      else if existsb (same_line r) (TItems t)
      then Err (EPg pgUniqueViolation "order_items_pkey")
      else if negb (bool_decide (is_Some (TOrders t !! iOrderID r)))
      then Err (EPg "23503" "order_items_order_id_fkey")
      else insertItems rest (mkTables (TOrders t) (TItems t ++ [r]) (TOutbox t))
  end.

(** * Reading *)

Definition row_key (r : orderRow) : okey := (rCreatedAt r, rID r).
Definition row_le (a b : orderRow) : Prop := key_le (row_key a) (row_key b).
Definition id_order (a b : orderRow) : Prop := String.le (rID a) (rID b).
Definition line_le (a b : itemRow) : Prop := iLineNo a <= iLineNo b.

#[export] Instance row_le_dec a b : Decision (row_le a b).
Proof. unfold row_le. apply _. Defined.
#[export] Instance id_order_dec a b : Decision (id_order a b).
Proof. unfold id_order. apply _. Defined.
#[export] Instance line_le_dec a b : Decision (line_le a b).
Proof. unfold line_le. apply _. Defined.

Definition allRows (t : tables) : list orderRow := (map_to_list (TOrders t)).*2.

(** [Preload("Items", ... Order("line_no"))]: the lines of an order, in line order. *)
Definition itemsOf (t : tables) (orderID : string) : list itemRow :=
  merge_sort line_le (List.filter (fun it => (iOrderID it =? orderID)%string) (TItems t)).

(** The second statement of a preload; it is sent only when there are rows. *)
Definition preload (rows : list orderRow) : stm pg (list orderRow) :=
  match rows with
  | [] => mret []
  | _ => query (fun t => Ok ((fun r => withItems (itemsOf t (rID r)) r) <$> rows))
  end.

Context `{Unicode, CursorEnv}.

(** The operations, over the way a write opens its transaction. *)
Section Ops.
Context (inTransaction : stm pg unit -> stm pg unit).

Definition Create (o : Order) : stm pg unit :=
  if (TenantID o =? "")%string then fail ErrMissingTenant
  else
    let '(row, items) := toRow o in
    inTransaction
      (_ ← written (execute (insertOrder row));
       if (length items =? 0)%nat then mret tt
       else written (execute (insertItems items))).

Definition Get (tenantID orderID : string) : stm pg Order :=
  if (tenantID =? "")%string then fail ErrMissingTenant
  else fun s =>
    let first : stm pg orderRow :=
      g ← lift (guard None (Some (SPointer orderRow_shape)) (WithTenant tenantID));
      rows ← query (fun tb =>
        t ← text_arg tenantID; id ← uuid_arg orderID;
        let p r := (rTenantID r =? t)%string && (rID r =? id)%string && g r in
        match take 1 (merge_sort id_order (List.filter p (allRows tb))) with
        | [] => Err GormErrRecordNotFound
        | rows => Ok rows
        end);
      rows ← preload rows;
      match rows with row :: _ => mret row | [] => fail GormErrRecordNotFound end in
    match first s with
    | (Err err, s') =>
        (if errIs GormErrRecordNotFound err then Err ErrNotFound else Err err, s')
    | (Ok row, s') => (toDomain row, s')
    end.

(** The clauses of the listing. *)
Definition list_where (tenantID : string) (f : ListFilter) (cur : option okey) (r : orderRow)
    : bool :=
  (rTenantID r =? tenantID)%string
  && (bool_decide (FStatus f = StatusUnspecified) || (rStatus r =? StatusString (FStatus f))%string)
  && ((FCustomerID f =? "")%string || (rCustomerID r =? FCustomerID f)%string)
  && match cur with Some k => bool_decide (key_lt k (row_key r)) | None => true end.

(** The parameters of the listing: the customer when it is filtered on, the cursor when there
    is one. *)
Definition list_args (tenantID : string) (f : ListFilter) (cur : option okey)
    : result (option okey) :=
  _ ← text_arg tenantID;
  _ ← (if (FCustomerID f =? "")%string then Ok "" else text_arg (FCustomerID f));
  match cur with
  | Some (at_, id) => u ← uuid_arg id; Ok (Some (pg_time at_, u))
  | None => Ok None
  end.

Definition List (tenantID : string) (f : ListFilter) : stm pg Page :=
  if (tenantID =? "")%string then fail ErrMissingTenant
  else
    cur ← lift (DecodePageToken tenantID f);
    let size := Z.to_nat (ClampPageSize (PageSize f)) in
    g ← lift (guard (Some (SPointer orderRow_shape)) (Some (SPointer (SSlice orderRow_shape)))
                (WithTenant tenantID));
    rows ← query (fun t =>
      cur ← list_args tenantID f cur;
      Ok (take (size + 1)
            (merge_sort row_le
               (List.filter (fun r => list_where tenantID f cur r && g r) (allRows t)))));
    rows ← preload rows;
    let hasMore := (size <? length rows)%nat in
    let rows := if hasMore then take size rows else rows in
    orders ← lift (toDomains rows);
    if hasMore && negb (length orders =? 0)%nat
    then
      match orders !! (length orders - 1)%nat with
      | Some last_ =>
          token ← lift (EncodePageToken tenantID f last_); mret (mkPage orders token)
      | None => fail (errorsNew "index out of range")
      end
    else mret (mkPage orders "").

(** [UPDATE orders SET ... WHERE tenant_id = ? AND id = ?]: the rows it hit. *)
Definition updateOrder (g : orderRow -> bool) (row : orderRow) (t : tables)
    : result (Z * tables) :=
  r ← stored_order row;
  let p old := (rTenantID old =? rTenantID r)%string && (rID old =? rID r)%string && g old in
  let hit := List.filter p (allRows t) in
  match hit with
  | [] => Ok (0, t)
  | _ =>
      _ ← orders_checks r;
      Ok (Z.of_nat (length hit),
          mkTables
            ((fun old => if p old
                         then mkOrderRow (rID old) (rTenantID old) (rCustomerID r) (rStatus r)
                                (rCurrencyCode r) (rTotalUnits r) (rTotalNanos r)
                                (rCreatedAt old) (rUpdatedAt r) []
                         else old) <$> TOrders t)
            (TItems t) (TOutbox t))
  end.

(** [tx.Where("order_id = ?", o.ID).Delete(&itemRow{})]. *)
Definition deleteItems (orderID : string) (t : tables) : result (unit * tables) :=
  id ← uuid_arg orderID;
  Ok (tt, mkTables (TOrders t)
            (List.filter (fun it => negb (iOrderID it =? id)%string) (TItems t)) (TOutbox t)).

Definition Update (o : Order) : stm pg unit :=
  if (TenantID o =? "")%string then fail ErrMissingTenant
  else
    let '(row, items) := toRow o in
    inTransaction
      (affected ← written
         (g ← lift (guard (Some (SPointer orderRow_shape)) (Some SOther)
                      (WithTenant (TenantID o)));
          execute (updateOrder g row));
       if affected =? 0 then fail ErrNotFound
       else
         _ ← execute (deleteItems (ID o));
         if (length items =? 0)%nat then mret tt
         else written (execute (insertItems items))).

(** The outbox row of an event; a nil [PublishedAt] and the two quarantine columns are
    NULL. *)
Definition outboxRow (e : Event) (payload trace : string) : result Outbox.row :=
  tenant ← text_arg (ETenantID e); agg ← uuid_arg (AggregateID e); ty ← text_arg (EType e);
  payload ← jsonb_arg payload; trace ← text_arg trace;
  mret (Outbox.mkRow tenant agg ty payload (pg_time (OccurredAt e)) (Some trace) None None None).

Definition Publish (e : Event) : stm pg unit := fun s =>
  match order_Marshal (EOrder e) with
  | Err err => (Err (wrapf [PStr "encode event payload"] err), s)
  | Ok payload =>
      stmt (fun '(t, n) =>
        match outboxRow e payload (Trace s) with
        | Ok r => (Ok tt, (mkTables (TOrders t) (TItems t) (<[n := r]> (TOutbox t)), n + 1))
        | Err err => (Err err, (t, n))
        end) s
  end.

End Ops.

(** [Events]: the whole outbox, oldest first. *)
Fixpoint decodeEvents (rows : list (Z * Outbox.row)) : result (list Event) :=
  match rows with
  | [] => Ok []
  | (_, r) :: rest =>
      o ← mapErr (wrapf [PStr "decode event payload"]) (order_Unmarshal (Outbox.RPayload r));
      es ← decodeEvents rest;
      mret (mkEvent (Outbox.REventType r) (Outbox.RAggregateID r) (Outbox.RTenantID r)
              (Outbox.ROccurredAt r) o :: es)
  end.

Definition Events : stm pg (list Event) :=
  rows ← query (fun t => Ok (Outbox.rows_by_id (fun _ => true) (TOutbox t)));
  lift (decodeEvents rows).

(** * The ports *)

(** The store handed to the callback of [InTx]. *)
Record tx := mkTx { tx_pg : pg }.

Definition in_tx {A} (op : stm pg A) : stm tx A := fun s =>
  let '(r, s') := op (tx_pg s) in (r, mkTx s').

#[export] Instance pg_ops : StoreOps pg := {|
  store_Create := Create transaction; store_Get := Get; store_List := List;
  store_Update := Update transaction; pub_Publish := Publish |}.

#[export] Instance tx_ops : StoreOps tx := {|
  store_Create o := in_tx (Create savepoint o);
  store_Get t i := in_tx (Get t i);
  store_List t f := in_tx (List t f);
  store_Update o := in_tx (Update savepoint o);
  pub_Publish e := in_tx (Publish e) |}.

#[export] Instance pg_atomic : AtomicOps pg tx := {|
  InTx A fn := transaction (fun s => let '(r, s') := fn (mkTx s) in (r, tx_pg s')) |}.

End WithLib.
