(* ===== verification/OrderPgSpec.v ===== *)
(** What the Postgres store guarantees: rows and orders convert into each other, the
    tenant guard cannot be passed by, and a call whose transaction does not commit leaves the
    tables alone. *)

From S2P Require Import Prelude GoErr GoStr Money Order Cursor Store Paging.
From S2P Require Import Service OrderPg.
From S2P Require Outbox OutboxSpec.

(** * Rows and orders *)

Section RoundTrip.
Context `{Unicode}.

Lemma NewMoney_Valid m : Valid m -> NewMoney (CurrencyCode m) (Units m) (Nanos m) = Ok m.
Proof.
  intros Hv. pose proof (Valid_canon m Hv) as (Hc & Hr & Hm).
  pose proof Hv as (_ & Hn & _ & _ & Hu)%Valid_iff.
  pose proof (NewMoney_exact (CurrencyCode m) (Units m) (Nanos m)) as Hx.
  rewrite (ToUpper_valid _ Hc), Hc in Hx. unfold computes in Hx.
  change (Units m * NanosPerUnit + Nanos m) with (value m) in Hx. rewrite Hr in Hx.
  rewrite Hm at 4. apply Hx; width_simpl; money_nums; lia.
Qed.

Lemma toItems_toItemRows id i items :
  Forall (fun it => Valid (UnitPrice it)) items -> toItems (toItemRows id i items) = Ok items.
Proof.
  intros Hall. revert i. induction Hall as [|it items Hv _ IH]; intros i; [done|].
  cbn. rewrite NewMoney_Valid by done. cbn. rewrite IH. by destruct it.
Qed.

(** An order survives the conversion to its rows and back, whatever its status, as long as
    its amounts are well formed. *)
Theorem toDomain_toRow o :
  Valid (OTotal o) -> Forall (fun it => Valid (UnitPrice it)) (Items o) ->
  toDomain (withItems (toRow o).2 (toRow o).1) = Ok o.
Proof.
  intros Ht Hi. unfold toDomain. cbn [toRow fst snd withItems rStatus rCurrencyCode rTotalUnits
    rTotalNanos rItems rID rTenantID rCustomerID rCreatedAt rUpdatedAt].
  rewrite (proj2 (ParseStatus_String (OStatus o) (StatusString (OStatus o)))) by auto.
  cbn. rewrite NewMoney_Valid by done. cbn. rewrite toItems_toItemRows by done. by destruct o.
Qed.

End RoundTrip.

Lemma toDomain_toRow_witness :
  @toDomain ascii_tables (withItems (toRow two_lines).2 (toRow two_lines).1) = Ok two_lines.
Proof.
  apply (@toDomain_toRow ascii_tables two_lines); [by vm_compute|].
  repeat first [apply List.Forall_nil | apply List.Forall_cons]; by vm_compute.
Defined.

(** * The tenant guard *)

(** A model inside any nesting of pointers, slices and arrays. *)
Inductive wraps (column : string) : shape -> Prop :=
  | wraps_value p : wraps column (SStruct (Some column) p)
  | wraps_pointer_method : wraps column (SStruct None (Some column))
  | wraps_pointer s : wraps column s -> wraps column (SPointer s)
  | wraps_slice s : wraps column s -> wraps column (SSlice s)
  | wraps_array s : wraps column s -> wraps column (SArray s).

Lemma elemOf_wraps column s : elemOf s = Some column <-> wraps column s.
Proof.
  split.
  - induction s as [v p|s IH|s IH|s IH|]; cbn; intros Hs; try (constructor; by apply IH); [|done].
    destruct v as [c|]; [injection Hs as ->; constructor|]. subst p. constructor.
  - by induction 1.
Qed.

Lemma asTenantScoped_elemOf s column : asTenantScoped s = Some column -> elemOf s = Some column.
Proof.
  destruct s as [v p|[v p|s|s|s|]|s|s|]; cbn; try done. by intros ->.
Qed.

Lemma tenantScopedOf_cons c rest :
  tenantScopedOf (c :: rest) =
    match c ≫= elemOf with Some col => Some col | None => tenantScopedOf rest end.
Proof.
  destruct c as [s|]; [|done]. cbn. destruct (asTenantScoped s) as [col|] eqn:Hs; [|done].
  by rewrite (asTenantScoped_elemOf s col Hs).
Qed.

(** The guard fails closed: a built statement whose model or destination holds a
    tenant-scoped model, under any nesting of pointers, slices and arrays, is either
    restricted to one tenant, which is the non-empty one of its context, or refused; only
    raw SQL and statements on other models pass without a predicate. *)
Theorem guard_fails_closed raw model dest ctx :
  match tenantGuard raw model dest ctx with
  | Ok (Some (column, tenant)) =>
      raw = false /\ ctx = Some tenant /\ tenant <> "" /\
      exists s, (model = Some s \/ dest = Some s) /\ wraps column s
  | Ok None =>
      raw = true \/ forall column s, model = Some s \/ dest = Some s -> ~ wraps column s
  | Err e => e = ErrNoTenantInContext /\ (ctx = None \/ ctx = Some "")
  end.
Proof.
  unfold tenantGuard. destruct raw; [by left|]. rewrite !tenantScopedOf_cons. cbn.
  assert (forall c : option shape, match c ≫= elemOf with
            | Some col => exists s, c = Some s /\ wraps col s
            | None => forall col s, c = Some s -> ~ wraps col s
            end) as Hc.
  { intros [s|]; cbn; [|done]. destruct (elemOf s) as [col|] eqn:He.
    - exists s. by rewrite <- elemOf_wraps.
    - intros col s' [= <-] Hw%elemOf_wraps. congruence. }
  pose proof (Hc model) as Hm. pose proof (Hc dest) as Hd.
  assert (match TenantFromContext ctx with
          | Some t => ctx = Some t /\ t <> ""
          | None => ctx = None \/ ctx = Some ""
          end) as Ht.
  { destruct ctx as [t|]; cbn; [|by left]. destruct (String.eqb_spec t ""); subst; auto. }
  destruct (model ≫= elemOf) as [col|];
    [|destruct (dest ≫= elemOf) as [col|]; [|right; intros col s [Hs|Hs]; by eauto]];
    destruct (TenantFromContext ctx) as [t|]; try done;
    destruct Ht as [Hctx Hne]; split_ands; try done; naive_solver.
Qed.

(** The statements of the store run under the guard of their own tenant. *)
Lemma guard_orders model dest t :
  t <> "" -> model ≫= elemOf = Some "tenant_id" \/
             (model ≫= elemOf = None /\ dest ≫= elemOf = Some "tenant_id") ->
  guard model dest (WithTenant t) = Ok (fun r => (rTenantID r =? t)%string).
Proof.
  intros Ht Hm. unfold guard, tenantGuard. rewrite !tenantScopedOf_cons.
  cbn. apply String.eqb_neq in Ht.
  destruct Hm as [->|[-> ->]]; cbn; by rewrite Ht.
Qed.

(** * Failures of the database *)

(** The same state with a connection that answers everything. *)
Definition calm (s : pg) : pg := mkPg (Tables s) (NextID s) [] (Trace s).

(** The computation consumes answers from the front, and what it does when it succeeds is
    what it does on a calm connection. *)
Definition steady {A} (m : stm pg A) : Prop := forall s,
  Answers (m s).2 `suffix_of` Answers s /\
  forall a s', m s = (Ok a, s') -> m (calm s) = (Ok a, calm s').

Lemma steady_lift {A} (r : result A) : steady (lift r).
Proof. intros s. split; [done|]. by intros a s' [= -> <-]. Qed.

Lemma steady_mret {A} (a : A) : steady (mret a).
Proof. apply (steady_lift (Ok a)). Qed.

Lemma steady_fail {A} e : steady (fail (A:=A) e).
Proof. apply (steady_lift (Err e)). Qed.

Lemma steady_bind {A B} (m : stm pg A) (k : A -> stm pg B) :
  steady m -> (forall a, steady (k a)) -> steady (m ≫= k).
Proof.
  intros Hm Hk s. destruct (Hm s) as [Hs Hc]. unfold mbind, stm_bind.
  destruct (m s) as [[a|e] s1]; cbn in *; [|done]. specialize (Hc a s1 eq_refl).
  destruct (Hk a s1) as [Hs1 Hc1]. split; [by etrans|]. intros b s2 E.
  rewrite Hc. by apply Hc1.
Qed.

Lemma steady_stmt {A} (f : tables * Z -> result A * (tables * Z)) : steady (stmt f).
Proof.
  intros s. unfold stmt, calm. cbn. destruct (f (Tables s, NextID s)) as [r [t n]].
  destruct (Answers s) as [|[|e b] l]; cbn; (split; [try done; by apply suffix_cons_r|]);
    by intros a s' [= -> <-].
Qed.

Lemma steady_query {A} (f : tables -> result A) : steady (query f).
Proof. apply steady_stmt. Qed.

Lemma steady_execute {A} (f : tables -> result (A * tables)) : steady (execute f).
Proof. apply steady_stmt. Qed.

Lemma steady_written {A} (m : stm pg A) : steady m -> steady (written m).
Proof.
  intros Hm s. destruct (Hm s) as [Hs Hc]. unfold written.
  destruct (m s) as [[a|e] s1]; cbn in *; (split; [done|]); [|done].
  intros a' s' [= <- <-]. by rewrite (Hc a s1 eq_refl).
Qed.


Lemma steady_savepoint {A} (fn : stm pg A) : steady fn -> steady (savepoint fn).
Proof.
  intros Hf s. unfold savepoint. destruct (steady_query (fun _ => Ok tt) s) as [Hs Hc].
  destruct (query _ s) as [[u|e] s0]; cbn [fst snd] in *; [|done].
  specialize (Hc u s0 eq_refl). rewrite Hc. destruct (Hf s0) as [Hs0 Hc0].
  destruct (fn s0) as [[a|e] s1]; cbn [fst snd] in *; (split; [by etrans|]); [|done].
  intros a' s' [= <- <-]. by rewrite (Hc0 a s1 eq_refl).
Qed.

Lemma steady_preload rows : steady (preload rows).
Proof. destruct rows; [apply steady_mret|apply steady_query]. Qed.

Create HintDb pg discriminated.
#[export] Hint Resolve steady_lift steady_mret steady_fail steady_query steady_execute
  steady_written steady_savepoint steady_preload : pg.

Ltac steady_tac :=
  repeat match goal with
  | |- forall _, _ => intro
  | |- steady (_ ≫= _) => apply steady_bind
  | |- steady (let '(_, _) := ?p in _) => destruct p
  | |- steady (if ?b then _ else _) => destruct b
  | |- steady (match ?x with _ => _ end) => destruct x
  | |- steady (written _) => apply steady_written
  | |- steady (savepoint _) => apply steady_savepoint
  | |- _ => solve [auto with pg]
  end.

(** A failure that was nevertheless applied. *)
Definition ambiguous (a : answer) : Prop := exists e, a = Failed e true.

(** All or nothing: a success is the calm run; a failure leaves the tables alone, unless the
    connection reported the failure of something it had applied, and then the tables are
    those of the calm run. *)
Definition atomic {A} (m : stm pg A) : Prop := forall s,
  match m s with
  | (Ok a, s') => m (calm s) = (Ok a, calm s')
  | (Err _, s') =>
      Tables s' = Tables s \/
      (Exists ambiguous (Answers s) /\
       exists a s2, m (calm s) = (Ok a, s2) /\ Tables s2 = Tables s')
  end.

Lemma atomic_fail {A} e : atomic (fail (A:=A) e).
Proof. intros s. by left. Qed.

Lemma atomic_lift {A B} (r : result A) (k : A -> stm pg B) :
  (forall a, atomic (k a)) -> atomic (lift r ≫= k).
Proof. intros Hk s. destruct r as [a|e]; [exact (Hk a s)|by left]. Qed.

Lemma atomic_mret {A B} (m : stm pg A) (y : A -> B) : atomic m -> atomic (a ← m; mret (y a)).
Proof.
  intros Hm s. specialize (Hm s). unfold mbind, stm_bind.
  destruct (m s) as [[a|e] s']; cbn; [by rewrite Hm|].
  destruct Hm as [Hm|(Ha & a & s2 & -> & Ht)]; [by left|right]. split; [done|]. by eexists _, s2.
Qed.

Lemma atomic_reads {A} (m : stm pg A) :
  steady m -> (forall s, Tables (m s).2 = Tables s) -> atomic m.
Proof.
  intros Hm Ht s. specialize (Ht s). destruct (Hm s) as [_ Hc].
  destruct (m s) as [[a|e] s']; [by apply Hc|by left].
Qed.

Lemma atomic_transaction {A} (fn : stm pg A) : steady fn -> atomic (transaction fn).
Proof.
  intros Hf s. unfold transaction. pose proof (steady_query (fun _ => Ok tt) s) as [Hs Hc].
  assert (Tables (query (fun _ => Ok tt) s).2 = Tables s) as Ht.
  { unfold query, stmt. cbn. by destruct (Answers s) as [|[|? []] ?]. }
  destruct (query _ s) as [[u|e] s0]; cbn [fst snd] in *; [|by left].
  rewrite (Hc u s0 eq_refl). destruct (Hf s0) as [Hs0 Hc0].
  destruct (fn s0) as [[a|e] s1]; cbn [fst snd] in *; [|by left].
  rewrite (Hc0 a s1 eq_refl). cbn [calm Answers].
  destruct (Answers s1) as [|[|e applied] l] eqn:Ha; cbn; [done|done|].
  destruct applied; [right|by left]. split; [|by eexists _, _].
  apply Exists_exists. exists (Failed e true). split; [|by exists e].
  eapply elem_of_suffix; [|etrans; [exact Hs0|exact Hs]]. by left.
Qed.

(** * The operations *)

Section Operations.
Context `{PgLib, Unicode, CursorEnv}.

Lemma steady_Create o : steady (Create savepoint o).
Proof. unfold Create. steady_tac. Qed.

Lemma steady_Update o : steady (Update savepoint o).
Proof. unfold Update. steady_tac. Qed.

Lemma steady_List t f : steady (List t f).
Proof. unfold List. steady_tac. Qed.

Lemma steady_Publish e : steady (Publish e).
Proof.
  intros s. unfold Publish. destruct (order_Marshal (EOrder e)) as [b|err]; [|done].
  apply (steady_stmt _ s).
Qed.

(** [Get] up to the row it found. *)
Definition firstRow (t i : string) : stm pg orderRow :=
  g ← lift (guard None (Some (SPointer orderRow_shape)) (WithTenant t));
  rows ← query (fun tb =>
    t ← text_arg t; id ← uuid_arg i;
    let p r := (rTenantID r =? t)%string && (rID r =? id)%string && g r in
    match take 1 (merge_sort id_order (List.filter p (allRows tb))) with
    | [] => Err GormErrRecordNotFound
    | rows => Ok rows
    end);
  rows ← preload rows;
  match rows with row :: _ => mret row | [] => fail GormErrRecordNotFound end.

Lemma steady_Get t i : steady (Get t i).
Proof.
  unfold Get. destruct (t =? "")%string; [apply steady_fail|].
  assert (steady (firstRow t i)) as Hf by (unfold firstRow; steady_tac).
  intros s. destruct (Hf s) as [Hs Hc]. fold (firstRow t i).
  destruct (firstRow t i s) as [[r|e] s1]; cbn [fst snd] in *; (split; [done|]).
  - intros a s' [= Hr <-]. by rewrite (Hc r s1 eq_refl), Hr.
  - by destruct (errIs _ _).
Qed.

(** Reading leaves the tables alone. *)
Definition reading {A} (m : stm pg A) : Prop := forall s, Tables (m s).2 = Tables s.

Lemma reading_lift {A} (r : result A) : reading (lift r).
Proof. done. Qed.

Lemma reading_bind {A B} (m : stm pg A) (k : A -> stm pg B) :
  reading m -> (forall a, reading (k a)) -> reading (m ≫= k).
Proof.
  intros Hm Hk s. unfold mbind, stm_bind. specialize (Hm s).
  destruct (m s) as [[a|e] s1]; [|done]. by rewrite (Hk a s1).
Qed.

Lemma reading_query {A} (f : tables -> result A) : reading (query f).
Proof. intros s. unfold query, stmt. by destruct (Answers s) as [|[|e []] l]. Qed.

Lemma reading_preload rows : reading (preload rows).
Proof. destruct rows; [done|apply reading_query]. Qed.

Ltac reading_tac :=
  repeat match goal with
  | |- forall _, _ => intro
  | |- reading (_ ≫= _) => apply reading_bind
  | |- reading (if ?b then _ else _) => destruct b
  | |- reading (match ?x with _ => _ end) => destruct x
  | |- reading (query _) => apply reading_query
  | |- reading (preload _) => apply reading_preload
  | |- _ => apply reading_lift
  end.

Lemma reading_List t f : reading (List t f).
Proof. unfold List. reading_tac. Qed.

Lemma reading_Get t i : reading (Get t i).
Proof.
  unfold Get. destruct (t =? "")%string; [done|].
  assert (reading (firstRow t i)) as Hf by (unfold firstRow; reading_tac).
  intros s. specialize (Hf s). fold (firstRow t i).
  destruct (firstRow t i s) as [[r|e] s1]; [done|]. by destruct (errIs _ _).
Qed.

(** The body of an [InTx], run on the connection of the transaction. *)
Definition inside {A} (fn : stm tx A) : stm pg A := fun s =>
  let '(r, s') := fn (mkTx s) in (r, tx_pg s').

Lemma inside_bind {A B} (m : stm tx A) (k : A -> stm tx B) :
  steady (inside m) -> (forall a, steady (inside (k a))) -> steady (inside (m ≫= k)).
Proof.
  intros Hm Hk.
  assert (forall s, inside (m ≫= k) s = (inside m ≫= (fun a => inside (k a))) s) as E.
  { intros s. unfold inside, mbind, stm_bind. destruct (m (mkTx s)) as [[a|e] [s1]]; done. }
  intros s. rewrite !E. by apply steady_bind.
Qed.

Lemma inside_in_tx {A} (op : stm pg A) : steady op -> steady (inside (in_tx op)).
Proof.
  intros Hop. assert (forall s, inside (in_tx op) s = op s) as E
    by (intros s; unfold inside, in_tx; cbn; by destruct (op s)).
  intros s. rewrite !E. apply Hop.
Qed.

Lemma inside_lift {A} (r : result A) : steady (inside (lift r)).
Proof. apply (steady_lift r). Qed.

Lemma inside_mret {A} (a : A) : steady (inside (mret a)).
Proof. apply (inside_lift (Ok a)). Qed.

#[local] Hint Resolve inside_lift inside_mret steady_Create steady_Update steady_Get
  steady_Publish steady_List : pg.

Lemma atomic_Service_Create id now cmd : atomic (Service.Create (T:=tx) id now cmd).
Proof.
  unfold Service.Create. destruct (_ =? "")%string; [apply atomic_fail|].
  destruct (_ =? 0)%nat; [apply atomic_fail|].
  apply atomic_lift. intros total. apply atomic_lift. intros oid. apply atomic_lift. intros [].
  apply atomic_mret, atomic_transaction. fold (inside (A:=unit)).
  apply (inside_bind (A:=unit)); intros; apply inside_in_tx; auto with pg.
Qed.

Lemma atomic_Service_Cancel now t i : atomic (Service.Cancel (T:=tx) now t i).
Proof.
  unfold Service.Cancel. destruct (_ =? "")%string; [apply atomic_fail|].
  apply atomic_transaction.
  apply (inside_bind (A:=Order)); [apply inside_in_tx; auto with pg|intros o].
  apply (inside_bind (A:=Order)); [auto with pg|intros o'].
  apply (inside_bind (A:=unit)); [apply inside_in_tx; auto with pg|intros []].
  apply (inside_bind (A:=unit)); [apply inside_in_tx; auto with pg|intros []]. auto with pg.
Qed.

Definition failed (x : Service.answer) : bool :=
  match x with AOrder (Ok _) | APage (Ok _) => false | _ => true end.

(** C7. Whatever the database does to the statements of a call, including a COMMIT that is
    applied although its failure is reported, the call either leaves orders, items and
    outbox as they were or changes them exactly as it would with no failure at all; a call
    that answers a value did the latter, and a call that fails without such an ambiguous
    answer did the former. *)
Theorem pg_all_or_nothing c s :
  let '(x, s') := exec tx c s in
  let '(y, s0) := exec tx c (calm s) in
  if failed x
  then Tables s' = Tables s \/
       (Exists ambiguous (Answers s) /\ failed y = false /\ Tables s' = Tables s0)
  else y = x /\ Tables s' = Tables s0.
Proof.
  assert (forall A (f : result A -> Service.answer) (m : stm pg A),
            (forall r, failed (f r) = negb (is_ok r)) -> atomic m ->
            let '(x, s') := (let '(r, s') := m s in (f r, s')) in
            let '(y, s0) := (let '(r, s') := m (calm s) in (f r, s')) in
            if failed x
            then Tables s' = Tables s \/
                 (Exists ambiguous (Answers s) /\ failed y = false /\ Tables s' = Tables s0)
            else y = x /\ Tables s' = Tables s0) as Hout.
  { intros A f m Hf Hm. specialize (Hm s). destruct (m s) as [[a|e] s']; rewrite Hf; cbn.
    - by rewrite Hm.
    - destruct (m (calm s)) as [r0 s0]. destruct Hm as [Hm|(Ha & a & s2 & [= -> ->] & Ht)];
        [by left|right]. by rewrite Hf. }
  destruct c as [id now cmd|t i|t f|now t i]; cbn [exec]; apply Hout; try by intros [].
  - apply atomic_Service_Create.
  - unfold Service.Get. destruct (_ =? "")%string; [apply atomic_fail|].
    apply atomic_reads; [apply steady_Get|apply reading_Get].
  - unfold Service.List. destruct (_ =? "")%string; [apply atomic_fail|].
    apply atomic_reads; [apply steady_List|apply reading_List].
  - apply atomic_Service_Cancel.
Qed.

End Operations.
