(* ===== verification/OrderPgRefines.v ===== *)
(** The service over Postgres refines the service over the abstract store.

    [owner] names the tenant whose service issued an order id: ids are version 7 uuids, so
    no two tenants ever hold the same one, which matters because the primary key of
    [orders] is the id alone while the abstract store is keyed by tenant and id. *)

From S2P Require Import Prelude GoErr GoStr Money Order Cursor Store Paging.
From S2P Require Import Service OrderPg OrderPgSpec.
From S2P Require Outbox OutboxSpec OrderMem.

(** What the code relies on: canonical uuids are fixed points, three-letter codes fill a
    char(3), and the document of an order survives jsonb when every string in it is storable
    text (a currency code is three capitals) and every number a value of its Go type. *)
Class PgLaws `{PgLib} := {
  text_nul : forall s, pg_text s = true -> OrderMem.nul_free s;
  char3_code : forall c, validCurrencyCode c = true -> pg_char3 c = Some c;
  status_text : forall s, pg_text (StatusString s) = true;
  event_text : pg_text EventOrderCreated = true /\ pg_text EventOrderCancelled = true;
  jsonb_order : forall o,
    pg_text (ID o) = true -> pg_text (TenantID o) = true -> pg_text (CustomerID o) = true ->
    Forall (fun it => pg_text (SKU it) = true) (Items o) ->
    Forall (fun it => int_ok 32 (Quantity it) /\ Valid (UnitPrice it)) (Items o) ->
    Valid (OTotal o) -> time_ok (CreatedAt o) -> time_ok (UpdatedAt o) ->
    exists b j, order_Marshal o = Ok b /\ pg_jsonb b = Some j /\ order_Unmarshal j = Ok o }.

Section Refinement.
Context `{PgLaws, Unicode, CursorEnv} (owner : string -> string).

(** An instant a timestamptz column keeps exactly. *)
Definition micros (t : Z) : Prop := pg_time t = t /\ time_ok t.

(** An order the tables keep exactly. *)
Record storable (o : Order) : Prop := {
  st_valid : OrderValidate o = Ok tt;
  st_width : Forall (fun it => int_ok 32 (Quantity it)) (Items o);
  st_uuid : pg_uuid (ID o) = Some (ID o) /\ pg_text (ID o) = true;
  st_owner : owner (ID o) = TenantID o;
  st_text : pg_text (TenantID o) = true /\ pg_text (CustomerID o) = true /\
    Forall (fun it => pg_text (SKU it) = true) (Items o);
  st_times : micros (CreatedAt o) /\ micros (UpdatedAt o) }.

Definition storable_event (e : Event) : Prop :=
  storable (EOrder e) /\ AggregateID e = ID (EOrder e) /\ ETenantID e = TenantID (EOrder e) /\
  pg_text (EType e) = true /\ micros (OccurredAt e).

Definition pg_domain : domain := {|
  can_create := storable;
  can_get t i := pg_text t = true /\ pg_uuid i = Some i;
  can_list t f := pg_text t = true /\ pg_text (FCustomerID f) = true /\
    forall at_ id, DecodePageToken t f = Ok (Some (at_, id)) ->
      pg_time at_ = at_ /\ pg_uuid id = Some id;
  can_update a o := storable o /\
    forall old, s_orders a !! (TenantID o, ID o) = Some old -> CreatedAt old = CreatedAt o;
  can_publish := storable_event |}.

(** The outbox row that stands for an event. *)
Definition stands_for (r : Outbox.row) (e : Event) : Prop :=
  Outbox.RTenantID r = ETenantID e /\ Outbox.RAggregateID r = AggregateID e /\
  Outbox.REventType r = EType e /\ Outbox.ROccurredAt r = OccurredAt e /\
  order_Unmarshal (Outbox.RPayload r) = Ok (EOrder e) /\ Outbox.is_pending r = true.

(** The tables hold the rows of the orders and, in id order, the events. *)
Record pg_rep (s : pg) (a : sstate) : Prop := {
  pr_calm : Answers s = [];
  pr_trace : pg_text (Trace s) = true;
  pr_wf : sstate_wf a;
  pr_storable : forall t i o, s_orders a !! (t, i) = Some o -> storable o;
  pr_rows : forall i, TOrders (Tables s) !! i = (fun o => (toRow o).1) <$> s_orders a !! (owner i, i);
  pr_items : forall i,
    List.filter (fun it => (iOrderID it =? i)%string) (TItems (Tables s)) ≡ₚ
      match s_orders a !! (owner i, i) with Some o => (toRow o).2 | None => [] end;
  pr_events : Forall2 (fun kr e => stands_for kr.2 e)
    (Outbox.rows_by_id (fun _ => true) (TOutbox (Tables s))) (s_events a);
  pr_next : forall k, is_Some (TOutbox (Tables s) !! k) -> k < NextID s }.

Definition tx_rep (s : tx) (a : sstate) : Prop := pg_rep (tx_pg s) a.

(** * Storable orders *)

Lemma storable_money o :
  storable o -> Valid (OTotal o) /\ Forall (fun it => Valid (UnitPrice it)) (Items o) /\
  Items o <> [] /\ TenantID o <> "" /\ Forall (fun it => 0 < Quantity it) (Items o).
Proof.
  intros [Hv Hw _ _ _ _]. pose proof (OrderValidate_total_Valid o Hv Hw) as Ht.
  apply OrderValidate_spec in Hv as (Hten & _ & Hne & Hall & _ & _).
  split_ands; try done; eapply Forall_impl; try exact Hall; cbn; intros it Hit;
    by apply ItemValidate_Ok in Hit as (_ & _ & ? & ? & _).
Qed.

Lemma stored_order_storable o : storable o -> stored_order (toRow o).1 = Ok (toRow o).1.
Proof.
  intros Ho. destruct (storable_money o Ho) as (Hv & _). destruct Ho as [_ _ [Hu _] _ Ht Hm].
  destruct Ht as (Ht & Hc & _), Hm as [[Hm1 _] [Hm2 _]]. apply Valid_iff in Hv as (Hcode & _).
  unfold stored_order, uuid_arg, text_arg, char3_arg. cbn [toRow fst rID rTenantID rCustomerID
    rStatus rCurrencyCode rTotalUnits rTotalNanos rCreatedAt rUpdatedAt].
  rewrite Hu, Ht, Hc, status_text, (char3_code _ Hcode). cbn. by rewrite Hm1, Hm2.
Qed.

Lemma checks_storable o : storable o -> orders_checks (toRow o).1 = Ok tt.
Proof.
  intros Ho. destruct (storable_money o Ho) as (Hv & _ & _ & Ht & _).
  apply Valid_iff in Hv as (_ & Hn & _). unfold orders_checks. cbn [toRow fst rTenantID rTotalNanos].
  apply String.eqb_neq in Ht as ->.
  assert ((Nanos (OTotal o) >? -1000000000) && (Nanos (OTotal o) <? 1000000000) = true) as ->; [|done].
  rewrite andb_true_iff, Z.gtb_lt, Z.ltb_lt. money_nums. lia.
Qed.

(** The rows of the lines [items] from number [i] on. *)
Lemma toItemRows_line id i items it :
  it ∈ toItemRows id i items -> iOrderID it = id /\ Z.of_nat i <= iLineNo it.
Proof.
  revert i. induction items as [|x items IH]; intros i; cbn; [by rewrite elem_of_nil|].
  rewrite elem_of_cons. intros [->|Hin]; [cbn; split; [done|lia]|].
  destruct (IH (S i) Hin). split; [done|lia].
Qed.

Lemma toItemRows_sorted id i items :
  StronglySorted (fun a b => iLineNo a < iLineNo b) (toItemRows id i items).
Proof.
  revert i. induction items as [|x items IH]; intros i; cbn; constructor; [apply IH|].
  apply Forall_forall. intros it Hin. apply toItemRows_line in Hin as [_ ?]. cbn. lia.
Qed.

#[local] Instance line_le_trans : Transitive line_le.
Proof. intros a b c. unfold line_le. lia. Qed.
#[local] Instance line_le_total : Total line_le.
Proof. intros a b. unfold line_le. lia. Qed.

(** Sorting a permutation of an order's lines by line number gives them back. *)
Lemma sort_lines l id items :
  l ≡ₚ toItemRows id 0 items -> merge_sort line_le l = toItemRows id 0 items.
Proof.
  intros Hp. pose proof (toItemRows_sorted id 0 items) as Hs.
  apply (StronglySorted_unique_strong line_le).
  - intros a b Ha Hb. rewrite merge_sort_Permutation, Hp in Ha. revert Ha Hb.
    unfold line_le. clear Hp. induction Hs as [|x r _ IH Hx]; [by rewrite elem_of_nil|].
    rewrite !elem_of_cons. rewrite Forall_forall in Hx.
    intros [->|Ha] [->|Hb] Hab Hba; [done| | |by apply IH].
    + apply Hx in Hb. lia.
    + apply Hx in Ha. lia.
  - by apply StronglySorted_merge_sort; apply _.
  - clear Hp. induction Hs as [|x r _ IH Hx]; constructor; [done|].
    eapply Forall_impl; [exact Hx|]. unfold line_le. cbn. intros; lia.
  - by rewrite merge_sort_Permutation.
Qed.

Section Represented.
Context (s : pg) (a : sstate) (HR : pg_rep s a).

Lemma rep_owner t i o : s_orders a !! (t, i) = Some o -> t = owner i.
Proof.
  intros Ho. destruct (pr_wf _ _ HR t i o Ho) as [<- <-].
  symmetry. apply st_owner. by apply (pr_storable _ _ HR) in Ho.
Qed.

(** The row of an id, seen by tenant [t]. *)
Lemma rep_row t i :
  s_orders a !! (t, i) = None /\ (forall r, TOrders (Tables s) !! i = Some r -> rTenantID r <> t) \/
  exists o, s_orders a !! (t, i) = Some o /\ TenantID o = t /\ ID o = i /\ storable o /\
    TOrders (Tables s) !! i = Some (toRow o).1.
Proof.
  pose proof (pr_rows _ _ HR i) as Hr. destruct (s_orders a !! (t, i)) as [o|] eqn:Ho.
  - right. exists o. pose proof (rep_owner _ _ _ Ho) as ->. rewrite Ho in Hr.
    destruct (pr_wf _ _ HR _ _ _ Ho). split_ands; try done. by apply (pr_storable _ _ HR) in Ho.
  - left. split; [done|]. rewrite Hr. intros r.
    destruct (s_orders a !! (owner i, i)) as [o|] eqn:Ho'; [|done]. intros [= <-]. cbn.
    intros <-. destruct (pr_wf _ _ HR _ _ _ Ho') as [E _]. rewrite E in Ho. congruence.
Qed.

Lemma itemsOf_row t i o : s_orders a !! (t, i) = Some o -> itemsOf (Tables s) i = (toRow o).2.
Proof.
  intros Ho. pose proof (rep_owner _ _ _ Ho) as ->. pose proof (pr_items _ _ HR i) as Hp.
  rewrite Ho in Hp. unfold itemsOf. cbn in *. destruct (pr_wf _ _ HR _ _ _ Ho) as [_ <-].
  by apply sort_lines.
Qed.

Lemma elem_of_allRows r :
  r ∈ allRows (Tables s) <-> exists t i o, s_orders a !! (t, i) = Some o /\ r = (toRow o).1.
Proof.
  unfold allRows. rewrite elem_of_values. setoid_rewrite (pr_rows _ _ HR). split.
  - intros (i & Hi). destruct (s_orders a !! (owner i, i)) as [o|] eqn:Ho; [|done].
    injection Hi as <-. eauto.
  - intros (t & i & o & Ho & ->). exists i. rewrite <- (rep_owner _ _ _ Ho), Ho. done.
Qed.

Lemma allRows_NoDup : NoDup (allRows (Tables s)).
Proof.
  apply NoDup_values. intros i i' r. rewrite !(pr_rows _ _ HR).
  destruct (s_orders a !! (owner i, i)) as [o|] eqn:Ho; [|done].
  destruct (s_orders a !! (owner i', i')) as [o'|] eqn:Ho'; [|done].
  intros [= <-] [= E]. destruct (pr_wf _ _ HR _ _ _ Ho) as [_ <-], (pr_wf _ _ HR _ _ _ Ho') as [_ <-].
  by rewrite E.
Qed.

End Represented.

(** * The operations *)

Lemma execute_calm {A} (f : tables -> result (A * tables)) s :
  Answers s = [] ->
  execute f s = match f (Tables s) with
                | Ok (x, t) => (Ok x, mkPg t (NextID s) [] (Trace s))
                | Err e => (Err e, s)
                end.
Proof.
  intros Ha. unfold execute, stmt. rewrite Ha. destruct s as [t n an tr]. cbn in *. subst an.
  by destruct (f t) as [[x t']|e].
Qed.

Lemma query_calm {A} (f : tables -> result A) s :
  Answers s = [] -> query f s = (f (Tables s), s).
Proof.
  intros Ha. unfold query, stmt. rewrite Ha. destruct s as [t n an tr]. cbn in *. by subst an.
Qed.

(** A transaction on a calm connection commits what its body did, or undoes it. *)
Definition calm_transaction (tr : stm pg unit -> stm pg unit) : Prop :=
  forall fn s, Answers s = [] -> Answers (fn s).2 = [] ->
    tr fn s = match fn s with
              | (Ok u, s1) => (Ok u, s1)
              | (Err e, s1) => (Err e, restore (Tables s) s1)
              end.

Lemma calm_transaction_transaction : calm_transaction transaction.
Proof.
  intros fn s Ha Hf. unfold transaction. rewrite query_calm by done.
  destruct (fn s) as [[u|e] s1]; [|done]. cbn in Hf. rewrite Hf. by destruct s1; cbn in *; subst.
Qed.

Lemma calm_transaction_savepoint : calm_transaction savepoint.
Proof.
  intros fn s Ha Hf. unfold savepoint. rewrite query_calm by done.
  by destruct (fn s) as [[u|e] s1].
Qed.

Lemma restore_same s : restore (Tables s) s = s.
Proof. by destruct s. Qed.

(** The tables after an order's row and lines were written. *)
Lemma rep_put s a o s' :
  pg_rep s a -> storable o -> Answers s' = [] -> Trace s' = Trace s -> NextID s' = NextID s ->
  TOutbox (Tables s') = TOutbox (Tables s) ->
  (forall i, TOrders (Tables s') !! i =
     if decide (i = ID o) then Some (toRow o).1 else TOrders (Tables s) !! i) ->
  (forall i, List.filter (fun it => (iOrderID it =? i)%string) (TItems (Tables s')) ≡ₚ
     if decide (i = ID o) then (toRow o).2
     else List.filter (fun it => (iOrderID it =? i)%string) (TItems (Tables s))) ->
  pg_rep s' (mkS (<[(TenantID o, ID o) := o]> (s_orders a)) (s_events a)).
Proof.
  intros HR Ho Ha Ht Hn Hb Hrows Hitems. pose proof (st_owner _ Ho) as Hown.
  assert (forall i, (<[(TenantID o, ID o) := o]> (s_orders a)) !! (owner i, i) =
            if decide (i = ID o) then Some o else s_orders a !! (owner i, i)) as Hl.
  { intros i. rewrite lookup_insert. case_decide as E.
    - injection E as _ <-. by rewrite decide_True.
    - rewrite decide_False; [done|]. intros ->. by rewrite Hown in E. }
  split; cbn [s_orders s_events]; [done|by rewrite Ht; apply HR| | |..].
  - intros t i o'. cbn [s_orders]. rewrite lookup_insert. case_decide as E; [|apply HR].
    injection E as <- <-. by intros [= <-].
  - intros t i o'. rewrite lookup_insert. case_decide as E; [by intros [= <-]|apply HR].
  - intros i. rewrite Hrows, Hl. case_decide; [done|apply HR].
  - intros i. rewrite Hitems, Hl. case_decide; [done|apply HR].
  - rewrite Hb. apply HR.
  - rewrite Hb, Hn. apply HR.
Qed.

(** Writing the lines of a storable order whose row is there and which has no lines yet. *)
Lemma insertItems_storable id i items t :
  pg_uuid id = Some id -> is_Some (TOrders t !! id) ->
  Forall (fun it => pg_text (SKU it) = true) items ->
  Forall (fun it => Valid (UnitPrice it)) items -> Forall (fun it => 0 < Quantity it) items ->
  Forall (fun it => iOrderID it = id -> iLineNo it < Z.of_nat i) (TItems t) ->
  insertItems (toItemRows id i items) t =
    Ok (tt, mkTables (TOrders t) (TItems t ++ toItemRows id i items) (TOutbox t)).
Proof.
  intros Hu Hrow. revert i t Hrow.
  induction items as [|it items IH]; intros i t Hrow Hsku Hval Hq Hfree.
  { cbn. rewrite app_nil_r. by destruct t. }
  apply Forall_cons in Hsku as [Hsku Hskus]. apply Forall_cons in Hval as [Hv Hvs].
  apply Forall_cons in Hq as [Hq Hqs]. apply Valid_iff in Hv as (Hcode & _).
  cbn [toItemRows insertItems]. unfold stored_item, uuid_arg, text_arg, char3_arg.
  cbn [iOrderID iLineNo iSKU iQuantity iUnitCurrency iUnitUnits iUnitNanos].
  rewrite Hu, Hsku, (char3_code _ Hcode). cbn -[insertItems].
  destruct (Z.leb_spec (Quantity it) 0); [lia|].
  set (r := mkItemRow _ _ _ _ _ _ _).
  assert (existsb (same_line r) (TItems t) = false) as ->.
  { apply not_true_is_false. intros (x & Hx & Hs)%existsb_exists.
    rewrite Forall_forall in Hfree. unfold same_line in Hs. to_prop. cbn in *.
    apply list_elem_of_In, Hfree in Hx; [lia|done]. }
  rewrite bool_decide_eq_true_2 by done. cbn [negb].
  rewrite IH; cbn; try done.
  - do 2 f_equal. by rewrite <- app_assoc.
  - apply Forall_app. split; [|repeat constructor; cbn; lia].
    eapply Forall_impl; [exact Hfree|]. cbn. intros x Hx E. specialize (Hx E). lia.
Qed.

Lemma filter_toItemRows_same id i items :
  List.filter (fun it => (iOrderID it =? id)%string) (toItemRows id i items) = toItemRows id i items.
Proof.
  revert i. induction items as [|it items IH]; intros i; [done|]. cbn.
  rewrite String.eqb_refl. by rewrite IH.
Qed.

Lemma filter_toItemRows_other id i items j :
  j <> id -> List.filter (fun it => (iOrderID it =? j)%string) (toItemRows id i items) = [].
Proof.
  intros Hj. revert i. induction items as [|it items IH]; intros i; [done|]. cbn.
  destruct (String.eqb_spec id j); [by subst|apply IH].
Qed.

Lemma lines_nonempty o : storable o -> (length (toRow o).2 =? 0)%nat = false.
Proof. intros Ho. destruct (storable_money o Ho) as (_ & _ & Hne & _). by destruct o as [???? []]. Qed.

Section Writes.
Context (tr : stm pg unit -> stm pg unit) (Htr : calm_transaction tr).

(** The implementation's operation does what the abstract one does, and the sequence never
    goes back. *)
Definition op_sim {A} (m : stm pg A) (m' : stm sstate A) s a : Prop :=
  sim pg_rep (m s) (m' a) /\ NextID s <= NextID (m s).2.

Lemma op_sim_same {A} (m : stm pg A) (m' : stm sstate A) s a r r' :
  pg_rep s a -> m s = (r, s) -> m' a = (r', a) -> res_eq r r' -> op_sim m m' s a.
Proof. intros HR Hm Hm' Hr. split; [split|]; rewrite Hm, ?Hm'; cbn; done || lia. Qed.

Lemma insertOrder_new s a o :
  pg_rep s a -> storable o -> s_orders a !! (TenantID o, ID o) = None ->
  insertOrder (toRow o).1 (Tables s) =
    Ok (tt, mkTables (<[ID o := (toRow o).1]> (TOrders (Tables s))) (TItems (Tables s))
              (TOutbox (Tables s))).
Proof.
  intros HR Ho Hn. unfold insertOrder. rewrite stored_order_storable by done.
  cbn -[lookup insert toRow orders_checks]. rewrite checks_storable by done.
  cbn -[lookup insert toRow]. change (rID (toRow o).1) with (ID o).
  rewrite (pr_rows _ _ HR), (st_owner _ Ho), Hn. done.
Qed.

Lemma no_lines s a o :
  pg_rep s a -> storable o -> s_orders a !! (TenantID o, ID o) = None ->
  List.filter (fun it => (iOrderID it =? ID o)%string) (TItems (Tables s)) = [].
Proof.
  intros HR Ho Hn. apply Permutation_nil_r. rewrite (pr_items _ _ HR), (st_owner _ Ho), Hn. done.
Qed.

Lemma filter_nil_Forall l id :
  List.filter (fun it => (iOrderID it =? id)%string) l = [] ->
  Forall (fun it => iOrderID it = id -> iLineNo it < 0) l.
Proof.
  intros Hl. apply Forall_forall. intros it Hin E. exfalso.
  assert (it ∈ List.filter (fun it => (iOrderID it =? id)%string) l) as Hx.
  { apply elem_of_filter_list. by rewrite E, String.eqb_refl. }
  rewrite Hl in Hx. by apply elem_of_nil in Hx.
Qed.

(** Inserting the lines of [o] into tables that have its row but no line of it. *)
Lemma insertLines o t :
  storable o -> is_Some (TOrders t !! ID o) ->
  List.filter (fun it => (iOrderID it =? ID o)%string) (TItems t) = [] ->
  insertItems (toRow o).2 t =
    Ok (tt, mkTables (TOrders t) (TItems t ++ (toRow o).2) (TOutbox t)).
Proof.
  intros Ho Hrow Hl. destruct (storable_money o Ho) as (_ & Hv & _ & _ & Hq).
  destruct Ho as [_ _ [Hu _] _ (_ & _ & Hsku) _].
  apply (insertItems_storable (ID o) 0); try done. by apply filter_nil_Forall.
Qed.

Lemma filter_app_lines l o i :
  List.filter (fun it => (iOrderID it =? ID o)%string) l = [] ->
  List.filter (fun it => (iOrderID it =? i)%string) (l ++ (toRow o).2) ≡ₚ
    if decide (i = ID o) then (toRow o).2 else List.filter (fun it => (iOrderID it =? i)%string) l.
Proof.
  intros Hl. rewrite List.filter_app. cbn [toRow snd]. case_decide as E.
  - subst i. by rewrite Hl, filter_toItemRows_same.
  - by rewrite filter_toItemRows_other, app_nil_r.
Qed.

Lemma Create_sim o s a :
  storable o -> pg_rep s a -> op_sim (Create tr o) (store_Create o) s a.
Proof.
  intros Ho HR. destruct (storable_money o Ho) as (_ & _ & Hne & Ht & _).
  unfold op_sim, Create. cbn -[lookup insert toRow]. apply String.eqb_neq in Ht as ->.
  rewrite (surjective_pairing (toRow o)). set (fn := (_ ≫= _ : stm pg unit)).
  pose proof (pr_calm _ _ HR) as Hcalm.
  destruct (s_orders a !! (TenantID o, ID o)) as [o'|] eqn:Hold.
  - assert (fn s = (Err ErrDuplicate, s)) as Hfn.
    { subst fn. unfold mbind, stm_bind, written. rewrite execute_calm by done.
      unfold insertOrder. rewrite stored_order_storable by done.
  cbn -[lookup insert toRow orders_checks]. rewrite checks_storable by done.
      cbn -[lookup toRow]. change (rID (toRow o).1) with (ID o).
      rewrite (pr_rows _ _ HR), (st_owner _ Ho), Hold. done. }
    rewrite Htr by (rewrite ?Hfn; done). rewrite Hfn, restore_same. cbn.
    split; [split; [done|exact HR]|lia].
  - set (s' := mkPg (mkTables (<[ID o := (toRow o).1]> (TOrders (Tables s)))
                 (TItems (Tables s) ++ (toRow o).2) (TOutbox (Tables s))) (NextID s) [] (Trace s)).
    assert (fn s = (Ok tt, s')) as Hfn.
    { subst fn. unfold mbind, stm_bind. unfold written at 1. rewrite execute_calm by done.
      rewrite (insertOrder_new s a) by done. cbn -[lookup insert toRow written].
      rewrite lines_nonempty by done. unfold written. rewrite execute_calm by done.
      cbn [Tables]. rewrite insertLines; [done|done| |].
      - cbn [TOrders]. rewrite lookup_insert_eq. eauto.
      - by apply (no_lines s a). }
    rewrite Htr by (rewrite ?Hfn; done). rewrite Hfn. cbn [fst snd].
    split; [|cbn; lia]. split; [done|]. eapply (rep_put s a o s'); try done.
    + intros i. cbn. rewrite lookup_insert. repeat case_decide; congruence.
    + intros i. apply filter_app_lines. by apply (no_lines s a).
Qed.

End Writes.

(** * Reading *)

Lemma filter_single {A} (p : A -> bool) l x :
  NoDup l -> x ∈ l -> p x = true -> (forall y, y ∈ l -> p y = true -> y = x) ->
  List.filter p l = [x].
Proof.
  intros Hn Hx Hp Hu. apply Permutation_singleton_r. apply NoDup_Permutation.
  - by apply NoDup_filter_list.
  - apply NoDup_singleton.
  - intros y. rewrite elem_of_filter_list, list_elem_of_singleton.
    split; [intros []; by apply Hu|by intros ->].
Qed.

(** The row of an order with its lines reads back as the order. *)
Lemma read_row s a t i o :
  pg_rep s a -> s_orders a !! (t, i) = Some o ->
  toDomain (withItems (itemsOf (Tables s) (rID (toRow o).1)) (toRow o).1) = Ok o.
Proof.
  intros HR Ho. change (rID (toRow o).1) with (ID o).
  destruct (pr_wf _ _ HR _ _ _ Ho) as [_ Hi]. rewrite Hi.
  rewrite (itemsOf_row s a HR t i o Ho).
  destruct (storable_money o (pr_storable _ _ HR _ _ _ Ho)) as (Hv & Hvs & _).
  by apply toDomain_toRow.
Qed.

(** What the WHERE clause of [Get] selects. *)
Lemma filter_get s a t i :
  pg_rep s a ->
  List.filter (fun r => (rTenantID r =? t)%string && (rID r =? i)%string && (rTenantID r =? t)%string)
    (allRows (Tables s)) =
  match s_orders a !! (t, i) with Some o => [(toRow o).1] | None => [] end.
Proof.
  intros HR.
  assert (forall r, r ∈ allRows (Tables s) ->
    (rTenantID r =? t)%string && (rID r =? i)%string && (rTenantID r =? t)%string = true ->
    exists o, s_orders a !! (t, i) = Some o /\ r = (toRow o).1) as Hsel.
  { intros r Hr Hp. to_prop. apply (elem_of_allRows s a HR) in Hr as (t' & i' & o & Ho & ->).
    cbn in *. destruct (pr_wf _ _ HR _ _ _ Ho). exists o. split; [congruence|done]. }
  destruct (s_orders a !! (t, i)) as [o|] eqn:Ho.
  - apply filter_single.
    + by eapply allRows_NoDup.
    + apply (elem_of_allRows s a HR). eauto.
    + cbn. destruct (pr_wf _ _ HR _ _ _ Ho) as [-> ->]. by rewrite !String.eqb_refl.
    + intros r Hr Hp. destruct (Hsel r Hr Hp) as (o' & Ho' & ->). congruence.
  - apply filter_none. intros r Hr. apply not_true_is_false. intros Hp.
    by destruct (Hsel r Hr Hp) as (o' & Ho' & _).
Qed.

Lemma Get_sim t i s a :
  pg_text t = true -> pg_uuid i = Some i -> pg_rep s a -> op_sim (Get t i) (store_Get t i) s a.
Proof.
  intros Ht Hi HR. pose proof (pr_calm _ _ HR) as Hcalm.
  unfold Get. cbn -[lookup query preload guard]. destruct (t =? "")%string eqn:Hne.
  { eapply op_sim_same; done. }
  to_prop. set (r := match s_orders a !! (t, i) with
                    | Some o => Ok o | None => Err ErrNotFound end).
  apply (op_sim_same _ _ s a r r); subst r; [done| | |].
  2:{ cbn -[lookup]. by destruct (s_orders a !! _). }
  2:{ apply res_eq_refl. }
  rewrite guard_orders by auto. unfold mbind, stm_bind. cbn -[lookup query preload text_arg uuid_arg].
  rewrite query_calm by done. unfold text_arg, uuid_arg. rewrite Ht, Hi.
  cbn -[lookup preload]. rewrite (filter_get s a) by done.
  destruct (s_orders a !! (t, i)) as [o|] eqn:Ho; [|done].
  cbn -[lookup preload toRow withItems itemsOf toDomain]. unfold preload. rewrite query_calm by done.
  cbn -[lookup toRow withItems itemsOf toDomain]. by rewrite (read_row s a t i).
Qed.

(** * Listing *)

Lemma list_where_selects t f cur o :
  list_where t f cur (toRow o).1 =
    selects t f o && match cur with
                     | Some k => bool_decide (key_lt k (order_key o)) | None => true end.
Proof.
  unfold list_where, selects. cbn. f_equal. do 2 f_equal.
  assert (StatusString (OStatus o) = StatusString (FStatus f) <-> OStatus o = FStatus f) as Hs.
  { split; [|by intros ->]. by destruct (OStatus o), (FStatus f). }
  f_equal. destruct (String.eqb_spec (StatusString (OStatus o)) (StatusString (FStatus f)));
    symmetry; [apply bool_decide_eq_true_2|apply bool_decide_eq_false_2]; naive_solver.
Qed.

#[local] Instance row_le_trans : Transitive row_le.
Proof. intros a b c. unfold row_le. intros ??. by etrans. Qed.
#[local] Instance row_le_total : Total row_le.
Proof. intros a b. apply (total key_le). Qed.

Section Listing.
Context (s : pg) (a : sstate) (HR : pg_rep s a) (t : string) (f : ListFilter) (cur : option okey).

Definition selected : list Order := after cur (listing t f a).

Lemma elem_of_selected o :
  o ∈ selected <-> list_where t f cur (toRow o).1 = true /\ s_orders a !! (t, ID o) = Some o.
Proof.
  unfold selected. rewrite list_where_selects, andb_true_iff.
  pose proof (elem_of_listing a (pr_wf _ _ HR) t f o) as Hl.
  destruct cur as [k|]; cbn [after]; rewrite ?elem_of_filter_list, Hl; tauto.
Qed.

Lemma selected_sorted : StronglySorted ord_lt selected.
Proof. apply after_sorted, listing_strict, HR. Qed.

(** The rows the listing reads are those of the abstract listing, in its order. *)
Lemma listing_rows :
  merge_sort row_le
    (List.filter (fun r => list_where t f cur r && (rTenantID r =? t)%string) (allRows (Tables s))) =
  (fun o => (toRow o).1) <$> selected.
Proof.
  assert (forall r r', r ∈ allRows (Tables s) -> r' ∈ allRows (Tables s) -> rID r = rID r' -> r = r')
    as Hinj.
  { intros r r'. rewrite !(elem_of_allRows s a HR).
    intros (t1 & i1 & o1 & Ho1 & ->) (t2 & i2 & o2 & Ho2 & ->) E. cbn in E.
    pose proof (rep_owner s a HR _ _ _ Ho1) as ->. pose proof (rep_owner s a HR _ _ _ Ho2) as ->.
    destruct (pr_wf _ _ HR _ _ _ Ho1) as [_ E1], (pr_wf _ _ HR _ _ _ Ho2) as [_ E2].
    subst i1 i2. rewrite E in Ho1. congruence. }
  assert (forall r, r ∈ List.filter (fun r => list_where t f cur r && (rTenantID r =? t)%string)
                          (allRows (Tables s)) <-> r ∈ (fun o => (toRow o).1) <$> selected) as Hel.
  { intros r. rewrite elem_of_filter_list, (elem_of_allRows s a HR), list_elem_of_fmap.
    setoid_rewrite elem_of_selected. rewrite andb_true_iff, String.eqb_eq. split.
    - intros ([Hw Ht] & t' & i & o & Ho & ->). cbn in Ht. exists o. split_ands; try done.
      destruct (pr_wf _ _ HR _ _ _ Ho) as [E1 E2]. by rewrite <- Ht, E1, E2.
    - intros (o & -> & Hw & Ho). destruct (pr_wf _ _ HR _ _ _ Ho) as [E1 E2]. split; [done|eauto]. }
  apply (StronglySorted_unique_strong row_le).
  - intros r r' Hr Hr' Hle Hge. rewrite merge_sort_Permutation in Hr. apply Hel in Hr'.
    apply elem_of_filter_list in Hr as [_ Hr], Hr' as [_ Hr']. apply Hinj; [done..|].
    assert (row_key r = row_key r') as [= _ E] by (by apply (anti_symm key_le)). done.
  - apply StronglySorted_merge_sort; apply _.
  - clear Hel. induction selected_sorted as [|o l _ IH Ho]; cbn; [constructor|].
    constructor; [done|]. apply Forall_fmap. eapply Forall_impl; [exact Ho|]. by intros o' [? _].
  - rewrite merge_sort_Permutation. apply NoDup_Permutation; [| |exact Hel].
    + apply NoDup_filter_list. by eapply allRows_NoDup.
    + pose proof selected_sorted as Hs. assert (forall o, o ∈ selected -> s_orders a !! (t, ID o) = Some o)
        as Hin by (intros o Ho; by apply elem_of_selected in Ho as [_ ?]).
      clear Hel. revert Hin. induction Hs as [|o l _ IH Ho]; intros Hin; cbn; [constructor|].
      constructor; [|apply IH; intros o' Ho'; apply Hin; by right].
      intros (o' & E & Ho')%list_elem_of_fmap. cbn in E.
      assert (ID o = ID o') as Eid by congruence.
      assert (o = o') as <-.
      { pose proof (Hin o ltac:(by left)). pose proof (Hin o' ltac:(by right)). congruence. }
      rewrite Forall_forall in Ho. by destruct (Ho o Ho').
Qed.

(** A row of the page with its lines. *)
Definition read (o : Order) : orderRow :=
  withItems (itemsOf (Tables s) (rID (toRow o).1)) (toRow o).1.

Lemma toDomains_read l :
  (forall o, o ∈ l -> o ∈ selected) -> toDomains (read <$> l) = Ok l.
Proof.
  induction l as [|o l IH]; intros Hin; [done|]. cbn [fmap list_fmap toDomains].
  destruct (proj1 (elem_of_selected o) (Hin o ltac:(by left))) as [_ Ho].
  rewrite (read_row s a t (ID o) o HR Ho : toDomain (read o) = Ok o).
  rewrite (IH (fun o' Ho' => Hin o' (list_elem_of_further o' o l Ho'))). done.
Qed.

End Listing.

Lemma preload_calm rows s :
  Answers s = [] -> preload rows s = (Ok ((fun r => withItems (itemsOf (Tables s) (rID r)) r) <$> rows), s).
Proof. intros Ha. destruct rows; [done|]. unfold preload. by rewrite query_calm. Qed.

(** Cutting a page off one row more than the page size is cutting it off the whole listing. *)
Lemma take_more {A} n (l : list A) :
  (n <? length (take (n + 1) l))%nat = (n <? length l)%nat /\
  (if (n <? length l)%nat then take n (take (n + 1) l) else take (n + 1) l) = take n l.
Proof.
  rewrite length_take. destruct (Nat.ltb_spec n (length l)).
  - split; [apply Nat.ltb_lt; lia|]. rewrite take_take. f_equal. lia.
  - split; [apply Nat.ltb_ge; lia|]. rewrite !take_ge; [done|lia..].
Qed.

Lemma List_sim t f s a : can_list pg_domain t f -> pg_rep s a -> op_sim (List t f) (store_List t f) s a.
Proof.
  intros (Ht & Hc & Htok) HR. pose proof (pr_calm _ _ HR) as Hcalm.
  unfold List. cbn -[lookup query preload guard Nat.ltb Nat.leb]. destruct (t =? "")%string eqn:Hne.
  { eapply op_sim_same; done. }
  to_prop. set (r := cur ← DecodePageToken t f; cutPage t f (after cur (listing t f a))).
  apply (op_sim_same _ _ s a r r); subst r; [done| |done|apply res_eq_refl].
  rewrite guard_orders by auto. unfold mbind, stm_bind, lift.
  destruct (DecodePageToken t f) as [cur|e] eqn:Hdec; [|done].
  cbn -[lookup query preload list_args merge_sort take Nat.ltb Nat.leb].
  assert (list_args t f cur = Ok cur) as Hargs.
  { unfold list_args, text_arg, uuid_arg. rewrite Ht. cbn. rewrite Hc.
    destruct (FCustomerID f =? "")%string; cbn; (destruct cur as [[at_ id]|]; [|done]);
      destruct (Htok at_ id eq_refl) as [-> ->]; done. }
  rewrite query_calm by done. rewrite Hargs. cbn -[lookup preload merge_sort take listing Nat.ltb Nat.leb].
  rewrite (listing_rows s a HR t f cur). rewrite preload_calm by done.
  unfold cutPage, pageSize. set (size := Z.to_nat (ClampPageSize (PageSize f))).
  change (after cur (listing t f a)) with (selected a t f cur). set (L := selected a t f cur).
  assert ((fun r => withItems (itemsOf (Tables s) (rID r)) r) <$>
            take (size + 1) ((fun o => (toRow o).1) <$> L) = read s <$> take (size + 1) L) as ->
    by (by rewrite <- fmap_take, <- list_fmap_compose).
  rewrite length_fmap. destruct (take_more size L) as [Hmore Hpage]. rewrite Hmore.
  assert ((if (size <? length L)%nat then take size (read s <$> take (size + 1) L)
           else read s <$> take (size + 1) L) = read s <$> take size L) as ->
    by (rewrite <- Hpage, <- fmap_take; by destruct (size <? length L)%nat).
  rewrite (toDomains_read s a HR t f cur)
    by (intros o; apply subseteq_take).
  assert (1 <= size)%nat as Hsize.
  { subst size. pose proof (ClampPageSize_spec (PageSize f)) as [? _]. lia. }
  destruct (Nat.ltb_spec size (length L)) as [Hlt|Hge].
  - rewrite length_take_le by lia. destruct size as [|n] eqn:En; [lia|]. cbn [Nat.eqb negb andb].
    destruct (take (S n) L !! _) as [last_|]; [|done]. cbn.
    by destruct (EncodePageToken t f last_).
  - cbn [andb]. by rewrite take_ge by lia.
Qed.

(** * Updating *)

Lemma written_Ok {A} (m : stm pg A) s (x : A) s' : m s = (Ok x, s') -> written m s = (Ok x, s').
Proof. unfold written. by intros ->. Qed.

(** The row an update writes is the row of the new order. *)
Lemma updated_row old o :
  TenantID old = TenantID o -> ID old = ID o -> CreatedAt old = CreatedAt o ->
  mkOrderRow (rID (toRow old).1) (rTenantID (toRow old).1) (rCustomerID (toRow o).1)
    (rStatus (toRow o).1) (rCurrencyCode (toRow o).1) (rTotalUnits (toRow o).1)
    (rTotalNanos (toRow o).1) (rCreatedAt (toRow old).1) (rUpdatedAt (toRow o).1) [] = (toRow o).1.
Proof. destruct old, o. cbn. by intros -> -> ->. Qed.

(** What the UPDATE of an order does: no row, or the row of the new order in place. *)
Lemma updateOrder_spec s a o :
  pg_rep s a -> can_update pg_domain a o ->
  match s_orders a !! (TenantID o, ID o) with
  | None => updateOrder (fun r => (rTenantID r =? TenantID o)%string) (toRow o).1 (Tables s) =
              Ok (0, Tables s)
  | Some _ => exists m,
      updateOrder (fun r => (rTenantID r =? TenantID o)%string) (toRow o).1 (Tables s) =
        Ok (1, mkTables m (TItems (Tables s)) (TOutbox (Tables s))) /\
      forall i, m !! i = if decide (i = ID o) then Some (toRow o).1 else TOrders (Tables s) !! i
  end.
Proof.
  intros HR [Ho Hcr]. pose proof (filter_get s a (TenantID o) (ID o) HR) as Hhit.
  unfold updateOrder. rewrite stored_order_storable by done.
  cbn -[lookup toRow orders_checks fmap].
  change (rTenantID (toRow o).1) with (TenantID o) in *. change (rID (toRow o).1) with (ID o) in *.
  rewrite Hhit. destruct (s_orders a !! (TenantID o, ID o)) as [old|] eqn:Hold; [|done].
  rewrite checks_storable by done. cbn -[lookup toRow fmap].
  eexists. split; [reflexivity|]. intros i. rewrite lookup_fmap, (pr_rows _ _ HR).
  destruct (pr_wf _ _ HR _ _ _ Hold) as [Ht Hi]. pose proof (rep_owner s a HR _ _ _ Hold) as Hown.
  case_decide as E.
  - subst i. rewrite <- Hown, Hold. cbn -[toRow].
    assert ((rTenantID (toRow old).1 =? TenantID o)%string && (rID (toRow old).1 =? ID o)%string
            && (rTenantID (toRow old).1 =? TenantID o)%string = true) as ->
      by (cbn; by rewrite Ht, Hi, !String.eqb_refl).
    f_equal.
    apply updated_row; [done|done|by apply Hcr].
  - destruct (s_orders a !! (owner i, i)) as [x|] eqn:Hx; [|done]. cbn -[toRow]. f_equal.
    destruct (pr_wf _ _ HR _ _ _ Hx) as [_ Hix].
    change (rID (toRow x).1) with (ID x). rewrite Hix.
    apply String.eqb_neq in E as ->. by rewrite andb_false_r.
Qed.

Lemma filter_delete id l i :
  List.filter (fun it => (iOrderID it =? i)%string)
    (List.filter (fun it => negb (iOrderID it =? id)%string) l) =
  if decide (i = id) then [] else List.filter (fun it => (iOrderID it =? i)%string) l.
Proof.
  induction l as [|x l IH]; [by case_decide|]. cbn.
  destruct (String.eqb_spec (iOrderID x) id) as [E|E]; cbn; rewrite IH.
  - case_decide as E'; [done|]. destruct (String.eqb_spec (iOrderID x) i); [congruence|done].
  - case_decide as E'; [|done]. destruct (String.eqb_spec (iOrderID x) i); [congruence|done].
Qed.

Lemma Update_sim tr o s a :
  calm_transaction tr -> can_update pg_domain a o -> pg_rep s a ->
  op_sim (Update tr o) (store_Update o) s a.
Proof.
  intros Htr Hcan HR. pose proof Hcan as [Ho _].
  destruct (storable_money o Ho) as (_ & _ & _ & Ht & _).
  unfold op_sim, Update. cbn -[lookup insert toRow guard]. pose proof Ht as Ht'.
  apply String.eqb_neq in Ht as ->. rewrite (surjective_pairing (toRow o)).
  set (fn := (_ ≫= _ : stm pg unit)). pose proof (pr_calm _ _ HR) as Hcalm.
  pose proof (updateOrder_spec s a o HR Hcan) as Hup.
  assert (forall n t, updateOrder (fun r => (rTenantID r =? TenantID o)%string) (toRow o).1 (Tables s)
            = Ok (n, t) ->
            written (g ← lift (guard (Some (SPointer orderRow_shape)) (Some SOther)
                                 (WithTenant (TenantID o)));
                     execute (updateOrder g (toRow o).1)) s =
            (Ok n, mkPg t (NextID s) [] (Trace s))) as Hw.
  { intros n t Hn. apply written_Ok. rewrite guard_orders by auto. unfold mbind, stm_bind.
    cbn [lift]. rewrite execute_calm by done. by rewrite Hn. }
  destruct (s_orders a !! (TenantID o, ID o)) as [old|] eqn:Hold.
  - destruct Hup as (m & Hup & Hm). specialize (Hw _ _ Hup).
    set (s' := mkPg (mkTables m
       (List.filter (fun it => negb (iOrderID it =? ID o)%string) (TItems (Tables s)) ++ (toRow o).2)
       (TOutbox (Tables s))) (NextID s) [] (Trace s)).
    pose proof (filter_delete (ID o) (TItems (Tables s))) as Hdel.
    assert (fn s = (Ok tt, s')) as Hfn.
    { subst fn. unfold mbind at 1, stm_bind at 1. rewrite Hw. cbn [Z.eqb].
      unfold mbind, stm_bind. rewrite execute_calm by done. unfold deleteItems, uuid_arg.
      pose proof (st_uuid _ Ho) as [Hu _]. rewrite Hu. cbn -[lookup insert toRow written].
      rewrite lines_nonempty by done. apply written_Ok. rewrite execute_calm by done.
      cbn [Tables]. rewrite insertLines; [done|done| |].
      - cbn [TOrders]. rewrite Hm, decide_True by done. eauto.
      - cbn [TItems]. by rewrite Hdel, decide_True. }
    rewrite Htr by (rewrite ?Hfn; done). rewrite Hfn. cbn [fst snd].
    split; [|cbn; lia]. split; [done|]. eapply (rep_put s a o s'); try done.
    intros i. cbn [s' Tables TItems]. rewrite filter_app_lines by (by rewrite Hdel, decide_True).
    rewrite Hdel. by case_decide.
  - specialize (Hw _ _ Hup).
    assert (fn s = (Err ErrNotFound, s)) as Hfn.
    { subst fn. unfold mbind at 1, stm_bind at 1. rewrite Hw. cbn. destruct s; cbn in *. by subst. }
    rewrite Htr by (rewrite ?Hfn; done). rewrite Hfn, restore_same. cbn.
    split; [split; [done|exact HR]|lia].
Qed.

(** * Publishing *)

#[local] Existing Instances Outbox.id_le_dec Outbox.id_le_total Outbox.id_le_trans.

Lemma rows_by_id_insert (t : Outbox.table) n r :
  (forall k, is_Some (t !! k) -> k < n) ->
  Outbox.rows_by_id (fun _ => true) (<[n := r]> t) =
    Outbox.rows_by_id (fun _ => true) t ++ [(n, r)].
Proof.
  intros Hlt. unfold Outbox.rows_by_id. rewrite !filter_id by (by apply Forall_forall).
  assert (t !! n = None) as Hn by (apply eq_None_not_Some; intros Hs; apply Hlt in Hs; lia).
  assert (forall k x, (k, x) ∈ merge_sort Outbox.id_le (map_to_list t) -> k < n) as Hk.
  { intros k x. rewrite merge_sort_Permutation, elem_of_map_to_list. intros Hx.
    apply Hlt. eauto. }
  apply (StronglySorted_unique_strong Outbox.id_le).
  - intros [k x] [k' x'] Hx Hx' H1' H2'. unfold Outbox.id_le in *. cbn in *.
    assert (k = k') as <- by lia. f_equal.
    rewrite merge_sort_Permutation, elem_of_map_to_list in Hx.
    apply elem_of_app in Hx' as [Hx'|[= -> ->]%list_elem_of_singleton].
    + pose proof (Hk _ _ Hx'). rewrite merge_sort_Permutation, elem_of_map_to_list in Hx'.
      rewrite lookup_insert_ne in Hx by lia. congruence.
    + rewrite lookup_insert_eq in Hx. congruence.
  - apply StronglySorted_merge_sort; apply _.
  - assert (StronglySorted Outbox.id_le (merge_sort Outbox.id_le (map_to_list t))) as Hs
      by (apply StronglySorted_merge_sort; apply _).
    revert Hs Hk. generalize (merge_sort Outbox.id_le (map_to_list t)) as l. intros l Hs.
    induction Hs as [|x l _ IH Hx]; intros Hk; cbn; [repeat constructor|]. constructor.
    + apply IH. intros k y Hy. apply (Hk k y). by right.
    + apply Forall_app. split; [done|]. repeat constructor. unfold Outbox.id_le. cbn.
      destruct x as [k y]. specialize (Hk k y ltac:(by left)). cbn. lia.
  - rewrite !merge_sort_Permutation, map_to_list_insert by done. by rewrite Permutation_app_comm.
Qed.

Lemma Publish_sim e s a :
  storable_event e -> pg_rep s a -> op_sim (Publish e) (pub_Publish e) s a.
Proof.
  intros (Ho & Hid & Hten & Hty & Hat & _) HR. pose proof (pr_calm _ _ HR) as Hcalm.
  destruct Ho as [Hval Hw [Hu Htx] _ (Ht & Hc & Hs) ((_ & Hc1) & (_ & Hc2))].
  destruct (jsonb_order (EOrder e)) as (b & j & Hb & Hj & Hback); try done.
  { apply Forall_forall. intros it Hit. rewrite Forall_forall in Hw. split; [by apply Hw|].
    apply OrderValidate_spec in Hval as (_ & _ & _ & Hall & _). rewrite Forall_forall in Hall.
    by apply ItemValidate_Ok, Hall. }
  { by apply OrderValidate_total_Valid. }
  unfold op_sim, Publish. rewrite Hb. unfold stmt. rewrite Hcalm.
  assert (outboxRow e b (Trace s) = Ok (Outbox.mkRow (ETenantID e) (AggregateID e) (EType e) j
            (OccurredAt e) (Some (Trace s)) None None None)) as ->.
  { unfold outboxRow, text_arg, uuid_arg, jsonb_arg.
    rewrite Hten, Ht, Hid, Hu, Hty, Hj, (pr_trace _ _ HR). cbn. by rewrite Hat. }
  cbn -[lookup insert]. split; [|lia]. split; [done|].
  split; cbn [Answers Trace Tables NextID TOrders TItems TOutbox s_orders s_events]; try apply HR; try done.
  - cbn. rewrite rows_by_id_insert by apply HR. apply Forall2_app; [apply HR|].
    repeat constructor; done.
  - cbn. intros k. rewrite lookup_insert. case_decide as E; [intros _; lia|].
    intros Hk. apply (pr_next _ _ HR) in Hk. lia.
Qed.

(** * The ports *)

Section Instances.

#[export] Instance pg_sim : StoreSim pg pg_domain pg_rep.
Proof.
  split.
  - intros s a HR. apply HR.
  - intros o s a Ho HR. by apply (Create_sim transaction calm_transaction_transaction).
  - intros t i s a [Ht Hi] HR. by apply Get_sim.
  - intros t f s a Hf HR. by apply List_sim.
  - intros o s a Ho HR. by apply (Update_sim transaction o s a calm_transaction_transaction).
  - intros e s a He HR. by apply Publish_sim.
Qed.

(** The states of a transaction begun in [s0]. *)
Definition began (s0 : pg) (s : tx) (a : sstate) : Prop :=
  tx_rep s a /\ NextID s0 <= NextID (tx_pg s).

Lemma in_tx_sim {A} (op : stm pg A) (op' : stm sstate A) s0 s a :
  op_sim op op' (tx_pg s) a -> began s0 s a -> sim (began s0) (in_tx op s) (op' a).
Proof.
  intros [[Hr HR] Hn] [_ Hle]. unfold sim, in_tx, began, tx_rep.
  destruct (op (tx_pg s)) as [r s']. cbn in *. split_ands; try done. lia.
Qed.

#[export] Instance tx_sim s0 : StoreSim tx pg_domain (began s0).
Proof.
  split.
  - intros s a [HR _]. apply HR.
  - intros o s a Ho HR. apply in_tx_sim; [|done].
    apply (Create_sim savepoint calm_transaction_savepoint); [done|apply HR].
  - intros t i s a [Ht Hi] HR. apply in_tx_sim; [|done]. apply Get_sim; [done..|apply HR].
  - intros t f s a Hf HR. apply in_tx_sim; [|done]. apply List_sim; [done|apply HR].
  - intros o s a Ho HR. apply in_tx_sim; [|done].
    apply (Update_sim savepoint o _ a calm_transaction_savepoint); [done|apply HR].
  - intros e s a He HR. apply in_tx_sim; [|done]. apply Publish_sim; [done|apply HR].
Qed.

Lemma restore_rep s s1 a :
  pg_rep s a -> Answers s1 = [] -> pg_text (Trace s1) = true -> NextID s <= NextID s1 ->
  pg_rep (restore (Tables s) s1) a.
Proof.
  intros HR Ha Ht Hn. split; cbn [restore Tables NextID Answers Trace]; try apply HR; try done.
  intros k Hk. apply (pr_next _ _ HR) in Hk. lia.
Qed.

#[export] Instance pg_atomic_sim : AtomicSim pg tx pg_rep began.
Proof.
  split. intros A fn fn' s a Hfn HR. cbn. unfold transaction.
  rewrite query_calm by (by apply HR).
  assert (began s (mkTx s) a) as Hb by (split; [done|cbn; lia]).
  destruct (Hfn (mkTx s) Hb) as [Hres [HRx Hle]].
  destruct (fn (mkTx s)) as [[x|e] [s1]], (fn' a) as [[x'|e'] a']; cbn in *; try done.
  - pose proof (pr_calm _ _ HRx) as Hc. cbn in Hc. rewrite Hc. split; [done|].
    cbn. by destruct s1; cbn in *; subst.
  - split; [done|]. cbn. apply restore_rep; [done|apply HRx|apply HRx|done].
Qed.

End Instances.

End Refinement.
