(* ===== verification/StoresAgree.v ===== *)
(** The two stores are interchangeable on calls made one after another that Postgres can
    represent: the service answers them over Postgres as it does over the in-memory store, and
    the outbox table holds exactly the events the stored orders warrant.  At the end, what
    becomes of two calls that overlap. *)

From S2P Require Outbox.
From S2P Require Import Prelude GoErr GoStr Money Order Cursor Store Paging.
From S2P Require Import OrderPg OrderPgSpec OrderPgRefines.
From S2P Require Import OrderMem Seed Service ServiceSpec.

Section Agree.
Context `{PgLaws, Unicode, CursorEnv} (owner : string -> string).

(** A call whose arguments Postgres represents exactly: canonical ids issued to one tenant,
    text without NUL, clock readings in microseconds, a page token of this service. *)
Definition exact_call (c : call) : Prop :=
  match c with
  | CallCreate id now cmd =>
      (pg_text (CmdTenantID cmd) = true /\ pg_text (CmdCustomerID cmd) = true /\
       Forall (fun it => pg_text (SKU it) = true /\ int_ok 32 (Quantity it)) (CmdItems cmd)) /\
      micros now /\
      forall u, id = Ok u ->
        pg_uuid u = Some u /\ pg_text u = true /\ owner u = CmdTenantID cmd
  | CallGet t i => pg_text t = true /\ pg_uuid i = Some i
  | CallList t f =>
      pg_text t = true /\ pg_text (FCustomerID f) = true /\
      forall at_ id, DecodePageToken t f = Ok (Some (at_, id)) ->
        pg_time at_ = at_ /\ pg_uuid id = Some id
  | CallCancel now t i => pg_text t = true /\ pg_uuid i = Some i /\ micros now
  end.

Lemma exact_call_ok c s a :
  exact_call c -> pg_rep owner s a -> call_ok (pg_domain owner) c a.
Proof.
  intros Hc HR. destruct c as [id now cmd|t i|t f|now t i]; cbn in *; try done.
  - destruct Hc as ((Ht & Hcu & Hit) & Hnow & Hid). intros u total Hu _ Hv.
    destruct (Hid u Hu) as (Hu1 & Hu2 & Hown).
    assert (storable owner (mkOrder u (CmdTenantID cmd) (CmdCustomerID cmd) StatusPending
              (CmdItems cmd) total now now)) as Hs.
    { split; cbn; try done; split_ands; try done; (eapply Forall_impl; [exact Hit|by intros it []]). }
    split; [done|]. unfold OrderPgRefines.storable_event. cbn. split_ands; try done.
    apply OrderPgRefines.event_text.
  - destruct Hc as (Ht & Hi & Hnow). split; [done|]. intros o o' Ho Hcan.
    pose proof (OrderPgRefines.pr_storable _ _ _ HR t i o Ho) as [Hv Hw Hu Hown Hx [Hc1 Hc2]].
    pose proof (Cancel_fields o now o' Hcan) as (Es & Eu & Ei & Et & Ec & Eit & Eto & Ecr).
    assert (storable owner o') as Hs.
    { split; rewrite ?Ei, ?Et, ?Ec, ?Eit, ?Ecr, ?Eu; try done. by eapply Cancel_valid. }
    split.
    + split; [done|]. intros old. rewrite Et, Ei.
      destruct (OrderPgRefines.pr_wf _ _ _ HR _ _ _ Ho) as [-> ->]. congruence.
    + unfold OrderPgRefines.storable_event. cbn. split_ands; try done; try apply Hnow.
      apply OrderPgRefines.event_text.
Qed.

(** An empty database. *)
Definition fresh (n : Z) (trace : string) : pg := mkPg (mkTables ∅ [] ∅) n [] trace.

Lemma fresh_rep n trace : pg_text trace = true -> pg_rep owner (fresh n trace) empty_sstate.
Proof.
  intros Ht. split; cbn; intros *; rewrite ?lookup_empty; done.
Qed.

Lemma pg_run_sim cs n trace :
  Forall exact_call cs -> pg_text trace = true ->
  Forall2 ans_eq (run tx cs (fresh n trace)).1 (run sstate cs empty_sstate).1 /\
  pg_rep owner (run tx cs (fresh n trace)).2 (run sstate cs empty_sstate).2.
Proof.
  intros Hcs Ht. apply (run_sim (pg_domain owner) (pg_rep owner) (began owner)); [|by apply fresh_rep].
  eapply Forall_impl; [exact Hcs|]. intros c Hc s a HR. by eapply exact_call_ok.
Qed.

Lemma exact_nul_free c : exact_call c -> nul_free (call_tenant c).
Proof.
  intros Hc. apply OrderPgRefines.text_nul.
  destruct c as [id now cmd|t i|t f|now t i]; cbn in *;
    [by destruct Hc as [[Ht _] _]|by destruct Hc as [Ht _]..].
Qed.

(** C3. For calls made one after another, each representable exactly ([exact_call]: ids canonical
    and issued to one tenant, UTF-8 text without NUL, clock readings in whole microseconds, page
    tokens of this service), over an empty database whose statements all succeed, the service
    over Postgres refines the service over the abstract store, and leaves an outbox whose rows,
    in id order and all waiting for the relay, are the abstract store's events.  Calls that
    overlap are outside it ([concurrent_cancels]). *)
Theorem pg_refines cs n trace :
  Forall exact_call cs -> pg_text trace = true ->
  let final := run tx cs (fresh n trace) in
  let spec := run sstate cs empty_sstate in
  Forall2 ans_eq final.1 spec.1 /\
  Forall2 (fun kr e => OrderPgRefines.stands_for kr.2 e)
    (Outbox.rows_by_id Outbox.is_pending (TOutbox (Tables final.2))) (s_events spec.2).
Proof.
  intros Hcs Ht final spec. destruct (pg_run_sim cs n trace Hcs Ht) as [Ha HR].
  split; [done|]. pose proof (OrderPgRefines.pr_events _ _ _ HR) as He.
  assert (Outbox.rows_by_id Outbox.is_pending (TOutbox (Tables final.2)) =
          Outbox.rows_by_id (fun _ => true) (TOutbox (Tables final.2))) as ->; [|done].
  unfold Outbox.rows_by_id in *. rewrite filter_id in He by (by apply Forall_forall).
  rewrite !filter_id; [done|by apply Forall_forall|].
  apply Forall_forall. intros kr Hin. apply list_elem_of_lookup in Hin as [j Hj].
  destruct (Forall2_lookup_l _ _ _ _ _ He Hj) as (e & _ & Hs). apply Hs.
Qed.

(** C2. Whatever calls are made, one after another and each representable exactly in Postgres
    ([exact_call]: ids canonical and issued to one tenant, UTF-8 text without NUL, clock readings
    in whole microseconds, page tokens of this service), the service answers over an empty
    Postgres whose statements all succeed what it answers over the in-memory store: the same
    orders and pages, and errors no [errors.Is] tells apart.  Outside these conditions the stores
    part: [create_answer_drifts], [nul_customer_diverges], [concurrent_cancels]. *)
Theorem stores_agree cs n trace :
  Forall exact_call cs -> pg_text trace = true ->
  Forall2 ans_eq (run tx cs (fresh n trace)).1 (run state cs New).1.
Proof.
  intros Hcs Ht. destruct (pg_run_sim cs n trace Hcs Ht) as [Ha _].
  assert (Forall (fun c => nul_free (call_tenant c)) cs) as Hn
    by (eapply Forall_impl; [exact Hcs|apply exact_nul_free]).
  destruct (mem_run_sim cs New empty_sstate Hn empty_rep) as [Hm _].
  etrans; [exact Ha|]. by symmetry.
Qed.

End Agree.

(** * A database to run the model with

    Ids are canonical when they have the length of a uuid, text is ASCII without NUL, a
    timestamptz drops what is below a microsecond, and an order is written as its countable
    encoding. *)

#[export] Instance Status_countable : Countable Status.
Proof.
  apply (inj_countable' status_num (fun z =>
    if z =? 1 then StatusPending else if z =? 2 then StatusConfirmed
    else if z =? 3 then StatusShipped else if z =? 4 then StatusCancelled
    else StatusUnspecified)).
  by intros [].
Defined.
#[export] Instance Money_countable : Countable Money.
Proof.
  apply (inj_countable' (fun m => (CurrencyCode m, Units m, Nanos m))
           (fun p => mkMoney p.1.1 p.1.2 p.2)). by intros [].
Defined.
#[export] Instance Item_countable : Countable Item.
Proof.
  apply (inj_countable' (fun i => (SKU i, Quantity i, UnitPrice i))
           (fun p => mkItem p.1.1 p.1.2 p.2)). by intros [].
Defined.
#[export] Instance Order_countable : Countable Order.
Proof.
  apply (inj_countable' (fun o => (ID o, TenantID o, CustomerID o, OStatus o, Items o, OTotal o,
                                   CreatedAt o, UpdatedAt o))
    (fun '(i, t, c, s, l, m, a, b) => mkOrder i t c s l m a b)). by intros [].
Defined.

Definition plain_pg : PgLib := {|
  pg_uuid s := if strlen s =? 36 then Some s else None;
  pg_text s := string_forallb (fun c => (0 <? byte_of c) && (byte_of c <? 128)) s;
  pg_char3 s := if strlen s =? 3 then Some s else None;
  pg_time t := t - t mod 1000;
  pg_jsonb s := Some s;
  order_Marshal o := Ok (bits_write (encode o));
  order_Unmarshal s := match bits_read s ≫= decode with
                       | Some o => Ok o | None => Err (ELib "json") end |}.

#[local] Existing Instance plain_pg.
#[local] Existing Instance ascii_tables.
#[local] Existing Instance bits_env.

#[local] Instance plain_laws : PgLaws.
Proof.
  split.
  - intros s Hs. unfold nul_free. apply Is_true_true. revert Hs. apply string_forallb_impl.
    intros c Hc. cbn in Hc. to_prop. apply negb_true_iff, Z.eqb_neq. lia.
  - intros c Hc. unfold validCurrencyCode in Hc. cbn. by destruct (strlen c =? 3).
  - by intros [].
  - done.
  - intros o _ _ _ _ _ _ _ _. exists (bits_write (encode o)), (bits_write (encode o)).
    split_ands; try done. cbn [order_Unmarshal plain_pg]. rewrite bits_read_write.
    cbn [mbind option_bind]. by rewrite decode_encode.
Defined.

Definition exact_calls : list call :=
  [CallCreate (Ok some_id) 7000 (mkCreateCommand "acme" "cust-1" (Items two_lines));
   CallCreate (Ok some_id) 8000 (mkCreateCommand "acme" "cust-2" (Items two_lines));
   CallList "acme" (mkFilter StatusPending "" 20 ""); CallCancel 9000 "acme" some_id;
   CallCancel 9000 "acme" some_id; CallGet "acme" some_id; CallGet "rival" some_id].

Lemma exact_create now customer :
  micros now -> pg_text customer = true ->
  exact_call (fun _ => "acme")
    (CallCreate (Ok some_id) now (mkCreateCommand "acme" customer (Items two_lines))).
Proof.
  intros Hn Hc. split; [split_ands; [done|done|]|split; [done|]].
  - repeat constructor; by vm_compute.
  - intros u [= <-]. by split_ands.
Defined.

Lemma exact_calls_ok : Forall (exact_call (fun _ => "acme")) exact_calls.
Proof.
  assert (micros 7000 /\ micros 8000 /\ micros 9000) as (H7 & H8 & H9)
    by (split_ands; (split; [by vm_compute|unfold time_ok; lia])).
  repeat first [apply List.Forall_nil | apply List.Forall_cons]; try by apply exact_create.
  all: cbn; split_ands; done.
Defined.

Lemma pg_refines_witness :
  let final := run tx exact_calls (fresh 1 "") in
  let spec := run sstate exact_calls empty_sstate in
  Forall2 ans_eq final.1 spec.1 /\
  Forall2 (fun kr e => stands_for kr.2 e)
    (Outbox.rows_by_id Outbox.is_pending (TOutbox (Tables final.2))) (s_events spec.2) /\
  length (s_events spec.2) = 2%nat.
Proof.
  intros final spec.
  destruct (pg_refines (fun _ => "acme") exact_calls 1 "" exact_calls_ok eq_refl) as [Ha He].
  split_ands; [exact Ha|exact He|by vm_compute].
Defined.

Lemma stores_agree_witness :
  Forall2 ans_eq (run tx exact_calls (fresh 1 "")).1 (run state exact_calls New).1.
Proof. exact (stores_agree (fun _ => "acme") exact_calls 1 "" exact_calls_ok eq_refl). Defined.

(** Below a microsecond the stores part: over Postgres the order a create answers is not the
    order a later read answers. *)
Lemma create_answer_drifts :
  match (run tx [CallCreate (Ok some_id) 7 (mkCreateCommand "acme" "cust-1" (Items two_lines));
                 CallGet "acme" some_id] (fresh 1 "")).1 with
  | [AOrder (Ok created); AOrder (Ok read)] => CreatedAt created = 7 /\ CreatedAt read = 0
  | _ => False
  end.
Proof. by vm_compute. Qed.

(** A customer id with a NUL byte is stored in memory and refused by Postgres, with the bare
    driver error. *)
Lemma nul_customer_diverges :
  let create := CallCreate (Ok some_id) 7000
                  (mkCreateCommand "acme" ("cust" +:+ NUL) (Items two_lines)) in
  (run tx [create] (fresh 1 "")).1 = [AOrder (Err (EPg "22021" ""))] /\
  match (run state [create] New).1 with [AOrder (Ok _)] => True | _ => False end.
Proof. by vm_compute. Qed.

(** ** Two cancels at once

    The statements of a cancel: [reads] locks nothing, and at READ COMMITTED, the level
    [pgInTx] leaves the database at, a later statement of the same transaction works on what other
    transactions have committed meanwhile. *)

Definition pgInTx {A} (m : stm tx A) : stm pg A := Store.InTx m.

Definition cancelReads (now : Z) (t i : string) : stm tx Order :=
  o ← store_Get t i; lift (Order.Cancel o now).

Definition cancelWrites (now : Z) (o : Order) : stm tx Order :=
  _ ← store_Update o;
  _ ← pub_Publish (mkEvent EventOrderCancelled (ID o) (TenantID o) now o);
  mret o.

Lemma Cancel_phases now t i (s : pg) :
  (t =? "")%string = false ->
  Service.Cancel (T:=tx) now t i s = pgInTx (o ← cancelReads now t i; cancelWrites now o) s.
Proof.
  intros Ht. unfold Service.Cancel, pgInTx, cancelReads, cancelWrites. rewrite Ht.
  cbn -[query OrderPg.Get OrderPg.Update OrderPg.Publish]. unfold transaction, mbind, stm_bind.
  destruct (query _ s) as [[] s0]; [|done]. destruct (in_tx (OrderPg.Get t i) _) as [[o|e] s1]; [|done].
  unfold lift. by destruct (Order.Cancel o now).
Qed.

(** Both transactions read; the first writes and commits; the second, whose UPDATE waited for
    the row, writes and commits. *)
Definition overlapping (now1 now2 : Z) (t i : string) (s : pg) : (result Order * result Order) * pg :=
  let '(r1, _) := pgInTx (cancelReads now1 t i) s in
  let '(r2, _) := pgInTx (cancelReads now2 t i) s in
  let '(a1, s) := match r1 with Ok o => pgInTx (cancelWrites now1 o) s | Err e => (Err e, s) end in
  let '(a2, s) := match r2 with Ok o => pgInTx (cancelWrites now2 o) s | Err e => (Err e, s) end in
  ((a1, a2), s).

(** Over Postgres two overlapping cancels of one order both succeed, and it publishes two
    cancellations; over the in-memory store at most one does, since its mutex makes a call one
    step ([ServiceSpec.cancel_at_most_once]). *)
Lemma concurrent_cancels :
  let s := (run tx [CallCreate (Ok some_id) 7000
                      (mkCreateCommand "acme" "cust-1" (Items two_lines))] (fresh 1 "")).2 in
  let '((a1, a2), s') := overlapping 8000 9000 "acme" some_id s in
  is_ok a1 = true /\ is_ok a2 = true /\
  Outbox.REventType <$> (Outbox.rows_by_id (fun _ => true) (TOutbox (Tables s'))).*2 =
    [EventOrderCreated; EventOrderCancelled; EventOrderCancelled].
Proof. vm_compute. done. Qed.
