(* ===== verification/StoreContract.v ===== *)
(** internal/order/ordertest: the fixtures and the contract every store is tested against.

    A test is a program over a harness: it makes calls, inspects their results, and reports.
    [t.Errorf] adds a report and goes on, [t.Fatalf] adds one and stops the test, and a
    panic of a fixture stops it too.  [RunStoreContract] runs every subtest on a harness of
    its own, as [t.Run] with the factory does, and gives the reports of each. *)

From S2P Require Import Prelude GoErr GoStr Money Order Cursor Store.

(** * builders.go *)

(** 2026-03-14 15:09:26.535 UTC. *)
Definition RefTime : Z := 1773500966 * 1000000000 + 535000 * 1000.
Definition RefTenant : string := "tenant-a".
Definition OtherTen : string := "tenant-b".

Definition OrderOption : Type := Order -> Order.

Definition WithID (id : string) : OrderOption := fun o =>
  mkOrder id (TenantID o) (CustomerID o) (OStatus o) (Items o) (OTotal o) (CreatedAt o) (UpdatedAt o).
Definition WithTenant (id : string) : OrderOption := fun o =>
  mkOrder (ID o) id (CustomerID o) (OStatus o) (Items o) (OTotal o) (CreatedAt o) (UpdatedAt o).
Definition WithCustomer (id : string) : OrderOption := fun o =>
  mkOrder (ID o) (TenantID o) id (OStatus o) (Items o) (OTotal o) (CreatedAt o) (UpdatedAt o).
Definition WithStatus (s : Status) : OrderOption := fun o =>
  mkOrder (ID o) (TenantID o) (CustomerID o) s (Items o) (OTotal o) (CreatedAt o) (UpdatedAt o).
Definition WithCreatedAt (t : Z) : OrderOption := fun o =>
  mkOrder (ID o) (TenantID o) (CustomerID o) (OStatus o) (Items o) (OTotal o) t t.
Definition WithItems (items : list Item) : OrderOption := fun o =>
  mkOrder (ID o) (TenantID o) (CustomerID o) (OStatus o) items (OTotal o) (CreatedAt o) (UpdatedAt o).

Definition hexDigit (n : Z) : ascii :=
  match String.get (Z.to_nat n) "0123456789abcdef" with Some c => c | None => "0"%char end.

(** The last [k] digits, written from the right while [n] is positive. *)
Fixpoint seqDigits (k : nat) (n : Z) (right : string) : string :=
  match k with
  | O => right
  | S k => if n >? 0
           then seqDigits k (Z.quot n 16) (String (hexDigit (Z.rem n 16)) right)
           else seqDigits k n (String "0"%char right)
  end.

Definition SeqID (n : Z) : string := "00000000-0000-7000-8000-" +:+ seqDigits 12 n "".

Section Builders.
Context `{Unicode}.

(** [USD] and [NewOrder] panic on an error. *)
Definition USD (units nanos : Z) : result Money :=
  mapErr (fun err => EFmt [PStr "panic: ordertest.USD: "; PVal err]) (NewMoney "USD" units nanos).

Definition mkLine (sku : string) (quantity : Z) (unitPrice : Money) : Item :=
  mkItem sku quantity unitPrice.

Definition NewOrder (opts : list OrderOption) : result Order :=
  price ← USD 19 990000000;
  let o := mkOrder "00000000-0000-7000-8000-000000000001" RefTenant "customer-1" StatusPending
             [mkLine "SKU-1" 2 price] zeroMoney RefTime RefTime in
  let o := foldl (fun o (opt : OrderOption) => opt o) o opts in
  total ← mapErr (fun err => EFmt [PStr "panic: ordertest.NewOrder: "; PVal err])
            (ComputeTotal (Items o));
  Ok (mkOrder (ID o) (TenantID o) (CustomerID o) (OStatus o) (Items o) total
        (CreatedAt o) (UpdatedAt o)).

End Builders.

(** * contract.go: helpers *)

(** [cmp.Diff(want, got, EquateApproxTime(time.Microsecond)) == ""]. *)
Definition orderCmp (want got : Order) : bool :=
  bool_decide (WithCreatedAt 0 want = WithCreatedAt 0 got) &&
  (Z.abs (CreatedAt want - CreatedAt got) <=? 1000) &&
  (Z.abs (UpdatedAt want - UpdatedAt got) <=? 1000).

Definition eventFor (o : Order) (typ : string) : Event :=
  mkEvent typ (ID o) (TenantID o) (CreatedAt o) o.

Definition ids (orders : list Order) : list string := ID <$> orders.

(** encoding/json on a [map\[string\]any]. *)
Class JsonObject := {
  json_object : Type;
  object_Unmarshal : string -> result json_object;
  object_field : string -> json_object -> bool;
  object_set : string -> string -> json_object -> json_object;
  object_Marshal : json_object -> result string }.

Definition tamperCursorID `{JsonObject} (token newID : string) : result string :=
  match DecodeString token with
  | None => Err (errorsNew "the page token is not base64url, so this helper is out of date")
  | Some raw =>
      fields ← mapErr (wrapf [PStr "the page token is not JSON, so this helper is out of date"])
                 (object_Unmarshal raw);
      if negb (object_field "i" fields)
      then Err (errorsNew "the page token has no i field; this helper is out of date")
      else
        b ← mapErr (wrapf [PStr "re-encode"]) (object_Marshal (object_set "i" newID fields));
        Ok (EncodeToString b)
  end.

(** * Tests *)

(** A run: what the test goes on with ([None] once it has stopped), its reports, the store. *)
Definition tst (S A : Type) : Type := S -> (option A * list string) * S.

#[export] Instance tst_ret S : MRet (tst S) := fun A a s => ((Some a, []), s).
#[export] Instance tst_bind S : MBind (tst S) :=
  fun A B f m s =>
    match m s with
    | ((Some a, l), s') => let '((b, l'), s'') := f a s' in ((b, l ++ l'), s'')
    | ((None, l), s') => ((None, l), s')
    end.

Section Reporting.
Context {S : Type}.

Definition Fatalf {A} (msg : string) : tst S A := fun s => ((None, [msg]), s).
Definition Errorf (msg : string) : tst S unit := fun s => ((Some tt, [msg]), s).

(** [if cond { t.Fatalf(msg) }] and [if cond { t.Errorf(msg) }]. *)
Definition fatalIf (cond : bool) (msg : string) : tst S unit :=
  if cond then Fatalf msg else mret tt.
Definition errorIf (cond : bool) (msg : string) : tst S unit :=
  if cond then Errorf msg else mret tt.

Definition call {A} (m : stm S A) : tst S (result A) := fun s =>
  let '(r, s') := m s in ((Some r, []), s').

(** [x, err := m; if err != nil { t.Fatalf(msg) }]. *)
Definition must {A} (r : result A) (msg : string) : tst S A :=
  match r with Ok a => mret a | Err _ => Fatalf msg end.
Definition mustCall {A} (m : stm S A) (msg : string) : tst S A :=
  r ← call m; must r msg.

(** [errors.Is(err, t)] of the error of a call. *)
Definition failsIs {A} (t : sentinel) (r : result A) : bool :=
  match r with Ok _ => false | Err e => errIs t e end.

End Reporting.

(** * RunStoreContract *)

Section Contract.
Context `{Unicode, JsonObject} {S T : Type} `{!StoreOps S, !StoreOps T, !AtomicOps S T}.
(** [Harness.Events]. *)
Context (harnessEvents : stm S (list Event)).

Definition build (opts : list OrderOption) : tst S Order := must (NewOrder opts) "panic".

Definition mustCreate (opts : list OrderOption) : tst S unit :=
  o ← build opts; mustCall (store_Create o) "Create".

(** [for i := from; i <= ...; i++ { mustCreate(...) }]. *)
Fixpoint mustCreateSeq (opts : Z -> list OrderOption) (from : Z) (n : nat) : tst S unit :=
  match n with
  | O => mret tt
  | Datatypes.S n => _ ← mustCreate (opts from); mustCreateSeq opts (from + 1) n
  end.

Definition Second : Z := 1000000000.
Definition Hour : Z := 3600 * Second.
Definition stamped (i : Z) : list OrderOption := [WithID (SeqID i); WithCreatedAt (RefTime + i * Second)].

(** [order.ListFilter{}] with the fields that are set. *)
Definition filterBy (status : Status) (customer : string) (size : Z) (token : string) : ListFilter :=
  mkFilter status customer size token.
Definition noFilter : ListFilter := filterBy StatusUnspecified "" 0 "".

Definition test_round_trip : tst S unit :=
  want ← build [WithID (SeqID 1)];
  _ ← mustCall (store_Create want) "Create";
  got ← mustCall (store_Get RefTenant (ID want)) "Get";
  errorIf (negb (orderCmp want got)) "order did not round-trip".

Definition test_unknown_id : tst S unit :=
  r ← call (store_Get RefTenant (SeqID 99));
  fatalIf (negb (failsIs ErrNotFound r)) "want ErrNotFound".

Definition test_duplicate : tst S unit :=
  o ← build [WithID (SeqID 1)];
  _ ← mustCall (store_Create o) "first Create";
  r ← call (store_Create o);
  fatalIf (negb (failsIs ErrDuplicate r)) "want ErrDuplicate".

Definition test_other_tenant : tst S unit :=
  o ← build [WithID (SeqID 1); WithTenant OtherTen];
  _ ← mustCall (store_Create o) "Create";
  r ← call (store_Get RefTenant (ID o));
  fatalIf (negb (failsIs ErrNotFound r)) "want ErrNotFound for a cross-tenant read".

Definition test_no_tenant : tst S unit :=
  o ← build [WithID (SeqID 1); WithTenant ""];
  r ← call (store_Create o);
  _ ← errorIf (negb (failsIs ErrMissingTenant r)) "Create: want ErrMissingTenant";
  r ← call (store_Get "" (SeqID 1));
  _ ← errorIf (negb (failsIs ErrMissingTenant r)) "Get: want ErrMissingTenant";
  r ← call (store_List "" noFilter);
  errorIf (negb (failsIs ErrMissingTenant r)) "List: want ErrMissingTenant".

(** [o.Status = ...; o.UpdatedAt = ...]. *)
Definition cancelledAt (o : Order) (t : Z) : Order :=
  mkOrder (ID o) (TenantID o) (CustomerID o) StatusCancelled (Items o) (OTotal o) (CreatedAt o) t.

Definition test_update : tst S unit :=
  o ← build [WithID (SeqID 1)];
  _ ← mustCall (store_Create o) "Create";
  let o := cancelledAt o (RefTime + Hour) in
  _ ← mustCall (store_Update o) "Update";
  got ← mustCall (store_Get RefTenant (ID o)) "Get";
  _ ← errorIf (bool_decide (OStatus got <> StatusCancelled)) "status, want CANCELLED";
  errorIf (negb (UpdatedAt got =? UpdatedAt o)) "UpdatedAt".

Definition test_update_unknown : tst S unit :=
  o ← build [WithID (SeqID 42)];
  r ← call (store_Update o);
  fatalIf (negb (failsIs ErrNotFound r)) "want ErrNotFound".

(** [len(orders) != 1 || orders\[0\].ID != id]. *)
Definition notOnly (orders : list Order) (id : string) : bool :=
  match orders with [o] => negb (ID o =? id)%string | _ => true end.

Definition test_list_tenant : tst S unit :=
  _ ← mustCreate [WithID (SeqID 1); WithTenant RefTenant];
  _ ← mustCreate [WithID (SeqID 2); WithTenant OtherTen];
  page ← mustCall (store_List RefTenant noFilter) "List";
  fatalIf (notOnly (Orders page) (SeqID 1)) "want exactly the tenant-a order".

Definition test_stable : tst S unit :=
  _ ← mustCreateSeq (fun i => [WithID (SeqID i); WithCreatedAt RefTime]) 1 5;
  first ← mustCall (store_List RefTenant noFilter) "List";
  second ← mustCall (store_List RefTenant noFilter) "List again";
  errorIf (bool_decide (ids (Orders first) <> ids (Orders second)))
    "repeated List returned a different order".

(** [for _, o := range page.Orders { seen\[o.ID\]++ }]. *)
Definition countSeen (seen : gmap string Z) (orders : list Order) : gmap string Z :=
  foldl (fun seen o => <[ID o := default 0 (seen !! ID o) + 1]> seen) seen orders.

(** The paging loop; [n] is how many more times [pages > total+2] may be false. *)
Fixpoint pageLoop (n : nat) (filter : ListFilter) (seen : gmap string Z)
    : tst S (gmap string Z) :=
  match n with
  | O => Fatalf "pagination did not terminate"
  | Datatypes.S n =>
      page ← mustCall (store_List RefTenant filter) "List";
      let seen := countSeen seen (Orders page) in
      if (NextPageToken page =? "")%string then mret seen
      else pageLoop n
             (filterBy (FStatus filter) (FCustomerID filter) (PageSize filter) (NextPageToken page))
             seen
  end.

Fixpoint reportSeen (l : list (string * Z)) : tst S unit :=
  match l with
  | [] => mret tt
  | (_, n) :: r => _ ← errorIf (negb (n =? 1)) "order returned more than once"; reportSeen r
  end.

Definition total : nat := 7.

Definition test_paging : tst S unit :=
  _ ← mustCreateSeq stamped 1 total;
  seen ← pageLoop (total + 3) (filterBy StatusUnspecified "" 3 "") ∅;
  _ ← errorIf (negb (size seen =? total)%nat) "saw fewer distinct orders";
  reportSeen (map_to_list seen).

Definition test_filters : tst S unit :=
  _ ← mustCreate [WithID (SeqID 1); WithStatus StatusPending; WithCustomer "alice"];
  _ ← mustCreate [WithID (SeqID 2); WithStatus StatusCancelled; WithCustomer "alice"];
  _ ← mustCreate [WithID (SeqID 3); WithStatus StatusPending; WithCustomer "bob"];
  byStatus ← mustCall (store_List RefTenant (filterBy StatusCancelled "" 0 "")) "List by status";
  _ ← errorIf (notOnly (Orders byStatus) (SeqID 2)) "by status";
  byCustomer ← mustCall (store_List RefTenant (filterBy StatusUnspecified "bob" 0 "")) "List by customer";
  errorIf (notOnly (Orders byCustomer) (SeqID 3)) "by customer".

(** The first page of one row of three, with its token. *)
Definition firstToken : tst S string :=
  _ ← mustCreateSeq stamped 1 3;
  page ← mustCall (store_List RefTenant (filterBy StatusUnspecified "" 1 "")) "List";
  _ ← fatalIf (NextPageToken page =? "")%string "expected a next page token";
  mret (NextPageToken page).

Definition test_other_filter : tst S unit :=
  token ← firstToken;
  r ← call (store_List RefTenant (filterBy StatusCancelled "" 1 token));
  fatalIf (negb (failsIs ErrInvalidPageToken r)) "want ErrInvalidPageToken".

Definition test_malformed : tst S unit :=
  r ← call (store_List RefTenant (filterBy StatusUnspecified "" 0 "!!!not-base64!!!"));
  fatalIf (negb (failsIs ErrInvalidPageToken r)) "want ErrInvalidPageToken".

Definition hostileID : string := "'; DROP TABLE orders; --".

Definition test_tampered : tst S unit :=
  token ← firstToken;
  tampered ← must (tamperCursorID token hostileID) "tamperCursorID";
  r ← call (store_List RefTenant (filterBy StatusUnspecified "" 1 tampered));
  fatalIf (negb (failsIs ErrInvalidPageToken r)) "want ErrInvalidPageToken".

Definition test_rollback : tst S unit :=
  o ← build [WithID (SeqID 1)];
  r ← call (InTx (S := S) (T := T)
        (_ ← store_Create o;
         _ ← pub_Publish (eventFor o EventOrderCreated);
         fail ErrBoom : stm T unit));
  _ ← fatalIf (negb (failsIs ErrBoom r)) "InTx: want the callback error";
  r ← call (store_Get RefTenant (ID o));
  _ ← errorIf (negb (failsIs ErrNotFound r)) "order survived a rolled back transaction";
  events ← mustCall harnessEvents "Events";
  errorIf (negb (length events =? 0)%nat) "events after rollback, want 0".

Definition test_commit : tst S unit :=
  o ← build [WithID (SeqID 1)];
  _ ← mustCall (InTx (S := S) (T := T)
        (_ ← store_Create o; pub_Publish (eventFor o EventOrderCreated))) "InTx";
  r ← call (store_Get RefTenant (ID o));
  _ ← errorIf (negb (is_ok r)) "order missing after commit";
  events ← mustCall harnessEvents "Events";
  match events with
  | [e] => errorIf (negb (EType e =? EventOrderCreated)%string || negb (AggregateID e =? ID o)%string)
             "want OrderCreated"
  | _ => Fatalf "want 1 event"
  end.

Definition subtests : list (string * tst S unit) :=
  [("Create then Get round-trips every field", test_round_trip);
   ("Get of an unknown id returns ErrNotFound", test_unknown_id);
   ("Create with a duplicate id returns ErrDuplicate", test_duplicate);
   ("an order in another tenant is indistinguishable from missing", test_other_tenant);
   ("writes without a tenant fail closed", test_no_tenant);
   ("Update persists changes", test_update);
   ("Update of an unknown id returns ErrNotFound", test_update_unknown);
   ("List returns only the caller's tenant", test_list_tenant);
   ("List orders rows stably when timestamps collide", test_stable);
   ("paging visits every row exactly once", test_paging);
   ("List filters by status and customer", test_filters);
   ("a page token from a different filter is rejected", test_other_filter);
   ("a malformed page token is rejected", test_malformed);
   ("a page token with a tampered id is rejected", test_tampered);
   ("a rolled back transaction writes neither the order nor the event", test_rollback);
   ("a committed transaction writes both the order and the event", test_commit)].

(** The reports of each subtest, on the store the factory hands it. *)
Definition RunStoreContract (newHarness : S) : list (string * list string) :=
  (fun '(name, test) => (name, (test newHarness).1.2)) <$> subtests.

End Contract.
