(* ===== verification/ContractSpec.v ===== *)
(** Every store that implements the ports passes the shared contract.

    [Conforms] is what a harness promises: its store, its transactions and its event list
    simulate the abstract store on the data of the fixtures, and a call without a tenant is
    refused.  The sixteen subtests are proved to report nothing against that interface, and
    the in-memory and the Postgres store are two instances of it. *)

From S2P Require Import Prelude GoErr GoStr Money Order Cursor Store Paging StoreContract.

(** * The data the contract works with *)

Definition is_lower_hex (c : ascii) : bool :=
  ((48 <=? byte_of c) && (byte_of c <=? 57)) || ((97 <=? byte_of c) && (byte_of c <=? 102)).

(** Canonical text of a uuid: 8-4-4-4-12 lower-case hex digits. *)
Fixpoint uuid_shape (shape : list bool) (s : string) : bool :=
  match shape, s with
  | [], EmptyString => true
  | hex :: r, String c s =>
      (if hex : bool then is_lower_hex c else Ascii.eqb c "-"%char) && uuid_shape r s
  | _, _ => false
  end.
Definition canonical_uuid (s : string) : bool :=
  uuid_shape (replicate 8 true ++ false :: replicate 4 true ++ false :: replicate 4 true ++
              false :: replicate 4 true ++ false :: replicate 12 true) s.

(** Printable ASCII. *)
Definition plain_text (s : string) : bool :=
  string_forallb (fun c => (32 <=? byte_of c) && (byte_of c <? 127)) s.

Definition whole_micros (t : Z) : bool := (t mod 1000 =? 0) && bool_decide (time_ok t).

Section Fixtures.
Context `{Unicode}.

(** An order any store keeps exactly. *)
Definition fixture (o : Order) : bool :=
  is_ok (OrderValidate o) && forallb (fun it => bool_decide (int_ok 32 (Quantity it)) && plain_text (SKU it)) (Items o) &&
  canonical_uuid (ID o) && plain_text (TenantID o) && plain_text (CustomerID o) &&
  whole_micros (CreatedAt o) && whole_micros (UpdatedAt o).

End Fixtures.

(** * The interface *)

Section Interface.
Context `{Unicode, CursorEnv} {S T : Type}.

(** [D ow] is what the store represents when each id belongs to the tenant [ow] names;
    [R ow] relates its states to the abstract store's, [RT ow s] those of a transaction
    begun in [s]. *)
Class Conforms `{!StoreOps S, !StoreOps T, !AtomicOps S T} (events : stm S (list Event))
    (newHarness : S) (D : (string -> string) -> domain)
    (R : (string -> string) -> S -> sstate -> Prop)
    (RT : (string -> string) -> S -> T -> sstate -> Prop) := {
  cf_store :: forall ow, StoreSim S (D ow) (R ow);
  cf_tx :: forall ow s, StoreSim T (D ow) (RT ow s);
  cf_atomic :: forall ow, AtomicSim S T (R ow) (RT ow);
  cf_new : forall ow, R ow newHarness (mkS ∅ []);
  cf_events : forall ow s a, R ow s a ->
    exists s', events s = (Ok (s_events a), s') /\ R ow s' a;
  cf_no_tenant : forall ow o i f s a, TenantID o = "" -> R ow s a ->
    sim (R ow) (store_Create o s) (Err ErrMissingTenant, a) /\
    sim (R ow) (store_Get "" i s) (Err ErrMissingTenant, a) /\
    sim (R ow) (store_List "" f s) (Err ErrMissingTenant, a);
  cf_create : forall ow o, fixture o = true -> ow (ID o) = TenantID o -> can_create (D ow) o;
  cf_get : forall ow t i, plain_text t = true -> canonical_uuid i = true -> can_get (D ow) t i;
  cf_list : forall ow t f, plain_text t = true -> plain_text (FCustomerID f) = true ->
    (forall at_ id, DecodePageToken t f = Ok (Some (at_, id)) ->
       whole_micros at_ = true /\ canonical_uuid id = true) -> can_list (D ow) t f;
  cf_update : forall ow a o, fixture o = true -> ow (ID o) = TenantID o ->
    (forall old, s_orders a !! (TenantID o, ID o) = Some old -> CreatedAt old = CreatedAt o) ->
    can_update (D ow) a o;
  cf_publish : forall ow o, fixture o = true -> ow (ID o) = TenantID o ->
    can_publish (D ow) (eventFor o EventOrderCreated) }.

End Interface.

(** What the contract relies on of the uuid package and of encoding/json: canonical uuids
    are accepted, no text of another length than a uuid's is, and a document parsed into a
    map and written back with one field replaced still holds the others. *)
Class ContractLaws `{CursorEnv, JsonObject} := {
  uuid_canonical : forall s, canonical_uuid s = true -> uuid_Validate s = true;
  uuid_length : forall s, uuid_Validate s = true ->
    strlen s = 32 \/ strlen s = 36 \/ strlen s = 38 \/ strlen s = 45;
  object_edit : forall c b id, json_Marshal c = Ok b -> plain_text id = true ->
    exists m b', object_Unmarshal b = Ok m /\ object_field "i" m = true /\
      object_Marshal (object_set "i" id m) = Ok b' /\ b' <> "" /\
      json_Unmarshal b' = Some (mkCursor (CCreatedAt c) id (FilterHash c)) }.

(** * Tests that report nothing *)

(** The test goes on, without a report, and the rest holds. *)
Definition clean {S A} (m : tst S A) (s : S) (Q : A -> S -> Prop) : Prop :=
  match m s with ((Some x, []), s') => Q x s' | _ => False end.

Section Clean.
Context {S : Type}.

Lemma clean_then {A B} (m : tst S A) (k : A -> tst S B) s Q :
  clean m s (fun x s' => clean (k x) s' Q) -> clean (m ≫= k) s Q.
Proof.
  unfold clean, mbind, tst_bind. destruct (m s) as [[[x|] l] s']; [|done].
  destruct l; [|done]. by destruct (k x s') as [[[y|] l'] s''].
Qed.

Lemma clean_ret {A} (x : A) s (Q : A -> S -> Prop) : Q x s -> clean (mret x) s Q.
Proof. done. Qed.

Lemma clean_mono {A} (m : tst S A) s (Q Q' : A -> S -> Prop) :
  clean m s Q -> (forall x s', Q x s' -> Q' x s') -> clean m s Q'.
Proof. unfold clean. destruct (m s) as [[[x|] [|]] s']; auto. Qed.

(** A check whose condition does not hold. *)
Lemma clean_fatalIf b msg s (Q : unit -> S -> Prop) : b = false -> Q tt s -> clean (fatalIf b msg) s Q.
Proof. by intros ->. Qed.
Lemma clean_errorIf b msg s (Q : unit -> S -> Prop) : b = false -> Q tt s -> clean (errorIf b msg) s Q.
Proof. by intros ->. Qed.
Lemma clean_must {A} (r : result A) x msg s (Q : A -> S -> Prop) :
  r = Ok x -> Q x s -> clean (must r msg) s Q.
Proof. by intros ->. Qed.

(** A call does what the related call of the abstract store does. *)
Lemma clean_call {A} (R : S -> sstate -> Prop) (m : stm S A) p s (Q : result A -> S -> Prop) :
  sim R (m s) p -> (forall r s', res_eq r p.1 -> R s' p.2 -> Q r s') -> clean (call m) s Q.
Proof.
  intros [Hr HR] HQ. unfold clean, call. destruct (m s) as [r s']. by apply HQ.
Qed.

Lemma clean_mustCall {A} (R : S -> sstate -> Prop) (m : stm S A) x a' msg s (Q : A -> S -> Prop) :
  sim R (m s) (Ok x, a') -> (forall s', R s' a' -> Q x s') -> clean (mustCall m msg) s Q.
Proof.
  intros Hs HQ. apply clean_then. eapply clean_call; [exact Hs|]. intros r s' Hr HR.
  destruct r; cbn in Hr; [|done]. subst. by apply HQ.
Qed.

Lemma clean_reports {A} (m : tst S A) s Q : clean m s Q -> (m s).1.2 = [].
Proof. unfold clean. by destruct (m s) as [[[x|] [|]] s']. Qed.

Lemma failsIs_res {A} t (r : result A) e : res_eq r (Err e) -> failsIs t r = errIs t e.
Proof. destruct r as [x|e']; [done|]. intros He. apply He. Qed.

End Clean.

(** * The contract, against the interface *)

(** The abstract store that holds [l] and has published [es]. *)
Definition having (l : list Order) (es : list Event) : sstate :=
  mkS (list_to_map ((fun o => ((TenantID o, ID o), o)) <$> l)) es.

Section Contract.
Context `{Unicode, CursorLaws, !JsonObject, !ContractLaws} {S T : Type}.
Context `{!StoreOps S, !StoreOps T, !AtomicOps S T} (events : stm S (list Event)) (newHarness : S).
Context (D : (string -> string) -> domain) (R : (string -> string) -> S -> sstate -> Prop)
  (RT : (string -> string) -> S -> T -> sstate -> Prop).
Context `{!Conforms events newHarness D R RT}.

#[local] Existing Instances cf_store cf_tx cf_atomic.

(** A fixture that the tenant [ow] names owns. *)
Definition owned (ow : string -> string) (o : Order) : Prop :=
  fixture o = true /\ ow (ID o) = TenantID o /\ TenantID o <> "".

Lemma create_sim {S' : Type} `{!StoreOps S'} (D' : domain) (R' : S' -> sstate -> Prop)
    `{!StoreSim S' D' R'} o l es s :
  can_create D' o -> TenantID o <> "" -> s_orders (having l es) !! (TenantID o, ID o) = None ->
  R' s (having l es) -> sim R' (store_Create o s) (Ok tt, having (o :: l) es).
Proof.
  intros Hc Ht Hn HR. pose proof (sim_Create (StoreSim := ltac:(eassumption)) o s _ Hc HR) as Hs. revert Hs. cbn -[lookup insert having].
  apply String.eqb_neq in Ht as ->. by rewrite Hn.
Qed.

Lemma Create_clean ow o l s msg (Q : unit -> S -> Prop) :
  R ow s (having l []) -> owned ow o -> s_orders (having l []) !! (TenantID o, ID o) = None ->
  (forall s', R ow s' (having (o :: l) []) -> Q tt s') ->
  clean (mustCall (store_Create o) msg) s Q.
Proof.
  intros HR (Hf & Ho & Ht) Hn HQ. eapply clean_mustCall; [|exact HQ].
  apply (create_sim (D ow) (R ow)); try done. by apply cf_create.
Qed.

Lemma mustCreate_clean ow opts o l s (Q : unit -> S -> Prop) :
  R ow s (having l []) -> NewOrder opts = Ok o -> owned ow o ->
  s_orders (having l []) !! (TenantID o, ID o) = None ->
  (forall s', R ow s' (having (o :: l) []) -> Q tt s') ->
  clean (mustCreate opts) s Q.
Proof.
  intros HR Ho Hf Hn HQ. apply clean_then. eapply clean_must; [exact Ho|]. by eapply Create_clean.
Qed.

Lemma Get_agrees ow t i a s r :
  plain_text t = true -> t <> "" -> canonical_uuid i = true ->
  match s_orders a !! (t, i) with Some o => Ok o | None => Err ErrNotFound end = r ->
  R ow s a -> sim (R ow) (store_Get t i s) (r, a).
Proof.
  intros Ht Hne Hi Hr HR. pose proof (sim_Get t i s a (cf_get ow t i Ht Hi) HR) as Hs. revert Hs.
  cbn -[lookup]. apply String.eqb_neq in Hne as ->. subst r. by destruct (_ !! _).
Qed.

Lemma Get_clean ow t i o a s msg (Q : Order -> S -> Prop) :
  R ow s a -> plain_text t = true -> t <> "" -> canonical_uuid i = true ->
  s_orders a !! (t, i) = Some o ->
  (forall s', R ow s' a -> Q o s') -> clean (mustCall (store_Get t i) msg) s Q.
Proof.
  intros HR Ht Hne Hi Ho HQ. eapply clean_mustCall; [|exact HQ].
  apply Get_agrees; try done. by rewrite Ho.
Qed.

Lemma Update_clean ow o old a s msg (Q : unit -> S -> Prop) :
  R ow s a -> owned ow o -> s_orders a !! (TenantID o, ID o) = Some old ->
  CreatedAt old = CreatedAt o ->
  (forall s', R ow s' (mkS (<[(TenantID o, ID o) := o]> (s_orders a)) (s_events a)) -> Q tt s') ->
  clean (mustCall (store_Update o) msg) s Q.
Proof.
  intros HR (Hf & Ho & Ht) Hold Hcr HQ.
  assert (can_update (D ow) a o) as Hcan by (apply cf_update; try done; intros x; congruence).
  pose proof (sim_Update (StoreSim := cf_store ow) o s a Hcan HR) as Hs. revert Hs.
  cbn -[lookup insert]. apply String.eqb_neq in Ht as ->. rewrite Hold. intros Hs.
  by eapply clean_mustCall.
Qed.

(** A lookup of an order that is not there. *)
Lemma Get_missing ow t i a s (Q : result Order -> S -> Prop) :
  R ow s a -> plain_text t = true -> t <> "" -> canonical_uuid i = true ->
  s_orders a !! (t, i) = None -> (forall r s', failsIs ErrNotFound r = true -> R ow s' a -> Q r s') ->
  clean (call (store_Get t i)) s Q.
Proof.
  intros HR Ht Hne Hi Ho HQ. eapply clean_call; [apply (Get_agrees ow t i a s (Err ErrNotFound)); try done|].
  - by rewrite Ho.
  - intros r s' Hr HR'. apply HQ; [|done]. by rewrite (failsIs_res _ _ _ Hr).
Qed.

(** What a listing answers, from its rows after the cursor. *)
Lemma List_agrees ow t f cur a s :
  plain_text t = true -> t <> "" -> plain_text (FCustomerID f) = true ->
  DecodePageToken t f = Ok cur ->
  (forall k, cur = Some k -> whole_micros k.1 = true /\ canonical_uuid k.2 = true) ->
  R ow s a -> sim (R ow) (store_List t f s) (cutPage t f (after cur (listing t f a)), a).
Proof.
  intros Ht Hne Hc Hd Hcur HR. assert (can_list (D ow) t f) as Hcan.
  { apply (cf_list ow); try done. intros at_ id E. rewrite Hd in E. injection E as ->.
    exact (Hcur (at_, id) eq_refl). }
  pose proof (sim_List t f s a Hcan HR) as Hs. revert Hs. cbn -[listing after].
  apply String.eqb_neq in Hne as ->. by rewrite Hd.
Qed.

Lemma List_all ow t f cur rows a s msg (Q : Page -> S -> Prop) :
  R ow s a -> plain_text t = true -> t <> "" -> plain_text (FCustomerID f) = true ->
  DecodePageToken t f = Ok cur ->
  (forall k, cur = Some k -> whole_micros k.1 = true /\ canonical_uuid k.2 = true) ->
  after cur (listing t f a) = rows -> (pageSize f <? length rows)%nat = false ->
  (forall s', R ow s' a -> Q (mkPage rows "") s') ->
  clean (mustCall (store_List t f) msg) s Q.
Proof.
  intros HR Ht Hne Hc Hd Hcur Hrows Hlen HQ. eapply clean_mustCall; [|exact HQ].
  pose proof (List_agrees ow t f cur a s Ht Hne Hc Hd Hcur HR) as Hs.
  unfold cutPage in Hs. by rewrite Hrows, Hlen in Hs.
Qed.

Lemma List_more ow t f cur rows page last_ a s msg (Q : Page -> S -> Prop) :
  R ow s a -> plain_text t = true -> t <> "" -> plain_text (FCustomerID f) = true ->
  DecodePageToken t f = Ok cur ->
  (forall k, cur = Some k -> whole_micros k.1 = true /\ canonical_uuid k.2 = true) ->
  after cur (listing t f a) = rows -> (pageSize f <? length rows)%nat = true ->
  take (pageSize f) rows = page -> page !! (pageSize f - 1)%nat = Some last_ ->
  canonical_uuid (ID last_) = true -> time_ok (CreatedAt last_) ->
  (forall tok s', EncodePageToken t f last_ = Ok tok -> tok <> "" ->
     (forall size, DecodePageToken t (with_page f size tok) = Ok (Some (order_key last_))) ->
     R ow s' a -> Q (mkPage page tok) s') ->
  clean (mustCall (store_List t f) msg) s Q.
Proof.
  intros HR Ht Hne Hc Hd Hcur Hrows Hlen Hpage Hlast Hid Htime HQ.
  pose proof (uuid_canonical _ Hid) as Hu.
  destruct (EncodePageToken_total t f last_ Htime Hu) as [tok Htok].
  assert (forall size, tok <> "" /\ DecodePageToken t (with_page f size tok) = Ok (Some (order_key last_)))
    as Hres by (intros size; by apply token_resumes).
  eapply clean_mustCall; [|intros s'; apply (HQ tok); [done|apply (Hres 0)|intros size; apply Hres]].
  pose proof (List_agrees ow t f cur a s Ht Hne Hc Hd Hcur HR) as Hs.
  unfold cutPage in Hs. rewrite Hrows, Hlen, Hpage, Hlast, Htok in Hs. exact Hs.
Qed.

(** A listing that the token of the filter makes fail. *)
Lemma List_refused ow t f e a s (Q : result Page -> S -> Prop) :
  R ow s a -> plain_text t = true -> t <> "" -> plain_text (FCustomerID f) = true ->
  DecodePageToken t f = Err e ->
  (forall r s', failsIs ErrInvalidPageToken r = errIs ErrInvalidPageToken e -> R ow s' a -> Q r s') ->
  clean (call (store_List t f)) s Q.
Proof.
  intros HR Ht Hne Hc Hd HQ.
  assert (can_list (D ow) t f) as Hcan by (apply (cf_list ow); try done; intros at_ id E; by rewrite Hd in E).
  pose proof (sim_List t f s a Hcan HR) as Hs. revert Hs. cbn -[listing after].
  apply String.eqb_neq in Hne as ->. rewrite Hd. cbn -[listing after]. intros Hs.
  eapply clean_call; [exact Hs|]. intros r s' Hr HR'. apply HQ; [|done]. by rewrite (failsIs_res _ _ _ Hr).
Qed.

(** ** The subtests *)

(** The order a fixture builds. *)
Definition built (opts : list OrderOption) : Order :=
  match NewOrder opts with
  | Ok o => o
  | Err _ => mkOrder "" "" "" StatusUnspecified [] zeroMoney 0 0
  end.

(** The tenants of the fixtures: one for every id, but for the ids of [other]. *)
Definition owner (other : list string) (id : string) : string :=
  if existsb (String.eqb id) other then OtherTen else RefTenant.

Ltac fixture_fact :=
  repeat match goal with
  | |- owned _ _ => split
  | |- _ /\ _ => split
  | |- forall k, None = Some k -> _ => by intros
  | |- time_ok _ => unfold time_ok; vm_compute; split; congruence
  | |- _ <> _ => by vm_compute
  | |- _ = _ => vm_compute; reflexivity
  end.

(** Steps of a test whose store is related to a known abstract state. *)
Ltac create_step :=
  apply clean_then; eapply mustCreate_clean; [eassumption|by vm_compute|fixture_fact|by vm_compute|];
  match goal with H : R _ _ _ |- _ => clear H end;
  let s := fresh "s" in let HR := fresh "HR" in intros s HR.
Ltac build_step o :=
  apply clean_then; apply (clean_must _ o); [by vm_compute|].
Lemma new_having ow : R ow newHarness (having [] []).
Proof. apply cf_new. Qed.
Ltac start ow := pose proof (new_having ow).

Definition first_ : Order := built [WithID (SeqID 1)].

Lemma round_trip_clean : clean test_round_trip newHarness (fun _ _ => True).
Proof.
  unfold test_round_trip. start (owner []). build_step first_. apply clean_then.
  eapply Create_clean; [eassumption|fixture_fact|by vm_compute|]. intros s HR. apply clean_then.
  eapply (Get_clean _ _ _ first_); [exact HR|by vm_compute..|].
  intros s' HR'. by apply clean_errorIf; [vm_compute|].
Qed.

Lemma unknown_id_clean : clean test_unknown_id newHarness (fun _ _ => True).
Proof.
  unfold test_unknown_id. start (owner []). apply clean_then. eapply Get_missing; [eassumption|by vm_compute..|].
  intros r s Hr _. apply clean_fatalIf; [by rewrite Hr|done].
Qed.

Lemma duplicate_clean : clean test_duplicate newHarness (fun _ _ => True).
Proof.
  unfold test_duplicate. start (owner []). build_step first_. apply clean_then.
  eapply Create_clean; [eassumption|fixture_fact|by vm_compute|]. intros s HR. apply clean_then.
  eapply clean_call.
  { apply (sim_Create (StoreSim := cf_store (owner []))); [|exact HR]. apply cf_create; by vm_compute. }
  intros r s' Hr _. apply clean_fatalIf; [|done].
  rewrite (failsIs_res ErrDuplicate r ErrDuplicate); [done|]. revert Hr. by vm_compute.
Qed.

Lemma other_tenant_clean : clean test_other_tenant newHarness (fun _ _ => True).
Proof.
  unfold test_other_tenant. start (owner [SeqID 1]). build_step (built [WithID (SeqID 1); WithTenant OtherTen]).
  apply clean_then. eapply Create_clean; [eassumption|fixture_fact|by vm_compute|]. intros s HR.
  apply clean_then. eapply Get_missing; [exact HR|by vm_compute..|].
  intros r s' Hr _. apply clean_fatalIf; [by rewrite Hr|done].
Qed.

Lemma no_tenant_clean : clean test_no_tenant newHarness (fun _ _ => True).
Proof.
  unfold test_no_tenant.
  pose (o := built [WithID (SeqID 1); WithTenant ""]).
  assert (forall s, R (owner []) s (having [] []) ->
    sim (R (owner [])) (store_Create o s) (Err ErrMissingTenant, having [] []) /\
    sim (R (owner [])) (store_Get "" (SeqID 1) s) (Err ErrMissingTenant, having [] []) /\
    sim (R (owner [])) (store_List "" noFilter s) (Err ErrMissingTenant, having [] [])) as Hno
    by (intros s HR; by apply cf_no_tenant).
  start (owner []). build_step o. apply clean_then.
  eapply clean_call; [by apply Hno|]. intros r s Hr HR. apply clean_then, clean_errorIf.
  { by rewrite (failsIs_res _ _ _ Hr). }
  apply clean_then. eapply clean_call; [by apply Hno|]. intros r' s' Hr' HR'.
  apply clean_then, clean_errorIf. { by rewrite (failsIs_res _ _ _ Hr'). }
  apply clean_then. eapply clean_call; [by apply Hno|]. intros r'' s'' Hr'' _.
  apply clean_errorIf; [by rewrite (failsIs_res _ _ _ Hr'')|done].
Qed.

Lemma update_clean : clean test_update newHarness (fun _ _ => True).
Proof.
  unfold test_update.
  pose (o := cancelledAt first_ (RefTime + Hour)).
  start (owner []). build_step first_. apply clean_then.
  eapply Create_clean; [eassumption|fixture_fact|by vm_compute|]. intros s HR.
  apply clean_then. change (cancelledAt first_ (RefTime + Hour)) with o.
  eapply (Update_clean _ _ first_); [exact HR|fixture_fact|by vm_compute|by vm_compute|]. intros s' HR'.
  apply clean_then. eapply (Get_clean _ _ _ o); [exact HR'|by vm_compute..|].
  intros s'' _. apply clean_then, clean_errorIf; [by vm_compute|].
  apply clean_errorIf; [by vm_compute|done].
Qed.

Lemma update_unknown_clean : clean test_update_unknown newHarness (fun _ _ => True).
Proof.
  unfold test_update_unknown.
  pose (o := built [WithID (SeqID 42)]).
  start (owner []). build_step o. apply clean_then.
  assert (can_update (D (owner [])) (having [] []) o) as Hcan.
  { apply cf_update; [by vm_compute..|]. intros old. by vm_compute. }
  eapply clean_call; [apply (sim_Update (StoreSim := cf_store (owner [])) o); [exact Hcan|eassumption]|].
  intros r s Hr _. apply clean_fatalIf; [|done].
  rewrite (failsIs_res ErrNotFound r ErrNotFound); [done|]. revert Hr. by vm_compute.
Qed.

(** ** Listings *)

Lemma no_cursor t f : PageToken f = "" -> DecodePageToken t f = Ok None.
Proof. unfold DecodePageToken. by intros ->. Qed.

Ltac list_step :=
  apply clean_then; eapply List_all;
    [eassumption|by vm_compute..|by apply no_cursor|by intros|by vm_compute|by vm_compute|];
  match goal with H : R _ _ _ |- _ => clear H end;
  let s := fresh "s" in let HR := fresh "HR" in intros s HR.

Lemma list_tenant_clean : clean test_list_tenant newHarness (fun _ _ => True).
Proof.
  unfold test_list_tenant. start (owner [SeqID 2]). do 2 create_step. list_step.
  apply clean_fatalIf; [by vm_compute|done].
Qed.

Lemma filters_clean : clean test_filters newHarness (fun _ _ => True).
Proof.
  unfold test_filters. start (owner []). do 3 create_step. list_step.
  apply clean_then, clean_errorIf; [by vm_compute|]. list_step.
  apply clean_errorIf; [by vm_compute|done].
Qed.

Lemma stable_clean : clean test_stable newHarness (fun _ _ => True).
Proof.
  unfold test_stable. start (owner []). apply clean_then. cbn [mustCreateSeq]. do 5 create_step.
  apply clean_ret. do 2 list_step. apply clean_errorIf; [|done].
  by apply bool_decide_eq_false_2; intros [].
Qed.

Lemma malformed_clean : clean test_malformed newHarness (fun _ _ => True).
Proof.
  unfold test_malformed. start (owner []). apply clean_then.
  eapply List_refused; [eassumption|by vm_compute..|reflexivity|].
  intros r s Hr _. apply clean_fatalIf; [by rewrite Hr|done].
Qed.

(** A page that is not the last: its token resumes after its last row. *)
Ltac page_step tok Htok Hne Hdec :=
  apply clean_then; eapply List_more;
    [eassumption|by vm_compute..|eauto using no_cursor| |by vm_compute|by vm_compute|by vm_compute
    |by vm_compute|by vm_compute|unfold time_ok; vm_compute; split; congruence|];
  [by intros k [= <-]; vm_compute|];
  match goal with H : R _ _ _ |- _ => clear H end;
  let s := fresh "s" in let HR := fresh "HR" in intros tok s Htok Hne Hdec HR.

(** One turn of the paging loop, when rows are left and when none are. *)
Lemma pageLoop_next ow n f cur rows page last_ seen a s (Q : gmap string Z -> S -> Prop) :
  R ow s a -> plain_text (FCustomerID f) = true -> DecodePageToken RefTenant f = Ok cur ->
  (forall k, cur = Some k -> whole_micros k.1 = true /\ canonical_uuid k.2 = true) ->
  after cur (listing RefTenant f a) = rows -> (pageSize f <? length rows)%nat = true ->
  take (pageSize f) rows = page -> page !! (pageSize f - 1)%nat = Some last_ ->
  canonical_uuid (ID last_) = true -> time_ok (CreatedAt last_) ->
  (forall tok s', R ow s' a ->
     (forall size, DecodePageToken RefTenant (with_page f size tok) = Ok (Some (order_key last_))) ->
     clean (pageLoop n (with_page f (PageSize f) tok) (countSeen seen page)) s' Q) ->
  clean (pageLoop (Datatypes.S n) f seen) s Q.
Proof.
  intros HR Hc Hd Hcur Hrows Hlen Hpage Hlast Hid Htime HQ. cbn [pageLoop]. apply clean_then.
  eapply List_more; try done. intros tok s' _ Hne Hdec HR'. cbn [NextPageToken].
  apply String.eqb_neq in Hne as ->. by apply HQ.
Qed.

Lemma pageLoop_last ow n f cur rows seen a s (Q : gmap string Z -> S -> Prop) :
  R ow s a -> plain_text (FCustomerID f) = true -> DecodePageToken RefTenant f = Ok cur ->
  (forall k, cur = Some k -> whole_micros k.1 = true /\ canonical_uuid k.2 = true) ->
  after cur (listing RefTenant f a) = rows -> (pageSize f <? length rows)%nat = false ->
  (forall s', R ow s' a -> Q (countSeen seen rows) s') ->
  clean (pageLoop (Datatypes.S n) f seen) s Q.
Proof.
  intros HR Hc Hd Hcur Hrows Hlen HQ. cbn [pageLoop]. apply clean_then.
  by eapply List_all.
Qed.

Lemma reportSeen_clean l s (Q : unit -> S -> Prop) :
  forallb (fun kn => kn.2 =? 1) l = true -> Q tt s -> clean (reportSeen l) s Q.
Proof.
  intros Hl HQ. induction l as [|[i n] l IH]; cbn in *; [by apply clean_ret|].
  to_prop. apply clean_then, clean_errorIf; [|by apply IH]. by apply negb_false_iff, Z.eqb_eq.
Qed.

Definition seven : list Order := (fun i => built (stamped i)) <$> [1; 2; 3; 4; 5; 6; 7].
Definition seen_all : gmap string Z :=
  countSeen (countSeen (countSeen ∅ (take 3 seven)) (take 3 (drop 3 seven))) (drop 6 seven).

Lemma seven_seen :
  size seen_all = 7%nat /\ forallb (fun kn => kn.2 =? 1) (map_to_list seen_all) = true.
Proof. split; by vm_compute. Qed.

Ltac next_page rows last_ decoded :=
  eapply (pageLoop_next _ _ _ _ rows (take 3 rows) last_);
    [eassumption|by vm_compute|decoded|by intros k [= <-]; vm_compute|vm_compute; reflexivity
    |vm_compute; reflexivity|reflexivity|vm_compute; reflexivity|vm_compute; reflexivity
    |unfold time_ok; vm_compute; split; congruence|].

Lemma paging_clean : clean test_paging newHarness (fun _ _ => True).
Proof.
  unfold test_paging. start (owner []). apply clean_then. cbn [mustCreateSeq total].
  do 7 create_step. apply clean_ret. apply clean_then.
  next_page seven (built (stamped 3)) ltac:(by apply no_cursor). intros tok s' HR' Hdec.
  next_page (drop 3 seven) (built (stamped 6)) ltac:(apply Hdec). intros tok' s'' HR'' Hdec'.
  eapply (pageLoop_last _ _ _ _ (drop 6 seven)); [exact HR''|by vm_compute|apply Hdec'
    |by intros k [= <-]; vm_compute|vm_compute; reflexivity|vm_compute; reflexivity|].
  intros s9 _. change (countSeen _ _) with seen_all. destruct seven_seen as [Hs Hall].
  apply clean_then, clean_errorIf; [by rewrite Hs|]. by apply reportSeen_clean.
Qed.

(** What a token says. *)
Lemma issued t f o tok :
  canonical_uuid (ID o) = true -> EncodePageToken t f o = Ok tok ->
  exists b, let c := mkCursor (CreatedAt o) (ID o) (filterHash t f) in
    tok = EncodeToString b /\ json_Marshal c = Ok b /\ json_Unmarshal b = Some c.
Proof.
  intros Hid He. apply bind_Ok in He as (b & Hb & [= <-]). apply mapErr_Ok in Hb.
  exists b. intros c. split_ands; [done..|].
  apply marshal_unmarshal; [by apply uuid_canonical|apply filterHash_range|done].
Qed.

Lemma firstToken_clean :
  clean firstToken newHarness (fun tok s => tok <> "" /\
    EncodePageToken RefTenant (filterBy StatusUnspecified "" 1 "") (built (stamped 1)) = Ok tok /\
    exists l, R (owner []) s (having l [])).
Proof.
  unfold firstToken. start (owner []). apply clean_then. cbn [mustCreateSeq].
  do 3 create_step. apply clean_ret. page_step tok Htok Hne Hdec. cbn [NextPageToken].
  pose proof Hne as Hne'. apply String.eqb_neq in Hne' as ->. apply clean_then, clean_fatalIf; [done|].
  apply clean_ret. split_ands; [done| |by eexists]. rewrite <- Htok. by f_equal.
Qed.

Lemma other_filter_clean : clean test_other_filter newHarness (fun _ _ => True).
Proof.
  unfold test_other_filter. apply clean_then. eapply clean_mono; [apply firstToken_clean|].
  intros tok s (Hne & Htok & l & HR). apply clean_then.
  apply issued in Htok as (b & -> & _ & Hb); [|by vm_compute].
  eapply List_refused; [exact HR|by vm_compute..| |].
  - unfold DecodePageToken. cbn [PageToken filterBy]. apply String.eqb_neq in Hne as ->.
    unfold decodeCursor. rewrite DecodeString_EncodeToString, Hb. cbn [FilterHash].
    match goal with |- context [(?x =? ?y)%Z] =>
      assert ((x =? y) = false) as -> by (vm_compute; reflexivity) end. reflexivity.
  - intros r s' Hr _. apply clean_fatalIf; [by rewrite Hr|done].
Qed.

Lemma tampered_clean : clean test_tampered newHarness (fun _ _ => True).
Proof.
  unfold test_tampered. apply clean_then. eapply clean_mono; [apply firstToken_clean|].
  intros tok s (Hne & Htok & l & HR). apply clean_then.
  apply issued in Htok as (b & -> & Hm & _); [|by vm_compute].
  destruct (object_edit _ b hostileID Hm) as (m & b' & Hu & Hf & Hb' & Hn & Hc); [by vm_compute|].
  apply (clean_must _ (EncodeToString b')).
  { unfold tamperCursorID. rewrite DecodeString_EncodeToString, Hu. cbn. by rewrite Hf, Hb'. }
  apply clean_then. eapply List_refused; [exact HR|by vm_compute..| |].
  - unfold DecodePageToken. cbn [PageToken filterBy].
    apply EncodeToString_nonempty, String.eqb_neq in Hn as ->.
    unfold decodeCursor. rewrite DecodeString_EncodeToString, Hc. cbn [FilterHash CID].
    match goal with |- context [(?x =? ?y)%Z] =>
      assert ((x =? y) = true) as -> by (vm_compute; reflexivity) end.
    destruct (uuid_Validate hostileID) eqn:Hv; [|reflexivity].
    apply uuid_length in Hv as [E|[E|[E|E]]]; vm_compute in E; discriminate E.
  - intros r s' Hr _. apply clean_fatalIf; [by rewrite Hr|done].
Qed.

(** ** Transactions *)

(** The body of both transactions. *)
Definition writes {X} `{!StoreOps X} (o : Order) : stm X unit :=
  _ ← store_Create o; pub_Publish (eventFor o EventOrderCreated).

Lemma writes_abs o :
  TenantID o <> "" -> writes o (having [] []) = (Ok tt, having [o] [eventFor o EventOrderCreated]).
Proof. intros Ht. unfold writes. cbn -[lookup insert having]. by apply String.eqb_neq in Ht as ->. Qed.

Lemma writes_sim ow o s0 st :
  owned ow o -> RT ow s0 st (having [] []) -> sim (RT ow s0) (writes o st) (writes o (having [] [])).
Proof.
  intros (Hf & Ho & Ht) HR. apply sim_bind.
  - apply (sim_Create (StoreSim := cf_tx ow s0)); [by apply cf_create|done].
  - intros [] st' a' _ HR'. apply (sim_Publish (StoreSim := cf_tx ow s0)); [by apply cf_publish|done].
Qed.

Lemma events_clean ow a s msg (Q : list Event -> S -> Prop) :
  R ow s a -> (forall s', R ow s' a -> Q (s_events a) s') -> clean (mustCall events msg) s Q.
Proof.
  intros HR HQ. destruct (cf_events (Conforms := Conforms0) ow s a HR) as (s' & He & HR').
  unfold clean, mustCall, mbind, tst_bind, call. rewrite He. by apply HQ.
Qed.

Lemma commit_clean : clean (test_commit (T := T) events) newHarness (fun _ _ => True).
Proof.
  unfold test_commit. pose proof (new_having (owner [])) as HR. build_step first_.
  assert (owned (owner []) first_) as Ho by fixture_fact. apply clean_then.
  pose proof (sim_InTx (AtomicSim := cf_atomic (owner [])) unit (writes first_) (writes first_)
    newHarness _ (fun st => writes_sim (owner []) first_ newHarness st Ho) HR) as Hs.
  cbn [InTx spec_atomic] in Hs. rewrite writes_abs in Hs by (by vm_compute).
  eapply clean_mustCall; [exact Hs|]. intros s HR'. apply clean_then.
  eapply clean_call.
  { apply (Get_agrees (owner []) RefTenant (ID first_) (having [first_] [eventFor first_ EventOrderCreated])
             s (Ok first_)); [by vm_compute..|exact HR']. }
  intros r s' Hr HR''. apply clean_then, clean_errorIf; [by destruct r|].
  apply clean_then. eapply events_clean; [exact HR''|]. intros s'' _. cbn [having s_events].
  apply clean_errorIf; [by vm_compute|done].
Qed.

Lemma rollback_clean : clean (test_rollback (T := T) events) newHarness (fun _ _ => True).
Proof.
  unfold test_rollback. pose proof (new_having (owner [])) as HR. build_step first_.
  assert (owned (owner []) first_) as Ho by fixture_fact. apply clean_then.
  set (body := fun X (ops : StoreOps X) =>
    (_ ← store_Create first_; _ ← pub_Publish (eventFor first_ EventOrderCreated); fail ErrBoom) : stm X unit).
  assert (forall st, RT (owner []) newHarness st (having [] []) ->
    sim (RT (owner []) newHarness) (body T _ st) (body sstate _ (having [] []))) as Hbody.
  { intros st HT. apply sim_bind.
    - apply (sim_Create (StoreSim := cf_tx (owner []) newHarness)); [by apply cf_create; apply Ho|done].
    - intros [] st' a' _ HR'. apply sim_bind.
      + apply (sim_Publish (StoreSim := cf_tx (owner []) newHarness)); [by apply cf_publish; apply Ho|done].
      + intros [] st'' a'' _ HR''. split; [done|exact HR'']. }
  pose proof (sim_InTx (AtomicSim := cf_atomic (owner [])) unit (body T _) (body sstate _)
    newHarness _ Hbody HR) as Hs.
  assert (InTx (S := sstate) (T := sstate) (body sstate _) (having [] []) = (Err ErrBoom, having [] []))
    as Habs by reflexivity.
  rewrite Habs in Hs. eapply clean_call; [exact Hs|]. intros r s Hr HR'.
  apply clean_then, clean_fatalIf; [by rewrite (failsIs_res _ _ _ Hr)|].
  apply clean_then. eapply Get_missing; [exact HR'|by vm_compute..|].
  intros r' s' Hr' HR''. apply clean_then, clean_errorIf; [by rewrite Hr'|].
  apply clean_then. eapply events_clean; [exact HR''|]. intros s'' _. by apply clean_errorIf.
Qed.

(** Every subtest passes. *)
Lemma subtests_clean :
  Forall (fun nt => clean nt.2 newHarness (fun _ _ => True)) (subtests (T := T) events).
Proof.
  apply List.Forall_cons; [exact round_trip_clean|].
  apply List.Forall_cons; [exact unknown_id_clean|].
  apply List.Forall_cons; [exact duplicate_clean|].
  apply List.Forall_cons; [exact other_tenant_clean|].
  apply List.Forall_cons; [exact no_tenant_clean|].
  apply List.Forall_cons; [exact update_clean|].
  apply List.Forall_cons; [exact update_unknown_clean|].
  apply List.Forall_cons; [exact list_tenant_clean|].
  apply List.Forall_cons; [exact stable_clean|].
  apply List.Forall_cons; [exact paging_clean|].
  apply List.Forall_cons; [exact filters_clean|].
  apply List.Forall_cons; [exact other_filter_clean|].
  apply List.Forall_cons; [exact malformed_clean|].
  apply List.Forall_cons; [exact tampered_clean|].
  apply List.Forall_cons; [exact rollback_clean|].
  apply List.Forall_cons; [exact commit_clean|].
  apply List.Forall_nil.
Qed.

(** The reports of a contract run are empty. *)
Lemma contract_holds :
  Forall (fun report => report.2 = []) (RunStoreContract (T := T) events newHarness).
Proof.
  unfold RunStoreContract. apply Forall_fmap. eapply Forall_impl; [exact subtests_clean|].
  intros [name test] Hc. cbn. by eapply clean_reports.
Qed.

End Contract.
