(* ===== verification/ContractBoth.v ===== *)
(** Both stores implement the interface of the contract, and so pass it. *)

From S2P Require Import Prelude GoErr GoStr Money Order Cursor Store Paging StoreContract ContractSpec.
From S2P Require Import OrderPg OrderPgSpec OrderPgRefines StoresAgree.
From S2P Require OrderMem Outbox.

#[local] Existing Instances OrderMem.view_ops OrderMem.store_ops OrderMem.store_atomic
  OrderMem.view_sim OrderMem.store_sim OrderMem.atomic_sim.

(** * Text and ids *)

Lemma uuid_shape_text shape s : uuid_shape shape s = true -> plain_text s = true.
Proof.
  revert s. induction shape as [|hex r IH]; intros [|c s]; cbn; try done. intros Hs. to_prop.
  rewrite andb_true_iff. split; [|by apply IH].
  destruct hex; [|by apply Ascii.eqb_eq in H as ->].
  unfold is_lower_hex in H. apply andb_true_iff. rewrite Z.leb_le, Z.ltb_lt. to_prop.
  destruct H as [H|H]; to_prop; lia.
Qed.

Lemma uuid_shape_length shape s : uuid_shape shape s = true -> String.length s = length shape.
Proof.
  revert s. induction shape as [|hex r IH]; intros [|c s]; cbn; try done. intros ?; to_prop. by rewrite (IH s).
Qed.

Lemma canonical_text s : canonical_uuid s = true -> plain_text s = true.
Proof. apply uuid_shape_text. Qed.

Lemma canonical_strlen s : canonical_uuid s = true -> strlen s = 36.
Proof. intros Hs. unfold strlen. by rewrite (uuid_shape_length _ _ Hs). Qed.

Lemma plain_nul_free s : plain_text s = true -> OrderMem.nul_free s.
Proof.
  intros Hs. apply Is_true_true. revert Hs. apply string_forallb_impl. intros c Hc. to_prop.
  apply negb_true_iff, Z.eqb_neq. lia.
Qed.

(** * The in-memory store *)

Definition mem_events : stm OrderMem.Store (list Event) := fun s => (Ok (OrderMem.Events s), s).

Section Memory.
Context `{Unicode, CursorEnv}.

#[export] Instance mem_conforms :
  Conforms (S := OrderMem.Store) (T := OrderMem.state) mem_events OrderMem.New
    (fun _ => OrderMem.mem_domain) (fun _ => OrderMem.store_rep) (fun _ _ => OrderMem.rep).
Proof.
  split; try (intros; apply _); cbn.
  - intros _. split; cbn; intros *; rewrite ?lookup_empty; done.
  - intros ow s a HR. exists s. split; [|done]. unfold mem_events, OrderMem.Events.
    by rewrite (OrderMem.rep_events _ _ HR).
  - intros ow o i f [d] a Ht HR. unfold OrderMem.locked, OrderMem.Create. rewrite Ht. by split_ands.
  - intros ow o Hf Ho. unfold fixture in Hf. to_prop. by apply plain_nul_free.
  - intros ow t i Ht _. by apply plain_nul_free.
  - intros ow t f Ht _ _. by apply plain_nul_free.
  - intros ow a o Hf _ _. unfold fixture in Hf. to_prop. by apply plain_nul_free.
  - done.
Qed.

End Memory.

(** * The Postgres store *)

(** Plain text, canonical uuids and whole microseconds are stored as they are. *)
Class PgPlain `{PgLib} := {
  pg_plain : forall s, plain_text s = true -> pg_text s = true;
  pg_canonical : forall s, canonical_uuid s = true -> pg_uuid s = Some s;
  pg_micros : forall t, t mod 1000 = 0 -> pg_time t = t }.

Section Postgres.
Context `{PgLaws, !PgPlain, Unicode, CursorEnv}.

Lemma whole_micros_ok t : whole_micros t = true -> micros t.
Proof. unfold whole_micros. intros ?; to_prop. split; [by apply pg_micros|done]. Qed.

Lemma fixture_storable ow o : fixture o = true -> ow (ID o) = TenantID o -> storable ow o.
Proof.
  unfold fixture. intros Hf Ho. to_prop. rename select (forallb _ _ = true) into Hi.
  rewrite forallb_forall in Hi.
  assert (forall it, it ∈ Items o -> int_ok 32 (Quantity it) /\ plain_text (SKU it) = true) as Hit.
  { intros it Hin. apply list_elem_of_In, Hi in Hin. by to_prop. }
  split; try done.
  - by destruct (OrderValidate o) as [[]|].
  - apply Forall_forall. intros it Hin. by apply Hit.
  - split; [by apply pg_canonical|]. by apply pg_plain, canonical_text.
  - split_ands; [by apply pg_plain..|]. apply Forall_forall. intros it Hin. by apply pg_plain, Hit.
  - split; by apply whole_micros_ok.
Qed.

Lemma decodeEvents_rows rows es :
  Forall2 (fun kr e => stands_for kr.2 e) rows es -> decodeEvents rows = Ok es.
Proof.
  induction 1 as [|[k r] e rows es Hs _ IH]; [done|]. cbn [snd] in Hs.
  destruct Hs as (Ht & Ha & Hty & Hat & Hp & _). cbn. rewrite Hp. cbn. rewrite IH. cbn.
  rewrite Ht, Ha, Hty, Hat. by destruct e.
Qed.

Lemma fresh_conforms n trace :
  pg_text trace = true ->
  Conforms (S := pg) (T := tx) OrderPg.Events (fresh n trace) pg_domain pg_rep began.
Proof.
  intros Htr. split; try (intros; apply _).
  - intros ow. by apply fresh_rep.
  - intros ow s a HR. exists s. split; [|done]. unfold OrderPg.Events, mbind, stm_bind.
    rewrite query_calm by (by apply HR). unfold lift.
    by rewrite (decodeEvents_rows _ _ (pr_events _ _ _ HR)).
  - intros ow o i f s a Ht HR. cbn. unfold OrderPg.Create. rewrite Ht. by split_ands.
  - intros ow o Hf Ho. by apply fixture_storable.
  - intros ow t i Ht Hi. split; [by apply pg_plain|by apply pg_canonical].
  - intros ow t f Ht Hc Htok. cbn. split_ands; [by apply pg_plain..|]. intros at_ id Hd.
    destruct (Htok at_ id Hd) as [Hm Hu]. unfold whole_micros in Hm. to_prop.
    split; [by apply pg_micros|by apply pg_canonical].
  - intros ow a o Hf Ho Hold. split; [by apply fixture_storable|done].
  - intros ow o Hf Ho. pose proof (fixture_storable ow o Hf Ho) as Hs.
    cbn. unfold storable_event. cbn. split_ands; try done; first [apply event_text|apply (st_times _ _ Hs)].
Qed.

End Postgres.

(** * The contract *)

(** C4. The shared contract holds of both stores: each of its sixteen subtests, run on an empty
    in-memory store and on an empty Postgres whose statements succeed, ends without a report.
    No run of the suite depends on which uuid, JSON or database library meets the documented
    laws, nor on where the sequence of outbox ids stands. *)
Theorem contract_passes `{CursorLaws, !JsonObject, !ContractLaws, PgLaws, !PgPlain, Unicode} n trace :
  pg_text trace = true ->
  Forall (fun report => report.2 = [])
    (RunStoreContract (S := OrderMem.Store) (T := OrderMem.state) mem_events OrderMem.New) /\
  Forall (fun report => report.2 = [])
    (RunStoreContract (S := pg) (T := tx) OrderPg.Events (fresh n trace)).
Proof.
  intros Ht. split.
  - eapply contract_holds. apply mem_conforms.
  - eapply contract_holds. by apply fresh_conforms.
Qed.

(** * The suite on concrete libraries *)

Section Examples.
#[local] Existing Instances ascii_tables bits_env plain_pg.

(** JSON objects with the fields of a cursor. *)
#[local] Instance cursor_object : JsonObject := {|
  json_object := cursor;
  object_Unmarshal s :=
    match bits_read s ≫= decode with Some c => Ok c | None => Err (ELib "json") end;
  object_field k _ := (k =? "i")%string;
  object_set _ v c := mkCursor (CCreatedAt c) v (FilterHash c);
  object_Marshal c := Ok (bits_write (encode c)) |}.

#[local] Instance cursor_object_laws : ContractLaws.
Proof.
  split.
  - intros s Hs. by apply Z.eqb_eq, canonical_strlen.
  - intros s Hs. cbn in Hs. to_prop. auto.
  - intros c b id [= <-] _. exists c, (bits_write (encode (mkCursor (CCreatedAt c) id (FilterHash c)))).
    cbn [object_Unmarshal object_field object_set object_Marshal json_Unmarshal bits_env cursor_object].
    rewrite !bits_read_write. cbn [mbind option_bind]. rewrite !decode_encode. split_ands; try done.
    by destruct (encode _).
Defined.

#[local] Instance plain_plain : PgPlain.
Proof.
  split.
  - intros s. apply string_forallb_impl. intros c Hc. to_prop. apply andb_true_iff.
    rewrite Z.ltb_lt, Z.ltb_lt. lia.
  - intros s Hs. unfold pg_uuid, plain_pg. by rewrite canonical_strlen.
  - intros t Ht. unfold pg_time, plain_pg. lia.
Defined.

Lemma contract_passes_witness :
  Forall (fun report => report.2 = [])
    (RunStoreContract (S := OrderMem.Store) (T := OrderMem.state) mem_events OrderMem.New) /\
  Forall (fun report => report.2 = [])
    (RunStoreContract (S := pg) (T := tx) OrderPg.Events (fresh 1 "")).
Proof. exact (@contract_passes _ bits_laws _ _ _ plain_laws _ _ 1 "" eq_refl). Defined.

(** A store that keeps the orders of every tenant under the bare id fails the suite. *)
Definition leaky : StoreOps OrderMem.Store := {|
  store_Create := store_Create;
  store_Get _ i := fun s =>
    match List.filter (fun o => (ID o =? i)%string) (map_to_list (OrderMem.orders (OrderMem.data s))).*2 with
    | o :: _ => (Ok o, s)
    | [] => (Err ErrNotFound, s)
    end;
  store_List := store_List; store_Update := store_Update; pub_Publish := pub_Publish |}.

Lemma leaky_store_caught :
  List.filter (fun report => negb (bool_decide (report.2 = [])))
    (RunStoreContract (S := OrderMem.Store) (T := OrderMem.state) (StoreOps0 := leaky) mem_events OrderMem.New) =
  [("an order in another tenant is indistinguishable from missing",
    ["want ErrNotFound for a cross-tenant read"]);
   ("writes without a tenant fail closed", ["Get: want ErrMissingTenant"])].
Proof. vm_compute. reflexivity. Qed.

(** A store whose [Update] asks for no tenant: it overwrites the order of that id in whatever
    tenant holds it, and is refused nothing. *)
Definition lax_update : StoreOps OrderMem.Store := {|
  store_Create := store_Create; store_Get := store_Get; store_List := store_List;
  store_Update o := fun s =>
    let d := OrderMem.data s in
    match List.filter (fun kv => (ID kv.2 =? ID o)%string) (map_to_list (OrderMem.orders d)) with
    | (k, _) :: _ =>
        (Ok tt, OrderMem.mkStore (OrderMem.mkState (<[k := o]> (OrderMem.orders d)) (OrderMem.events d)))
    | [] => (Err ErrNotFound, s)
    end;
  pub_Publish := pub_Publish |}.

(** The subtest that says it covers writes without a tenant never updates without one: such a
    store passes the whole suite. *)
Lemma lax_update_passes :
  Forall (fun report => report.2 = [])
    (RunStoreContract (S := OrderMem.Store) (T := OrderMem.state) (StoreOps0 := lax_update)
       mem_events OrderMem.New).
Proof. repeat constructor; vm_compute; reflexivity. Qed.

End Examples.
