(* ===== verification/GoFloat.v ===== *)
(** Rounding errors of the float64 operations the program computes durations with.

    [SpecFloat] defines the operations; here is the fact its users need: on positive values
    of normal magnitude an operation is exact up to one part in [2 ^ 52].  A positive float
    [m * 2 ^ e] is compared as the integer [m * 2 ^ (e + s)] for a scale [s] large enough. *)

From Stdlib Require Import SpecFloat.
From S2P Require Import Prelude GoStr GoNum.

Definition scaleup (s : Z) (m : positive) (e : Z) : Z := Zpos m * 2 ^ (e + s).

(** [a] is within one part in [2 ^ 52] of [b]. *)
Definition close (a b : Z) : Prop := Z.abs (a - b) * 2 ^ 52 <= b.

Lemma pow_pos k : 0 <= k -> 0 < 2 ^ k.
Proof. intros. by apply Z.pow_pos_nonneg. Qed.

Lemma close_bounds a b : close a b -> a * 2 ^ 52 <= b * (2 ^ 52 + 1) /\ b * (2 ^ 52 - 1) <= a * 2 ^ 52.
Proof. unfold close. change (2 ^ 52) with 4503599627370496. lia. Qed.

(** * Digits *)

Lemma digits_bounds m :
  2 ^ (Zpos (digits2_pos m) - 1) <= Zpos m < 2 ^ Zpos (digits2_pos m).
Proof.
  induction m as [m IH|m IH|]; cbn [digits2_pos]; [| |by vm_compute].
  all: rewrite Pos2Z.inj_succ, Z.pow_succ_r by lia;
    replace (Z.succ (Zpos (digits2_pos m)) - 1) with (Z.succ (Zpos (digits2_pos m) - 1)) by lia;
    rewrite Z.pow_succ_r by lia; lia.
Qed.

Lemma pow_lt_inv a b : 0 <= b -> 2 ^ a < 2 ^ b -> a < b.
Proof. intros. by apply (Z.pow_lt_mono_r_iff 2). Qed.

Lemma digits_unique m d : 2 ^ (d - 1) <= Zpos m < 2 ^ d -> Zpos (digits2_pos m) = d.
Proof.
  intros [Hl Hu]. pose proof (digits_bounds m) as [Hl' Hu'].
  assert (0 <= d) by (destruct (Z.neg_nonneg_cases d); [rewrite (Z.pow_neg_r 2 d) in Hu|]; lia).
  assert (Zpos (digits2_pos m) - 1 < d) by (apply pow_lt_inv; lia).
  assert (d - 1 < Zpos (digits2_pos m)) by (apply pow_lt_inv; lia). lia.
Qed.

(** * Shifting right *)

Lemma shr_1_m mrs : 0 <= shr_m mrs -> shr_m (shr_1 mrs) = shr_m mrs / 2.
Proof.
  destruct mrs as [m r s]. destruct m as [|[p|p|]|p]; cbn; try done; intros _;
    Z.to_euclidean_division_equations; lia.
Qed.

Lemma iter_shr_m p mrs :
  0 <= shr_m mrs -> shr_m (SpecFloat.iter_pos shr_1 p mrs) = shr_m mrs / 2 ^ Zpos p.
Proof.
  revert mrs. induction p as [p IH|p IH|]; intros mrs Hm; cbn [SpecFloat.iter_pos].
  - assert (0 <= shr_m (shr_1 mrs)) by (rewrite shr_1_m by done; apply Z.div_pos; lia).
    assert (0 <= shr_m (SpecFloat.iter_pos shr_1 p (shr_1 mrs)))
      by (rewrite IH by done; apply Z.div_pos; [done|apply pow_pos; lia]).
    pose proof (pow_pos (Zpos p) ltac:(lia)).
    replace (Zpos p~1) with (1 + Zpos p + Zpos p) by lia.
    rewrite !IH, shr_1_m, !Z.div_div, !Z.pow_add_r by (done || lia || nia).
    f_equal. lia.
  - assert (0 <= shr_m (SpecFloat.iter_pos shr_1 p mrs))
      by (rewrite IH by done; apply Z.div_pos; [done|apply pow_pos; lia]).
    pose proof (pow_pos (Zpos p) ltac:(lia)).
    replace (Zpos p~0) with (Zpos p + Zpos p) by lia.
    by rewrite !IH, Z.div_div, Z.pow_add_r by (done || lia).
  - by apply shr_1_m.
Qed.

Lemma round_ne m l : round_nearest_even m l = m \/ round_nearest_even m l = m + 1.
Proof. destruct l as [|[]]; cbn; auto. destruct (Z.even m); auto. Qed.

(** The shift that brings a mantissa of normal magnitude to 53 digits. *)
Lemma shr_fexp_normal m e (d := Zpos (digits2_pos m)) :
  -1074 <= d + e - 53 ->
  (d <= 53 /\ shr_fexp prec emax (Zpos m) e loc_Exact = (Build_shr_record (Zpos m) false false, e)) \/
  (53 < d /\ exists mrs, shr_fexp prec emax (Zpos m) e loc_Exact = (mrs, e + (d - 53)) /\
     shr_m mrs = Zpos m / 2 ^ (d - 53)).
Proof.
  intros Hd. unfold shr_fexp. cbn [Zdigits2 shr_record_of_loc]. fold d.
  assert (fexp prec emax (d + e) - e = d - 53) as ->
    by (unfold fexp, emin, prec, emax; lia).
  destruct (Z.le_gt_cases d 53); [left|right]; (split; [done|]); unfold shr.
  - destruct (d - 53) eqn:E; [done|lia|done].
  - destruct (d - 53) eqn:E; [lia| |lia]. eexists. split; [reflexivity|].
    by rewrite iter_shr_m.
Qed.

Lemma round_aux_close m e :
  -1074 <= Zpos (digits2_pos m) + e - 53 ->
  exists m' e',
    binary_round_aux prec emax false (Zpos m) e loc_Exact =
      (if e' <=? emax - prec then S754_finite false m' e' else S754_infinity false) /\
    e <= e' /\ close (Zpos m' * 2 ^ (e' - e)) (Zpos m).
Proof.
  intros Hd. pose proof (digits_bounds m) as Hb. unfold binary_round_aux.
  destruct (shr_fexp_normal m e Hd) as [[Hs ->]|(Hs & mrs & -> & Hm)].
  - cbn [shr_m loc_of_shr_record round_nearest_even].
    destruct (shr_fexp_normal m e Hd) as [[_ ->]|[? _]]; [|lia]. cbn [shr_m].
    exists m, e. split_ands; [done|done|]. unfold close. rewrite Z.sub_diag.
    change (2 ^ 0) with 1. rewrite Z.mul_1_r, Z.sub_diag. cbn. lia.
  - set (n := Zpos (digits2_pos m) - 53) in *.
    assert (0 < n) as Hn by lia. pose proof (pow_pos n ltac:(lia)) as Hpn.
    assert (2 ^ Zpos (digits2_pos m) = 2 ^ 53 * 2 ^ n) as Eu
      by (rewrite <- Z.pow_add_r by lia; f_equal; lia).
    assert (2 ^ (Zpos (digits2_pos m) - 1) = 2 ^ 52 * 2 ^ n) as El
      by (rewrite <- Z.pow_add_r by lia; f_equal; lia).
    rewrite Eu, El in Hb.
    assert (2 ^ 52 <= Zpos m / 2 ^ n < 2 ^ 53) as Hm1.
    { split; [apply Z.div_le_lower_bound; lia|apply Z.div_lt_upper_bound; lia]. }
    pose proof (Z.div_mod (Zpos m) (2 ^ n) ltac:(lia)) as Hdm.
    pose proof (Z.mod_pos_bound (Zpos m) (2 ^ n) Hpn) as Hr.
    set (m2 := round_nearest_even (shr_m mrs) (loc_of_shr_record mrs)).
    assert (Zpos m / 2 ^ n <= m2 <= Zpos m / 2 ^ n + 1) as Hm2.
    { unfold m2. destruct (round_ne (shr_m mrs) (loc_of_shr_record mrs)); lia. }
    destruct m2 as [|p|p]; [lia| |lia]. clear Hm.
    assert (Z.abs (Zpos p * 2 ^ n - Zpos m) * 2 ^ 52 <= Zpos m) as Hc by nia.
    assert (Zpos (digits2_pos p) = 53 \/ Zpos (digits2_pos p) = 54 /\ Zpos p = 2 ^ 53) as Hp.
    { destruct (Z.eq_dec (Zpos p) (2 ^ 53)) as [E|].
      - right. split; [|done]. apply digits_unique. rewrite E. by vm_compute.
      - left. apply digits_unique. change (53 - 1) with 52. lia. }
    destruct (shr_fexp_normal p (e + n)) as [[Hs2 ->]|(Hs2 & mrs2 & -> & Hm3)]; [lia| |].
    + cbn [shr_m]. exists p, (e + n). split_ands; [done|lia|].
      unfold close. by replace (e + n - e) with n by lia.
    + destruct Hp as [?|[Hd2 Ep]]; [lia|]. rewrite Hd2, Ep in Hm3. rewrite Hm3.
      change (2 ^ 53 / 2 ^ (54 - 53)) with (Zpos 4503599627370496). rewrite Hd2.
      exists 4503599627370496%positive, (e + n + (54 - 53)). split_ands; [done|lia|].
      unfold close. replace (e + n + (54 - 53) - e) with (1 + n) by lia.
      rewrite Z.pow_add_r, Z.mul_assoc by lia.
      change (4503599627370496 * 2 ^ 1) with (2 ^ 53). by rewrite <- Ep.
Qed.

(** * The operations *)

(** What [binary_round] and a product return: a float close to the exact value, unless it is
    too large. *)
Definition rounds (s : Z) (exact : Z) (x : spec_float) : Prop :=
  exists m e,
    x = (if e <=? emax - prec then S754_finite false m e else S754_infinity false) /\
    0 <= e + s /\ close (scaleup s m e) exact.

Lemma normal_digits s m e k :
  0 <= e + s -> 0 <= k -> 2 ^ k <= scaleup s m e -> k < Zpos (digits2_pos m) + e + s.
Proof.
  unfold scaleup. intros Hs Hk Hl. pose proof (digits_bounds m) as [_ Hu].
  pose proof (pow_pos (e + s) Hs).
  apply pow_lt_inv; [lia|].
  replace (Zpos (digits2_pos m) + e + s) with (Zpos (digits2_pos m) + (e + s)) by lia.
  rewrite Z.pow_add_r by lia. nia.
Qed.

Lemma round_aux_rounds s m e :
  -1074 <= Zpos (digits2_pos m) + e - 53 -> 0 <= e + s ->
  rounds s (scaleup s m e) (binary_round_aux prec emax false (Zpos m) e loc_Exact).
Proof.
  intros Hd Hs. destruct (round_aux_close m e Hd) as (m' & e' & -> & He & Hc).
  exists m', e'. split_ands; [done|lia|]. unfold close, scaleup in *.
  replace (e' + s) with (e' - e + (e + s)) by lia. rewrite Z.pow_add_r by lia.
  pose proof (pow_pos (e + s) Hs). revert Hc.
  generalize (2 ^ (e' - e)) (2 ^ 52) (2 ^ (e + s)) H. intros. nia.
Qed.

Lemma iter_xO m k : Zpos (Pos.iter xO m k) = Zpos m * 2 ^ Zpos k.
Proof.
  revert m. induction k as [|k IH] using Pos.peano_ind; intros m; [cbn; lia|].
  rewrite Pos.iter_succ, Pos2Z.inj_xO, IH, Pos2Z.inj_succ, Z.pow_succ_r by lia. lia.
Qed.

Lemma binary_round_rounds s m e :
  -1074 <= Zpos (digits2_pos m) + e - 53 -> 0 <= e + s -> 1074 <= s ->
  rounds s (scaleup s m e) (binary_round prec emax false m e).
Proof.
  intros Hd Hs Hs'. unfold binary_round, shl_align.
  assert (fexp prec emax (Zpos (digits2_pos m) + e) - e = Zpos (digits2_pos m) - 53) as E
    by (unfold fexp, emin, prec, emax; lia).
  rewrite E. destruct (Zpos (digits2_pos m) - 53) as [|p|k] eqn:Ek.
  1,2: by apply round_aux_rounds.
  replace (fexp prec emax (Zpos (digits2_pos m) + e)) with (e - Zpos k) by lia.
  pose proof (digits_bounds m) as Hb.
  assert (Zpos (digits2_pos (Pos.iter xO m k)) = Zpos (digits2_pos m) + Zpos k) as Ed.
  { apply digits_unique. rewrite iter_xO.
    replace (Zpos (digits2_pos m) + Zpos k - 1) with (Zpos (digits2_pos m) - 1 + Zpos k) by lia.
    rewrite !Z.pow_add_r by lia. pose proof (pow_pos (Zpos k) ltac:(lia)). nia. }
  assert (scaleup s m e = scaleup s (Pos.iter xO m k) (e - Zpos k)) as ->.
  { unfold scaleup. rewrite iter_xO, <- Z.mul_assoc, <- Z.pow_add_r by lia. do 2 f_equal. lia. }
  apply round_aux_rounds; lia.
Qed.

(** A value that rounds to something below [2 ^ 971] is a finite float. *)
Lemma rounds_finite s exact x b :
  rounds s exact x -> exact <= 2 ^ (b + s) -> 0 <= b + s -> b < 970 ->
  exists m e, x = S754_finite false m e /\ 0 <= e + s /\ close (scaleup s m e) exact.
Proof.
  intros (m & e & -> & He & Hc) Hx Hb Hb'. exists m, e. split_ands; [|done|done].
  assert (2 ^ (e + s) <= 2 ^ (b + s + 1)) as Hle.
  { unfold close, scaleup in Hc. rewrite (Z.pow_add_r 2 (b + s)) by lia.
    pose proof (pow_pos (e + s) He). change (2 ^ 52) with 4503599627370496 in Hc.
    change (2 ^ 1) with 2. nia. }
  apply Z.pow_le_mono_r_iff in Hle; [|lia|lia].
  destruct (Z.leb_spec e (emax - prec)); [done|]. unfold emax, prec in *. lia.
Qed.

Lemma float_of_Z_rounds s r : 0 < r -> 1074 <= s -> rounds s (r * 2 ^ s) (float_of_Z r).
Proof.
  intros Hr Hs. destruct r as [|p|]; [lia| |lia]. unfold float_of_Z. cbn [binary_normalize].
  pose proof (binary_round_rounds s p 0) as H. unfold scaleup in H. rewrite Z.add_0_l in H.
  apply H; lia.
Qed.

Lemma fmul_rounds s m1 e1 m2 e2 :
  0 <= e1 + s -> 0 <= e2 + s -> 600 <= s ->
  2 ^ (2 * s - 500) <= scaleup s m1 e1 * scaleup s m2 e2 ->
  rounds (2 * s) (scaleup s m1 e1 * scaleup s m2 e2)
    (fmul (S754_finite false m1 e1) (S754_finite false m2 e2)).
Proof.
  intros H1 H2 Hs Hl. unfold fmul, SFmul. cbn [xorb].
  assert (scaleup s m1 e1 * scaleup s m2 e2 = scaleup (2 * s) (m1 * m2) (e1 + e2)) as E.
  { unfold scaleup. replace (e1 + e2 + 2 * s) with ((e1 + s) + (e2 + s)) by lia.
    rewrite (Z.pow_add_r 2 (e1 + s)), Pos2Z.inj_mul by lia. ring. }
  rewrite E in *. apply round_aux_rounds; [|lia].
  apply normal_digits in Hl; lia.
Qed.

(** [1 - x] for a positive [x] below one. *)
Lemma one_minus_rounds s m e :
  -1074 <= e -> 1074 <= s -> scaleup s m e + 2 ^ (s - 100) <= 2 ^ s ->
  rounds s (2 ^ s - scaleup s m e) (fsub (float_of_Z 1) (S754_finite false m e)).
Proof.
  intros He Hs Hl. unfold fsub.
  change (float_of_Z 1) with (S754_finite false 4503599627370496 (-52)).
  cbn [SFsub cond_Zopp negb].
  assert (forall m e ez, ez <= e -> Zpos (fst (shl_align m e ez)) = Zpos m * 2 ^ (e - ez)) as Hal.
  { clear. intros m e ez Hz. unfold shl_align. destruct (ez - e) as [|p|k] eqn:E; [|lia|].
    - replace (e - ez) with 0 by lia. cbn. lia.
    - cbn [fst]. rewrite iter_xO. do 2 f_equal. lia. }
  rewrite !Hal by lia. set (ez := Z.min (-52) e).
  set (z := 4503599627370496 * 2 ^ (-52 - ez) - Zpos m * 2 ^ (e - ez)).
  assert (z * 2 ^ (ez + s) = 2 ^ s - scaleup s m e) as Ez.
  { unfold z, scaleup. change 4503599627370496 with (2 ^ 52).
    rewrite Z.mul_sub_distr_r, <- !Z.mul_assoc, <- !Z.pow_add_r by lia.
    f_equal; [|f_equal]; f_equal; lia. }
  pose proof (pow_pos (ez + s) ltac:(lia)). pose proof (pow_pos (s - 100) ltac:(lia)).
  clearbody z. destruct z as [|p|p]; [lia| |unfold scaleup in *; nia]. cbn [binary_normalize].
  rewrite <- Ez. fold (scaleup s p ez).
  assert (2 ^ (s - 100) <= scaleup s p ez) as Hn%normal_digits by (unfold scaleup in *; lia); [|lia..].
  apply binary_round_rounds; lia.
Qed.

Lemma shiftl_scaled s m e : 0 <= s -> 0 <= e + s -> Z.shiftl (Zpos m) e = scaleup s m e / 2 ^ s.
Proof.
  intros Hs He. unfold scaleup. pose proof (pow_pos s Hs).
  destruct (Z.le_gt_cases 0 e).
  - rewrite Z.shiftl_mul_pow2, Z.pow_add_r, Z.mul_assoc, Z.div_mul by lia. done.
  - rewrite Z.shiftl_div_pow2 by lia.
    pose proof (pow_pos (e + s) He). pose proof (pow_pos (- e) ltac:(lia)).
    assert (2 ^ s = 2 ^ (e + s) * 2 ^ (- e)) as ->
      by (rewrite <- Z.pow_add_r by lia; f_equal; lia).
    by rewrite <- Z.div_div, Z.div_mul by lia.
Qed.
