(* ===== verification/Client.v ===== *)
(** internal/platform/client: calling another service.

    An outbound call runs the interceptors of [unaryChain] (or [streamChain]) around the
    transport.  The world [W] is whatever the transport and the clock act on; a call sees a
    [callctx], the request context with the outgoing metadata of the gRPC library. *)

From Stdlib Require Import SpecFloat.
From S2P Require Import Prelude GoErr GoStr GoNum AppErr Auth Interceptor.
From S2P Require Config.

(** * Libraries

    The outgoing metadata of a context.  [FromOutgoing] is what
    [metadata.FromOutgoingContext] returns and what goes on the wire. *)
Abbreviation MD := (gmap string (list string)).

Class Outgoing (O : Type) := {
  FromOutgoing : O -> option MD;
  NewOutgoing : MD -> O;
  AppendOutgoing : O -> string -> string -> O }.

(** Documented: keys are lower case, a new context has the metadata it is given, and
    appending a lower-case key adds a value after those the key has. *)
Definition lower_keys (md : MD) : Prop := map_Forall (fun k _ => lower k = k) md.

Definition appended (o : option MD) (k v : string) : MD :=
  let md := default ∅ o in <[k := default [] (md !! k) ++ [v]]> md.

Class OutgoingLaws O `{Outgoing O} := {
  From_lower : forall o md, FromOutgoing o = Some md -> lower_keys md;
  From_New : forall md, lower_keys md -> FromOutgoing (NewOutgoing md) = Some md;
  From_Append : forall o k v, lower k = k ->
    FromOutgoing (AppendOutgoing o k v) = Some (appended (FromOutgoing o) k v) }.

(** [status.FromError]: the status an error is or wraps. *)
Class UpstreamLib := {
  FromError : error -> option Status;
  codeString : code -> string;                          (* codes.Code.String *)
  (* [int64(x)] of a float outside the type *)
  int64_overflow : Z;
  (* [strconv.FormatFloat(x, 'f', -1, 64)] *)
  formatFloat : spec_float -> string }.

(** * errors.go *)

(** The literal text of a message: what [errors.New] of a string keeps. *)
Definition flat (m : text) : text :=
  (fun p => match p with PErr e => PVal e | _ => p end) <$> m.

Section Errors.
Context `{UpstreamLib}.

(** [Error()] of a [*client.Error]. *)
Definition ErrorString (e : error) : text :=
  match e with
  | EUpstream target method c reason _ _ _ _ =>
      [PStr "upstream "; PStr target; PStr ": "; PStr method; PStr " failed: ";
       PStr (codeString c)] ++
      (if (reason =? "")%string then [] else [PStr " ("; PStr reason; PStr ")"])
  | _ => [PVal e]
  end.

Definition Unwrap (e : error) : option error :=
  match e with EUpstream _ _ _ _ _ _ _ cause => cause | _ => None end.

Definition as_upstream (e : error) : option error :=
  match e with EUpstream _ _ _ _ _ _ _ _ => Some e | _ => None end.

Definition From (err : error) : option error := errAs as_upstream err.

Definition upstreamCode (e : error) : code :=
  match e with EUpstream _ _ c _ _ _ _ _ => c | _ => CUnknown end.

Definition Kind (e : error) : GoErr.Kind :=
  match upstreamCode e with
  | CUnavailable | CDeadlineExceeded | CCanceled | CResourceExhausted => KindUnavailable
  | _ => KindInternal
  end.

Definition AppError (e : error) (kind : GoErr.Kind) (reason : string) (message : text) : error :=
  Wrap e kind reason message.

Definition AsAppError (e : error) : error :=
  match e with
  | EUpstream target method c _ _ _ _ _ =>
      let kind := Kind e in
      let '(reason, message) :=
        if bool_decide (kind = KindInternal)
        then ("UPSTREAM_FAILED",
              [PStr "upstream "; PStr target; PStr " returned "; PStr (codeString c);
               PStr " from "; PStr method])
        else ("UPSTREAM_UNAVAILABLE", [PStr "an upstream service is unavailable"]) in
      WithMetadata
        {["upstream" := target; "upstream_method" := method; "upstream_code" := codeString c]}
        (Wrap e kind reason message)
  | _ => e
  end.

(** The loop over the details: the first [ErrorInfo] with a reason wins, the last
    [RetryInfo] does.  A detail of another type, or of a type this binary does not know, is
    skipped. *)
Definition upstreamDetail (acc : string * string * Z) (d : detail) : string * string * Z :=
  let '(reason, domain, retryAfter) := acc in
  match d with
  | ErrorInfo r dom _ => if (reason =? "")%string then (r, dom, retryAfter) else acc
  | RetryInfo delay => (reason, domain, delay)
  | BadRequest _ => acc
  end.

Definition newUpstreamError (target method : string) (err : option error) : option error :=
  match err with
  | None => None
  | Some err =>
      match FromError err with
      | None => Some err
      | Some st =>
          let '(reason, domain, retryAfter) := fold_left upstreamDetail (SDetails st) ("", "", 0) in
          Some (EUpstream target method (SCode st) reason domain (SMessage st) retryAfter
                  (Some (EFmt (PStr (codeString (SCode st)) :: PStr ": " :: flat (SMessage st)))))
      end
  end.

End Errors.

(** * serviceconfig.go *)

Record Retry := mkRetry {
  RMethod : string; MaxAttempts : Z; InitialBackoff : Z; MaxBackoff : Z;
  BackoffMultiplier : spec_float }.

Record methodName := mkName { NService : string; NMethod : string }.
Record retryPolicy := mkPolicy {
  PMaxAttempts : Z; PInitialBackoff : string; PMaxBackoff : string;
  PBackoffMultiplier : spec_float; RetryableStatusCodes : list string }.
Record methodConfig := mkMethod { MName : list methodName; MRetryPolicy : option retryPolicy }.
Record retryThrottling := mkThrottling { MaxTokens : spec_float; TokenRatio : spec_float }.
Record serviceConfig := mkService {
  MethodConfig : list methodConfig; RetryThrottling : option retryThrottling }.

Definition retryableCodes : list string := ["UNAVAILABLE"].

(** [strings.TrimPrefix(full, "/")] and [strings.Cut(_, "/")]. *)
Definition trim_slash (full : string) : string :=
  if HasPrefix full "/" then drop_bytes 1 full else full.
Definition cut_slash (s : string) : string * string * bool :=
  let '(before, rest) := span (fun c => negb (Ascii.eqb c "/")) (to_list s) in
  match rest with
  | _ :: after => (of_list before, of_list after, true)
  | [] => (s, "", false)
  end.

Definition splitMethod (full : string) : result (string * string) :=
  let trimmed := trim_slash full in
  if (trimmed =? "")%string
  then Err (errorsNew "client: empty method name in the retry policy")
  else
    let '(service, method, found) := cut_slash trimmed in
    if (service =? "")%string
    then Err (EFmt [PStr "client: "; PQuote full; PStr " names a method with no service"])
    else if found && (method =? "")%string
    then Err (EFmt [PStr "client: "; PQuote full;
                    PStr " has a trailing slash and no method name"])
    else Ok (service, method).

Section ServiceConfig.
Context `{UpstreamLib}.

(** [Duration.Seconds] and its text. *)
Definition Seconds (d : Z) : spec_float :=
  fadd (float_of_Z (Z.quot d Second)) (fdiv (float_of_Z (Z.rem d Second)) (float_of_Z Second)).
Definition seconds (d : Z) : string := formatFloat (Seconds d) +:+ "s".

(** One entry of the retry list, given the names seen so far. *)
Definition retryEntry (seen : gset string) (r : Retry) : result (string * methodConfig) :=
  '(service, method) ← splitMethod (RMethod r);
  let key := service +:+ "/" +:+ method in
  _ ← failIf (bool_decide (key ∈ seen))
        (EFmt [PStr "client: "; PQuote (RMethod r);
               PStr " appears twice in the retry policy; grpc-go rejects the entire service config on a duplicate, so every other method loses its policy too"]);
  _ ← failIf (MaxAttempts r <? 2)
        (EFmt [PStr "client: retry policy for "; PQuote (RMethod r); PStr " has MaxAttempts ";
               PInt (MaxAttempts r);
               PStr "; it counts the first attempt, so anything below 2 means no retry at all and grpc-go rejects it"]);
  _ ← failIf ((InitialBackoff r <=? 0) || (MaxBackoff r <=? 0)
              || fle (BackoffMultiplier r) (S754_zero false))
        (EFmt [PStr "client: retry policy for "; PQuote (RMethod r);
               PStr " needs a positive InitialBackoff, MaxBackoff and BackoffMultiplier; grpc-go rejects the whole config otherwise"]);
  Ok (key, mkMethod [mkName service method]
             (Some (mkPolicy (MaxAttempts r) (seconds (InitialBackoff r)) (seconds (MaxBackoff r))
                      (BackoffMultiplier r) retryableCodes))).

Fixpoint retryEntries (seen : gset string) (l : list Retry) : result (list methodConfig) :=
  match l with
  | [] => Ok []
  | r :: l =>
      '(key, m) ← retryEntry seen r;
      ms ← retryEntries ({[key]} ∪ seen) l;
      Ok (m :: ms)
  end.

(** [json.Marshal], which fails on an infinity or a NaN, is the library's. *)
Definition buildServiceConfig (marshal : serviceConfig -> result string) (retries : list Retry)
    (throttle : bool) : result string :=
  match retries with
  | [] => Ok ""
  | _ =>
      ms ← retryEntries ∅ retries;
      let cfg := mkService ms
                   (if throttle then Some (mkThrottling (float_of_Z 10) Config.tenth) else None) in
      GoErr.mapErr (wrapf [PStr "client: render service config"]) (marshal cfg)
  end.

End ServiceConfig.

(** * identity.go *)

Definition MetadataTenantID : string := "x-gomicro-tenant-id".
Definition MetadataSubject : string := "x-gomicro-subject".
Definition authorizationKey : string := "authorization".

Record callctx (O : Type) := mkCall { Ctx : context; Out : O }.
Arguments mkCall {O}. Arguments Ctx {O}. Arguments Out {O}.

(** * Options *)

(** The transport credentials of a connection. *)
Inductive TransportCredentials := InsecureTC | TLS | OtherTC (name : string).

#[export] Instance TransportCredentials_eq_dec : EqDecision TransportCredentials.
Proof. solve_decision. Defined.

Definition Insecure : TransportCredentials := InsecureTC.

(** A piece of a call: it acts on the world. *)
Definition act (W A : Type) : Type := W -> A * W.
#[export] Instance act_ret W : MRet (act W) := fun A a w => (a, w).
#[export] Instance act_bind W : MBind (act W) := fun A B k m w => let '(a, w) := m w in k a w.

(** The rest of a unary call, and of opening a stream [St], seen by an interceptor. *)
Definition invoker (W O : Type) : Type := callctx O -> act W (option error).
Definition streamer (W O St : Type) : Type := callctx O -> act W (result St).
Definition unaryClient (W O : Type) : Type := string -> invoker W O -> invoker W O.
Definition streamClient (W O St : Type) : Type := string -> streamer W O St -> streamer W O St.

(** [Metrics.ClientFor(target)] is a pair of interceptors of the metrics library. *)
Record Metrics (W O St : Type) := mkMetrics {
  ClientUnary : string -> unaryClient W O; ClientStream : string -> streamClient W O St }.
Arguments ClientUnary {W O St}. Arguments ClientStream {W O St}.

Record Options (W O St D : Type) := mkOptions {
  Target : string; DefaultTimeout : Z; ReserveFraction : spec_float; MinBudget : Z;
  RetryList : list Retry;
  Credentials : option (callctx O -> act W (result string));
  Transport : option TransportCredentials;
  DialOptions : list D; MaxRecvBytes : Z; OMetrics : option (Metrics W O St) }.
Arguments mkOptions {W O St D}.
Arguments Target {W O St D}. Arguments DefaultTimeout {W O St D}.
Arguments ReserveFraction {W O St D}. Arguments MinBudget {W O St D}.
Arguments RetryList {W O St D}. Arguments Credentials {W O St D}.
Arguments Transport {W O St D}. Arguments DialOptions {W O St D}.
Arguments MaxRecvBytes {W O St D}. Arguments OMetrics {W O St D}.

(** [StaticToken]. *)
Definition StaticToken {W O} (t : string) : callctx O -> act W (result string) :=
  fun _ => mret (Ok t).

Section Client.
Context `{Unicode, UpstreamLib} {W O St D : Type} `{Outgoing O}.
Context (timeNow : act W Z).
Abbreviation options := (Options W O St D).

Definition New (cfg : Config.Config) (target : string) : options :=
  mkOptions target (Config.UpstreamDefaultTimeout (Config.Upstream cfg))
    (Config.ReserveFraction (Config.Upstream cfg)) (Config.MinBudget (Config.Upstream cfg))
    [] None None [] (Config.MaxRecvMsgBytes (Config.Server cfg)) None.

Definition applyDefaults (c : options) : options :=
  mkOptions (Target c)
    (if DefaultTimeout c <=? 0 then 10 * Second else DefaultTimeout c)
    (if fle (ReserveFraction c) (S754_zero false) || fle (float_of_Z 1) (ReserveFraction c)
     then Config.tenth else ReserveFraction c)
    (if MinBudget c <=? 0 then 50 * Millisecond else MinBudget c)
    (RetryList c) (Credentials c) (Transport c) (DialOptions c)
    (if MaxRecvBytes c <=? 0 then Z.shiftl 4 20 else MaxRecvBytes c) (OMetrics c).

(** ** Identity *)

(** Strip the caller's authorization. *)
Definition strip (o : O) : O :=
  match FromOutgoing o with
  | None => o
  | Some md =>
      match md !! authorizationKey with
      | None => o
      | Some _ => NewOutgoing (delete authorizationKey md)
      end
  end.

(** The caller's tenant and subject, when the context has a principal. *)
Definition callerContext (p : option Principal) (o : O) : O :=
  match p with
  | None => o
  | Some p =>
      let o := if (PTenantID p =? "")%string then o
               else AppendOutgoing o MetadataTenantID (PTenantID p) in
      if (Subject p =? "")%string then o else AppendOutgoing o MetadataSubject (Subject p)
  end.

Definition attachIdentity (c : options) (cc : callctx O) : act W (result (callctx O)) :=
  let cc := mkCall (Ctx cc) (callerContext (PrincipalFrom (Ctx cc)) (strip (Out cc))) in
  match Credentials c with
  | None => mret (Ok cc)
  | Some Token =>
      token ← Token cc;
      mret (match token with
            | Err err => Err err
            | Ok token =>
                if (TrimSpace token =? "")%string then Ok cc
                else Ok (mkCall (Ctx cc)
                           (AppendOutgoing (Out cc) authorizationKey ("Bearer " +:+ token)))
            end)
  end.

Definition credentialsError (method : string) (err : error) : error :=
  wrapf [PStr "client: credentials for "; PStr method] err.

Definition unaryIdentity (c : options) : unaryClient W O := fun method inv cc =>
  r ← attachIdentity c cc;
  match r with
  | Err err => mret (Some (credentialsError method err))
  | Ok cc => inv cc
  end.

Definition streamIdentity (c : options) : streamClient W O St := fun method open cc =>
  r ← attachIdentity c cc;
  match r with
  | Err err => mret (Err (credentialsError method err))
  | Ok cc => open cc
  end.

(** ** Budget *)

(** [time.Until], which saturates. *)
Definition until (deadline now : Z) : Z :=
  Z.max (int_min 64) (Z.min (int_max 64) (deadline - now)).

(** The share of the remaining time a call may use. *)
Definition share (remaining : Z) (reserve : spec_float) : Z :=
  int64_of_float int64_overflow (fmul (float_of_Z remaining) (fsub (float_of_Z 1) reserve)).

Definition budget (ctx : context) (defaultTimeout minBudget : Z) (reserve : spec_float)
    : act W (option Z) :=
  match CtxDeadline ctx with
  | None => mret (Some defaultTimeout)
  | Some deadline =>
      now ← timeNow;
      let remaining := until deadline now in
      if remaining <=? 0 then mret None
      else
        let allowed := share remaining reserve in
        if allowed <? minBudget then mret None else mret (Some allowed)
  end.

Definition newBudgetError (target method : string) (ctx : context) : act W error :=
  remaining ← match CtxDeadline ctx with
              | None => mret 0
              | Some deadline => now ← timeNow; mret (until deadline now)
              end;
  mret (EUpstream target method CDeadlineExceeded "BUDGET_EXHAUSTED" ""
          [PStr "not enough deadline left to call "; PStr target; PStr " (";
           PStr (DurationString remaining); PStr " remaining)"] 0
          (Some (ESentinel ErrBudgetExhausted))).

Definition unaryBudget (c : options) : unaryClient W O := fun method inv cc =>
  b ← budget (Ctx cc) (DefaultTimeout c) (MinBudget c) (ReserveFraction c);
  match b with
  | None => err ← newBudgetError (Target c) method (Ctx cc); mret (Some err)
  | Some allowed =>
      now ← timeNow;
      inv (mkCall (WithTimeout (Ctx cc) now allowed) (Out cc))
  end.

Definition streamBudget (c : options) : streamClient W O St := fun method open cc =>
  b ← budget (Ctx cc) (DefaultTimeout c) (MinBudget c) (ReserveFraction c);
  match b with
  | None => err ← newBudgetError (Target c) method (Ctx cc); mret (Err err)
  | Some _ => open cc
  end.

(** ** The chains *)

Definition unaryErrors (c : options) : unaryClient W O := fun method inv cc =>
  err ← inv cc;
  mret (newUpstreamError (Target c) method err).

(** The interceptors, outermost first, and their composition. *)
Definition unaryChain (c : options) : list (unaryClient W O) :=
  match OMetrics c with Some m => [ClientUnary m (Target c)] | None => [] end ++
  [unaryIdentity c; unaryBudget c; unaryErrors c].

Definition streamChain (c : options) : list (streamClient W O St) :=
  match OMetrics c with Some m => [ClientStream m (Target c)] | None => [] end ++
  [streamIdentity c; streamBudget c].

Definition chained {I} (chain : list (string -> I -> I)) (method : string) (last : I) : I :=
  foldr (fun i next => i method next) last chain.

(** ** Dial *)

(** What [grpc.NewClient] is given. *)
Record dialOptions := mkDial {
  DCreds : TransportCredentials; DUnary : list (unaryClient W O);
  DStream : list (streamClient W O St); DMaxRecv : Z; DKeepalive : Z * Z * bool;
  DServiceConfig : string; DExtra : list D }.

Definition Dial {Conn} (NewClient : string -> dialOptions -> result Conn)
    (marshal : serviceConfig -> result string) (cfg : Config.Config) (opts : options)
    : result Conn :=
  _ ← failIf (Target opts =? "")%string (errorsNew "client: no target");
  let opts := applyDefaults opts in
  creds ← match Transport opts with
          | None => Ok TLS
          | Some creds =>
              _ ← failIf (Config.IsProduction cfg && bool_decide (creds = Insecure))
                    (EFmt [PStr "client: refusing an insecure connection to ";
                           PStr (Target opts);
                           PStr " when APP_ENV=production: the service credential would cross the network in clear text"]);
              Ok creds
          end;
  serviceConfigJSON ← buildServiceConfig marshal (RetryList opts) true;
  GoErr.mapErr (wrapf [PStr "client: dial "; PStr (Target opts)])
    (NewClient (Target opts)
       (mkDial creds (unaryChain opts) (streamChain opts) (MaxRecvBytes opts)
          (wrap64 (Config.KeepaliveMinTime (Config.Server cfg) * 2), 20 * Second, false)
          serviceConfigJSON (DialOptions opts))).

End Client.
