(* ===== verification/ClientSpec.v ===== *)
(** What an outbound call may do: its time, its headers, and what its failures become for
    the callers of this service. *)

From Stdlib Require Import SpecFloat.
From S2P Require Import Prelude GoErr GoStr GoNum AppErr Auth Interceptor Client GoFloat.
From S2P Require Config InterceptorSpec.

(** * The deadline budget *)

(** A float64 in units of the smallest positive one; [2 ^ 1074] of them make one. *)
Definition units (x : spec_float) : Z :=
  match x with S754_finite false m e => scaleup 1074 m e | _ => 0 end.

(** A proper fraction, away from 0 and 1 by [2 ^ -49]. *)
Definition fraction (x : spec_float) : Prop :=
  match x with
  | S754_finite false _ e =>
      -1074 <= e /\ 2 ^ 1025 <= units x /\ units x <= 2 ^ 1074 - 2 ^ 1025
  | _ => False
  end.

(** Three roundings and a truncation of the product of [r] and [d / p]. *)
Lemma truncated_product r p d v1 v2 v3 :
  0 < r -> 0 < p -> 0 < d ->
  close v1 (r * p) -> close v2 d -> close v3 (v1 * v2) ->
  let z := v3 / (p * p) in
  0 <= z /\ z * p * 2 ^ 50 <= r * d * (2 ^ 50 + 1) /\
  r * d * (2 ^ 50 - 1) < (z + 1) * p * 2 ^ 50.
Proof.
  intros Hr Hp Hd [U1 L1]%close_bounds [U2 L2]%close_bounds [U3 L3]%close_bounds z.
  pose proof (Z.div_mod v3 (p * p) ltac:(nia)) as Hz.
  pose proof (Z.mod_pos_bound v3 (p * p) ltac:(nia)) as Hm. fold z in Hz.
  assert (0 < r * p) as Hrp by nia.
  assert (0 < v1 /\ 0 < v2 /\ 0 < r * d) as (? & ? & ?) by lia || (split_ands; nia).
  change (2 ^ 52) with 4503599627370496 in *.
  change (2 ^ 50) with 1125899906842624 in *.
  set (w := r * p * d). assert (0 < w) by (unfold w; nia).
  assert (v1 * v2 * 20282409603651670423947251286016 <= w * 20282409603651679431146506027009)
    as Hu by (unfold w; nia).
  assert (w * 20282409603651661416747996545025 <= v1 * v2 * 20282409603651670423947251286016)
    as Hl by (unfold w; nia).
  assert (0 < v1 * v2) by nia.
  split_ands.
  - apply Z.div_pos; nia.
  - apply (Z.mul_le_mono_pos_r _ _ p Hp).
    replace (r * d * (1125899906842624 + 1) * p) with (w * 1125899906842625) by (unfold w; ring).
    replace (z * p * 1125899906842624 * p) with (p * p * z * 1125899906842624) by ring. lia.
  - apply (Z.mul_lt_mono_pos_r p _ _ Hp).
    replace (r * d * (1125899906842624 - 1) * p) with (w * 1125899906842623) by (unfold w; ring).
    replace ((z + 1) * p * 1125899906842624 * p)
      with ((p * p * z + p * p) * 1125899906842624) by ring. lia.
Qed.

Section Headroom.
Context `{UpstreamLib}.

(** A part of the budget leaves something of it. *)
Lemma truncated_lt r q d z :
  0 < r -> 0 < q -> d <= 562949953421311 * q -> 0 <= z ->
  z * (562949953421312 * q) * 2 ^ 50 <= r * d * (2 ^ 50 + 1) -> z < r.
Proof.
  intros Hr Hq Hd Hz Hu. change (2 ^ 50) with 1125899906842624 in Hu.
  assert (r * d <= r * (562949953421311 * q)) as Hrd by (apply Z.mul_le_mono_nonneg_l; lia).
  apply Z.lt_nge. intros Hge.
  assert (r * q <= z * q) by (apply Z.mul_le_mono_nonneg_r; lia).
  assert (0 < r * q) by (apply Z.mul_pos_pos; lia). lia.
Qed.

(** The budget computed, once the roundings are known. *)
Lemma share_value s r x m1 e1 m2 e2 m3 e3 :
  float_of_Z r = S754_finite false m1 e1 -> fsub (float_of_Z 1) x = S754_finite false m2 e2 ->
  fmul (S754_finite false m1 e1) (S754_finite false m2 e2) = S754_finite false m3 e3 ->
  0 <= s -> - (2 * s) <= e3 -> int_ok 64 (scaleup (2 * s) m3 e3 / (2 ^ s * 2 ^ s)) ->
  share r x = scaleup (2 * s) m3 e3 / (2 ^ s * 2 ^ s).
Proof.
  intros E1 E2 E3 Hs He Hok. unfold share. rewrite E1, E2, E3. cbn [int64_of_float cond_Zopp].
  rewrite (shiftl_scaled (2 * s)) by lia. revert Hok. replace (2 * s) with (s + s) by lia.
  rewrite Z.pow_add_r by lia. intros Hok. by rewrite bool_decide_eq_true_2.
Qed.

Lemma share_rounds s m e r :
  -1074 <= e -> 1074 <= s -> 0 < r <= int_max 64 ->
  2 ^ (s - 49) <= scaleup s m e -> scaleup s m e <= 2 ^ s - 2 ^ (s - 49) ->
  let d := 2 ^ s - scaleup s m e in
  let z := share r (S754_finite false m e) in
  0 <= z < r /\ z * 2 ^ s * 2 ^ 50 <= r * d * (2 ^ 50 + 1) /\
  r * d * (2 ^ 50 - 1) < (z + 1) * 2 ^ s * 2 ^ 50.
Proof.
  intros He Hs Hr Hl Hu d z. unfold int_max in Hr. change (2 ^ (64 - 1) - 1) with 9223372036854775807 in Hr.
  assert (0 < 2 ^ (s - 100)) as Hp100 by (apply pow_pos; lia).
  assert (2 ^ (s - 49) = 2251799813685248 * 2 ^ (s - 100)) as E49
    by (change 2251799813685248 with (2 ^ 51); rewrite <- Z.pow_add_r by lia; f_equal; lia).
  assert (2 ^ s = 562949953421312 * 2 ^ (s - 49)) as Es
    by (change 562949953421312 with (2 ^ 49); rewrite <- Z.pow_add_r by lia; f_equal; lia).
  assert (forall k, 0 <= k -> 2 ^ (k + s) = 2 ^ k * 2 ^ s) as Eb
    by (intros; apply Z.pow_add_r; lia).
  destruct (rounds_finite s (r * 2 ^ s) (float_of_Z r) 63) as (m1 & e1 & E1 & He1 & C1);
    [apply float_of_Z_rounds; lia|rewrite Eb by lia; nia|lia|lia|].
  assert (rounds s d (fsub (float_of_Z 1) (S754_finite false m e))) as Hd
    by (apply one_minus_rounds; lia).
  destruct (rounds_finite s d _ 0 Hd) as (m2 & e2 & E2 & He2 & C2);
    [unfold d; rewrite Z.add_0_l; lia|lia|lia|].
  pose proof (close_bounds _ _ C1) as [U1 L1]. pose proof (close_bounds _ _ C2) as [U2 L2].
  change (2 ^ 52) with 4503599627370496 in *.
  assert (0 < 2 ^ (s - 49)) as Hp49 by lia.
  assert (2 ^ (s - 49) <= scaleup s m1 e1) as M1 by nia.
  assert (2 ^ (s - 100) <= scaleup s m2 e2) as M2 by (unfold d in *; lia).
  set (v1 := scaleup s m1 e1) in *. set (v2 := scaleup s m2 e2) in *.
  assert (rounds (2 * s) (v1 * v2) (fmul (S754_finite false m1 e1) (S754_finite false m2 e2)))
    as H3.
  { apply fmul_rounds; try lia.
    transitivity (2 ^ (s - 49) * 2 ^ (s - 100)).
    - rewrite <- Z.pow_add_r by lia. apply Z.pow_le_mono_r; lia.
    - fold v1 v2. apply Z.mul_le_mono_nonneg; lia. }
  assert (v1 <= 2 ^ (64 + s)) as B1 by (rewrite Eb by lia; nia).
  assert (v2 <= 2 ^ (1 + s)) as B2 by (rewrite Eb by lia; unfold d in *; lia).
  destruct (rounds_finite _ _ _ 65 H3) as (m3 & e3 & E3 & He3 & C3); [|lia|lia|].
  { replace (65 + 2 * s) with ((64 + s) + (1 + s)) by lia.
    rewrite Z.pow_add_r by lia. apply Z.mul_le_mono_nonneg; lia. }
  destruct (truncated_product r (2 ^ s) d v1 v2 (scaleup (2 * s) m3 e3))
    as (Z0 & Zu & Zl); [lia|lia|unfold d; lia|done|done|done|].
  assert (scaleup (2 * s) m3 e3 / (2 ^ s * 2 ^ s) < r) as Zr.
  { apply (truncated_lt r (2 ^ (s - 49)) d); [lia|done|unfold d; lia|done|by rewrite <- Es]. }
  assert (z = scaleup (2 * s) m3 e3 / (2 ^ s * 2 ^ s)) as Ez; [|by rewrite Ez].
  apply (share_value s r _ m1 e1 m2 e2); try done; [lia|lia|]. width_simpl. lia.
Qed.

(** C26. A call made within an inbound deadline is given strictly less than the time that is
    left, for every remaining time a duration can hold and every reserve that is a number at
    least [2 ^ -49] away from 0 and from 1 ([fraction]): the share is the exact product up to
    one part in [2 ^ 50] and a nanosecond, so this service is still running when its upstream
    times out.  A configuration can also hold a NaN or a reserve closer to 0 or 1; of those
    nothing is claimed here ([nan_reserve_refuses] shows what a NaN does). *)
Theorem budget_leaves_headroom r reserve :
  0 < r <= int_max 64 -> fraction reserve ->
  let kept := 2 ^ 1074 - units reserve in
  let z := share r reserve in
  0 <= z < r /\ z * 2 ^ 1074 * 2 ^ 50 <= r * kept * (2 ^ 50 + 1) /\
  r * kept * (2 ^ 50 - 1) < (z + 1) * 2 ^ 1074 * 2 ^ 50.
Proof.
  intros Hr Hf. destruct reserve as [| | |[] m e]; try done. destruct Hf as (He & Hl & Hu).
  by apply share_rounds.
Qed.

End Headroom.

(** * The call *)

Section Call.
Context `{Unicode, UpstreamLib} {W O St D : Type} `{OutgoingLaws O}.
Context (timeNow : act W Z).

(** What the headers of a call are, given those the handler's context had. *)
Definition headers (o : O) : MD := default ∅ (FromOutgoing o).

Lemma headers_lower o : lower_keys (headers o).
Proof.
  unfold headers. destruct (FromOutgoing o) eqn:E; [by eapply From_lower|].
  apply map_Forall_empty.
Qed.

Lemma headers_New md : lower_keys md -> headers (NewOutgoing md) = md.
Proof. intros Hl. unfold headers. by rewrite From_New. Qed.

Lemma headers_Append o k v :
  lower k = k ->
  headers (AppendOutgoing o k v) = <[k := default [] (headers o !! k) ++ [v]]> (headers o).
Proof. intros Hl. unfold headers. by rewrite From_Append. Qed.

Lemma headers_strip o : headers (strip o) = delete authorizationKey (headers o).
Proof.
  pose proof (headers_lower o) as Hl. unfold strip.
  destruct (FromOutgoing o) as [md|] eqn:E.
  - assert (headers o = md) as Eh by (unfold headers; by rewrite E). rewrite Eh in *.
    destruct (md !! authorizationKey) eqn:Ea; [|by rewrite Eh, delete_id].
    apply headers_New. by apply map_Forall_delete.
  - unfold headers. rewrite E. cbn. by rewrite delete_empty.
Qed.

(** The headers that travel as context: the caller's tenant and subject. *)
Definition context_keys : list string := [MetadataTenantID; MetadataSubject].

Lemma authorization_apart : authorizationKey ∉ context_keys.
Proof. apply (bool_decide_unpack _). by vm_compute. Qed.

Lemma headers_callerContext p o k :
  k ∉ context_keys -> headers (callerContext p o) !! k = headers o !! k.
Proof.
  unfold context_keys. rewrite !not_elem_of_cons. intros (Ht & Hs & _).
  destruct p as [p|]; [|done]. cbn.
  destruct (PTenantID p =? "")%string, (Subject p =? "")%string;
    rewrite ?headers_Append by done; rewrite ?lookup_insert_ne by done; done.
Qed.

(** The last value of a context header is the principal's. *)
Lemma callerContext_tenant p o :
  PTenantID p <> "" ->
  last (default [] (headers (callerContext (Some p) o) !! MetadataTenantID)) = Some (PTenantID p).
Proof.
  intros Hp. cbn. destruct (String.eqb_spec (PTenantID p) ""); [done|].
  destruct (Subject p =? "")%string; rewrite !headers_Append by done;
    rewrite ?lookup_insert_ne, lookup_insert_eq by done; cbn; by rewrite last_snoc.
Qed.

(** The authorization of a call made as [cc] in [w]: the token this service's credentials give
    for it, which is left out when it is blank, and none without credentials. *)
Definition own_authorization (c : Options W O St D) (cc : callctx O) (w : W)
    (auth : option (list string)) : Prop :=
  match Credentials c with
  | None => auth = None
  | Some Token =>
      exists token w',
        Token (mkCall (Ctx cc) (callerContext (PrincipalFrom (Ctx cc)) (strip (Out cc)))) w = (Ok token, w') /\
        auth = if (TrimSpace token =? "")%string then None else Some ["Bearer " +:+ token]
  end.

Lemma attachIdentity_spec (c : Options W O St D) cc w :
  match attachIdentity c cc w with
  | (Err _, _) => True
  | (Ok cc', _) =>
      Ctx cc' = Ctx cc /\
      own_authorization c cc w (headers (Out cc') !! authorizationKey) /\
      (forall k, k <> authorizationKey -> k ∉ context_keys ->
         headers (Out cc') !! k = headers (Out cc) !! k) /\
      (forall p, CtxPrincipal (Ctx cc) = Some p -> PTenantID p <> "" ->
         last (default [] (headers (Out cc') !! MetadataTenantID)) = Some (PTenantID p))
  end.
Proof.
  unfold attachIdentity, own_authorization, PrincipalFrom.
  set (o := callerContext (CtxPrincipal (Ctx cc)) (strip (Out cc))).
  assert (headers o !! authorizationKey = None) as Ha.
  { unfold o. rewrite headers_callerContext, headers_strip by apply authorization_apart.
    apply lookup_delete_eq. }
  assert (forall k, k <> authorizationKey -> k ∉ context_keys ->
            headers o !! k = headers (Out cc) !! k) as Hk.
  { intros k Hk Hc. unfold o. by rewrite headers_callerContext, headers_strip, lookup_delete_ne. }
  assert (forall p, CtxPrincipal (Ctx cc) = Some p -> PTenantID p <> "" ->
            last (default [] (headers o !! MetadataTenantID)) = Some (PTenantID p)) as Ht.
  { intros p Hp Hne. unfold o. rewrite Hp. by apply callerContext_tenant. }
  destruct (Credentials c) as [Token|] eqn:Ec.
  - unfold mbind, act_bind.
    destruct (Token _ w) as [[token|err] w'] eqn:Et; [|done].
    unfold mret, act_ret. cbv iota beta.
    destruct (TrimSpace token =? "")%string eqn:Eblank; cbn [Ctx Out];
      [split_ands; [done|exists token, w'; by rewrite Eblank|done|done]|].
    rewrite headers_Append, Ha by done. split_ands; [done| | |].
    + rewrite lookup_insert_eq. exists token, w'. by rewrite Eblank.
    + intros k Hka Hc. rewrite lookup_insert_ne by done. by apply Hk.
    + intros p Hp Hne. rewrite lookup_insert_ne by done. by apply Ht.
  - unfold mret, act_ret. by split_ands.
Qed.

(** The call reaches the transport as [cc'], having left the handler as [cc] in [w]. *)
Record sent (c : Options W O St D) (cc : callctx O) (w : W) (cc' : callctx O) : Prop := {
  sent_principal : CtxPrincipal (Ctx cc') = CtxPrincipal (Ctx cc);
  (* bounded, and never later than the caller allows *)
  sent_deadline : exists d, CtxDeadline (Ctx cc') = Some d /\
    match CtxDeadline (Ctx cc) with
    | Some d0 => d <= d0
    | None => exists w now w', timeNow w = (now, w') /\ d = now + DefaultTimeout c
    end;
  (* this service's own credential, and none of the caller's *)
  sent_authorization : own_authorization c cc w (headers (Out cc') !! authorizationKey);
  sent_tenant : forall p, CtxPrincipal (Ctx cc) = Some p -> PTenantID p <> "" ->
    last (default [] (headers (Out cc') !! MetadataTenantID)) = Some (PTenantID p);
  sent_rest : forall k, k <> authorizationKey -> k ∉ context_keys ->
    headers (Out cc') !! k = headers (Out cc) !! k }.

(** The outcome [r] of a call that runs [send] for what it puts on the wire: it fails before
    anything is sent, or sends once and reports the answer through [report]. *)
Definition refused_or_sent {A B} (run : (callctx O -> act W A) -> B * W)
    (good : callctx O -> Prop) (failure : B -> Prop) (report : A -> B) : Prop :=
  (exists r w', failure r /\ forall send, run send = (r, w')) \/
  (exists cc' w', good cc' /\ forall send, run send = let '(a, w'') := send cc' w' in (report a, w'')).

(** C25. Whatever the transport and the upstream do, a unary call either fails locally before
    anything is sent, or sends one request that is bounded by the caller's deadline (or the
    default timeout), carries the caller's tenant as context, and is authorized by the token
    this service's credentials give for this very call (by none when they give a blank one, or
    there are no credentials) and never by the caller's; the answer comes back through
    [newUpstreamError].  A metrics interceptor, when one is configured, is taken to pass the
    call and its answer through. *)
Theorem unary_call_contract (c : Options W O St D) method cc w :
  (forall m next cc w, OMetrics c = Some m -> ClientUnary m (Target c) method next cc w = next cc w) ->
  refused_or_sent (fun send => chained (unaryChain timeNow c) method send cc w)
    (sent c cc w) is_Some (newUpstreamError (Target c) method).
Proof.
  intros Hm. unfold refused_or_sent, unaryChain.
  assert (forall send, chained (match OMetrics c with Some m => [ClientUnary m (Target c)] | None => [] end ++
      [unaryIdentity c; unaryBudget timeNow c; unaryErrors c]) method send cc w =
    chained [unaryIdentity c; unaryBudget timeNow c; unaryErrors c] method send cc w) as E0
    by (intros send; destruct (OMetrics c); [by apply Hm|done]).
  setoid_rewrite E0. clear E0. cbn [chained foldr].
  unfold unaryIdentity, mbind, act_bind, mret, act_ret.
  pose proof (attachIdentity_spec c cc w) as Ha.
  destruct (attachIdentity c cc w) as [[cc1|err] w1]; [|left; eauto].
  destruct Ha as (Ectx & Hauth & Hrest & Htenant).
  unfold unaryBudget, budget, unaryErrors, mbind, act_bind, mret, act_ret. rewrite Ectx.
  assert (forall now allowed,
    (match CtxDeadline (Ctx cc) with
     | Some _ => True
     | None => allowed = DefaultTimeout c /\ exists w w', timeNow w = (now, w')
     end) ->
    sent c cc w (mkCall (WithTimeout (Ctx cc) now allowed) (Out cc1))) as Hsent.
  { intros now allowed Hd. split; try done. cbn. destruct (CtxDeadline (Ctx cc)) as [d0|].
    - eexists. split; [done|]. lia.
    - destruct Hd as (-> & w2 & w3 & E). eexists. split; [done|]. eauto 10. }
  destruct (CtxDeadline (Ctx cc)) as [d0|] eqn:Ed.
  - destruct (timeNow w1) as [t1 w2]. destruct (until d0 t1 <=? 0).
    { left. destruct (newBudgetError _ _ _ _ w2). eauto. }
    destruct (share _ _ <? MinBudget c).
    { left. destruct (newBudgetError _ _ _ _ w2). eauto. }
    destruct (timeNow w2) as [t2 w3]. right. exists (mkCall (WithTimeout (Ctx cc) t2 (share (until d0 t1) (ReserveFraction c))) (Out cc1)), w3.
    split; [by apply Hsent|done].
  - destruct (timeNow w1) as [t1 w2] eqn:Et. right.
    exists (mkCall (WithTimeout (Ctx cc) t1 (DefaultTimeout c)) (Out cc1)), w2.
    split; [apply Hsent; eauto|done].
Qed.

End Call.

(** * Upstream failures *)

Section Failures.
Context `{Unicode, UpstreamLib, StatusLaws} (marshals : list detail -> bool).

(** A message without a wrapped error. *)
Definition literal (m : text) : Prop :=
  Forall (fun p => match p with PErr _ => False | _ => True end) m.

Lemma flat_literal m : literal (flat m).
Proof. apply Forall_fmap, Forall_true. by intros []. Qed.

Lemma errAs_literal {A} (p : error -> option A) m k :
  p (EFmt (m ++ k)) = None -> p (EFmt k) = None -> literal m ->
  errAs p (EFmt (m ++ k)) = errAs p (EFmt k).
Proof.
  intros Hp1 Hp2 Hm. cbn. rewrite Hp1, Hp2. clear Hp1 Hp2.
  induction Hm as [|[] m Hp Hm IH]; cbn; try done.
Qed.

Lemma errIs_literal s m k : literal m -> errIs s (EFmt (m ++ k)) = errIs s (EFmt k).
Proof. intros Hm. cbn. induction Hm as [|[] m Hp Hm IH]; cbn; try done. Qed.

(** An upstream failure whose cause is text. *)
Definition upstream_failure (e : error) : Prop :=
  exists target method c reason domain message retryAfter cause,
    e = EUpstream target method c reason domain message retryAfter (Some (EFmt cause)) /\
    literal cause.

Lemma newUpstreamError_failure target method err st e :
  FromError err = Some st -> newUpstreamError target method (Some err) = Some e ->
  upstream_failure e /\ exists reason dom message retryAfter cause,
    e = EUpstream target method (SCode st) reason dom message retryAfter cause.
Proof.
  intros E. cbn. rewrite E. destruct (fold_left _ _ _) as [[r d] ra]. intros [= <-].
  split; [|by do 5 eexists]. do 8 eexists. split; [done|]. do 2 constructor; [done|]. apply flat_literal.
Qed.

Lemma upstream_errAs {A} (p : error -> option A) e :
  upstream_failure e -> p e = None -> (forall m, p (EFmt m) = None) -> errAs p e = None.
Proof.
  intros (t & m & c & r & d & msg & ra & cause & -> & Hl) Hp Hf.
  transitivity (errAs p (EFmt cause)); [cbn; by rewrite Hp|].
  rewrite <- (app_nil_r cause), errAs_literal by done. cbn. by rewrite Hf.
Qed.

Lemma upstream_not_app e : upstream_failure e -> AppErr.From e = None.
Proof. intros He. apply upstream_errAs; [done| |done]. by destruct He as (?&?&?&?&?&?&?&?&->&_). Qed.

Lemma upstream_not_status e : upstream_failure e -> errAs as_status e = None.
Proof. intros He. apply upstream_errAs; [done| |done]. by destruct He as (?&?&?&?&?&?&?&?&->&_). Qed.

Lemma ToError_app k r m md ds w dom :
  let det := ErrorInfo r dom (if Redacts k then ∅ else md) :: ds in
  ToError marshals (Some (EApp k r m md ds w)) dom =
    Some (EStatus (GRPCCode k) (if Redacts k then [PStr "internal error"] else m)
            (if marshals det then det else [])).
Proof. unfold ToError. by erewrite ToStatus_reported by reflexivity. Qed.

Lemma AsAppError_wraps e :
  upstream_failure e -> exists k r m md, AsAppError e = EApp k r m md [] (Some e).
Proof.
  intros (?&?&?&?&?&?&?&?&->&_). unfold AsAppError. destruct (bool_decide _); cbn; eauto.
Qed.

Lemma upstream_not_context e s : upstream_failure e -> errIs s e = false.
Proof.
  intros (t & m & c & r & d & msg & ra & cause & -> & Hl). cbn -[errIs].
  change (errIs s (EFmt cause) = false). rewrite <- (app_nil_r cause). by rewrite errIs_literal.
Qed.

(** What a caller of this service is told: an internal error of this service. *)
Definition own_internal (domain : string) : error :=
  let det := [ErrorInfo "INTERNAL" domain ∅] in
  EStatus CInternal [PStr "internal error"] (if marshals det then det else []).

Lemma unclassified_internal e domain :
  AppErr.From e = None -> statusOf e = None ->
  errIs Canceled e = false -> errIs DeadlineExceeded e = false ->
  Interceptor.mapErr marshals e domain = Some (own_internal domain).
Proof.
  intros Ha Hs Hp1 Hp2. unfold Interceptor.mapErr, ToError, ToStatus, classify.
  rewrite Hs, Ha, Hp1, Hp2. reflexivity.
Qed.

Lemma wrapped_failure prefix e :
  literal prefix -> upstream_failure e ->
  AppErr.From (wrapf prefix e) = None /\ statusOf (wrapf prefix e) = None /\
  forall s, errIs s (wrapf prefix e) = false.
Proof.
  intros Hl He. pose proof (upstream_not_app e He) as Ha.
  pose proof (upstream_not_status e He) as Hs.
  assert (literal (prefix ++ [PStr ": "])) as Hl' by (apply Forall_app; by repeat constructor).
  unfold wrapf. change [PStr ": "; PErr e] with ([PStr (E:=error) ": "] ++ [PErr e]).
  rewrite app_assoc. split_ands.
  - unfold AppErr.From in *. rewrite errAs_literal by done. cbn. by rewrite Ha.
  - apply statusOf_none. rewrite errAs_literal by done. cbn. by rewrite Hs.
  - intros s. rewrite errIs_literal by done. cbn. by rewrite upstream_not_context.
Qed.

(** C27. The callee's status is not this service's status.  Whatever status a unary call came
    back with, an error built from it reaches the caller, returned as it is or wrapped with
    a message, as this service's own internal error; converted with [AsAppError], as this
    service's own [Unavailable] or [Internal] under a fixed message and reason.  The
    upstream's message, reason, domain and details are never passed on, nor its code as the
    code of the answer.  What is: the metadata of that [Unavailable] names the upstream's
    address, the method called and its code ([outage_discloses_upstream]); that of an
    [Internal] is empty. *)
Theorem upstream_never_leaks target method err st e prefix domain :
  FromError err = Some st -> newUpstreamError target method (Some err) = Some e ->
  literal prefix ->
  Interceptor.mapErr marshals e domain = Some (own_internal domain) /\
  Interceptor.mapErr marshals (wrapf prefix e) domain = Some (own_internal domain) /\
  exists c m det, Interceptor.mapErr marshals (AsAppError e) domain = Some (EStatus c m det) /\
    ((c, m) = (CUnavailable, [PStr "an upstream service is unavailable"]) /\
     (SCode st ∈ [CUnavailable; CDeadlineExceeded; CCanceled; CResourceExhausted]) /\
     (det = [] \/ det = [ErrorInfo "UPSTREAM_UNAVAILABLE" domain
        {["upstream" := target; "upstream_method" := method; "upstream_code" := codeString (SCode st)]}]) \/
     (c, m) = (CInternal, [PStr "internal error"]) /\
     (SCode st ∉ [CUnavailable; CDeadlineExceeded; CCanceled; CResourceExhausted]) /\
     (det = [] \/ det = [ErrorInfo "UPSTREAM_FAILED" domain ∅])).
Proof.
  intros Hst Hnew Hl. destruct (newUpstreamError_failure _ _ _ _ _ Hst Hnew) as [He Hcode].
  destruct (wrapped_failure prefix e Hl He) as (Ha & Hs & Hi).
  split_ands.
  - apply unclassified_internal; auto using upstream_not_context, upstream_not_app.
    by apply statusOf_none, upstream_not_status.
  - by apply unclassified_internal.
  - assert (statusOf (AsAppError e) = None) as Hsa.
    { apply statusOf_none. destruct (AsAppError_wraps e He) as (k & r & m & md & ->).
      exact (upstream_not_status e He). }
    unfold Interceptor.mapErr. rewrite Hsa.
    destruct Hcode as (r & d & msg & ra & cause & ->). unfold AsAppError, Kind, upstreamCode.
    destruct (SCode st);
      first [rewrite bool_decide_eq_true_2 by done | rewrite bool_decide_eq_false_2 by done];
      cbn [WithMetadata Wrap]; rewrite ToError_app;
      (do 3 eexists; split; [reflexivity|];
       first [left; split_ands; [done|set_solver|] | right; split_ands; [done|set_solver|]];
       cbn [Redacts]; rewrite ?(map_union_empty (M:=gmap string)); case_match; auto).
Qed.

End Failures.

(** * The retry policy *)

Section Retries.
Context `{UpstreamLib}.

(** The name under which an entry of the list is registered. *)
Definition entry_key (r : Retry) : option string :=
  match splitMethod (RMethod r) with
  | Ok (service, method) => Some (service +:+ "/" +:+ method)
  | Err _ => None
  end.

(** The policy an entry asks for; only entries grpc-go accepts have one. *)
Definition rendered (r : Retry) (m : methodConfig) : Prop :=
  exists service method, splitMethod (RMethod r) = Ok (service, method) /\
    2 <= MaxAttempts r /\ 0 < InitialBackoff r /\ 0 < MaxBackoff r /\
    fle (BackoffMultiplier r) (S754_zero false) = false /\
    m = mkMethod [mkName service method]
          (Some (mkPolicy (MaxAttempts r) (seconds (InitialBackoff r)) (seconds (MaxBackoff r))
                   (BackoffMultiplier r) ["UNAVAILABLE"])).

Lemma retryEntry_Ok seen r key m :
  retryEntry seen r = Ok (key, m) <->
  entry_key r = Some key /\ (key ∉ seen) /\ rendered r m.
Proof.
  unfold retryEntry, entry_key, rendered.
  destruct (splitMethod (RMethod r)) as [[service method]|err] eqn:E; cbn.
  - split.
    + intros (_ & Hn%failIf_Ok%bool_decide_eq_false & Hr)%bind_Ok.
      apply bind_Ok in Hr as (_ & Ha%failIf_Ok%Z.ltb_ge & Hr).
      apply bind_Ok in Hr as (_ & [[Hi%Z.leb_gt Hm%Z.leb_gt]%orb_false_iff Hf]%failIf_Ok%orb_false_iff & [= <- <-]).
      split_ands; try done. eauto 10.
    + intros ([= <-] & Hn & s & me & [= <- <-] & Ha%Z.ltb_ge & Hi%Z.leb_gt & Hm%Z.leb_gt & Hf & ->).
      unfold failIf. by rewrite bool_decide_eq_false_2, Ha, Hi, Hm, Hf by done.
  - split; [done|by intros (? & _)].
Qed.

Lemma retryEntries_Ok seen l ms :
  retryEntries seen l = Ok ms <->
  Forall2 rendered l ms /\ NoDup (entry_key <$> l) /\
  Forall (fun r => forall k, entry_key r = Some k -> k ∉ seen) l.
Proof.
  revert seen ms. induction l as [|r l IH]; intros seen ms; cbn [retryEntries].
  - split; [intros [= <-]|intros (Hf & _)]; [split_ands; constructor|].
    by inversion Hf.
  - rewrite bind_Ok. split.
    + intros ([key m] & Hr & Hm). rewrite bind_Ok in Hm. destruct Hm as (ms' & Hms & [= <-]).
      apply retryEntry_Ok in Hr as (Hk & Hn & Hr). apply IH in Hms as (Hf & Hd & Hs).
      split_ands; [by constructor| |].
      * cbn. constructor; [|done]. rewrite list_elem_of_fmap. intros (r' & Er & Hin).
        rewrite Forall_forall in Hs. apply (Hs r' Hin key); [congruence|set_solver].
      * constructor; [intros k; congruence|]. eapply Forall_impl; [done|]. set_solver.
    + intros (Hf & Hd & Hs). inversion Hf as [|? m ? ms' Hr Hf' E1 E2]; subst.
      cbn in Hd. apply NoDup_cons in Hd as [Hnew Hd]. apply Forall_cons in Hs as [Hs0 Hs].
      assert (exists key, entry_key r = Some key) as [key Hk].
      { destruct Hr as (s & me & E & _). unfold entry_key. rewrite E. eauto. }
      exists (key, m). split; [apply retryEntry_Ok; auto|]. rewrite bind_Ok. exists ms'.
      split; [|done]. apply IH. split_ands; [done|done|].
      apply Forall_forall. intros r' Hin k Hk'. rewrite Forall_forall in Hs.
      rewrite not_elem_of_union, not_elem_of_singleton. split; [|by apply (Hs r')].
      intros ->. apply Hnew. rewrite Hk, <- Hk'. by apply list_elem_of_fmap_2.
Qed.

(** The retry configuration of a connection is all or nothing: it is rendered exactly when
    every listed method is well named, listed once and has a policy grpc-go accepts, and
    then it holds the policy of each listed method in order, retrying on [UNAVAILABLE] and
    on nothing else; otherwise dialling fails instead of losing policies silently. *)
Theorem buildServiceConfig_exact marshal retries throttle json :
  retries <> [] ->
  buildServiceConfig marshal retries throttle = Ok json <->
  (exists ms, Forall2 rendered retries ms /\ NoDup (entry_key <$> retries) /\
    marshal (mkService ms
      (if throttle then Some (mkThrottling (float_of_Z 10) Config.tenth) else None)) = Ok json).
Proof.
  intros Hne. destruct retries as [|r l]; [done|].
  unfold buildServiceConfig. rewrite bind_Ok. setoid_rewrite mapErr_Ok.
  setoid_rewrite retryEntries_Ok. split.
  - intros (ms & (Hf & Hd & _) & Hm). eauto.
  - intros (ms & Hf & Hd & Hm). exists ms. split_ands; try done.
    apply Forall_forall. set_solver.
Qed.

End Retries.

(** * Dialling *)

Section Dialling.
Context `{Unicode, UpstreamLib} {W O St D : Type} `{Outgoing O}.
Context (timeNow : act W Z).

(** Options a call can be made with. *)
Record sound_options (o : Options W O St D) : Prop := {
  so_timeout : 0 < DefaultTimeout o;
  so_budget : 0 < MinBudget o;
  so_reserve : fle (ReserveFraction o) (S754_zero false) = false /\
    fle (float_of_Z 1) (ReserveFraction o) = false;
  so_recv : 0 < MaxRecvBytes o }.

Lemma applyDefaults_sound (o : Options W O St D) : sound_options (applyDefaults o).
Proof.
  unfold applyDefaults. split; cbn [DefaultTimeout MinBudget ReserveFraction MaxRecvBytes].
  - destruct (Z.leb_spec (DefaultTimeout o) 0); [by vm_compute|done].
  - destruct (Z.leb_spec (MinBudget o) 0); [by vm_compute|done].
  - destruct (fle (ReserveFraction o) (S754_zero false)) eqn:E1; [by vm_compute|].
    by destruct (fle (float_of_Z 1) (ReserveFraction o)) eqn:E2.
  - destruct (Z.leb_spec (MaxRecvBytes o) 0); [by vm_compute|done].
Qed.

(** Whatever options a connection is dialled with, in production the gRPC library is never
    handed cleartext credentials, omitted credentials mean TLS, the calls of the connection
    run under positive timeouts and a proper reserve, and its pings are no more frequent
    than the server of the same configuration tolerates. *)
Theorem Dial_contract {Conn} (NewClient : string -> dialOptions -> result Conn) marshal cfg
    (opts : Options W O St D) conn :
  0 <= Config.KeepaliveMinTime (Config.Server cfg) < 2 ^ 62 ->
  Dial timeNow NewClient marshal cfg opts = Ok conn ->
  exists d o, NewClient (Target opts) d = Ok conn /\ Target opts <> "" /\
    (Config.IsProduction cfg = true -> DCreds d <> Insecure) /\
    (Transport opts = None -> DCreds d = TLS) /\
    DUnary d = unaryChain timeNow o /\ DStream d = streamChain timeNow o /\ sound_options o /\
    Credentials o = Credentials opts /\ Target o = Target opts /\
    Config.KeepaliveMinTime (Config.Server cfg) <= (DKeepalive d).1.1 /\
    (RetryList opts = [] -> DServiceConfig d = "").
Proof.
  intros Hk. unfold Dial. rewrite bind_Ok. intros (_ & Ht%failIf_Ok%String.eqb_neq & Hd).
  apply bind_Ok in Hd as (creds & Hc & Hd). apply bind_Ok in Hd as (js & Hj & Hd).
  apply GoErr.mapErr_Ok in Hd. eexists _, (applyDefaults opts). split_ands; try done.
  - cbn. intros Hp. cbn in Hc. destruct (Transport opts) as [t|]; [|by injection Hc as <-].
    apply bind_Ok in Hc as (_ & Hf%failIf_Ok & [= <-]). rewrite Hp in Hf.
    by apply bool_decide_eq_false in Hf.
  - cbn. intros Hn. cbn in Hc. rewrite Hn in Hc. by injection Hc as <-.
  - apply applyDefaults_sound.
  - cbn. rewrite wrap64_id; [lia|]. unfold int_ok, int_min, int_max. lia.
  - cbn. intros Hr. cbn in Hj. rewrite Hr in Hj. cbn in Hj. by injection Hj as <-.
Qed.

End Dialling.

(** * At concrete calls *)

#[local] Existing Instance ascii_tables.

(** Metadata as a map: what is put in is kept when its key is lower case. *)
#[local] Instance plain_outgoing : Outgoing (option MD) := {|
  FromOutgoing := fmap (filter (fun kv => lower kv.1 = kv.1));
  NewOutgoing := Some;
  AppendOutgoing o k v := Some (appended (filter (fun kv => lower kv.1 = kv.1) <$> o) k v) |}.

#[local] Instance plain_outgoing_laws : OutgoingLaws (option MD).
Proof.
  assert (forall md : MD, lower_keys md -> filter (fun kv => lower kv.1 = kv.1) md = md) as Hid.
  { intros md Hl. apply map_filter_id. intros k v Hk. exact (Hl k v Hk). }
  assert (forall md : MD, lower_keys (filter (fun kv => lower kv.1 = kv.1) md)) as Hf.
  { intros md k v [_ Hk]%map_lookup_filter_Some. exact Hk. }
  split.
  - intros [md|] md' E; cbn in E; [|done]. injection E as <-. apply Hf.
  - intros md Hl. cbn. by rewrite Hid.
  - intros o k v Hk. cbn. rewrite Hid; [done|]. unfold appended.
    apply map_Forall_insert_2; [done|]. destruct o; cbn; [apply Hf|apply map_Forall_empty].
Qed.

#[local] Instance plain_upstream : UpstreamLib := {|
  FromError e := match e with EStatus c m d => Some (mkStatus c m d) | _ => None end;
  codeString c := match c with CNotFound => "NotFound" | CUnavailable => "Unavailable" | _ => "" end;
  int64_overflow := int_min 64;
  formatFloat _ := "1" |}.

#[local] Instance plain_status : StatusLib := {| statusOf := errAs as_status |}.
#[local] Instance plain_status_laws : StatusLaws.
Proof. by split. Qed.

(** One hour left and the default reserve: the upstream gets 54 minutes. *)
Lemma budget_leaves_headroom_witness :
  share (3600 * Second) Config.tenth = 3240 * Second /\
  0 <= share (3600 * Second) Config.tenth < 3600 * Second.
Proof.
  split; [by vm_compute|].
  apply (budget_leaves_headroom (3600 * Second) Config.tenth); [by vm_compute|].
  split_ands; [by vm_compute..].
Defined.

(** A clock that ticks a millisecond per reading. *)
Definition ticking : act Z Z := fun now => (now, now + Millisecond).

Definition inventory : Options Z (option MD) unit unit :=
  applyDefaults (mkOptions "dns:///inventory:50051" 0 (S754_zero false) 0 []
    (Some (StaticToken "svc-token")) None [] 0 None).

(** A handler serving [alice] of [acme], whose own headers carry her token, with two seconds
    left. *)
Definition inbound : callctx (option MD) :=
  mkCall (mkContext (Some (mkPrincipal "alice" "acme" [] false)) (Some (10 * Second)) None)
    (Some {["authorization" := ["Bearer alice-token"]; "x-trace" := ["7"]]}).

(** A transport that answers with the request it saw. *)
Definition sees (cc : callctx (option MD)) : act Z (option error) := fun w =>
  (Some (EStatus CUnavailable
     [PStr (String.concat "," (default [] (headers (Out cc) !! "authorization")));
      PInt (default 0 (CtxDeadline (Ctx cc)))] []), w).

Lemma unary_call_contract_witness :
  (exists r w', is_Some r /\
     chained (unaryChain ticking inventory) "/stock.v1.Stock/Get" sees inbound (8 * Second) = (r, w')) /\
  (chained (unaryChain ticking inventory) "/stock.v1.Stock/Get" sees inbound (8 * Second)).1 =
    newUpstreamError "dns:///inventory:50051" "/stock.v1.Stock/Get"
      (Some (EStatus CUnavailable [PStr "Bearer svc-token"; PInt 9801000000] [])).
Proof.
  split; [|by vm_compute].
  destruct (unary_call_contract ticking inventory "/stock.v1.Stock/Get" inbound (8 * Second) ltac:(done))
    as [(r & w' & Hr & E)|(cc' & w' & _ & E)]; [eauto|].
  rewrite E. unfold sees. eexists _, _. split; [|reflexivity]. cbn. eauto.
Defined.

Definition missing_sku : error :=
  EStatus CNotFound [PStr "SKU-9 does not exist"] [ErrorInfo "SKU_NOT_FOUND" "inventory" ∅].

Lemma upstream_never_leaks_witness :
  exists e, newUpstreamError "inventory" "/stock.v1.Stock/Get" (Some missing_sku) = Some e /\
    From e = Some e /\
    Interceptor.mapErr (fun _ => true) (wrapf [PStr "reserve stock"] e) "orders" =
      Some (EStatus CInternal [PStr "internal error"] [ErrorInfo "INTERNAL" "orders" ∅]).
Proof.
  eexists. split; [reflexivity|]. split; [reflexivity|].
  apply (upstream_never_leaks (fun _ => true) "inventory" "/stock.v1.Stock/Get" missing_sku
           (mkStatus CNotFound [PStr "SKU-9 does not exist"]
              [ErrorInfo "SKU_NOT_FOUND" "inventory" ∅]) _ [PStr "reserve stock"] "orders");
    [reflexivity|reflexivity|by repeat constructor].
Defined.

Definition retry_get : Retry := mkRetry "order.v1.OrderService/GetOrder" 3 (100 * Millisecond)
  Second (float_of_Z 2).

Lemma buildServiceConfig_exact_witness :
  buildServiceConfig (fun _ => Ok "{}") [retry_get] true = Ok "{}" /\
  exists ms, Forall2 rendered [retry_get] ms.
Proof.
  split; [reflexivity|].
  destruct (proj1 (buildServiceConfig_exact (fun _ => Ok "{}") [retry_get] true "{}" ltac:(done))
              eq_refl) as (ms & Hf & _).
  by exists ms.
Defined.

(** The same method spelled with and without its slash is listed twice. *)
Example duplicate_spelling :
  is_ok (buildServiceConfig (fun _ => Ok "{}")
    [retry_get; mkRetry "/order.v1.OrderService/GetOrder" 3 Second Second (float_of_Z 2)] true)
  = false.
Proof. by vm_compute. Qed.

Definition loaded_defaults : Config.Config := (Config.readConfig Config.RoleServer ∅ []).1.

Definition from_config : Options Z (option MD) unit unit :=
  New loaded_defaults "dns:///inventory:50051".

Lemma Dial_contract_witness :
  exists (d : dialOptions (W:=Z) (O:=option MD) (St:=unit) (D:=unit))
    (o : Options Z (option MD) unit unit),
    DCreds d = TLS /\ sound_options o /\ DUnary d = unaryChain ticking o.
Proof.
  destruct (Dial_contract ticking (fun _ _ => Ok tt) (fun _ => Ok "{}") loaded_defaults
    from_config tt) as (d & o & Hd & _ & _ & Htls & Hu & _ & Ho & _);
    [by vm_compute|vm_compute; reflexivity|].
  exists d, o. split_ands; [by apply Htls|done|done].
Defined.

(** * What the package does not keep *)

(** A stream is opened through no error conversion: the callee's status comes back as it
    is, and forwarded by a handler it reaches this service's caller verbatim. *)
Lemma stream_status_leaks :
  let open : streamer Z (option MD) unit := fun _ => mret (Err missing_sku) in
  (chained (streamChain ticking inventory) "/stock.v1.Stock/Watch" open inbound (8 * Second)).1
    = Err missing_sku /\
  Interceptor.mapErr (fun _ => true) missing_sku "orders" = Some missing_sku.
Proof. split; by vm_compute. Qed.

(** [AsAppError] of an outage is not redacted, so its metadata, meant for the log, tells the
    caller the address and the method of the upstream. *)
Lemma outage_discloses_upstream :
  exists e det,
    newUpstreamError "10.0.0.7:50051" "/stock.v1.Stock/Get" (Some (EStatus CUnavailable [] [])) = Some e /\
    Interceptor.mapErr (fun _ => true) (AsAppError e) "orders" =
      Some (EStatus CUnavailable [PStr "an upstream service is unavailable"] det) /\
    exists md, det = [ErrorInfo "UPSTREAM_UNAVAILABLE" "orders" md] /\
      md !! "upstream" = Some "10.0.0.7:50051" /\
      md !! "upstream_method" = Some "/stock.v1.Stock/Get".
Proof.
  do 2 eexists. split; [reflexivity|]. split; [reflexivity|].
  eexists. split; [reflexivity|]. by vm_compute.
Qed.

(** A reserve that is not a number passes the defaults, and the share it gives is whatever
    the conversion of a NaN is: with the value amd64 gives, no call with a deadline is made. *)
Lemma nan_reserve_refuses :
  let c := applyDefaults (mkOptions "dns:///inventory:50051" 0 S754_nan 0 [] None None [] 0 None
             : Options Z (option MD) unit unit) in
  let cc := mkCall (mkContext None (Some (100 * Second)) None) None in
  ReserveFraction c = S754_nan /\
  From (default (errorsNew "sent")
    (chained (unaryChain ticking c) "/stock.v1.Stock/Get" (fun _ => mret None) cc 0).1) <> None.
Proof. split; by vm_compute. Qed.
