(* ===== verification/Gateway.v ===== *)
(** internal/gateway: the REST edge.

    The transcoder is a library; the program decides which headers cross in each direction
    and what a failed call looks like as an HTTP response. *)

From S2P Require Import Prelude GoErr GoStr GoNum AppErr.
From S2P Require Interceptor.

(** * Header names *)

(** [textproto.CanonicalMIMEHeaderKey]. *)
Definition header_byte (c : ascii) : bool :=
  let b := byte_of c in
  is_digit c || ((65 <=? b) && (b <=? 90)) || ((97 <=? b) && (b <=? 122))
  || bool_decide (c ∈ to_list "!#$%&'*+-.^_`|~").

Fixpoint capitals (upper : bool) (l : list ascii) : list ascii :=
  match l with
  | [] => []
  | c :: r =>
      (if upper then byte_upper c else byte_lower c) :: capitals (Ascii.eqb c "-") r
  end.

Definition CanonicalMIMEHeaderKey (key : string) : string :=
  if forallb header_byte (to_list key) then of_list (capitals true (to_list key)) else key.

(** * gateway.go *)

Definition maxRequestBytes : Z := Z.shiftl 4 20.

(** The options of [runtime.JSONPb] the code sets. *)
Record jsonOptions := mkJSONOptions {
  UseProtoNames : bool; EmitUnpopulated : bool; DiscardUnknown : bool }.

Definition jsonMarshaler : jsonOptions := mkJSONOptions true true false.

(** [http.MaxBytesReader]: what a reader gets of a body, and whether it ends in an error. *)
Record body := mkBody { BRead : string; BFailed : option error }.

Definition MaxBytesReader (n : Z) (b : string) : body :=
  if strlen b <=? n then mkBody b None
  else mkBody (take_bytes (Z.to_nat n) b) (Some (ELib "http: request body too large")).

(** The handler around the mux, a function of the body it reads. *)
Definition Handler {A} (ServeHTTP : body -> A) (b : string) : A :=
  ServeHTTP (MaxBytesReader maxRequestBytes b).

(** The mux sees a body whole or cut off with an error, and the cut is the fixed constant: it
    does not follow GRPC_MAX_RECV_MSG_BYTES. *)
Lemma Handler_limit {A} (ServeHTTP : body -> A) b :
  Handler ServeHTTP b =
    (if strlen b <=? 4194304 then ServeHTTP (mkBody b None)
     else ServeHTTP (mkBody (take_bytes (Z.to_nat 4194304) b) (Some (ELib "http: request body too large")))).
Proof.
  unfold Handler, MaxBytesReader. change maxRequestBytes with 4194304. by destruct (_ <=? _).
Qed.

Section Incoming.
Context `{Unicode}.
(** The library's own rule. *)
Context (DefaultHeaderMatcher : string -> option string).

(** The metadata key an HTTP header becomes, when it crosses at all. *)
Definition incomingHeaders (key : string) : option string :=
  if bool_decide (CanonicalMIMEHeaderKey key ∈ ["Traceparent"; "Tracestate"])
  then Some (ToLower key)
  else DefaultHeaderMatcher key.
End Incoming.

(** * errors.go *)

Record errorDetail (J : Type) := mkErrorDetail {
  ECode : string; EReason : string; EMessage : text; EDetails : list J; EDomain : string }.
Arguments mkErrorDetail {J}. Arguments ECode {J}. Arguments EReason {J}.
Arguments EMessage {J}. Arguments EDetails {J}. Arguments EDomain {J}.

Record errorBody (J : Type) := mkErrorBody { EError : errorDetail J }.
Arguments mkErrorBody {J}. Arguments EError {J}.

Definition isForwardable (key : string) : bool :=
  ((key =? "retry-after") || (key =? "x-request-id"))%string.

Definition isStandardHTTPHeader (key : string) : bool := (key =? "retry-after")%string.

(** A response: its headers by canonical name, and what has been written: the status line
    and the body (without the newline both encoders end it with), when the writer was used
    at all. *)
Record response (J : Type) := mkResponse {
  RHeaders : gmap string (list string); RStatus : option Z; RBody : option (errorBody J + string) }.
Arguments mkResponse {J}. Arguments RHeaders {J}. Arguments RStatus {J}. Arguments RBody {J}.

Section Errors.
Context {J : Type}.
(** The libraries: the status of an error ([status.Convert]), the name of a code, a detail
    as JSON (which may fail), and whether the body can be encoded. *)
Context (Convert : error -> Status) (codeString : code -> string).
Context (protojson : detail -> option J) (encodes : errorBody J -> bool).
Context (MetadataHeaderPrefix : string).

Definition headerAdd (name v : string) (w : response J) : response J :=
  let k := CanonicalMIMEHeaderKey name in
  mkResponse (<[k := default [] (RHeaders w !! k) ++ [v]]> (RHeaders w)) (RStatus w) (RBody w).
Definition headerSet (name v : string) (w : response J) : response J :=
  mkResponse (<[CanonicalMIMEHeaderKey name := [v]]> (RHeaders w)) (RStatus w) (RBody w).

(** [WriteHeader] and a body; only the first status line goes out. *)
Definition writeHeader (status : Z) (w : response J) : response J :=
  mkResponse (RHeaders w) (Some (default status (RStatus w))) (RBody w).
Definition writeBody (b : errorBody J + string) (w : response J) : response J :=
  mkResponse (RHeaders w) (RStatus w) (Some b).

(** The metadata a call came back with, in the order the runtime iterates the map. *)
Definition writeGRPCMetadata (md : option (list (string * list string))) (w : response J)
    : response J :=
  match md with
  | None => w
  | Some md =>
      fold_left (fun w '(key, values) =>
        if negb (isForwardable key) then w
        else
          let name := if isStandardHTTPHeader key then key else MetadataHeaderPrefix +:+ key in
          fold_left (fun w v => headerAdd name v w) values w) md w
  end.

(** The loop over the details: [ErrorInfo] fills the fields, the others are rendered. *)
Definition bodyDetail (b : errorDetail J) (d : detail) : errorDetail J :=
  match d with
  | ErrorInfo reason domain _ => mkErrorDetail (ECode b) reason (EMessage b) (EDetails b) domain
  | _ =>
      match protojson d with
      | Some raw => mkErrorDetail (ECode b) (EReason b) (EMessage b) (EDetails b ++ [raw]) (EDomain b)
      | None => b
      end
  end.

Definition errorOf (st : Status) : errorBody J :=
  mkErrorBody (fold_left bodyDetail (SDetails st)
    (mkErrorDetail (codeString (SCode st)) "" (SMessage st) [] "")).

(** The fallback's text. *)
Definition fallback : string :=
  let q := of_list [of_byte 34] in
  "{" +:+ q +:+ "error" +:+ q +:+ ":{" +:+ q +:+ "code" +:+ q +:+ ":" +:+ q +:+ "INTERNAL" +:+ q
  +:+ "," +:+ q +:+ "message" +:+ q +:+ ":" +:+ q +:+ "internal error" +:+ q +:+ "}}".

(** [keys] is the order in which the table of kinds is iterated. *)
Definition handleError (keys : list Kind) (md : option (list (string * list string)))
    (err : error) (w : response J) : response J :=
  let st := Convert err in
  let httpStatus := HTTPStatusFromCode keys (SCode st) in
  let body := errorOf st in
  let w := headerSet "Content-Type" "application/json" w in
  let w := writeGRPCMetadata md w in
  let w := writeHeader httpStatus w in
  if encodes body then writeBody (inl body) w
  else
    (* [http.Error] sets its own content type and a second status line, which is ignored *)
    writeBody (inr fallback)
      (writeHeader 500 (headerSet "X-Content-Type-Options" "nosniff"
         (headerSet "Content-Type" "text/plain; charset=utf-8" w))).

End Errors.

(** * What a REST caller sees

    The law of the libraries: a status error converts to its status. *)

Section Spec.
Context {J : Type} (Convert : error -> Status) (codeString : code -> string).
Context (protojson : detail -> option J) (encodes : errorBody J -> bool) (prefix : string).
Context (Convert_status : forall c m d, Convert (EStatus c m d) = mkStatus c m d).
Context `{Interceptor.StatusLib} (marshals : list detail -> bool).

Abbreviation handle := (handleError Convert codeString protojson encodes prefix).

Lemma writeGRPCMetadata_keeps md (w : response J) :
  RStatus (writeGRPCMetadata prefix md w) = RStatus w /\
  RBody (writeGRPCMetadata prefix md w) = RBody w.
Proof.
  destruct md as [md|]; [|done]. revert w. induction md as [|[k vs] md IH]; intros w; [done|].
  cbn. destruct (negb (isForwardable k)); [apply IH|].
  set (name := if isStandardHTTPHeader k then k else prefix +:+ k).
  assert (forall vs (w : response J),
    RStatus (fold_left (fun w v => headerAdd name v w) vs w) = RStatus w /\
    RBody (fold_left (fun w v => headerAdd name v w) vs w) = RBody w) as Hv.
  { clear. induction vs as [|v vs IH]; intros w; [done|]. cbn. by destruct (IH (headerAdd name v w)). }
  destruct (Hv vs w) as [Hs Hb]. split; (etrans; [apply IH|done]).
Qed.

(** The details other than [ErrorInfo], as JSON. *)
Definition rendered (ds : list detail) : list J :=
  omap (fun d => match d with ErrorInfo _ _ _ => None | _ => protojson d end) ds.

(** The reason and the domain of the last [ErrorInfo]. *)
Definition lastInfo (ds : list detail) : string * string :=
  default ("", "")
    (last (omap (fun d => match d with ErrorInfo r dom _ => Some (r, dom) | _ => None end) ds)).

Lemma default_last_app {A} (l k : list A) d : default d (last (l ++ k)) = default (default d (last l)) (last k).
Proof. rewrite last_app. by destruct (last k). Qed.

Lemma errorOf_spec st :
  errorOf codeString protojson st =
    mkErrorBody (mkErrorDetail (codeString (SCode st)) (lastInfo (SDetails st)).1 (SMessage st)
      (rendered (SDetails st)) (lastInfo (SDetails st)).2).
Proof.
  unfold errorOf. f_equal. destruct st as [c m ds]. cbn [SCode SMessage SDetails].
  induction ds as [|d ds IH] using rev_ind; [done|].
  rewrite fold_left_app, IH. cbn [fold_left]. unfold bodyDetail, rendered, lastInfo.
  rewrite !omap_app, default_last_app. destruct d as [r dom md| |]; cbn; [by rewrite app_nil_r| |];
    (destruct (protojson _); cbn; by rewrite ?app_nil_r).
Qed.

(** The error the program reports has details of its own beside the [ErrorInfo]. *)
Definition app_details (e : error) : list detail :=
  match e with EApp _ _ _ _ ds _ => ds | _ => [] end.
Definition app_reason (e : error) : string :=
  match e with EApp _ r _ _ _ _ => r | _ => "" end.

(** An error the chain converts: one that carries an application error, or is no status. *)
Definition converted (err : error) : Prop := From err <> None \/ Interceptor.statusOf err = None.

(** C28. The two surfaces agree.  Whatever error a unary handler fails with, the REST response to
    the error [e] the chain makes of it shows the status a gRPC client is given: its code by
    name, its message, the reason and domain of its last [ErrorInfo] and its other details as
    JSON (those that have one), under the HTTP status of the code; where that body cannot be
    encoded, the fallback text under the same status.  When the chain converted the error
    (it passes a status built by the handler as it is), that is the status of the error's
    kind, with its client-facing message, its reason, this service's domain and its details,
    when they can be encoded; so a server fault is redacted here as there.  An error of a
    stream is rendered by the runtime and has another shape. *)
Theorem rest_agrees_with_grpc keys md err domain w :
  keys ≡ₚ AllKinds -> RStatus w = None ->
  forall e, Interceptor.mapErr marshals err domain = Some e ->
  let r := handle keys md e w in
  let st := Convert e in
  let shown := mkErrorBody (mkErrorDetail (codeString (SCode st)) (lastInfo (SDetails st)).1
    (SMessage st) (rendered (SDetails st)) (lastInfo (SDetails st)).2) in
  RStatus r = Some (HTTPStatusFromCode keys (SCode st)) /\
  RBody r = Some (if encodes shown then inl shown else inr fallback) /\
  (converted err ->
     let k := KindOf (Some err) in
     SCode st = GRPCCode k /\ RStatus r = Some (HTTPStatus k) /\
     SMessage st = ClientMessage (reported err) /\
     exists md', let det := ErrorInfo (app_reason (reported err)) domain md' :: app_details (reported err) in
       SDetails st = (if marshals det then det else []) /\ (Redacts k = true -> md' = ∅)).
Proof.
  intros Hk Hw e He r st shown.
  assert (RStatus r = Some (HTTPStatusFromCode keys (SCode st))) as Hstatus.
  { unfold r, handleError. fold st.
    destruct (writeGRPCMetadata_keeps md (headerSet "Content-Type" "application/json" w)) as [Hs _].
    destruct (encodes _); cbn; rewrite Hs; cbn; by rewrite Hw. }
  split_ands; [done| |].
  - unfold r, handleError. fold st. rewrite errorOf_spec. fold shown. by destruct (encodes shown).
  - intros Hc k. pose proof (reported_kind err) as Hkind.
    destruct (reported_app err) as (k' & rs & m & mdd & ds & wr & E).
    assert (ToError marshals (Some err) domain = Some e) as Ht.
    { rewrite <- He. unfold Interceptor.mapErr. destruct Hc as [Hc|Hc].
      - destruct (Interceptor.statusOf err); [|done]. by destruct (From err).
      - by rewrite Hc. }
    unfold ToError in Ht. rewrite (ToStatus_reported _ _ _ _ _ _ _ _ _ E) in Ht.
    cbn in Ht. injection Ht as <-. unfold st in *. rewrite Convert_status in *. cbn [SCode SMessage SDetails] in *.
    rewrite E in *. cbn in Hkind. fold k in Hkind. subst k'.
    split_ands; [done|by rewrite Hstatus, HTTPStatusFromCode_GRPCCode|done|].
    exists (if Redacts k then ∅ else mdd). split; [done|]. intros Hred. by rewrite Hred.
Qed.

(** The allowlist: whatever metadata a handler or an interceptor set, the error response
    adds nothing to the headers but the content type, [Retry-After] under its real name
    and the request id under the prefix. *)
Lemma writeGRPCMetadata_allowlist md (w : response J) name :
  name <> CanonicalMIMEHeaderKey "retry-after" ->
  name <> CanonicalMIMEHeaderKey (prefix +:+ "x-request-id") ->
  RHeaders (writeGRPCMetadata prefix md w) !! name = RHeaders w !! name.
Proof.
  intros H1 H2. destruct md as [md|]; [|done]. revert w.
  induction md as [|[k vs] md IH]; intros w; [done|]. cbn.
  destruct (isForwardable k) eqn:Hf; cbn [negb]; (etrans; [apply IH|]); [|done]. clear IH.
  set (n := if isStandardHTTPHeader k then k else prefix +:+ k).
  assert (name <> CanonicalMIMEHeaderKey n) as Hn.
  { unfold n, isForwardable, isStandardHTTPHeader in *.
    destruct (String.eqb_spec k "retry-after") as [->|]; [done|].
    destruct (String.eqb_spec k "x-request-id") as [->|]; done. }
  clearbody n. revert w. induction vs as [|v vs IH]; intros w; [done|]. cbn. rewrite IH.
  unfold headerAdd. cbn. by rewrite lookup_insert_ne.
Qed.

Theorem error_headers_allowlisted keys md err w name :
  (forall b, encodes b = true) -> name <> "Content-Type" -> name <> "Retry-After" ->
  name <> CanonicalMIMEHeaderKey (prefix +:+ "x-request-id") ->
  RHeaders (handle keys md err w) !! name = RHeaders w !! name.
Proof.
  intros He Hc Hr Hx. unfold handleError. rewrite He. cbn.
  rewrite writeGRPCMetadata_allowlist by done. cbn. by rewrite lookup_insert_ne.
Qed.

End Spec.

(** * At concrete errors *)

(** A refused quota, with the header the limiter set and one that is internal. *)
Definition over_quota : error :=
  WithDetails [RetryInfo 2000000000] (New KindResourceExhausted "QUOTA_EXCEEDED" "request quota exceeded").

Definition plain_convert (e : error) : Status :=
  match e with EStatus c m d => mkStatus c m d | _ => mkStatus CUnknown [PVal e] [] end.
Definition code_name (c : code) : string :=
  match c with CResourceExhausted => "ResourceExhausted" | CInternal => "Internal" | _ => "Unknown" end.
Definition retry_json (d : detail) : option string :=
  match d with RetryInfo _ => Some "{retryDelay:2s}" | _ => None end.

Definition rest_response : response string :=
  handleError plain_convert code_name retry_json (fun _ => true) "Grpc-Metadata-" AllKinds
    (Some [("retry-after", ["2"]); ("x-internal", ["shard-7"]); ("x-request-id", ["r1"])])
    (EStatus CResourceExhausted [PStr "request quota exceeded"]
       [ErrorInfo "QUOTA_EXCEEDED" "orders" ∅; RetryInfo 2000000000])
    (mkResponse ∅ None None).

#[local] Instance status_of : Interceptor.StatusLib := {|
  Interceptor.statusOf := errAs Interceptor.as_status |}.

Lemma rest_agrees_with_grpc_witness :
  RStatus rest_response = Some 429 /\
  RBody rest_response = Some (inl (mkErrorBody (mkErrorDetail "ResourceExhausted" "QUOTA_EXCEEDED"
    [PStr "request quota exceeded"] ["{retryDelay:2s}"] "orders"))) /\
  RHeaders rest_response !! "Retry-After" = Some ["2"] /\
  RHeaders rest_response !! "Grpc-Metadata-X-Request-Id" = Some ["r1"] /\
  RHeaders rest_response !! "X-Internal" = None.
Proof.
  destruct (rest_agrees_with_grpc plain_convert code_name retry_json (fun _ => true) "Grpc-Metadata-"
    (fun _ _ _ => eq_refl) (fun _ => true)
    AllKinds (Some [("retry-after", ["2"]); ("x-internal", ["shard-7"]); ("x-request-id", ["r1"])])
    over_quota "orders" (mkResponse ∅ None None) (Permutation_refl _) eq_refl
    (EStatus CResourceExhausted [PStr "request quota exceeded"]
       [ErrorInfo "QUOTA_EXCEEDED" "orders" ∅; RetryInfo 2000000000])
    ltac:(by vm_compute)) as (Hs & Hb & _).
  split; [exact Hs|]. split; [exact Hb|]. by vm_compute.
Defined.

Lemma error_headers_allowlisted_witness :
  RHeaders rest_response !! "X-Internal" = (∅ : gmap string (list string)) !! "X-Internal".
Proof.
  apply (error_headers_allowlisted plain_convert code_name retry_json (fun _ => true)
    "Grpc-Metadata-"); done.
Defined.

(** W3C trace headers cross the edge in any spelling, under the name the propagator reads. *)
Example trace_headers :
  @incomingHeaders ascii_tables (fun _ => None) "TraceParent" = Some "traceparent" /\
  @incomingHeaders ascii_tables (fun _ => None) "TRACESTATE" = Some "tracestate" /\
  @incomingHeaders ascii_tables (fun _ => None) "X-Tenant" = None.
Proof. by vm_compute. Qed.
