(* ===== verification/OrderGrpc.v ===== *)
(** gen/go/order/v1/order_grpc.pb.go: the stubs of order.v1.OrderService.

    The client's methods marshal a message, invoke a method by its full name on a connection
    and unmarshal the reply; the server's handlers unmarshal, and call the implementation
    through the interceptor when there is one.  The connection and the protobuf encoding are
    parameters. *)

From S2P Require Import Prelude GoErr GoStr AppErr Store Auth GrpcConvert GrpcServer Interceptor.

(** * Messages *)

Record GetOrderRequest := mkGetReq { GtOrderId : string }.
Record WatchOrdersRequest := mkWatchReq { WtStatus : Z }.

(** A request behind Go's [interface{}], as the interceptors see it. *)
Inductive message :=
  | CreateOrderIn (req : CreateOrderRequest)
  | GetOrderIn (req : GetOrderRequest)
  | ListOrdersIn (req : ListOrdersRequest)
  | CancelOrderIn (req : CancelOrderRequest).

Definition OrderService_CreateOrder_FullMethodName : string := "/order.v1.OrderService/CreateOrder".
Definition OrderService_GetOrder_FullMethodName : string := "/order.v1.OrderService/GetOrder".
Definition OrderService_ListOrders_FullMethodName : string := "/order.v1.OrderService/ListOrders".
Definition OrderService_CancelOrder_FullMethodName : string := "/order.v1.OrderService/CancelOrder".
Definition OrderService_WatchOrders_FullMethodName : string := "/order.v1.OrderService/WatchOrders".

(** The library's encoding: what crosses a connection, and how a message is put on it and
    read from it.  Either way can fail. *)
Class Wire := { wire : Type }.
Class ProtoMessage `{Wire} (A : Type) := {
  Marshal : A -> result wire;
  Unmarshal : wire -> result A }.

(** What [grpc.Header] and [grpc.Trailer] collect. *)
Record ServerMetadata := mkMD {
  HeaderMD : list (string * list string); TrailerMD : list (string * list string) }.
Definition noMD : ServerMetadata := mkMD [] [].

Section Messages.
Context `{Timestamps}.

(** [ListOrdersResponse]; the other responses hold one order. *)
Definition page : Type := list POrder * string.

(** A response behind [interface{}]. *)
Inductive reply := OrderOut (o : POrder) | PageOut (p : page).

(** * The client *)

(** [grpc.ClientConnInterface] over a state [W], with the streams [St] it opens. *)
Record ClientConn `{Wire} (W St : Type) := mkConn {
  Invoke : context -> string -> wire -> W -> (result wire * ServerMetadata) * W;
  NewStream : context -> string -> stm W St;
  SendMsg : St -> wire -> stm W unit;
  CloseSend : St -> stm W unit }.
#[global] Arguments mkConn {_ W St}.
#[global] Arguments Invoke {_ W St}. #[global] Arguments NewStream {_ W St}.
#[global] Arguments SendMsg {_ W St}. #[global] Arguments CloseSend {_ W St}.

(** A unary method with the metadata its call options collected. *)
Definition unaryCall (W In Out : Type) : Type :=
  context -> In -> W -> (result Out * ServerMetadata) * W.

Record OrderServiceClient (W St : Type) := mkClient {
  cCreateOrder : unaryCall W CreateOrderRequest POrder;
  cGetOrder : unaryCall W GetOrderRequest POrder;
  cListOrders : unaryCall W ListOrdersRequest page;
  cCancelOrder : unaryCall W CancelOrderRequest POrder;
  cWatchOrders : context -> WatchOrdersRequest -> stm W St }.
#[global] Arguments mkClient {W St}.
#[global] Arguments cCreateOrder {W St}. #[global] Arguments cGetOrder {W St}.
#[global] Arguments cListOrders {W St}. #[global] Arguments cCancelOrder {W St}.
#[global] Arguments cWatchOrders {W St}.

Section Client.
Context `{Wire, !ProtoMessage CreateOrderRequest, !ProtoMessage GetOrderRequest,
  !ProtoMessage ListOrdersRequest, !ProtoMessage CancelOrderRequest,
  !ProtoMessage WatchOrdersRequest, !ProtoMessage POrder, !ProtoMessage page}.
Context {W St : Type} (cc : ClientConn W St).

(** [c.cc.Invoke(ctx, method, in, out, opts...)] and the return that follows it. *)
Definition invoke {In Out} `{!ProtoMessage In, !ProtoMessage Out} (method : string)
    : unaryCall W In Out := fun ctx req w =>
  match Marshal req with
  | Err err => ((Err err, noMD), w)
  | Ok b =>
      let '((r, md), w) := Invoke cc ctx method b w in
      ((out ← r; Unmarshal out, md), w)
  end.

Definition clientWatchOrders (ctx : context) (req : WatchOrdersRequest) : stm W St :=
  st ← NewStream cc ctx OrderService_WatchOrders_FullMethodName;
  b ← lift (Marshal req);
  _ ← SendMsg cc st b;
  _ ← CloseSend cc st;
  mret st.

Definition NewOrderServiceClient : OrderServiceClient W St := {|
  cCreateOrder := invoke OrderService_CreateOrder_FullMethodName;
  cGetOrder := invoke OrderService_GetOrder_FullMethodName;
  cListOrders := invoke OrderService_ListOrders_FullMethodName;
  cCancelOrder := invoke OrderService_CancelOrder_FullMethodName;
  cWatchOrders := clientWatchOrders |}.
End Client.

(** * The server *)

Section Server.
Context {L X : Type}.

(** [(resp, err)] of a handler. *)
Definition returns (A : Type) : Type := io L X (option A * option error).

(** A streaming handler works on its stream, which is part of the world. *)
Record OrderServiceServer := mkServer {
  sCreateOrder : context -> CreateOrderRequest -> returns POrder;
  sGetOrder : context -> GetOrderRequest -> returns POrder;
  sListOrders : context -> ListOrdersRequest -> returns page;
  sCancelOrder : context -> CancelOrderRequest -> returns POrder;
  sWatchOrders : context -> WatchOrdersRequest -> io L X (option error) }.

Definition Unimplemented (method : string) : error :=
  EStatus CUnimplemented [PStr ("method " +:+ method +:+ " not implemented")] [].

Definition UnimplementedOrderServiceServer : OrderServiceServer := {|
  sCreateOrder := fun _ _ => mret (None, Some (Unimplemented "CreateOrder"));
  sGetOrder := fun _ _ => mret (None, Some (Unimplemented "GetOrder"));
  sListOrders := fun _ _ => mret (None, Some (Unimplemented "ListOrders"));
  sCancelOrder := fun _ _ => mret (None, Some (Unimplemented "CancelOrder"));
  sWatchOrders := fun _ _ => mret (Some (Unimplemented "WatchOrders")) |}.

(** A response put behind [interface{}]. *)
Definition boxed {A} (box : A -> reply) (m : returns A) : returns reply :=
  r ← m; mret (box <$> r.1, r.2).

(** A failed type assertion panics. *)
Definition badAssertion {A} : io L X A := fun w =>
  (Panicked [PStr "interface conversion: wrong message type"], w).

(** [grpc.UnaryServerInterceptor]: the method's name, then the handler it wraps. *)
Definition unaryInterceptor : Type := @interceptor L X message reply.

(** The shape of every generated handler: [unbox] is its type assertion. *)
Definition unaryHandler {In} (box : In -> message) (unbox : message -> option In) (method : string)
    (call : context -> In -> returns reply) (ctx : context) (dec : result In)
    (interceptor : option unaryInterceptor) : returns reply :=
  match dec with
  | Err err => mret (None, Some err)
  | Ok req =>
      match interceptor with
      | None => call ctx req
      | Some i =>
          i method (fun ctx m => match unbox m with Some req => call ctx req | None => badAssertion end)
            ctx (box req)
      end
  end.

Definition OrderService_CreateOrder_Handler (srv : OrderServiceServer) :=
  unaryHandler CreateOrderIn (fun m => match m with CreateOrderIn r => Some r | _ => None end)
    OrderService_CreateOrder_FullMethodName (fun ctx req => boxed OrderOut (sCreateOrder srv ctx req)).

Definition OrderService_GetOrder_Handler (srv : OrderServiceServer) :=
  unaryHandler GetOrderIn (fun m => match m with GetOrderIn r => Some r | _ => None end)
    OrderService_GetOrder_FullMethodName (fun ctx req => boxed OrderOut (sGetOrder srv ctx req)).

Definition OrderService_ListOrders_Handler (srv : OrderServiceServer) :=
  unaryHandler ListOrdersIn (fun m => match m with ListOrdersIn r => Some r | _ => None end)
    OrderService_ListOrders_FullMethodName (fun ctx req => boxed PageOut (sListOrders srv ctx req)).

Definition OrderService_CancelOrder_Handler (srv : OrderServiceServer) :=
  unaryHandler CancelOrderIn (fun m => match m with CancelOrderIn r => Some r | _ => None end)
    OrderService_CancelOrder_FullMethodName (fun ctx req => boxed OrderOut (sCancelOrder srv ctx req)).

(** [recv] is the stream's first message. *)
Definition OrderService_WatchOrders_Handler (srv : OrderServiceServer)
    (recv : io L X (result WatchOrdersRequest)) (ctx : context) : io L X (option error) :=
  m ← recv;
  match m with
  | Err err => mret (Some err)
  | Ok m => sWatchOrders srv ctx m
  end.

(** ** The service descriptor *)

Context `{Wire, !ProtoMessage CreateOrderRequest, !ProtoMessage GetOrderRequest,
  !ProtoMessage ListOrdersRequest, !ProtoMessage CancelOrderRequest,
  !ProtoMessage WatchOrdersRequest}.

Definition methodHandler : Type :=
  OrderServiceServer -> context -> wire -> option unaryInterceptor -> returns reply.

(** What is received of a stream is [recv]. *)
Definition streamMethodHandler : Type :=
  OrderServiceServer -> io L X (result wire) -> context -> io L X (option error).

(** [stream.RecvMsg(m)]. *)
Definition RecvMsg {A} `{!ProtoMessage A} (recv : io L X (result wire)) : io L X (result A) :=
  b ← recv; mret (m ← b; Unmarshal m).

Record ServiceDesc := mkDesc {
  DescName : string; Methods : list (string * methodHandler);
  Streams : list (string * streamMethodHandler) }.

Definition OrderService_ServiceDesc : ServiceDesc := {|
  DescName := "order.v1.OrderService";
  Methods :=
    [("CreateOrder", fun srv ctx b => OrderService_CreateOrder_Handler srv ctx (Unmarshal b));
     ("GetOrder", fun srv ctx b => OrderService_GetOrder_Handler srv ctx (Unmarshal b));
     ("ListOrders", fun srv ctx b => OrderService_ListOrders_Handler srv ctx (Unmarshal b));
     ("CancelOrder", fun srv ctx b => OrderService_CancelOrder_Handler srv ctx (Unmarshal b))];
  Streams :=
    [("WatchOrders", fun srv recv => OrderService_WatchOrders_Handler srv (RecvMsg recv))] |}.

(** The handler a descriptor holds for a full method name. *)
Definition named {H} (d : ServiceDesc) (method : string) (hs : list (string * H)) : option H :=
  snd <$> List.find (fun mh => ("/" +:+ DescName d +:+ "/" +:+ mh.1 =? method)%string) hs.
Definition methodOf (d : ServiceDesc) (method : string) : option methodHandler :=
  named d method (Methods d).
Definition streamOf (d : ServiceDesc) (method : string) : option streamMethodHandler :=
  named d method (Streams d).

(** The stubs and the descriptor agree on names: every method a client invokes, and the one
    it opens a stream for, is one the descriptor serves, with the handler of the same name. *)
Lemma methodOf_served :
  methodOf OrderService_ServiceDesc OrderService_CreateOrder_FullMethodName =
    Some (fun srv ctx b => OrderService_CreateOrder_Handler srv ctx (Unmarshal b)) /\
  methodOf OrderService_ServiceDesc OrderService_GetOrder_FullMethodName =
    Some (fun srv ctx b => OrderService_GetOrder_Handler srv ctx (Unmarshal b)) /\
  methodOf OrderService_ServiceDesc OrderService_ListOrders_FullMethodName =
    Some (fun srv ctx b => OrderService_ListOrders_Handler srv ctx (Unmarshal b)) /\
  methodOf OrderService_ServiceDesc OrderService_CancelOrder_FullMethodName =
    Some (fun srv ctx b => OrderService_CancelOrder_Handler srv ctx (Unmarshal b)) /\
  streamOf OrderService_ServiceDesc OrderService_WatchOrders_FullMethodName =
    Some (fun srv recv => OrderService_WatchOrders_Handler srv (RecvMsg recv)).
Proof. done. Qed.

(** The policy has a rule for every method of the descriptor, and for no other of its service. *)
Lemma policy_names_methods :
  ((fun m => "/" +:+ DescName OrderService_ServiceDesc +:+ "/" +:+ m) <$>
     ((Methods OrderService_ServiceDesc).*1 ++ (Streams OrderService_ServiceDesc).*1)) ≡ₚ
  List.filter (fun m => HasPrefix m "/order.v1.") (map_to_list DefaultPolicy).*1.
Proof. apply (bool_decide_unpack _). vm_compute. exact I. Qed.
End Server.
End Messages.
