(* ===== verification/RestApi.v ===== *)
(** gen/go/order/v1/order.pb.gw.go: the REST bindings of order.v1.OrderService.

    For each method a function that builds the gRPC request from the HTTP request and calls the
    client (or, in server mode, the implementation), the handler around it, and the pattern it
    is registered under.  The grpc-gateway runtime (decoding, query parameters, contexts, the
    mux) is the class [Runtime]. *)

From S2P Require Import Prelude GoErr GoStr AppErr Store Auth GrpcConvert GrpcServer Interceptor.
From S2P Require Import Gateway OrderGrpc.

(** * Requests and patterns *)

(** An HTTP request; its path is given by the components between the slashes.  Parsing the form
    of a posted one reads its body ([FormRead]). *)
Record httpRequest := mkRequest {
  Method : string; Components : list string; RawQuery : string;
  ReqHeaders : gmap string (list string); ReqBody : body; FormRead : bool }.

(** What [req.Body] still holds. *)
Definition unread (req : httpRequest) : body :=
  if FormRead req then mkBody "" None else ReqBody req.

(** [runtime.NewPattern(1, ops, pool, verb)]. *)
Record pattern := mkPattern { Ops : list Z; Pool : list string; Verb : string }.

Definition pattern_OrderService_CreateOrder_0 : pattern :=
  mkPattern [2; 0; 2; 1] ["v1"; "orders"] "".
Definition pattern_OrderService_GetOrder_0 : pattern :=
  mkPattern [2; 0; 2; 1; 1; 0; 4; 1; 5; 2] ["v1"; "orders"; "order_id"] "".
Definition pattern_OrderService_ListOrders_0 : pattern :=
  mkPattern [2; 0; 2; 1] ["v1"; "orders"] "".
Definition pattern_OrderService_CancelOrder_0 : pattern :=
  mkPattern [2; 0; 2; 1; 1; 0; 4; 1; 5; 2] ["v1"; "orders"; "order_id"] "cancel".
Definition pattern_OrderService_WatchOrders_0 : pattern :=
  mkPattern [2; 0; 2; 1] ["v1"; "orders"] "watch".

(** The runtime library: decoding a body into a message (which may be filled in part when it
    fails), query parameters, the contexts it annotates under a method's name and path, and
    the mux, which picks one of the handlers registered, with what it calls it on, or answers
    with a routing error. *)
Class Runtime := {
  DecodeCreate : jsonOptions -> body -> CreateOrderRequest * option error;
  DecodeCancel : jsonOptions -> body -> CancelOrderRequest * option error;
  form : Type;
  ParseForm : httpRequest -> result form;
  PopulateList : form -> result ListOrdersRequest;
  PopulateWatch : form -> result WatchOrdersRequest;
  runtime_String : string -> result string;
  AnnotateContext : string -> string -> httpRequest -> result context;
  AnnotateIncomingContext : string -> string -> httpRequest -> result context;
  MatchPath : pattern -> list string -> option (gmap string string);
  dispatch : forall {H : Type}, list (string * pattern * H) -> httpRequest ->
    error + H * gmap string string * httpRequest }.

Definition invalidArgument (t : text) : error := EStatus CInvalidArgument t [].

Section Bindings.
Context `{Timestamps, Runtime}.

(** * Building a request *)

(** [if err := ...Decode(&protoReq); err != nil && !errors.Is(err, io.EOF)]: an empty body
    leaves the message as it is. *)
Definition decoded {A} (d : A * option error) : result A :=
  match d with
  | (protoReq, None) => Ok protoReq
  | (protoReq, Some err) => if negb (errIs EOF err) then Err (invalidArgument [PVal err]) else Ok protoReq
  end.

Definition pathOrderId (pathParams : gmap string string) : result string :=
  match pathParams !! "order_id" with
  | None => Err (invalidArgument [PStr "missing parameter "; PStr "order_id"])
  | Some val =>
      match runtime_String val with
      | Ok v => Ok v
      | Err err => Err (invalidArgument [PStr "type mismatch, parameter: "; PStr "order_id";
                                         PStr ", error: "; PVal err])
      end
  end.

(** [status.Errorf(codes.InvalidArgument, "%v", err)] around a step that fails. *)
Definition orInvalid {A} (r : result A) : result A :=
  match r with Ok a => Ok a | Err err => Err (invalidArgument [PVal err]) end.

Definition createRequest (marshaler : jsonOptions) (req : httpRequest) : result CreateOrderRequest :=
  decoded (DecodeCreate marshaler (unread req)).

Definition getRequest (pathParams : gmap string string) : result GetOrderRequest :=
  orderId ← pathOrderId pathParams; mret (mkGetReq orderId).

Definition listRequest (req : httpRequest) : result ListOrdersRequest :=
  f ← orInvalid (ParseForm req); orInvalid (PopulateList f).

(** The order id of the path overwrites whatever the body said. *)
Definition cancelRequest (marshaler : jsonOptions) (req : httpRequest)
    (pathParams : gmap string string) : result CancelOrderRequest :=
  protoReq ← decoded (DecodeCancel marshaler (unread req));
  orderId ← pathOrderId pathParams;
  mret (mkCancelReq orderId (CnReason protoReq) (CnIdempotencyKey protoReq)).

Definition watchRequest (req : httpRequest) : result WatchOrdersRequest :=
  f ← orInvalid (ParseForm req); orInvalid (PopulateWatch f).

(** * Client mode *)

Section Client.
Context {W St : Type} (client : OrderServiceClient W St) (marshaler : jsonOptions).
(** [stream.Header()], which waits for the response's headers. *)
Context (Header : St -> stm W (list (string * list string))).

(** [(msg, metadata, err)]. *)
Definition answer (A : Type) : Type := W -> (result A * ServerMetadata) * W.

(** [if err != nil { return nil, metadata, err }], with no metadata collected yet. *)
Definition withRequest {Req A} (r : result Req) (call : Req -> answer A) : answer A :=
  match r with
  | Err err => fun w => ((Err err, noMD), w)
  | Ok protoReq => call protoReq
  end.

Definition request_OrderService_CreateOrder_0 (ctx : context) (req : httpRequest)
    (pathParams : gmap string string) : answer POrder :=
  withRequest (createRequest marshaler req) (cCreateOrder client ctx).

Definition request_OrderService_GetOrder_0 (ctx : context) (req : httpRequest)
    (pathParams : gmap string string) : answer POrder :=
  withRequest (getRequest pathParams) (cGetOrder client ctx).

Definition request_OrderService_ListOrders_0 (ctx : context) (req : httpRequest)
    (pathParams : gmap string string) : answer page :=
  withRequest (listRequest req) (cListOrders client ctx).

Definition request_OrderService_CancelOrder_0 (ctx : context) (req : httpRequest)
    (pathParams : gmap string string) : answer POrder :=
  withRequest (cancelRequest marshaler req pathParams) (cCancelOrder client ctx).

(** Without metadata until the stream's headers have come. *)
Definition openStream (ctx : context) (protoReq : WatchOrdersRequest) : answer St := fun w =>
  match cWatchOrders client ctx protoReq w with
  | (Err err, w) => ((Err err, noMD), w)
  | (Ok stream, w) =>
      match Header stream w with
      | (Err err, w) => ((Err err, noMD), w)
      | (Ok header, w) => ((Ok stream, mkMD header []), w)
      end
  end.

Definition request_OrderService_WatchOrders_0 (ctx : context) (req : httpRequest)
    (pathParams : gmap string string) : answer St :=
  withRequest (watchRequest req) (openStream ctx).

(** What a handler does with the response writer: an error, with the metadata its context
    carries by then, or a message (which may be nil) or a stream to forward. *)
Inductive httpOutcome :=
  | HTTPError (md : option ServerMetadata) (err : error)
  | ForwardResponseMessage (md : ServerMetadata) (msg : option reply)
  | ForwardResponseStream (md : ServerMetadata) (stream : St).

Definition httpHandler : Type := httpRequest -> gmap string string -> W -> httpOutcome * W.

(** The closure every method is registered with. *)
Definition forwarding {A} (method path : string) (forward : ServerMetadata -> A -> httpOutcome)
    (request : context -> httpRequest -> gmap string string -> answer A) : httpHandler :=
  fun req pathParams w =>
    match AnnotateContext method path req with
    | Err err => (HTTPError None err, w)
    | Ok annotatedContext =>
        match request annotatedContext req pathParams w with
        | ((Err err, md), w) => (HTTPError (Some md) err, w)
        | ((Ok resp, md), w) => (forward md resp, w)
        end
    end.

Definition message_of {A} (box : A -> reply) (md : ServerMetadata) (a : A) : httpOutcome :=
  ForwardResponseMessage md (Some (box a)).

Definition RegisterOrderServiceHandlerClient : list (string * pattern * httpHandler) :=
  [("POST", pattern_OrderService_CreateOrder_0,
    forwarding "/order.v1.OrderService/CreateOrder" "/v1/orders" (message_of OrderOut)
      request_OrderService_CreateOrder_0);
   ("GET", pattern_OrderService_GetOrder_0,
    forwarding "/order.v1.OrderService/GetOrder" "/v1/orders/{order_id}" (message_of OrderOut)
      request_OrderService_GetOrder_0);
   ("GET", pattern_OrderService_ListOrders_0,
    forwarding "/order.v1.OrderService/ListOrders" "/v1/orders" (message_of PageOut)
      request_OrderService_ListOrders_0);
   ("POST", pattern_OrderService_CancelOrder_0,
    forwarding "/order.v1.OrderService/CancelOrder" "/v1/orders/{order_id}:cancel"
      (message_of OrderOut) request_OrderService_CancelOrder_0);
   ("GET", pattern_OrderService_WatchOrders_0,
    forwarding "/order.v1.OrderService/WatchOrders" "/v1/orders:watch" ForwardResponseStream
      request_OrderService_WatchOrders_0)].

(** [mux.ServeHTTP]: a routing error goes to the error handler too, with no metadata. *)
Definition ServeHTTP (routes : list (string * pattern * httpHandler)) (req : httpRequest) (w : W)
    : httpOutcome * W :=
  match dispatch routes req with
  | inl err => (HTTPError None err, w)
  | inr (h, pathParams, req) => h req pathParams w
  end.
End Client.
#[global] Arguments httpOutcome : clear implicits.
#[global] Arguments httpHandler : clear implicits.
#[global] Arguments HTTPError {St}. #[global] Arguments ForwardResponseMessage {St}.
#[global] Arguments ForwardResponseStream {St}.

Section Conn.
Context `{Wire, !ProtoMessage CreateOrderRequest, !ProtoMessage GetOrderRequest,
  !ProtoMessage ListOrdersRequest, !ProtoMessage CancelOrderRequest,
  !ProtoMessage WatchOrdersRequest, !ProtoMessage POrder, !ProtoMessage page}.
Context {W St : Type}.

Definition RegisterOrderServiceHandler (conn : ClientConn W St) :=
  RegisterOrderServiceHandlerClient (NewOrderServiceClient conn).

(** gateway.go: the mux of the REST edge, and the handler around it. *)
Definition NewMux (conn : ClientConn W St) :=
  RegisterOrderServiceHandler conn jsonMarshaler.
End Conn.

(** * Server mode

    What the program chose not to use: the implementation is called directly, outside
    [grpc.Server] and so outside every interceptor. *)

Section ServerMode.
Context {L X : Type} (server : @OrderServiceServer _ L X) (marshaler : jsonOptions).
(** The headers and trailers the transport stream of a call collected. *)
Context (transportStream : world L X -> ServerMetadata).

Definition withLocalRequest {Req A} (r : result Req) (call : Req -> returns A) : @returns L X A :=
  match r with
  | Err err => mret (None, Some err)
  | Ok protoReq => call protoReq
  end.

Definition local_request_OrderService_CreateOrder_0 (ctx : context) (req : httpRequest)
    (pathParams : gmap string string) : @returns L X POrder :=
  withLocalRequest (createRequest marshaler req) (sCreateOrder server ctx).

Definition local_request_OrderService_GetOrder_0 (ctx : context) (req : httpRequest)
    (pathParams : gmap string string) : @returns L X POrder :=
  withLocalRequest (getRequest pathParams) (sGetOrder server ctx).

Definition local_request_OrderService_ListOrders_0 (ctx : context) (req : httpRequest)
    (pathParams : gmap string string) : @returns L X page :=
  withLocalRequest (listRequest req) (sListOrders server ctx).

Definition local_request_OrderService_CancelOrder_0 (ctx : context) (req : httpRequest)
    (pathParams : gmap string string) : @returns L X POrder :=
  withLocalRequest (cancelRequest marshaler req pathParams) (sCancelOrder server ctx).

Definition collected : io L X ServerMetadata := fun w => (Done (transportStream w), w).

(** There is no stream to forward here. *)
Definition localHandler : Type :=
  httpRequest -> gmap string string -> io L X (httpOutcome Empty_set).

Definition localForwarding {A} (method path : string) (box : A -> reply)
    (request : context -> httpRequest -> gmap string string -> @returns L X A) : localHandler :=
  fun req pathParams =>
    match AnnotateIncomingContext method path req with
    | Err err => mret (HTTPError None err)
    | Ok annotatedContext =>
        r ← request annotatedContext req pathParams;
        md ← collected;
        match r with
        | (_, Some err) => mret (HTTPError (Some md) err)
        | (resp, None) => mret (ForwardResponseMessage md (box <$> resp))
        end
    end.

Definition streamingUnsupported : error :=
  EStatus CUnimplemented [PStr "streaming calls are not yet supported in the in-process transport"] [].

Definition RegisterOrderServiceHandlerServer : list (string * pattern * localHandler) :=
  [("POST", pattern_OrderService_CreateOrder_0,
    localForwarding "/order.v1.OrderService/CreateOrder" "/v1/orders" OrderOut
      local_request_OrderService_CreateOrder_0);
   ("GET", pattern_OrderService_GetOrder_0,
    localForwarding "/order.v1.OrderService/GetOrder" "/v1/orders/{order_id}" OrderOut
      local_request_OrderService_GetOrder_0);
   ("GET", pattern_OrderService_ListOrders_0,
    localForwarding "/order.v1.OrderService/ListOrders" "/v1/orders" PageOut
      local_request_OrderService_ListOrders_0);
   ("POST", pattern_OrderService_CancelOrder_0,
    localForwarding "/order.v1.OrderService/CancelOrder" "/v1/orders/{order_id}:cancel" OrderOut
      local_request_OrderService_CancelOrder_0);
   ("GET", pattern_OrderService_WatchOrders_0,
    fun _ _ => mret (HTTPError None streamingUnsupported))].
End ServerMode.
End Bindings.
