(* ===== verification/RestSpec.v ===== *)
(** What the REST surface is: each request reaches at most one RPC, the one that its path, and a
    method it is served under, are bound to in proto/order/v1/order.proto. *)

From S2P Require Import Prelude GoErr GoStr AppErr Store Auth GrpcConvert GrpcServer Interceptor InterceptorSpec.
From S2P Require Import Gateway OrderGrpc RestApi.
From S2P Require RateLimit GoLog.

(** * Path templates and the patterns they compile to

    A binding's path is a template; the generator compiles it to operations on a stack of path
    components, which the mux runs.  The meaning of the operations is the runtime library's
    documentation. *)

Inductive segment := Lit (s : string) | Var (name : string).
Record template := mkTemplate { Segments : list segment; TVerb : string }.

(** The components a list of segments matches, and the variables it binds. *)
Fixpoint matchSegments (segs : list segment) (cs : list string) (vars : gmap string string)
    : option (gmap string string) :=
  match segs, cs with
  | [], [] => Some vars
  | Lit s :: segs, c :: cs => if (c =? s)%string then matchSegments segs cs vars else None
  | Var x :: segs, c :: cs => matchSegments segs cs (<[x := c]> vars)
  | _, _ => None
  end.

(** The components without the verb the last one must end with. *)
Definition stripVerb (verb : string) (cs : list string) : option (list string) :=
  match last cs with
  | None => None
  | Some c =>
      let n := (String.length c - String.length (":" +:+ verb))%nat in
      if (0 <? Z.of_nat n) && (c =? take_bytes n c +:+ (":" +:+ verb))%string
      then Some (take (length cs - 1) cs ++ [take_bytes n c])
      else None
  end.

Definition withVerb (verb : string) (cs : list string)
    (k : list string -> option (gmap string string)) : option (gmap string string) :=
  if (verb =? "")%string then k cs else stripVerb verb cs ≫= k.

Definition matchTemplate (t : template) (cs : list string) : option (gmap string string) :=
  withVerb (TVerb t) cs (fun cs => matchSegments (Segments t) cs ∅).

(** ** The operations *)

Definition OpPush : Z := 1.
Definition OpLitPush : Z := 2.
Definition OpConcatN : Z := 4.
Definition OpCapture : Z := 5.

Fixpoint pairs (l : list Z) : list (Z * Z) :=
  match l with a :: b :: r => (a, b) :: pairs r | _ => [] end.

(** "Pushes a component", "pushes a component if it matches to the literal", "pops N items,
    concatenates them and pushes it back", "pops an item and binds it to the variable". *)
Definition stepOp (pool : list string) (op : Z * Z) (st : list string * list string * gmap string string)
    : option (list string * list string * gmap string string) :=
  let '(cs, stack, vars) := st in
  let n := Z.to_nat op.2 in
  if op.1 =? OpPush then
    match cs with c :: cs => Some (cs, c :: stack, vars) | [] => None end
  else if op.1 =? OpLitPush then
    match cs, pool !! n with
    | c :: cs, Some s => if (c =? s)%string then Some (cs, c :: stack, vars) else None
    | _, _ => None
    end
  else if op.1 =? OpConcatN then
    if (length stack <? n)%nat then None
    else Some (cs, String.concat "/" (reverse (take n stack)) :: drop n stack, vars)
  else if op.1 =? OpCapture then
    match stack, pool !! n with
    | c :: stack, Some x => Some (cs, stack, <[x := c]> vars)
    | _, _ => None
    end
  else None.

(** A path matches when the operations succeed and use up its components. *)
Fixpoint runOps (pool : list string) (ops : list (Z * Z))
    (st : list string * list string * gmap string string) : option (gmap string string) :=
  match ops with
  | [] => match st with ([], _, vars) => Some vars | _ => None end
  | op :: ops => stepOp pool op st ≫= runOps pool ops
  end.

Definition matchPattern (p : pattern) (cs : list string) : option (gmap string string) :=
  withVerb (Verb p) cs (fun cs => runOps (Pool p) (pairs (Ops p)) (cs, [], ∅)).

(** ** The compiler *)

(** The pool with [s] in it, and its place. *)
Fixpoint intern (s : string) (pool : list string) : nat * list string :=
  match pool with
  | [] => (O, [s])
  | x :: r => if (x =? s)%string then (O, pool) else let '(n, r) := intern s r in (S n, x :: r)
  end.

Fixpoint compileSegments (segs : list segment) (pool : list string) : list Z * list string :=
  match segs with
  | [] => ([], pool)
  | Lit s :: segs =>
      let '(n, pool) := intern s pool in
      let '(ops, pool) := compileSegments segs pool in
      (OpLitPush :: Z.of_nat n :: ops, pool)
  | Var x :: segs =>
      let '(n, pool) := intern x pool in
      let '(ops, pool) := compileSegments segs pool in
      (OpPush :: 0 :: OpConcatN :: 1 :: OpCapture :: Z.of_nat n :: ops, pool)
  end.

Definition compile (t : template) : pattern :=
  let '(ops, pool) := compileSegments (Segments t) [] in mkPattern ops pool (TVerb t).

Lemma intern_spec s pool :
  let '(n, pool') := intern s pool in pool' !! n = Some s /\ exists more, pool' = pool ++ more.
Proof.
  induction pool as [|x pool IH]; cbn; [by eauto|].
  destruct (String.eqb_spec x s) as [->|_]; [split; [done|]; exists []; by rewrite app_nil_r|].
  destruct (intern s pool) as [n pool']. destruct IH as [Hn (more & ->)]. eauto.
Qed.

Lemma compileSegments_grows segs pool : exists more, (compileSegments segs pool).2 = pool ++ more.
Proof.
  revert pool. induction segs as [|g segs IH]; intros pool; cbn; [exists []; by rewrite app_nil_r|].
  destruct g as [s|s]; pose proof (intern_spec s pool) as Hi;
    destruct (intern s pool) as [n pool1]; destruct Hi as [_ (m1 & ->)];
    destruct (IH (pool ++ m1)) as (m2 & Hm2);
    destruct (compileSegments segs (pool ++ m1)) as [ops pool2]; cbn in Hm2 |- *; subst pool2;
    exists (m1 ++ m2); by rewrite app_assoc.
Qed.

(** The stack is left alone by what lies above it: literals pile up, variables are popped. *)
Lemma compileSegments_runs segs pool more cs stack vars :
  let '(ops, pool') := compileSegments segs pool in
  runOps (pool' ++ more) (pairs ops) (cs, stack, vars) = matchSegments segs cs vars.
Proof.
  revert pool cs stack vars. induction segs as [|g segs IH]; intros pool cs stack vars; cbn.
  { by destruct cs. }
  destruct g as [s|s]; pose proof (intern_spec s pool) as Hi;
    destruct (intern s pool) as [n pool1]; destruct Hi as [Hn _];
    pose proof (compileSegments_grows segs pool1) as (m2 & Hm2);
    specialize (IH pool1); destruct (compileSegments segs pool1) as [ops pool2];
    cbn in Hm2; subst pool2; cbn [pairs runOps];
    assert (forall l, ((pool1 ++ m2) ++ l) !! n = Some s) as Hl
      by (intros l; rewrite <- app_assoc; by apply lookup_app_l_Some).
  - destruct cs as [|c cs]; [done|]. cbn -[Z.to_nat Z.of_nat]. rewrite Nat2Z.id, Hl.
    destruct (c =? s)%string; [|done]. cbn. apply IH.
  - destruct cs as [|c cs]; [done|]. cbn -[Z.to_nat Z.of_nat].
    change (Z.to_nat 1) with 1%nat. cbn -[Z.to_nat Z.of_nat]. rewrite Nat2Z.id, Hl. cbn. apply IH.
Qed.

Lemma compileSegments_ops segs pool :
  Forall (fun op => op.1 ∈ [OpPush; OpLitPush; OpConcatN; OpCapture])
    (pairs (compileSegments segs pool).1).
Proof.
  revert pool. induction segs as [|g segs IH]; intros pool; cbn; [constructor|].
  destruct g as [s|s]; destruct (intern s pool) as [n pool1]; specialize (IH pool1);
    destruct (compileSegments segs pool1) as [ops pool2]; cbn [fst pairs] in *;
    repeat constructor; (done || (cbn; set_solver)).
Qed.

Lemma compile_ops t :
  Forall (fun op => op.1 ∈ [OpPush; OpLitPush; OpConcatN; OpCapture]) (pairs (Ops (compile t))).
Proof.
  unfold compile. pose proof (compileSegments_ops (Segments t) []) as Ho.
  by destruct (compileSegments (Segments t) []).
Qed.

(** The compiled pattern recognises exactly the paths of the template and binds its variables
    to their components, for every template. *)
Theorem compile_correct t cs : matchPattern (compile t) cs = matchTemplate t cs.
Proof.
  unfold matchPattern, matchTemplate, compile.
  pose proof (fun cs => compileSegments_runs (Segments t) [] [] cs [] ∅) as Hr.
  destruct (compileSegments (Segments t) []) as [ops pool]. cbn. unfold withVerb.
  destruct (TVerb t =? "")%string; [by rewrite <- Hr, app_nil_r|].
  destruct (stripVerb (TVerb t) cs) as [cs'|]; [|done]. cbn. by rewrite <- Hr, app_nil_r.
Qed.

(** * The bindings of the service *)

(** The [google.api.http] annotations of proto/order/v1/order.proto. *)
Definition bindings : list (string * template) :=
  [("POST", mkTemplate [Lit "v1"; Lit "orders"] "");
   ("GET", mkTemplate [Lit "v1"; Lit "orders"; Var "order_id"] "");
   ("GET", mkTemplate [Lit "v1"; Lit "orders"] "");
   ("POST", mkTemplate [Lit "v1"; Lit "orders"; Var "order_id"] "cancel");
   ("GET", mkTemplate [Lit "v1"; Lit "orders"] "watch")].

(** ** The methods a request is served under

    The mux serves a request under its own method, with one documented exception, for the
    clients that put a long query in a posted form: a POST of a form may name another method in
    [X-HTTP-Method-Override], and is served as a GET when nothing is registered for POST that
    matches its path.  Either way the form is parsed first, which reads the body. *)
Definition firstHeader (name : string) (req : httpRequest) : string :=
  match ReqHeaders req !! name with Some (v :: _) => v | _ => "" end.

Definition formPost (req : httpRequest) : bool :=
  (Method req =? "POST")%string &&
  (firstHeader "Content-Type" req =? "application/x-www-form-urlencoded")%string.

Definition override (req : httpRequest) : string :=
  if formPost req then firstHeader "X-Http-Method-Override" req else "".

(** The request once its form has been parsed. *)
Definition formParsed (method : string) (req : httpRequest) : httpRequest :=
  mkRequest method (Components req) (RawQuery req) (ReqHeaders req) (ReqBody req) true.

(** [servedAs matched req m req']: [req] is served under the method [m], as [req']; [matched]
    tells under which methods something registered matches its path. *)
Inductive servedAs `{Unicode, Timestamps, Runtime} (matched : string -> Prop) (req : httpRequest)
    : string -> httpRequest -> Prop :=
  | ServedDirectly :
      override req = "" -> servedAs matched req (Method req) req
  | ServedOverridden f :
      override req <> "" -> ParseForm req = Ok f ->
      servedAs matched req (ToUpper (override req)) (formParsed (ToUpper (override req)) req)
  | ServedAsGet f :
      formPost req = true -> (override req = "" \/ ToUpper (override req) = "POST") ->
      ParseForm req = Ok f -> ~ matched "POST" ->
      servedAs matched req "GET" (formParsed "POST" req).

Lemma servedAs_Components `{Unicode, Timestamps, Runtime} matched req m req' :
  servedAs matched req m req' -> Components req' = Components req.
Proof. by intros []. Qed.

Lemma servedAs_iff `{Unicode, Timestamps, Runtime} (P Q : string -> Prop) req m req' :
  (P "POST" <-> Q "POST") -> servedAs P req m req' -> servedAs Q req m req'.
Proof. intros HPQ [|f|f]; econstructor; (done || naive_solver). Qed.

(** The methods for which one of the handlers has a pattern that matches the path. *)
Definition matchedBy `{Timestamps, Runtime} {H} (rs : list (string * pattern * H)) (cs : list string)
    (m : string) : Prop :=
  exists p h, (m, p, h) ∈ rs /\ is_Some (MatchPath p cs).

(** What the runtime is documented to do: a string parameter is taken as it is; a pattern means
    its operations; the mux calls a handler registered for a method the request is served
    under whose pattern matches, and finds one when there is one (of GET and POST handlers,
    and unless the last component begins with a colon); and which one it calls does not depend
    on what the handlers are. *)
Class RuntimeLaws `{Unicode, Timestamps, Runtime} := {
  runtime_String_id : forall v, runtime_String v = Ok v;
  MatchPath_ops : forall p cs,
    Forall (fun op => op.1 ∈ [OpPush; OpLitPush; OpConcatN; OpCapture]) (pairs (Ops p)) ->
    MatchPath p cs = matchPattern p cs;
  dispatch_sound : forall H (rs : list (string * pattern * H)) req h ps req',
    dispatch rs req = inr (h, ps, req') ->
    exists m p, servedAs (matchedBy rs (Components req)) req m req' /\
      (m, p, h) ∈ rs /\ MatchPath p (Components req) = Some ps;
  dispatch_complete : forall H (rs : list (string * pattern * H)) req m p h req',
    Forall (fun r : string * pattern * H => r.1.1 ∈ ["GET"; "POST"]) rs ->
    servedAs (matchedBy rs (Components req)) req m req' ->
    (m, p, h) ∈ rs -> is_Some (MatchPath p (Components req)) ->
    (forall c, last (Components req) = Some c -> HasPrefix c ":" = false) ->
    exists h' ps, dispatch rs req = inr (h', ps, req');
  dispatch_natural : forall H H' (f : H -> H') (rs : list (string * pattern * H)) req,
    dispatch (prod_map id f <$> rs) req =
      match dispatch rs req with
      | inl err => inl err
      | inr (h, ps, req') => inr (f h, ps, req')
      end }.

Section Surface.
Context `{Unicode, Timestamps, !Runtime, !RuntimeLaws} {W St : Type} (client : OrderServiceClient W St).
Context (marshaler : jsonOptions) (Header : St -> stm W (list (string * list string))).

Abbreviation routes := (RegisterOrderServiceHandlerClient client marshaler Header).

(** The patterns protoc generated are the compiled templates, in the same order. *)
Lemma patterns_compiled : fst <$> routes = (fun b => (b.1, compile b.2)) <$> bindings.
Proof. done. Qed.

(** ** What a request is bound to *)

Inductive rpc :=
  | RpcCreate (req : CreateOrderRequest)
  | RpcGet (req : GetOrderRequest)
  | RpcList (req : ListOrdersRequest)
  | RpcCancel (req : CancelOrderRequest)
  | RpcWatch (req : WatchOrdersRequest).

(** What the .proto binds a request served under a method to: the RPC's name, the path it is
    annotated with, and the RPC it asks for (or why it asks for none). *)
Inductive bound (req : httpRequest) : string -> string -> string -> result rpc -> Prop :=
  | BCreate :
      Components req = ["v1"; "orders"] ->
      bound req "POST" "/order.v1.OrderService/CreateOrder" "/v1/orders"
        (r ← createRequest marshaler req; Ok (RpcCreate r))
  | BGet id :
      Components req = ["v1"; "orders"; id] ->
      bound req "GET" "/order.v1.OrderService/GetOrder" "/v1/orders/{order_id}"
        (Ok (RpcGet (mkGetReq id)))
  | BList :
      Components req = ["v1"; "orders"] ->
      bound req "GET" "/order.v1.OrderService/ListOrders" "/v1/orders"
        (r ← listRequest req; Ok (RpcList r))
  | BCancel id :
      Components req = ["v1"; "orders"; id +:+ ":cancel"] -> id <> "" ->
      bound req "POST" "/order.v1.OrderService/CancelOrder" "/v1/orders/{order_id}:cancel"
        (r ← decoded (DecodeCancel marshaler (unread req));
         Ok (RpcCancel (mkCancelReq id (CnReason r) (CnIdempotencyKey r))))
  | BWatch :
      Components req = ["v1"; "orders:watch"] ->
      bound req "GET" "/order.v1.OrderService/WatchOrders" "/v1/orders:watch"
        (r ← watchRequest req; Ok (RpcWatch r)).

(** The methods the .proto binds the path under. *)
Definition annotated (req : httpRequest) (m : string) : Prop :=
  exists t, (m, t) ∈ bindings /\ is_Some (matchTemplate t (Components req)).

(** One RPC, and what is made of its answer. *)
Definition replied {A} (forward : ServerMetadata -> A -> httpOutcome St)
    (r : (result A * ServerMetadata) * W) : httpOutcome St * W :=
  match r with
  | ((Err err, md), w) => (HTTPError (Some md) err, w)
  | ((Ok a, md), w) => (forward md a, w)
  end.

Definition callRpc (ctx : context) (r : rpc) (w : W) : httpOutcome St * W :=
  match r with
  | RpcCreate q => replied (message_of OrderOut) (cCreateOrder client ctx q w)
  | RpcGet q => replied (message_of OrderOut) (cGetOrder client ctx q w)
  | RpcList q => replied (message_of PageOut) (cListOrders client ctx q w)
  | RpcCancel q => replied (message_of OrderOut) (cCancelOrder client ctx q w)
  | RpcWatch q => replied ForwardResponseStream (openStream client Header ctx q w)
  end.

(** What a bound request does: no RPC when its context or its message cannot be built, and
    otherwise that one. *)
Definition perform (method path : string) (r : result rpc) (req : httpRequest) (w : W)
    : httpOutcome St * W :=
  match AnnotateContext method path req with
  | Err err => (HTTPError None err, w)
  | Ok ctx =>
      match r with
      | Err err => (HTTPError (Some noMD) err, w)
      | Ok r => callRpc ctx r w
      end
  end.

(** ** The patterns on a path *)

Lemma length_append s t : String.length (s +:+ t) = (String.length s + String.length t)%nat.
Proof.
  induction s as [|c s IH]; [done|].
  change (S (String.length (s +:+ t)) = S (String.length s + String.length t)). by rewrite IH.
Qed.

Lemma stripVerb_Some verb cs cs' :
  stripVerb verb cs = Some cs' ->
  exists init c, cs' = init ++ [c] /\ c <> "" /\ cs = init ++ [c +:+ (":" +:+ verb)].
Proof.
  unfold stripVerb. destruct (last cs) as [c|] eqn:Hl; [|done].
  set (n := (String.length c - String.length (":" +:+ verb))%nat).
  destruct ((0 <? Z.of_nat n) && (c =? take_bytes n c +:+ (":" +:+ verb))%string) eqn:E; [|done].
  apply andb_true_iff in E as [Hn%Z.ltb_lt Hc%String.eqb_eq]. intros [= <-].
  apply last_Some in Hl as [l ->]. rewrite length_app. cbn [length].
  replace (length l + 1 - 1)%nat with (length l) by lia. rewrite take_app_length.
  exists l, (take_bytes n c). split_ands; [done| |by rewrite <- Hc].
  intros Hz. rewrite Hz in Hc. apply (f_equal String.length) in Hc.
  change ("" +:+ (":" +:+ verb)) with (":" +:+ verb) in Hc. unfold n in Hn. lia.
Qed.

Lemma take_bytes_app s t : take_bytes (String.length s) (s +:+ t) = s.
Proof.
  unfold take_bytes. induction s as [|c s IH]; [by destruct t|].
  change (String c (substring 0 (String.length s) (s +:+ t)) = String c s). by rewrite IH.
Qed.

Lemma stripVerb_app verb init c :
  c <> "" -> stripVerb verb (init ++ [c +:+ (":" +:+ verb)]) = Some (init ++ [c]).
Proof.
  intros Hc. unfold stripVerb. rewrite last_snoc.
  assert ((String.length (c +:+ (":" +:+ verb)) - String.length (":" +:+ verb))%nat = String.length c) as ->
    by (rewrite (length_append c); lia).
  rewrite take_bytes_app, String.eqb_refl, andb_true_r.
  assert ((0 <? Z.of_nat (String.length c)) = true) as -> by (apply Z.ltb_lt; destruct c; cbn; [done|lia]).
  rewrite length_app. cbn [length]. replace (length init + 1 - 1)%nat with (length init) by lia.
  by rewrite take_app_length.
Qed.

Ltac literal := match goal with
  | |- context [if (?c =? ?s)%string then _ else _] => destruct (String.eqb_spec c s) as [->|]; [|done]
  end.

Lemma match_collection cs ps :
  matchSegments [Lit "v1"; Lit "orders"] cs ∅ = Some ps -> cs = ["v1"; "orders"].
Proof.
  destruct cs as [|a [|b [|c cs]]]; cbn; repeat literal; try done.
Qed.

Lemma match_order cs ps :
  matchSegments [Lit "v1"; Lit "orders"; Var "order_id"] cs ∅ = Some ps ->
  exists id, cs = ["v1"; "orders"; id] /\ ps = {["order_id" := id]}.
Proof.
  destruct cs as [|a [|b [|c [|d cs]]]]; cbn; repeat literal; try done.
  intros [= <-]. eauto.
Qed.

(** A path with a verb ends with it. *)
Lemma match_verb segs verb cs ps :
  verb <> "" -> matchTemplate (mkTemplate segs verb) cs = Some ps ->
  exists init c, matchSegments segs (init ++ [c]) ∅ = Some ps /\ c <> "" /\
    cs = init ++ [c +:+ (":" +:+ verb)].
Proof.
  intros Hv. unfold matchTemplate, withVerb. cbn [TVerb Segments].
  apply String.eqb_neq in Hv as ->. destruct (stripVerb verb cs) as [cs'|] eqn:E; [|done].
  apply stripVerb_Some in E as (init & c & -> & Hc & ->). eauto.
Qed.

Lemma pathOrderId_at id : pathOrderId {["order_id" := id]} = Ok id.
Proof. unfold pathOrderId. by rewrite lookup_singleton_eq, runtime_String_id. Qed.

Lemma MatchPath_compiled t cs : MatchPath (compile t) cs = matchTemplate t cs.
Proof. rewrite <- compile_correct. apply MatchPath_ops, compile_ops. Qed.

(** ** Who answers *)

(** The closures all do the same: one RPC with the message, when there is one. *)
Lemma forwarding_performs {Q A} method path forward (rq : result Q) (box : Q -> rpc)
    (call : context -> Q -> answer A) (request : context -> httpRequest -> gmap string string -> answer A)
    req ps w :
  (forall ctx, request ctx req ps = withRequest rq (call ctx)) ->
  (forall ctx q w, callRpc ctx (box q) w = replied forward (call ctx q w)) ->
  forwarding method path forward request req ps w =
    perform method path (q ← rq; Ok (box q)) req w.
Proof.
  intros Hr Hc. unfold forwarding, perform. destruct (AnnotateContext _ _ _) as [ctx|]; [|done].
  rewrite Hr. destruct rq as [q|]; cbn; [|done]. rewrite Hc. unfold replied.
  by destruct (call ctx q w) as [[[] ?] ?].
Qed.

(** [Hm] matched the pattern of the template [t]. *)
Ltac matched t Hm := match type of Hm with MatchPath ?p _ = _ =>
  change p with (compile t) in Hm; rewrite MatchPath_compiled in Hm end.

Lemma route_performs req hm p h ps :
  (hm, p, h) ∈ routes -> MatchPath p (Components req) = Some ps ->
  exists m path r, bound req hm m path r /\ forall w, h req ps w = perform m path r req w.
Proof.
  intros Hin Hm.
  unfold RegisterOrderServiceHandlerClient in Hin. rewrite !elem_of_cons in Hin.
  destruct Hin as [[= -> -> ->]|[[= -> -> ->]|[[= -> -> ->]|[[= -> -> ->]|[[= -> -> ->]|[]%elem_of_nil]]]]].
  - matched (mkTemplate [Lit "v1"; Lit "orders"] "") Hm. apply match_collection in Hm.
    do 3 eexists. split; [by apply BCreate|]. intros w. by apply (forwarding_performs _ _ _ _ RpcCreate (cCreateOrder client)).
  - matched (mkTemplate [Lit "v1"; Lit "orders"; Var "order_id"] "") Hm.
    apply match_order in Hm as (id & Hcs & ->).
    do 3 eexists. split; [by apply (BGet req id)|]. intros w.
    apply (forwarding_performs _ _ _ (Ok (mkGetReq id)) RpcGet (cGetOrder client)); [|done].
    intros ctx. unfold request_OrderService_GetOrder_0, getRequest. by rewrite pathOrderId_at.
  - matched (mkTemplate [Lit "v1"; Lit "orders"] "") Hm. apply match_collection in Hm.
    do 3 eexists. split; [by apply BList|]. intros w. by apply (forwarding_performs _ _ _ _ RpcList (cListOrders client)).
  - matched (mkTemplate [Lit "v1"; Lit "orders"; Var "order_id"] "cancel") Hm.
    apply match_verb in Hm as (init & c & Hm & Hc & Hcs); [|done].
    apply match_order in Hm as (id & Hi & ->).
    apply (app_inj_tail init ["v1"; "orders"]) in Hi as [-> ->].
    do 3 eexists. split; [by apply (BCancel req id)|]. intros w.
    set (named := fun r => mkCancelReq id (CnReason r) (CnIdempotencyKey r)).
    apply (forwarding_performs _ _ _ (decoded (DecodeCancel marshaler (unread req)))
      (fun r => RpcCancel (named r)) (fun ctx r => cCancelOrder client ctx (named r))); [|done].
    intros ctx. unfold request_OrderService_CancelOrder_0, cancelRequest. rewrite pathOrderId_at.
    by destruct (decoded _).
  - matched (mkTemplate [Lit "v1"; Lit "orders"] "watch") Hm.
    apply match_verb in Hm as (init & c & Hm & Hc & Hcs); [|done].
    apply match_collection in Hm. apply (app_inj_tail init ["v1"]) in Hm as [-> ->].
    do 3 eexists. split; [by apply BWatch|]. intros w. by apply (forwarding_performs _ _ _ _ RpcWatch (openStream client Header)).
Qed.

Lemma append_inj_l s t v : s +:+ v = t +:+ v -> s = t.
Proof.
  intros E. apply (f_equal to_list) in E. rewrite !to_list_app in E.
  apply app_inv_tail in E. by apply to_list_inj.
Qed.

(** No request is bound twice under a method. *)
Lemma bound_unique req hm m path r m' path' r' :
  bound req hm m path r -> bound req hm m' path' r' -> m = m' /\ path = path' /\ r = r'.
Proof.
  intros [Hc|id Hc|Hc|id Hc Hid|Hc] Hb; inversion Hb as [Hc'|id' Hc'|Hc'|id' Hc' Hid'|Hc']; subst;
    rewrite Hc in Hc'; simplify_eq; try done.
  match goal with E : _ +:+ _ = _ |- _ => by apply append_inj_l in E as -> end.
Qed.

(** What the routes match is what the .proto binds. *)
Lemma matchedBy_routes req m : matchedBy routes (Components req) m <-> annotated req m.
Proof.
  split.
  - intros (p & h & Hin & Hs). assert ((m, p) ∈ fst <$> routes) as Hf
      by (apply list_elem_of_fmap; by exists (m, p, h)).
    rewrite patterns_compiled in Hf. apply list_elem_of_fmap in Hf as ([m' t] & [= -> ->] & Ht).
    exists t. by rewrite <- MatchPath_compiled.
  - intros (t & Ht & Hs). assert ((m, compile t) ∈ fst <$> routes) as Hin.
    { rewrite patterns_compiled. apply list_elem_of_fmap. by exists (m, t). }
    apply list_elem_of_fmap in Hin as ([[m' p] h] & [= <- <-] & Hin).
    exists (compile t), h. by rewrite MatchPath_compiled.
Qed.

(** Every bound request is of a path the .proto binds under its method. *)
Lemma bound_annotated req hm m path r : bound req hm m path r -> annotated req hm.
Proof.
  intros [Hc|id Hc|Hc|id Hc Hid|Hc]; unfold annotated; rewrite Hc.
  - exists (mkTemplate [Lit "v1"; Lit "orders"] ""). split; [set_solver|by eexists].
  - exists (mkTemplate [Lit "v1"; Lit "orders"; Var "order_id"] ""). split; [set_solver|by eexists].
  - exists (mkTemplate [Lit "v1"; Lit "orders"] ""). split; [set_solver|by eexists].
  - exists (mkTemplate [Lit "v1"; Lit "orders"; Var "order_id"] "cancel"). split; [set_solver|].
    assert (stripVerb "cancel" ["v1"; "orders"; id +:+ ":cancel"] = Some ["v1"; "orders"; id]) as E
      by exact (stripVerb_app "cancel" ["v1"; "orders"] id Hid).
    unfold matchTemplate. cbn -[stripVerb]. rewrite E. by eexists.
  - exists (mkTemplate [Lit "v1"; Lit "orders"] "watch"). split; [set_solver|by eexists].
Qed.

(** What a request is served as does not depend on its body having been read. *)
Lemma served_annotated req hm req' :
  servedAs (matchedBy routes (Components req)) req hm req' <-> servedAs (annotated req) req hm req'.
Proof. split; apply servedAs_iff; by rewrite matchedBy_routes. Qed.

Lemma dispatched req h ps req' :
  dispatch routes req = inr (h, ps, req') ->
  exists hm m path r, servedAs (annotated req) req hm req' /\ bound req' hm m path r /\
    forall w, h req' ps w = perform m path r req' w.
Proof.
  intros (hm & p & Hs & Hin & Hm)%dispatch_sound. rewrite served_annotated in Hs.
  rewrite <- (servedAs_Components _ _ _ _ Hs) in Hm.
  destruct (route_performs req' hm p h ps Hin Hm) as (m & path & r & Hb & Hp). eauto 10.
Qed.

(** Nothing is served in two ways that are both bound. *)
Lemma served_once req hm1 req1 m1 path1 r1 hm2 req2 m2 path2 r2 :
  servedAs (annotated req) req hm1 req1 -> bound req1 hm1 m1 path1 r1 ->
  servedAs (annotated req) req hm2 req2 -> bound req2 hm2 m2 path2 r2 -> hm1 = hm2 /\ req1 = req2.
Proof.
  assert (forall hm req', servedAs (annotated req) req hm req' -> forall m path r,
    bound req' hm m path r -> annotated req hm) as Ha.
  { intros hm req' Hs m path r Hb%bound_annotated. unfold annotated in *.
    by rewrite (servedAs_Components _ _ _ _ Hs) in Hb. }
  intros Hs1 Hb1 Hs2 Hb2. pose proof (Ha _ _ Hs1 _ _ _ Hb1). pose proof (Ha _ _ Hs2 _ _ _ Hb2).
  assert (formPost req = true -> Method req = "POST") as Hpost
    by (unfold formPost; intros [E%String.eqb_eq _]%andb_true_iff; done).
  destruct Hs1, Hs2; try done; naive_solver congruence.
Qed.

(** C12. The REST surface is its bindings.  Whatever the client does, a request either is
    answered with an error before anything is called, or is one the .proto binds under a
    method it is served under, and then does exactly what its binding says: at most one RPC,
    of that method, with the message its body or query decodes to and the order id of its
    path, whatever the body says; the RPC's error or reply is what is forwarded.  A request is
    served under its own method, and a POST of a form, as grpc-gateway documents it, under the
    one its X-HTTP-Method-Override names, or as a GET when the .proto binds no POST to its
    path, its body then having been read as the form.  A bound request is always answered so,
    unless its last component begins with a colon. *)
Theorem rest_refines_bindings req w :
  let served := ServeHTTP routes req w in
  ((exists err, served = (HTTPError None err, w)) \/
   (exists hm req' m path r, servedAs (annotated req) req hm req' /\ bound req' hm m path r /\
      served = perform m path r req' w)) /\
  (forall hm req' m path r,
     servedAs (annotated req) req hm req' -> bound req' hm m path r ->
     (forall c, last (Components req) = Some c -> HasPrefix c ":" = false) ->
     served = perform m path r req' w).
Proof.
  cbv zeta. unfold ServeHTTP. split.
  - destruct (dispatch routes req) as [err|[[h ps] req']] eqn:E; [left; by eexists|right].
    destruct (dispatched req h ps req' E) as (hm & m & path & r & Hs & Hb & Hp). eauto 10.
  - intros hm req' m path r Hs Hb Hcolon.
    pose proof (bound_annotated _ _ _ _ _ Hb) as Ha. unfold annotated in Ha.
    rewrite (servedAs_Components _ _ _ _ Hs) in Ha. apply matchedBy_routes in Ha as (p & h & Hin & Hm).
    destruct (dispatch_complete _ routes req hm p h req') as (h' & ps & E);
      [repeat constructor; set_solver|by apply served_annotated|done|done|done|].
    rewrite E. destruct (dispatched req h' ps req' E) as (hm' & m' & path' & r' & Hs' & Hb' & Hp).
    destruct (served_once _ _ _ _ _ _ _ _ _ _ _ Hs Hb Hs' Hb') as [<- _].
    destruct (bound_unique _ _ _ _ _ _ _ _ Hb Hb') as (-> & -> & ->). apply Hp.
Qed.
End Surface.

(** * A runtime, and a request through it *)

(** A body holds one field of its message, an empty one is the end of the input, and the path
    and query need no decoding. *)
Definition demo_decode {A} (zero : A) (fill : string -> A) (b : body) : A * option error :=
  match BFailed b with
  | Some e => (zero, Some e)
  | None => if (BRead b =? "")%string then (zero, Some (ESentinel EOF)) else (fill (BRead b), None)
  end.

Definition demo_context (req : httpRequest) : result context :=
  Ok (mkContext None None (Some (ReqHeaders req))).

Definition routing_error : error := EStatus CNotFound [PStr "Not Found"] [].

(** The handlers registered for a method that match, and the first of them. *)
Definition matching {H} (rs : list (string * pattern * H)) (m : string) (cs : list string)
    : list (H * gmap string string) :=
  omap (fun r : string * pattern * H =>
          if (r.1.1 =? m)%string then (fun ps => (r.2, ps)) <$> matchPattern r.1.2 cs else None) rs.

Definition demo_dispatch `{Unicode} {H} (rs : list (string * pattern * H)) (req : httpRequest)
    : error + H * gmap string string * httpRequest :=
  let serve m req' otherwise := match matching rs m (Components req) with
                                | [] => otherwise
                                | (h, ps) :: _ => inr (h, ps, req')
                                end in
  let asGet := serve "GET" (formParsed "POST" req) (inl routing_error) in
  if (override req =? "")%string
  then serve (Method req) req (if formPost req then asGet else inl routing_error)
  else let m := ToUpper (override req) in
       serve m (formParsed m req) (if (m =? "POST")%string then asGet else inl routing_error).

#[export] Instance demo_runtime `{Unicode} : Runtime := {|
  DecodeCreate _ := demo_decode (mkCreateReq "" [] "") (fun s => mkCreateReq s [] "");
  DecodeCancel _ := demo_decode (mkCancelReq "" "" "") (fun s => mkCancelReq s "" "");
  form := string;
  ParseForm req := Ok (RawQuery req);
  PopulateList q := Ok (mkListReq 0 q 0 "");
  PopulateWatch q := Ok (mkWatchReq 0);
  runtime_String := Ok;
  AnnotateContext _ _ := demo_context;
  AnnotateIncomingContext _ _ := demo_context;
  MatchPath := matchPattern;
  dispatch := @demo_dispatch _ |}.

Section DemoLaws.
Context `{Unicode, Timestamps}.

Lemma matching_in {H'} (rs : list (string * pattern * H')) m cs h ps l :
  matching rs m cs = (h, ps) :: l -> exists p, (m, p, h) ∈ rs /\ matchPattern p cs = Some ps.
Proof.
  intros E. assert ((h, ps) ∈ matching rs m cs) as Hin by (rewrite E; left).
  apply list_elem_of_omap in Hin as ([[m' p] h'] & Hr & Hx). cbn in Hx.
  destruct (String.eqb_spec m' m) as [->|]; [|done].
  destruct (matchPattern p cs) as [ps'|] eqn:Em; [|done]. injection Hx as -> ->. eauto.
Qed.

Lemma matching_none {H'} (rs : list (string * pattern * H')) m cs :
  matching rs m cs = [] <-> ~ matchedBy rs cs m.
Proof.
  split.
  - intros E (p & h & Hin & [ps Hp]). eapply not_elem_of_nil. rewrite <- E. apply list_elem_of_omap.
    exists (m, p, h). split; [exact Hin|]. cbn. rewrite String.eqb_refl. cbn in Hp. by rewrite Hp.
  - intros Hno. destruct (matching rs m cs) as [|[h ps] l] eqn:E; [done|]. exfalso.
    destruct (matching_in _ _ _ _ _ _ E) as (p & Hin & Hp). apply Hno. exists p, h. split; [done|by eexists].
Qed.

Lemma matching_natural {H' H''} (f : H' -> H'') (rs : list (string * pattern * H')) m cs :
  matching (prod_map id f <$> rs) m cs = (fun hp => (f hp.1, hp.2)) <$> matching rs m cs.
Proof.
  unfold matching. induction rs as [|[[m' p] h] rs IH]; [done|]. cbn.
  destruct (m' =? m)%string; [|exact IH]. destruct (matchPattern p cs); cbn; [by f_equal|exact IH].
Qed.

Lemma formPost_POST req : formPost req = true -> Method req = "POST".
Proof. unfold formPost. by intros [E%String.eqb_eq _]%andb_true_iff. Qed.

#[export] Instance demo_runtime_laws : RuntimeLaws.
Proof.
  split; [done|done|..].
  - intros H' rs req h ps req'. cbn. unfold demo_dispatch.
    assert (forall m r', (ToUpper (override req) = "POST" \/ override req = "") -> formPost req = true ->
      matching rs "POST" (Components req) = [] ->
      match matching rs "GET" (Components req) with
      | [] => inl routing_error
      | (h, ps) :: _ => inr (h, ps, formParsed "POST" req)
      end = inr (m, r', req') ->
      exists m' p, servedAs (matchedBy rs (Components req)) req m' req' /\ (m', p, m) ∈ rs /\
        MatchPath p (Components req) = Some r') as Hget.
    { intros m r' Ho Hf Hn%matching_none. destruct (matching rs "GET" _) as [|[h0 ps0] l] eqn:E; [done|].
      intros [= -> -> <-]. destruct (matching_in _ _ _ _ _ _ E) as (p & Hin & Hp). exists "GET", p.
      split; [eapply ServedAsGet; [done|tauto|reflexivity|done]|done]. }
    destruct (String.eqb_spec (override req) "") as [Ho|Ho].
    + destruct (matching rs (Method req) _) as [|[h0 ps0] l] eqn:E.
      * destruct (formPost req) eqn:Hf; [|done]. rewrite (formPost_POST req Hf) in E. auto.
      * intros [= -> -> <-]. destruct (matching_in _ _ _ _ _ _ E) as (p & Hin & Hp).
        exists (Method req), p. split; [by constructor|done].
    + destruct (matching rs (ToUpper _) _) as [|[h0 ps0] l] eqn:E.
      * destruct (String.eqb_spec (ToUpper (override req)) "POST") as [Hm|]; [|done]. rewrite Hm in E.
        apply Hget; auto. unfold override in Ho. by destruct (formPost req).
      * intros [= -> -> <-]. destruct (matching_in _ _ _ _ _ _ E) as (p & Hin & Hp).
        eexists _, p. split; [by eapply ServedOverridden|done].
  - intros H' rs req m p h req' _ Hs Hin Hp _. cbn. unfold demo_dispatch.
    assert (matching rs m (Components req) <> []) as Hm
      by (rewrite matching_none; intros Hno; apply Hno; by exists p, h).
    destruct Hs as [Ho|f Ho Hf|f Hf Ho _ Hno].
    + rewrite Ho. cbn. destruct (matching rs (Method req) _) as [|[h0 ps0] l]; [done|eauto].
    + apply String.eqb_neq in Ho as Ho'. rewrite Ho'.
      destruct (matching rs (ToUpper (override req)) _) as [|[h0 ps0] l]; [done|eauto].
    + apply matching_none in Hno. destruct (String.eqb_spec (override req) "") as [Ho'|Ho'].
      * rewrite (formPost_POST req Hf), Hno, Hf.
        destruct (matching rs "GET" _) as [|[h0 ps0] l]; [done|eauto].
      * destruct Ho as [?|Hm']; [done|]. rewrite Hm', Hno. cbn.
        destruct (matching rs "GET" _) as [|[h0 ps0] l]; [done|eauto].
  - intros H' H'' f rs req. cbn. unfold demo_dispatch. rewrite !matching_natural.
    destruct (matching rs "GET" _) as [|[]]; destruct (matching rs (Method req) _) as [|[]];
      destruct (matching rs (ToUpper (override req)) _) as [|[]]; cbn;
      destruct (override req =? "")%string; destruct (formPost req);
      destruct (ToUpper (override req) =? "POST")%string; done.
Qed.
End DemoLaws.

#[local] Existing Instance ascii_tables.
#[local] Existing Instance seconds_nanos.

(** A client that records what it is asked. *)
Definition recorder : OrderServiceClient (list (rpc)) unit := {|
  cCreateOrder _ q w := ((Err (errorsNew "down"), noMD), w ++ [RpcCreate q]);
  cGetOrder _ q w := ((Err (errorsNew "down"), noMD), w ++ [RpcGet q]);
  cListOrders _ q w := ((Ok ([], ""), noMD), w ++ [RpcList q]);
  cCancelOrder _ q w := ((Err (errorsNew "down"), noMD), w ++ [RpcCancel q]);
  cWatchOrders _ q w := (Ok tt, w ++ [RpcWatch q]) |}.

(** A cancellation whose body names another order, and a read posted as a form. *)
Definition cancel_request : httpRequest :=
  mkRequest "POST" ["v1"; "orders"; "o-1:cancel"] "" ∅ (mkBody "o-2" None) false.
Definition posted_read : httpRequest :=
  mkRequest "POST" ["v1"; "orders"; "o-1"] ""
    {["Content-Type" := ["application/x-www-form-urlencoded"]]} (mkBody "a=b" None) false.

Abbreviation recorded req :=
  (ServeHTTP (RegisterOrderServiceHandlerClient recorder jsonMarshaler (fun _ w => (Ok [], w))) req []).

Lemma rest_refines_bindings_witness :
  recorded cancel_request =
    (HTTPError (Some noMD) (errorsNew "down"), [RpcCancel (mkCancelReq "o-1" "" "")]) /\
  recorded posted_read =
    (HTTPError (Some noMD) (errorsNew "down"), [RpcGet (mkGetReq "o-1")]).
Proof.
  split.
  - destruct (rest_refines_bindings recorder jsonMarshaler (fun _ w => (Ok [], w)) cancel_request []) as [_ Hs].
    refine (eq_trans (Hs _ _ _ _ _ (ServedDirectly _ cancel_request eq_refl)
      (BCancel jsonMarshaler cancel_request "o-1" eq_refl ltac:(discriminate)) _) eq_refl).
    intros c. cbn. intros [= <-]. reflexivity.
  - destruct (rest_refines_bindings recorder jsonMarshaler (fun _ w => (Ok [], w)) posted_read []) as [_ Hs].
    refine (eq_trans (Hs _ _ _ _ _ (ServedAsGet _ posted_read (RawQuery posted_read : @form demo_runtime) eq_refl (or_introl eq_refl) eq_refl _)
      (BGet jsonMarshaler (formParsed "POST" posted_read) "o-1" eq_refl) _) eq_refl).
    + intros (t & Ht & Hm). unfold bindings in Ht.
      rewrite !elem_of_cons in Ht.
      destruct Ht as [[= ->]|[[=]|[[=]|[[= ->]|[[=]|[]%elem_of_nil]]]]]; vm_compute in Hm; by destruct Hm.
    + intros c. cbn. intros [= <-]. reflexivity.
Defined.
