(* ===== verification/RestChain.v ===== *)
(** The REST edge over the program's own server: what a connection to it makes of a REST call,
    and what the mode the program did not choose would have made of it. *)

From S2P Require Import Prelude GoErr GoStr GoLog AppErr Order Cursor Store Auth RateLimit GrpcConvert GrpcServer.
From S2P Require Import Interceptor InterceptorSpec Gateway OrderGrpc RestApi RestSpec.

(** * The server's implementation

    [OrderServer] over a store of states [S]: what the handlers of GrpcServer.v do is done to
    the world they run in, which also holds what a watch has sent. *)

Section OrderServer.
Context `{Unicode, CursorEnv, Timestamps}.
Context {L S T : Type} `{!StoreOps S, !StoreOps T, !AtomicOps S T}.
(** The uuid library, and what the stream of a watch reports. *)
Context (newID : world L (S * list POrder) -> result string).
Context (send ctxErr : nat -> option error) (over : error).

Abbreviation W := (world L (S * list POrder)).

Definition setExt (x : S * list POrder) (w : W) : W :=
  mkWorld (InUse w) (Now w) (Logs w) (Headers w) (LimiterState w) x.

(** [(resp, err)] of a handler: a response exactly when there is no error. *)
Definition onStore {A} (m : stm S A) : @returns L (S * list POrder) A := fun w =>
  let '(r, s) := m (Ext w).1 in
  (Done (match r with Ok a => (Some a, None) | Err e => (None, Some e) end), setExt (s, (Ext w).2) w).

Definition NewOrderServer : @OrderServiceServer _ L (S * list POrder) := {|
  sCreateOrder := fun ctx req w => onStore (CreateOrder (T:=T) (newID w) (Now w) ctx req) w;
  sGetOrder := fun ctx req => onStore (GetOrder ctx (GtOrderId req));
  sListOrders := fun ctx req => onStore (ListOrders ctx req);
  sCancelOrder := fun ctx req w => onStore (CancelOrder (T:=T) (Now w) ctx req) w;
  sWatchOrders := fun ctx req w =>
    let '((sent, e), s) := WatchOrders send ctxErr over ctx (WtStatus req) (Ext w).1 in
    (Done (Some e), setExt (s, (Ext w).2 ++ sent) w) |}.
End OrderServer.

(** * Through the chain *)

Section Chain.
Context `{Unicode, Timestamps, !Runtime, !RuntimeLaws, StatusLaws} {L X St : Type} `{!Limiter L}.
Context `{Wire, !ProtoMessage CreateOrderRequest, !ProtoMessage GetOrderRequest,
  !ProtoMessage ListOrdersRequest, !ProtoMessage CancelOrderRequest,
  !ProtoMessage WatchOrdersRequest, !ProtoMessage POrder, !ProtoMessage page}.
Context (marshals : list detail -> bool) (debugStack : string) (durationString : Z -> string).
Context (Verify : Auth.context -> string -> io L X (result Principal)).
Context (d : @settings L X message reply) (transparent_metrics : transparent (Metrics d)).
Context (transparent_streams : forall m h ctx w, MetricsStream d m h ctx w = h ctx w).
Context (Header : St -> stm (world L X) (list (string * list string))).
(** The library's part of a call: the context a server derives from a call's outgoing
    metadata, and the reply or status, with the metadata, that comes back. *)
Context (incoming : Auth.context -> Auth.context).
Context (answered : outcome (option reply * option error) -> result wire * ServerMetadata).
(** Its part of a stream: opening one, what is put on it and what is read of it, the context
    and method it was opened with, and what the client is left with when the server's side
    has ended. *)
Context (opened : Auth.context -> string -> stm (world L X) St).
Context (sentOn : St -> wire -> stm (world L X) unit) (received : St -> io L X (result wire)).
Context (streamCtx : St -> Auth.context) (streamMethod : St -> string).
Context (ended : St -> outcome (option error) -> stm (world L X) unit).

Abbreviation interceptors := (chain (unary marshals debugStack durationString (fun _ => true) Verify d)).
Abbreviation streamInterceptors := (streamChain (stream marshals debugStack durationString Verify d)).
Abbreviation server := (@OrderServiceServer _ L X).
Abbreviation connection := (ClientConn (world L X) St).

(** The server runs the handler of the descriptor, inside the chain. *)
Definition serveMethod (srv : server) (method : string) (ctx : Auth.context) (b : wire)
    : @returns L X reply :=
  match methodOf OrderService_ServiceDesc method with
  | Some h => h srv ctx b (Some interceptors)
  | None => mret (None, Some (EStatus CUnimplemented [PStr "unknown method"] []))
  end.

Definition serveStream (srv : server) (method : string) (recv : io L X (result wire))
    (ctx : Auth.context) : io L X (option error) :=
  match streamOf OrderService_ServiceDesc method with
  | Some h => streamInterceptors method (h srv recv) ctx
  | None => mret (Some (EStatus CUnimplemented [PStr "unknown method"] []))
  end.

(** A connection to [srv]: its calls are served by it, a stream's once the client has sent
    all it has. *)
Definition connects (cc : connection) (srv : server) : Prop :=
  (forall ctx m b w, Invoke cc ctx m b w =
     let '(r, w') := serveMethod srv m (incoming ctx) b w in (answered r, w')) /\
  (forall ctx m w, NewStream cc ctx m w = opened ctx m w) /\
  (forall st b w, SendMsg cc st b w = sentOn st b w) /\
  (forall st w, CloseSend cc st w =
     let '(r, w') := serveStream srv (streamMethod st) (received st) (incoming (streamCtx st)) w in
     ended st r w').

(** The calls the chain lets through for method [m]. *)
Abbreviation allowed m ctx q w0 ctx' := (admissible (fun _ => true) Verify d m ctx q w0 ctx').

(** The two implementations agree on those. *)
Definition agree (srv1 srv2 : server) : Prop := forall ctx w0 ctx' w,
  (forall q, allowed OrderService_CreateOrder_FullMethodName ctx (CreateOrderIn q) w0 ctx' ->
     sCreateOrder srv1 ctx' q w = sCreateOrder srv2 ctx' q w) /\
  (forall q, allowed OrderService_GetOrder_FullMethodName ctx (GetOrderIn q) w0 ctx' ->
     sGetOrder srv1 ctx' q w = sGetOrder srv2 ctx' q w) /\
  (forall q, allowed OrderService_ListOrders_FullMethodName ctx (ListOrdersIn q) w0 ctx' ->
     sListOrders srv1 ctx' q w = sListOrders srv2 ctx' q w) /\
  (forall q, allowed OrderService_CancelOrder_FullMethodName ctx (CancelOrderIn q) w0 ctx' ->
     sCancelOrder srv1 ctx' q w = sCancelOrder srv2 ctx' q w) /\
  (forall q, admissibleStream Verify d OrderService_WatchOrders_FullMethodName ctx w0 ctx' ->
     sWatchOrders srv1 ctx' q w = sWatchOrders srv2 ctx' q w).

Lemma boxed_eq {A} (box : A -> reply) (m1 m2 : @returns L X A) w :
  m1 w = m2 w -> boxed box m1 w = boxed box m2 w.
Proof. unfold boxed, mbind, io_bind. by intros ->. Qed.

(** A generated handler inside the chain sees its implementation only through the calls the
    chain lets through. *)
Lemma unaryHandler_same {In} (box : In -> message) unbox method (call1 call2 : Auth.context -> In -> @returns L X reply)
    ctx dec w :
  (forall q, unbox (box q) = Some q) ->
  (forall q ctx' w', allowed method ctx (box q) w ctx' -> call1 ctx' q w' = call2 ctx' q w') ->
  unaryHandler box unbox method call1 ctx dec (Some interceptors) w =
  unaryHandler box unbox method call2 ctx dec (Some interceptors) w.
Proof.
  intros Hu Hc. unfold unaryHandler. destruct dec as [q|]; [|done].
  apply only_admissible_calls; [done|]. intros ctx' Ha w'. rewrite Hu. by apply Hc.
Qed.

Lemma serveMethod_same srv1 srv2 m ctx b w :
  agree srv1 srv2 -> serveMethod srv1 m ctx b w = serveMethod srv2 m ctx b w.
Proof.
  intros Ha. unfold serveMethod, methodOf, named.
  destruct (List.find _ _) as [[name h]|] eqn:E; [|done]. cbn.
  apply find_some in E as [Hin _]. cbn in Hin.
  destruct Hin as [[= <- <-]|[[= <- <-]|[[= <- <-]|[[= <- <-]|[]]]]].
  all: apply unaryHandler_same; [done|]; intros q ctx' w' Hq; apply boxed_eq;
    destruct (Ha ctx w ctx' w') as (H1' & H2' & H3' & H4' & _); auto.
Qed.

Lemma serveStream_same srv1 srv2 m recv ctx w :
  agree srv1 srv2 -> serveStream srv1 m recv ctx w = serveStream srv2 m recv ctx w.
Proof.
  intros Ha. unfold serveStream, streamOf, named.
  destruct (List.find _ _) as [[name h]|] eqn:E; [|done]. cbn.
  apply find_some in E as [Hin Hm]. cbn in Hin. destruct Hin as [[= <- <-]|[]].
  apply String.eqb_eq in Hm. change (OrderService_WatchOrders_FullMethodName = m) in Hm. subst m.
  apply only_admissible_streams; [done|]. intros ctx' Hctx w'.
  apply same_bind; [done|]. intros [q|] w2; [|done].
  destruct (Ha ctx w ctx' w2) as (_ & _ & _ & _ & Hw). auto.
Qed.

Section Two.
Context (cc1 cc2 : connection) (srv1 srv2 : server).
Context (Hc1 : connects cc1 srv1) (Hc2 : connects cc2 srv2) (Hagree : agree srv1 srv2).

Lemma invoke_same {In Out} `{!ProtoMessage In, !ProtoMessage Out} m ctx (q : In) w :
  invoke (Out:=Out) cc1 m ctx q w = invoke cc2 m ctx q w.
Proof.
  unfold invoke. destruct (Marshal q) as [b|]; [|done].
  destruct Hc1 as [-> _], Hc2 as [-> _]. by rewrite (serveMethod_same srv1 srv2).
Qed.

Lemma watch_same ctx q w : clientWatchOrders cc1 ctx q w = clientWatchOrders cc2 ctx q w.
Proof.
  destruct Hc1 as (_ & Hn1 & Hs1 & He1), Hc2 as (_ & Hn2 & Hs2 & He2).
  unfold clientWatchOrders, mbind, stm_bind. rewrite Hn1, Hn2.
  destruct (opened _ _ w) as [[st|] w1]; [|done]. unfold lift.
  destruct (Marshal q) as [b|]; [|done]. rewrite Hs1, Hs2.
  destruct (sentOn st b w1) as [[[]|] w2]; [|done]. rewrite He1, He2.
  by rewrite (serveStream_same srv1 srv2).
Qed.

(** A closure the mux calls makes the same of a request whose calls are answered the same. *)
Lemma forwarding_same {A} method path forward
    (request1 request2 : context -> httpRequest -> gmap string string -> @answer (world L X) A) req ps w :
  (forall ctx, request1 ctx req ps w = request2 ctx req ps w) ->
  forwarding (St:=St) method path forward request1 req ps w = forwarding method path forward request2 req ps w.
Proof. intros Hr. unfold forwarding. destruct (AnnotateContext _ _ _); [|done]. by rewrite Hr. Qed.

Lemma withRequest_same {Req A} (r : result Req) (call1 call2 : Req -> @answer (world L X) A) w :
  (forall q, call1 q w = call2 q w) -> withRequest r call1 w = withRequest r call2 w.
Proof. destruct r; cbn; auto. Qed.

(** The handler of a connection for each of the five methods. *)
Inductive rpcName := NCreate | NGet | NList | NCancel | NWatch.
Definition handlerOf (cc : connection) (n : rpcName) : httpHandler (world L X) St :=
  match n with
  | NCreate => forwarding "/order.v1.OrderService/CreateOrder" "/v1/orders" (message_of OrderOut)
      (request_OrderService_CreateOrder_0 (NewOrderServiceClient cc) jsonMarshaler)
  | NGet => forwarding "/order.v1.OrderService/GetOrder" "/v1/orders/{order_id}" (message_of OrderOut)
      (request_OrderService_GetOrder_0 (NewOrderServiceClient cc))
  | NList => forwarding "/order.v1.OrderService/ListOrders" "/v1/orders" (message_of PageOut)
      (request_OrderService_ListOrders_0 (NewOrderServiceClient cc))
  | NCancel => forwarding "/order.v1.OrderService/CancelOrder" "/v1/orders/{order_id}:cancel"
      (message_of OrderOut) (request_OrderService_CancelOrder_0 (NewOrderServiceClient cc) jsonMarshaler)
  | NWatch => forwarding "/order.v1.OrderService/WatchOrders" "/v1/orders:watch" ForwardResponseStream
      (request_OrderService_WatchOrders_0 (NewOrderServiceClient cc) Header)
  end.
Definition registrations : list (string * pattern * rpcName) :=
  [("POST", pattern_OrderService_CreateOrder_0, NCreate); ("GET", pattern_OrderService_GetOrder_0, NGet);
   ("GET", pattern_OrderService_ListOrders_0, NList); ("POST", pattern_OrderService_CancelOrder_0, NCancel);
   ("GET", pattern_OrderService_WatchOrders_0, NWatch)].

Lemma NewMux_registrations cc : NewMux cc Header = prod_map id (handlerOf cc) <$> registrations.
Proof. done. Qed.

Lemma handlerOf_same n req ps w : handlerOf cc1 n req ps w = handlerOf cc2 n req ps w.
Proof.
  destruct n; apply forwarding_same; intros ctx; apply withRequest_same; intros q; cbn;
    try apply invoke_same.
  unfold openStream. cbn [cWatchOrders NewOrderServiceClient]. by rewrite watch_same.
Qed.
End Two.

(** C11. The REST surface has no way around the interceptors: replacing the implementation behind
    its connection by any other that agrees on the calls the chains let through (for a method
    with a rule, under the principal the verifier answers for the presented token, in scope,
    and for the four unary methods with a validated request) changes no answer to any HTTP
    request whatever, a watch included, and nothing else.  The server's side of a watch is run
    when the client has sent its request. *)
Theorem rest_default_deny cc1 cc2 srv1 srv2 req w :
  connects cc1 srv1 -> connects cc2 srv2 -> agree srv1 srv2 ->
  ServeHTTP (NewMux cc1 Header) req w = ServeHTTP (NewMux cc2 Header) req w.
Proof.
  intros Hc1 Hc2 Ha. unfold ServeHTTP. rewrite !NewMux_registrations, !dispatch_natural.
  destruct (dispatch registrations req) as [err|[[n ps] req']]; [done|].
  by apply (handlerOf_same cc1 cc2 srv1 srv2).
Qed.
End Chain.

(** * Server mode

    The mode gateway.go turns down calls the implementation with no interceptor around it.  An
    anonymous request is then stopped by [tenantOf] alone, whose plain error the edge can only
    report as a fault of the server. *)

Section ServerMode.
Context `{Unicode, CursorEnv, Timestamps, Runtime}.
Context {L S T : Type} `{!StoreOps S, !StoreOps T, !AtomicOps S T}.
Context (newID : world L (S * list POrder) -> result string).
Context (send ctxErr : nat -> option error) (over : error).
Context (transportStream : world L (S * list POrder) -> ServerMetadata).

Abbreviation srv := (NewOrderServer (T:=T) newID send ctxErr over).

Lemma onStore_refused {A} (m : stm S A) e (w : world L (S * list POrder)) :
  m (Ext w).1 = (Err e, (Ext w).1) -> onStore m w = (Done (None, Some e), w).
Proof. unfold onStore. intros ->. by destruct w as [? ? ? ? ? []]. Qed.

(** Without a principal no method of the implementation does anything. *)
Lemma anonymous_refused ctx w :
  TenantFrom ctx = None ->
  (forall q, sCreateOrder srv ctx q w = (Done (None, Some unauthenticated), w)) /\
  (forall q, sGetOrder srv ctx q w = (Done (None, Some unauthenticated), w)) /\
  (forall q, sListOrders srv ctx q w = (Done (None, Some unauthenticated), w)) /\
  (forall q, sCancelOrder srv ctx q w = (Done (None, Some unauthenticated), w)).
Proof.
  intros Ht. cbn [sCreateOrder sGetOrder sListOrders sCancelOrder NewOrderServer].
  split_ands; intros q; apply onStore_refused;
    [unfold CreateOrder|unfold GetOrder|unfold ListOrders|unfold CancelOrder];
    unfold tenantOf; by rewrite Ht.
Qed.

(** The status a plain application error is converted to has the code [Unknown], and so the
    response the status 500: the caller is not told to authenticate. *)
Lemma server_mode_anonymous {J} (Convert : error -> AppErr.Status) codeString (protojson : detail -> option J)
    encodes prefix keys md w :
  SCode (Convert unauthenticated) = CUnknown -> (forall b, encodes b = true) ->
  RStatus w = None -> keys ≡ₚ AllKinds ->
  RStatus (handleError Convert codeString protojson encodes prefix keys md unauthenticated w) = Some 500.
Proof.
  intros Hc He Hw Hk. unfold handleError. rewrite He, Hc. cbn.
  destruct (writeGRPCMetadata_keeps prefix md (headerSet "Content-Type" "application/json" w)) as [-> _].
  cbn. rewrite Hw. cbn. f_equal. apply (HTTPStatusFromCode_unmapped keys CUnknown Hk).
  by intros [].
Qed.

End ServerMode.

(** * An anonymous request, in both modes *)

Section Example.
#[local] Existing Instance seconds_nanos.
#[local] Existing Instance ascii_tables.
#[local] Existing Instance AllowAll.
#[local] Instance status_of : StatusLib := {| statusOf := errAs as_status |}.
#[local] Instance status_laws : StatusLaws.
Proof. split; [done|]. intros e He. exact He. Defined.

(** Messages cross the connection unencoded. *)
Inductive parcel := InParcel (m : message) | OutParcel (r : reply) | WatchParcel (q : WatchOrdersRequest).
#[local] Instance demo_wire : Wire := {| wire := parcel |}.
Definition unexpected {A} : result A := Err (ELib "proto: cannot parse").
#[local] Instance create_wire : ProtoMessage CreateOrderRequest := {|
  Marshal q := Ok (InParcel (CreateOrderIn q));
  Unmarshal b := match b with InParcel (CreateOrderIn q) => Ok q | _ => unexpected end |}.
#[local] Instance get_wire : ProtoMessage GetOrderRequest := {|
  Marshal q := Ok (InParcel (GetOrderIn q));
  Unmarshal b := match b with InParcel (GetOrderIn q) => Ok q | _ => unexpected end |}.
#[local] Instance list_wire : ProtoMessage ListOrdersRequest := {|
  Marshal q := Ok (InParcel (ListOrdersIn q));
  Unmarshal b := match b with InParcel (ListOrdersIn q) => Ok q | _ => unexpected end |}.
#[local] Instance cancel_wire : ProtoMessage CancelOrderRequest := {|
  Marshal q := Ok (InParcel (CancelOrderIn q));
  Unmarshal b := match b with InParcel (CancelOrderIn q) => Ok q | _ => unexpected end |}.
#[local] Instance watch_wire : ProtoMessage WatchOrdersRequest := {|
  Marshal q := Ok (WatchParcel q);
  Unmarshal b := match b with WatchParcel q => Ok q | _ => unexpected end |}.
#[local] Instance order_wire : ProtoMessage POrder := {|
  Marshal o := Ok (OutParcel (OrderOut o));
  Unmarshal b := match b with OutParcel (OrderOut o) => Ok o | _ => unexpected end |}.
#[local] Instance page_wire : ProtoMessage page := {|
  Marshal p := Ok (OutParcel (PageOut p));
  Unmarshal b := match b with OutParcel (PageOut p) => Ok p | _ => unexpected end |}.

(** A deployment that verifies tokens and is given none. *)
Definition deny (ctx : Auth.context) (tok : string) : io unit (option parcel) (result Principal) :=
  mret (Err ErrNoCredentials).
Definition deployment : @settings unit (option parcel) message reply :=
  mkSettings "orders" 4 1000 2000 DefaultPolicy (fun _ => None) (fun _ h => h) (fun _ h => h).
Definition answering (r : outcome (option reply * option error)) : result wire * ServerMetadata :=
  match r with
  | Done (_, Some e) => (Err e, noMD)
  | Done (Some r, None) => (Ok (OutParcel r), noMD)
  | _ => (Err (ELib "stream closed"), noMD)
  end.
Abbreviation idle := (world unit (option parcel)).
Definition no_header (st : Auth.context * string) : stm idle (list (string * list string)) := mret [].

Abbreviation serve srv := (serveMethod (fun _ => true) "" (fun _ => "") deny deployment srv).

(** A stream is the context and method it was opened with; what is sent is in the world. *)
Definition opening (ctx : Auth.context) (m : string) : stm idle (Auth.context * string) := mret (ctx, m).
Definition sending (st : Auth.context * string) (b : parcel) : stm idle unit := fun w =>
  (Ok tt, mkWorld (InUse w) (Now w) (Logs w) (Headers w) (LimiterState w) (Some b)).
Definition receiving (st : Auth.context * string) : io unit (option parcel) (result parcel) := fun w =>
  (Done (match Ext w with Some b => Ok b | None => Err (ESentinel EOF) end), w).
Definition ending (st : Auth.context * string) (r : outcome (option error)) : stm idle unit := fun w =>
  (match r with Done (Some e) => Err e | _ => Ok tt end, w).

Definition connection_to (srv : @OrderServiceServer _ unit (option parcel))
    : ClientConn idle (Auth.context * string) := {|
  Invoke ctx m b w := let '(r, w') := serve srv m ctx b w in (answering r, w');
  NewStream := opening;
  SendMsg := sending;
  CloseSend st w :=
    let '(r, w') := serveStream (fun _ => true) "" (fun _ => "") deny deployment srv st.2 (receiving st) st.1 w in
    ending st r w' |}.

(** An implementation that would give everything away. *)
Definition leaky : @OrderServiceServer _ unit (option parcel) := {|
  sCreateOrder _ _ := mret (Some (mkPOrder "1" "acme" "c" 1 [] None None None), None);
  sGetOrder _ _ := mret (Some (mkPOrder "1" "acme" "c" 1 [] None None None), None);
  sListOrders _ _ := mret (Some ([mkPOrder "1" "acme" "c" 1 [] None None None], ""), None);
  sCancelOrder _ _ := mret (Some (mkPOrder "1" "acme" "c" 1 [] None None None), None);
  sWatchOrders _ _ := mret None |}.

Definition list_request : httpRequest := mkRequest "GET" ["v1"; "orders"] "" ∅ (mkBody "" None) false.
Definition watch_request : httpRequest :=
  mkRequest "GET" ["v1"; "orders:watch"] "" ∅ (mkBody "" None) false.
Definition idle_world : idle := mkWorld 0 0 [] [] tt None.

Lemma nothing_granted m ctx w ctx' :
  m ∈ order_method <$> ["CreateOrder"; "GetOrder"; "ListOrders"; "CancelOrder"; "WatchOrders"] ->
  ~ granted deny DefaultPolicy m ctx w ctx'.
Proof.
  intros Hm (rule & Hrule & Hg). destruct Hg as [[Hp _]|(_ & p & w2 & [=] & _)].
  apply (DefaultPolicy_public m rule Hrule) in Hp as [-> | ->];
    apply (bool_decide_pack _) in Hm; vm_compute in Hm; exact Hm.
Qed.

Lemma nothing_allowed srv : agree deny deployment leaky srv.
Proof.
  intros ctx w0 ctx' w.
  split_ands; intros q Hq; exfalso;
    first [destruct Hq as (_ & authCtx & now & Hg & _)|destruct Hq as (authCtx & now & Hg & _)];
    (eapply nothing_granted; [|exact Hg]); apply (bool_decide_unpack _); vm_compute; exact I.
Qed.

(** Behind the chain even the leaky implementation is as good as none. *)
Lemma rest_default_deny_witness :
  Forall (fun req =>
    ServeHTTP (NewMux (connection_to leaky) no_header) req idle_world =
    ServeHTTP (NewMux (connection_to UnimplementedOrderServiceServer) no_header) req idle_world)
    [list_request; watch_request].
Proof.
  apply Forall_forall. intros req _.
  apply (rest_default_deny (fun _ => true) "" (fun _ => "") deny deployment (fun _ _ _ _ _ => eq_refl)
    (fun _ _ _ _ => eq_refl) no_header (fun ctx => ctx) answering opening sending receiving fst snd ending
    _ _ leaky UnimplementedOrderServiceServer).
  - split; [|split; [|split]]; reflexivity.
  - split; [|split; [|split]]; reflexivity.
  - apply nothing_allowed.
Defined.

(** What the caller is told: to authenticate.  In server mode the implementation's own refusal
    comes back as a fault of the server ([server_mode_anonymous]). *)
Definition told {St} (o : httpOutcome St) : option Z :=
  match o with
  | HTTPError _ e =>
      RStatus (handleError
        (fun e => match e with EStatus c m ds => mkStatus c m ds | _ => mkStatus CUnknown [PVal e] [] end)
        (fun _ => "") (fun _ => None : option unit) (fun _ => true) "" AllKinds None e
        (mkResponse ∅ None None))
  | _ => None
  end.

Example told_to_authenticate :
  told (ServeHTTP (NewMux (connection_to leaky) no_header) list_request idle_world).1 = Some 401 /\
  told (ServeHTTP (NewMux (connection_to leaky) no_header) watch_request idle_world).1 = Some 401.
Proof. split; vm_compute; reflexivity. Qed.
End Example.
