(* ===== verification/App.v ===== *)
(** internal/app/app.go and what it builds from: auth/verifier.go, gormx/gormx.go,
    observability/tracing.go and cmd/orderd, with the transport options of grpcapi/chain.go.

    The process is its open resources, the journal of what shutting down did, the clock,
    the health it reports and its log.  What the libraries answer during start-up and
    shutdown is a [platform]; building the application is a computation that acquires
    resources and registers the steps that release them. *)

From S2P Require Import Prelude GoErr GoStr GoNum GoLog Store Auth Shutdown.
From S2P Require Config Cursor Oidc OrderMem Seed RateLimit GrpcServer Interceptor.

(** * The process *)

Inductive resource := Exporter | TracerProvider | PostgresPool | RedisClient | GatewayListener | GatewayConn.

#[export] Instance resource_eq_dec : EqDecision resource.
Proof. solve_decision. Defined.

Inductive event :=
  | SetServing (serving : bool)
  | Drained (d : Z)
  | Closed (step : string) (deadline : option Z).

Record process := mkProcess {
  Opened : list resource; Journal : list event; Clock : Z; PLogs : list logline }.

Definition step : Type := @Step process.

(** What the libraries answer. *)
Record platform := mkPlatform {
  ExporterErr : option error; ResourceErr : option error; ValidatorErr : option error;
  GormOpenErr : option error; UnwrapErr : option error; GuardErr : option error;
  PingErr : option error; UnwrapAgainErr : option error;
  PolicyOrder : list string; ServiceInfo : list (string * list string);
  Files : list (string * list (string * list string));
  DialErr : option error; MuxErr : option error;
  CloseErr : string -> option error;            (* what a closer returns *)
  CloseTime : string -> Z }.                    (* how long it takes *)

(** * The application under construction

    [a.steps] grows with the resources; both are state. *)

Record building := mkBuilding { Proc : process; Steps : list step }.

Definition build (A : Type) : Type := stm building A.

Definition onProc (f : process -> process) : build unit := fun b =>
  (Ok tt, mkBuilding (f (Proc b)) (Steps b)).

Definition open_resource (r : resource) : build unit :=
  onProc (fun p => mkProcess (Opened p ++ [r]) (Journal p) (Clock p) (PLogs p)).

Definition release (r : resource) (p : process) : process :=
  mkProcess (List.filter (fun r' => negb (bool_decide (r' = r))) (Opened p)) (Journal p)
    (Clock p) (PLogs p).

Definition logTo (l : logline) (p : process) : process :=
  mkProcess (Opened p) (Journal p) (Clock p) (PLogs p ++ [l]).
Definition logLine (l : logline) : build unit := onProc (logTo l).

(** [if err != nil { return err }] around a library call. *)
Definition failing (e : option error) (wrapErr : error -> error) : build unit :=
  match e with Some err => fail (wrapErr err) | None => mret tt end.

Definition addStep (s : step) : build unit := fun b =>
  (Ok tt, mkBuilding (Proc b) (Steps b ++ [s])).

Definition note (e : event) (p : process) : process :=
  mkProcess (Opened p) (Journal p ++ [e]) (Clock p) (PLogs p).

Definition seconds5 : Z := 5 * Second.

Section App.
Context `{Unicode, Cursor.CursorEnv, Oidc.AuthLib} (pl : platform) (cfg : Config.Config).

(** A closer: it notes its name and deadline, takes its time, releases what it closes. *)
Definition closer (name : string) (rs : list resource) : context -> process -> option error * process :=
  fun ctx p =>
    (CloseErr pl name,
     let p := foldr release p rs in
     mkProcess (Opened p) (Journal p ++ [Closed name (CtxDeadline ctx)])
       (Clock p + CloseTime pl name) (PLogs p)).

Definition closing (name : string) (timeout : Z) (rs : list resource) : step :=
  mkStep name timeout (Some (closer name rs)).

Definition clock (p : process) : Z := Clock p.

(** [closeOpened], run before an early return of [New]. *)
Definition closeOpened : build unit := fun b =>
  let '(_, p) := Shutdown.Shutdown clock Background (Steps b) (Proc b) in
  (Ok tt, mkBuilding p (Steps b)).

Definition orClose {A} (m : build A) : build A := fun b =>
  match m b with
  | (Ok a, b) => (Ok a, b)
  | (Err e, b) => (Err e, (closeOpened b).2)
  end.

(** ** auth/verifier.go *)

Inductive verifier := DevVerifier | OIDC (v : Oidc.OIDCVerifier).

Definition oidcOptions : Oidc.OIDCOptions :=
  let o := Config.OIDC cfg in
  Oidc.mkOIDC (Config.IssuerURL o) (Config.Audience o) (Config.JWKSURL o) (Config.Leeway o)
    (mkClaimOptions (Config.TenantClaim o) (Config.ScopeClaim o) (Config.ServiceClaim o))
    (Config.AllowInsecureIssuer o) (Config.MaxKeyAge o) 0.

Definition devWarning : logline :=
  mkLog LevelWarn "AUTH_MODE=dev: every request is served as a fixed principal and NO credential is verified"
    [("subject", AStr (Subject DevPrincipal)); ("tenant", AStr (PTenantID DevPrincipal));
     ("remedy", AStr "set AUTH_MODE=oidc with OIDC_ISSUER_URL and OIDC_AUDIENCE before exposing this to any untrusted network")].

Definition insecureWarning : logline :=
  mkLog LevelWarn "OIDC_ALLOW_INSECURE_ISSUER=true: tokens and signing keys may cross this network in cleartext"
    [("issuer", AStr (Config.IssuerURL (Config.OIDC cfg)));
     ("remedy", AStr "unset it and give the issuer a TLS certificate before this reaches any network you do not control")].

Definition NewVerifier : build verifier :=
  if (Config.AuthMode cfg =? Config.AuthDev)%string
  then _ ← logLine devWarning; mret DevVerifier
  else if (Config.AuthMode cfg =? Config.AuthOIDC)%string
  then
    _ ← (if Config.AllowInsecureIssuer (Config.OIDC cfg) then logLine insecureWarning else mret tt);
    v ← lift (Oidc.NewOIDCVerifier oidcOptions);
    mret (OIDC v)
  else fail (EFmt [PStr "unknown AUTH_MODE "; PQuote (Config.AuthMode cfg);
                   PStr ": no verifier can be built, refusing to start"]).

(** ** observability/tracing.go *)

(** The flush function returned: nothing without a collector. *)
Definition NewTracerProvider : build (list resource) :=
  if (Config.OTLPEndpoint (Config.Telemetry cfg) =? "")%string then mret []
  else
    _ ← failing (ExporterErr pl) (wrapf [PStr "otlp trace exporter"]);
    _ ← open_resource Exporter;
    _ ← failing (ResourceErr pl) (wrapf [PStr "build otel resource"]);
    _ ← open_resource TracerProvider;
    mret [Exporter; TracerProvider].

(** Without a collector the flush function does nothing. *)
Definition flushStep (flush : list resource) : step :=
  match flush with
  | [] => mkStep "flush-traces" seconds5
            (Some (fun ctx p => (None, note (Closed "flush-traces" (CtxDeadline ctx)) p)))
  | _ => closing "flush-traces" seconds5 flush
  end.

(** ** gormx/gormx.go *)

Definition Open : build unit :=
  _ ← (if (Config.Reveal (Config.DSN (Config.Postgres cfg)) =? "")%string
       then fail (errorsNew "POSTGRES_DSN is empty") else mret tt);
  _ ← failing (GormOpenErr pl) (wrapf [PStr "open postgres"]);
  _ ← open_resource PostgresPool;
  _ ← failing (UnwrapErr pl) (wrapf [PStr "unwrap sql.DB"]);
  _ ← failing (GuardErr pl) (wrapf [PStr "register tenant guard"]);
  match PingErr pl with
  | Some err =>
      _ ← onProc (release PostgresPool);
      fail (wrapf [PStr "ping postgres"] err)
  | None => mret tt
  end.

(** ** The stores and the limiter *)

Inductive store := InMemory (s : OrderMem.Store) | InPostgres.

(** The Redis client's options: a limiter that cannot answer at once has failed at its job. *)
Record redisOptions := mkRedisOptions {
  Addr : string; Password : string; DB : Z;
  DialTimeout : Z; ReadTimeout : Z; WriteTimeout : Z; MaxRetries : Z }.

Inductive limiter := AllowAll | Redis (o : redisOptions) (l : RateLimit.RedisLimiter).

Definition clientOptions : redisOptions :=
  let r := Config.Redis cfg in
  mkRedisOptions (Config.RedisAddr r) (Config.Reveal (Config.Password r)) (Config.RedisDB r)
    (200 * Millisecond) (100 * Millisecond) (100 * Millisecond) (-1).

Definition buildStore : build store :=
  if (Config.StoreDriver cfg =? Config.StoreMemory)%string
  then fun b =>
    match Seed.seeded (Clock (Proc b)) with
    | (Err e, _) => (Err (wrapf [PStr "seed in-memory store"] e), b)
    | (Ok _, mem) =>
        (_ ← logLine (mkLog LevelInfo "using the in-memory store"
                        [("tenant", AStr Seed.SeedTenant);
                         ("hint", AStr "set STORE_DRIVER=postgres and POSTGRES_DSN for a real database")]);
         mret (InMemory mem)) b
    end
  else if (Config.StoreDriver cfg =? Config.StorePostgres)%string
  then
    _ ← (fun b => match Open b with
                  | (Err e, b) => (Err (wrapf [PStr "open postgres"] e), b)
                  | r => r
                  end);
    _ ← failing (UnwrapAgainErr pl) (wrapf [PStr "unwrap sql.DB"]);
    _ ← addStep (closing "postgres-pool" seconds5 [PostgresPool]);
    _ ← logLine (mkLog LevelInfo "using the postgres store"
                   [("max_open_conns", AInt (Config.MaxOpenConns (Config.Postgres cfg)));
                    ("hint", AStr "run `go run ./cmd/migrate up` if the schema is not current")]);
    mret InPostgres
  else fail (EFmt [PStr "unknown STORE_DRIVER "; PQuote (Config.StoreDriver cfg)]).

Definition buildLimiter : build limiter :=
  let r := Config.Redis cfg in
  if (Config.RedisAddr r =? "")%string
  then
    _ ← logLine (mkLog LevelInfo "rate limiting disabled"
                   [("hint", AStr "set REDIS_ADDR to enforce per-tenant quotas across replicas")]);
    mret AllowAll
  else
    _ ← open_resource RedisClient;
    match RateLimit.NewRedis
            (RateLimit.mkConfig (Config.RateLimitPerMinute r) Minute (Config.RateLimitBurst r)) with
    | Err err => _ ← onProc (release RedisClient); fail err
    | Ok l =>
        _ ← addStep (closing "redis-client" seconds5 [RedisClient]);
        _ ← logLine (mkLog LevelInfo "rate limiting enabled"
                       [("redis", AStr (Config.RedisAddr r));
                        ("per_minute", AInt (Config.RateLimitPerMinute r));
                        ("burst", AInt (Config.RateLimitBurst r))]);
        mret (Redis clientOptions l)
    end.

(** ** The gateway *)

Definition gatewayBufSize : Z := Z.shiftl 8 20.

(** The HTTP server of the REST surface; no write timeout, since a watch is a long-lived
    response. *)
Record httpServer := mkHTTPServer {
  SrvAddr : string; ReadHeaderTimeout : Z; SrvReadTimeout : Z; IdleTimeout : Z }.

Definition gatewayServer : httpServer :=
  mkHTTPServer (Config.GatewayAddr cfg) (10 * Second) (30 * Second) (120 * Second).

(** The REST surface, when there is one. *)
Definition buildGateway : build (option httpServer) :=
  if (Config.GatewayAddr cfg =? "")%string
  then
    _ ← logLine (mkLog LevelInfo "REST gateway disabled" [("hint", AStr "set GATEWAY_ADDR to enable it")]);
    mret None
  else
    _ ← open_resource GatewayListener;
    _ ← failing (DialErr pl) (wrapf [PStr "dial in-process"]);
    _ ← open_resource GatewayConn;
    _ ← failing (MuxErr pl) (wrapf [PStr "build mux"]);
    _ ← addStep (closing "gateway-conn" seconds5 [GatewayConn]);
    _ ← addStep (closing "gateway-listener" seconds5 [GatewayListener]);
    mret (Some gatewayServer).

(** The options [grpcapi.NewServer] builds the server with, besides the interceptors: the
    connection's age and its grace, the ping interval it enforces, the methods it traces. *)
Record serverOptions := mkServerOptions {
  OMaxConcurrentStreams : Z; OMaxRecvMsgSize : Z; OMaxConnectionAge : Z; OMaxConnectionAgeGrace : Z;
  OMinTime : Z; PermitWithoutStream : bool; Traced : string -> bool }.

Definition transportOptions : serverOptions :=
  let s := Config.Server cfg in
  mkServerOptions (Config.MaxConcurrentStreams s) (Config.MaxRecvMsgBytes s) (Config.MaxConnectionAge s)
    (Config.MaxConnectionAgeGrace s) (Config.KeepaliveMinTime s) false Interceptor.FilterHealthChecks.

(** ** New *)

Record App := mkApp {
  AVerifier : verifier; AStore : store; ALimiter : limiter; ATransport : serverOptions;
  AGateway : option httpServer; ASteps : list step }.

(** [fmt.Errorf("<prefix>: %w", err)] around a component. *)
Definition prefixed {A} (p : string) (m : build A) : build A := fun b =>
  match m b with
  | (Err e, b) => (Err (wrapf [PStr p] e), b)
  | r => r
  end.

Definition registered : build (list step) := fun b => (Ok (Steps b), b).

Definition New : build App :=
  verifier ← prefixed "build verifier" NewVerifier;
  flush ← orClose (prefixed "tracing" NewTracerProvider);
  _ ← addStep (flushStep flush);
  _ ← orClose (failing (ValidatorErr pl) (wrapf [PStr "build protovalidate"]));
  store ← orClose buildStore;
  limiter ← orClose (prefixed "rate limiter" buildLimiter);
  _ ← orClose (lift (GrpcServer.NewServer (Some verifier) GrpcServer.DefaultPolicy (Some limiter)
                       (PolicyOrder pl) (ServiceInfo pl) (Files pl)));
  gateway ← orClose (prefixed "gateway" buildGateway);
  steps ← registered;
  mret (mkApp verifier store limiter transportOptions gateway steps).

(** ** Shutting down *)

(** The drain of the gRPC server ends by itself or is cut off at the step's deadline; either
    way the step returns nil. *)
Definition stopGRPC : context -> process -> option error * process := fun ctx p =>
  let graceful := CloseTime pl "grpc-server" in
  let takes := match CtxDeadline ctx with
               | Some d => Z.min graceful (Z.max 0 (d - Clock p))
               | None => graceful
               end in
  let forced := takes <? graceful in
  (None, mkProcess (Opened p) (Journal p ++ [Closed "grpc-server" (CtxDeadline ctx)])
           (Clock p + takes)
           (PLogs p ++ if forced then [mkLog LevelWarn "graceful stop timed out, forcing" []] else [])).

Definition shutdownSteps (a : App) : list step :=
  ASteps a ++
  [closing "admin-server" seconds5 [];
   mkStep "grpc-server" (Config.GracePeriod (Config.Shutdown cfg)) (Some stopGRPC)] ++
  match AGateway a with
  | Some _ => [closing "gateway-server" seconds5 []]
  | None => []
  end.

(** [ctx.Done()] of the caller's context is at [done], if ever. *)
Definition Close (a : App) (done : option Z) (ctx : context) (p : process) : option error * process :=
  let p := note (SetServing false) p in
  let p := logTo (mkLog LevelInfo "health set to NOT_SERVING, draining"
             [("delay", AInt (Config.DrainDelay (Config.Shutdown cfg)))]) p in
  let delay := Z.max 0 (Config.DrainDelay (Config.Shutdown cfg)) in
  let waited := match done with
                | Some t => Z.min delay (Z.max 0 (t - Clock p))
                | None => delay
                end in
  let p := mkProcess (Opened p) (Journal p ++ [Drained waited]) (Clock p + waited) (PLogs p) in
  Shutdown.Shutdown clock ctx (shutdownSteps a) p.

(** ** Run *)

(** What ends [Run]: the listener does not bind, a server fails, or the signal arrives at an
    instant. *)
Inductive ending := BindFailed (e : error) | ServeFailed (what : string) (e : error) | Signalled (at_ : Z).

(** [context.WithoutCancel]: no deadline and no cancellation, the values stay. *)
Definition WithoutCancel (ctx : context) : context :=
  mkContext (CtxPrincipal ctx) None (CtxMetadata ctx).

Definition Run (a : App) (e : ending) (ctx : context) (p : process) : option error * process :=
  match e with
  | BindFailed err => (Some (wrapf [PStr "listen on "; PStr (Config.GRPCAddr cfg)] err), p)
  | ServeFailed what err => (Some (wrapf [PStr what; PStr " serve"] err), note (SetServing true) p)
  | Signalled t =>
      let p := note (SetServing true) p in
      let p := mkProcess (Opened p) (Journal p) (Z.max t (Clock p)) (PLogs p) in
      Close a None (WithoutCancel ctx) (logTo (mkLog LevelInfo "shutdown signal received" []) p)
  end.

End App.

(** ** cmd/orderd *)

Section Orderd.
Context `{Unicode, Cursor.CursorEnv, Oidc.AuthLib} (float_text : SpecFloat.spec_float -> string).

(** [run] of the server binary, from the environment it starts with. *)
Definition orderd (entries : list string) (pl : platform) (e : ending) (p : process)
    : option error * process :=
  match Config.Load float_text entries with
  | Err err => (Some (wrapf [PStr "configuration"] err), p)
  | Ok cfg =>
      match New pl cfg (mkBuilding p []) with
      | (Err err, b) => (Some err, Proc b)
      | (Ok a, b) => Run pl cfg a e Background (Proc b)
      end
  end.

(** The [-health] flag: a listen address is not an address to dial. *)
Definition healthTarget (addr : string) : string :=
  if HasPrefix addr ":" then "localhost" +:+ addr else addr.

(** [dial] and [check] are the gRPC client: an error, and the status a health service
    answers under its name. *)
Definition checkHealth (entries : list string) (dial : string -> option error)
    (check : string -> result string) : option error :=
  match Config.Load float_text entries with
  | Err err => Some (wrapf [PStr "configuration"] err)
  | Ok cfg =>
      let target := healthTarget (Config.GRPCAddr cfg) in
      match dial target with
      | Some err => Some (wrapf [PStr "dial "; PStr target] err)
      | None =>
          match check target with
          | Err err => Some (wrapf [PStr "health check against "; PStr target] err)
          | Ok status =>
              if (status =? "SERVING")%string then None
              else Some (EFmt [PStr "status is "; PStr status; PStr ", not SERVING"])
          end
      end
  end.

End Orderd.
