(* ===== verification/AppSpec.v ===== *)
(** Starting and stopping the server: every resource that is opened is released, in the
    order the components depend on each other, and production never starts without a real
    verifier. *)

From S2P Require Import Prelude GoErr GoStr GoNum GoLog Store Auth Shutdown App.
From S2P Require Config ConfigSpec Cursor Oidc OidcSpec OrderMem Seed RateLimit GrpcServer Interceptor.

Section Spec.
Context `{Unicode, Cursor.CursorEnv, Oidc.AuthLib} (pl : platform) (cfg : Config.Config).

(** * What building adds *)

(** A successful [m] adds these steps and resources and nothing else. *)
Definition adds {A} (m : build A) (ss : list step) (rs : list resource) : Prop :=
  forall b a b', m b = (Ok a, b') ->
    Steps b' = Steps b ++ ss /\ Opened (Proc b') = Opened (Proc b) ++ rs /\
    Journal (Proc b') = Journal (Proc b).

Lemma adds_bind {A B} (m : build A) (k : A -> build B) ss rs ss' rs' :
  adds m ss rs -> (forall a, adds (k a) ss' rs') -> adds (m ≫= k) (ss ++ ss') (rs ++ rs').
Proof.
  intros Hm Hk b a b'. unfold mbind, stm_bind. destruct (m b) as [[x|] b1] eqn:E; [|done].
  intros E'. destruct (Hm _ _ _ E) as (Hs & Ho & Hj), (Hk _ _ _ _ E') as (Hs' & Ho' & Hj').
  rewrite Hs', Hs, Ho', Ho, Hj', Hj. by rewrite <- !app_assoc.
Qed.

Lemma adds_eq {A} (m : build A) ss rs ss' rs' :
  adds m ss rs -> ss = ss' -> rs = rs' -> adds m ss' rs'.
Proof. by intros ? -> ->. Qed.

Lemma adds_ret {A} (a : A) : adds (mret a) [] [].
Proof. intros b x b' [= <- <-]. by rewrite !app_nil_r. Qed.
Lemma adds_log l : adds (logLine l) [] [].
Proof. intros b x b' [= <- <-]. by rewrite !app_nil_r. Qed.
Lemma adds_failing e w : adds (failing e w) [] [].
Proof. destruct e; [done|apply adds_ret]. Qed.
Lemma adds_open r : adds (open_resource r) [] [r].
Proof. intros b x b' [= <- <-]. by rewrite app_nil_r. Qed.
Lemma adds_step s : adds (addStep s) [s] [].
Proof. intros b x b' [= <- <-]. by rewrite app_nil_r. Qed.
Lemma adds_lift {A} (r : result A) : adds (lift r) [] [].
Proof. intros b x b' [= _ <-]. by rewrite !app_nil_r. Qed.
Lemma adds_fail {A} e ss rs : adds (fail (A:=A) e) ss rs.
Proof. by intros b x b'. Qed.

Lemma adds_relabel {A} (m : build A) (f : error -> error) ss rs :
  adds m ss rs ->
  adds (fun b => match m b with (Err e, b) => (Err (f e), b) | r => r end) ss rs.
Proof. intros Hm b a b'. destruct (m b) as [[x|] b1] eqn:E; [|done]. intros [= <- <-]. by eapply Hm. Qed.

Lemma adds_orClose {A} (m : build A) ss rs : adds m ss rs -> adds (orClose m) ss rs.
Proof.
  intros Hm b a b'. unfold orClose. destruct (m b) as [[x|] b1] eqn:E; [|done].
  intros [= <- <-]. by eapply Hm.
Qed.

(** A computation whose every outcome fails after [m]. *)
Lemma adds_fails {A} (m : build A) ss rs : (forall b, exists e, (m b).1 = Err e) -> adds m ss rs.
Proof. intros Hf b a b' E. destruct (Hf b) as [e He]. by rewrite E in He. Qed.

Create HintDb build discriminated.
#[local] Hint Resolve adds_ret adds_log adds_failing adds_open adds_step adds_lift adds_fail
  adds_relabel adds_orClose : build.

Ltac adds_tac :=
  repeat first [ match goal with |- forall _, _ => intro end
               | solve [eauto 2 with build nocore] | eapply adds_bind ].

(** ** What a configuration wires *)

Definition flush_of : list resource :=
  if (Config.OTLPEndpoint (Config.Telemetry cfg) =? "")%string then [] else [Exporter; TracerProvider].
Definition postgres : bool := (Config.StoreDriver cfg =? Config.StorePostgres)%string.
Definition limited : bool := negb (Config.RedisAddr (Config.Redis cfg) =? "")%string.
Definition rest : bool := negb (Config.GatewayAddr cfg =? "")%string.

Definition gateway_of : option httpServer := if rest then Some (gatewayServer cfg) else None.

Definition when {A} (b : bool) (l : list A) : list A := if b then l else [].

Definition steps_of : list step :=
  [flushStep pl flush_of] ++
  when postgres [closing pl "postgres-pool" seconds5 [PostgresPool]] ++
  when limited [closing pl "redis-client" seconds5 [RedisClient]] ++
  when rest [closing pl "gateway-conn" seconds5 [GatewayConn];
             closing pl "gateway-listener" seconds5 [GatewayListener]].

Definition resources_of : list resource :=
  flush_of ++ when postgres [PostgresPool] ++ when limited [RedisClient] ++
  when rest [GatewayListener; GatewayConn].

Lemma NewVerifier_adds : adds (NewVerifier cfg) [] [].
Proof.
  unfold NewVerifier. destruct (Config.AuthMode cfg =? Config.AuthDev)%string.
  - eapply adds_eq; [adds_tac|done..].
  - destruct (Config.AuthMode cfg =? Config.AuthOIDC)%string; [|apply adds_fail].
    apply (adds_bind _ _ [] [] [] []).
    + destruct (Config.AllowInsecureIssuer _); adds_tac.
    + intros _. eapply adds_eq; [adds_tac|done..].
Qed.

Lemma NewTracerProvider_adds : adds (NewTracerProvider pl cfg) [] flush_of.
Proof.
  unfold NewTracerProvider, flush_of.
  destruct (Config.OTLPEndpoint _ =? "")%string; [apply adds_ret|].
  eapply adds_eq; [adds_tac|done..].
Qed.

Lemma NewTracerProvider_Ok b fl b' : NewTracerProvider pl cfg b = (Ok fl, b') -> fl = flush_of.
Proof.
  unfold NewTracerProvider, flush_of. destruct (_ =? "")%string; [by intros [= <- _]|].
  unfold mbind, stm_bind, failing. destruct (ExporterErr pl); [done|].
  destruct (ResourceErr pl); [done|]. by intros [= <- _].
Qed.

Lemma Open_adds : adds (Open pl cfg) [] [PostgresPool].
Proof.
  unfold Open. apply (adds_bind _ _ [] [] [] [PostgresPool]).
  - destruct (_ =? "")%string; adds_tac.
  - intros _. eapply adds_eq; [adds_tac|done..].
    destruct (PingErr pl); [apply adds_fails; eauto|apply adds_ret].
Qed.

Lemma buildStore_adds :
  adds (buildStore pl cfg) (when postgres [closing pl "postgres-pool" seconds5 [PostgresPool]])
    (when postgres [PostgresPool]).
Proof.
  unfold buildStore, postgres. destruct (String.eqb_spec (Config.StoreDriver cfg) Config.StoreMemory) as [->|].
  - intros b a b'. destruct (Seed.seeded _) as [[[]|] mem]; [|done]. intros E.
    revert E. eapply (adds_bind _ _ [] [] [] []); adds_tac.
  - destruct (Config.StoreDriver cfg =? Config.StorePostgres)%string; [|apply adds_fail].
    eapply adds_eq; [eapply adds_bind; [apply adds_relabel, Open_adds|adds_tac]|done..].
Qed.

Lemma buildLimiter_adds :
  adds (buildLimiter pl cfg) (when limited [closing pl "redis-client" seconds5 [RedisClient]])
    (when limited [RedisClient]).
Proof.
  unfold buildLimiter, limited. destruct (Config.RedisAddr _ =? "")%string; cbn [negb when].
  - eapply adds_eq; [adds_tac|done..].
  - destruct (RateLimit.NewRedis _).
    + eapply adds_eq; [adds_tac|done..].
    + apply adds_fails. intros b. eexists. reflexivity.
Qed.

Lemma buildGateway_adds :
  adds (buildGateway pl cfg)
    (when rest [closing pl "gateway-conn" seconds5 [GatewayConn];
                closing pl "gateway-listener" seconds5 [GatewayListener]])
    (when rest [GatewayListener; GatewayConn]).
Proof.
  unfold buildGateway, rest. destruct (_ =? "")%string; cbn [negb when];
    (eapply adds_eq; [adds_tac|done..]).
Qed.

Lemma adds_bind_val {A B} (m : build A) (k : A -> build B) (Q : A -> Prop) ss rs ss' rs' :
  adds m ss rs -> (forall b x b', m b = (Ok x, b') -> Q x) ->
  (forall a, Q a -> adds (k a) ss' rs') -> adds (m ≫= k) (ss ++ ss') (rs ++ rs').
Proof.
  intros Hm HQ Hk b a b'. unfold mbind, stm_bind. destruct (m b) as [[x|] b1] eqn:E; [|done].
  intros E'. destruct (Hm _ _ _ E) as (Hs & Ho & Hj), (Hk _ (HQ _ _ _ E) _ _ _ E') as (Hs' & Ho' & Hj').
  rewrite Hs', Hs, Ho', Ho, Hj', Hj. by rewrite <- !app_assoc.
Qed.

Lemma adds_registered : adds registered [] [].
Proof. intros b x b' [= _ <-]. by rewrite !app_nil_r. Qed.

#[local] Hint Resolve NewVerifier_adds buildStore_adds buildLimiter_adds buildGateway_adds
  adds_registered : build.

Lemma adds_prefixed {A} p (m : build A) ss rs : adds m ss rs -> adds (prefixed p m) ss rs.
Proof. intros. unfold prefixed. by apply adds_relabel. Qed.
#[local] Hint Resolve adds_prefixed : build.

Lemma prefixed_orClose_Ok {A} p (m : build A) b x b' :
  orClose (prefixed p m) b = (Ok x, b') -> m b = (Ok x, b').
Proof. unfold orClose, prefixed. destruct (m b) as [[y|] b1]; [|done]. by intros [= -> ->]. Qed.

(** A server that starts has exactly the resources its configuration calls for, each with
    the step that releases it. *)
Lemma New_adds : adds (New pl cfg) steps_of resources_of.
Proof.
  unfold New, steps_of, resources_of. apply (adds_bind _ _ [] []); [eauto with build|]. intros v.
  apply (adds_bind_val _ _ (fun fl => fl = flush_of) []).
  { apply adds_orClose, adds_prefixed, NewTracerProvider_adds. }
  { intros b x b' E%prefixed_orClose_Ok. by eapply NewTracerProvider_Ok. }
  intros fl ->. apply (adds_bind _ _ [_] []); [apply adds_step|]. intros _.
  apply (adds_bind _ _ [] []); [auto with build|]. intros _.
  apply adds_bind; [auto with build|]. intros s.
  apply adds_bind; [auto with build|]. intros l.
  apply (adds_bind _ _ [] []); [auto with build|]. intros _.
  eapply adds_eq; [eapply adds_bind; [auto with build|]; intros g;
                   apply (adds_bind _ _ [] [] [] []); auto with build|apply app_nil_r..].
Qed.

Lemma buildGateway_Ok b g b' : buildGateway pl cfg b = (Ok g, b') -> g = gateway_of.
Proof.
  unfold buildGateway, gateway_of, rest. destruct (_ =? "")%string; [by intros [= <- _]|].
  unfold mbind, stm_bind, failing. destruct (DialErr pl); [done|].
  destruct (MuxErr pl); [done|]. by intros [= <- _].
Qed.

Lemma bind_inv {A B} (m : build A) (k : A -> build B) b x b' :
  (m ≫= k) b = (Ok x, b') -> exists a b1, m b = (Ok a, b1) /\ k a b1 = (Ok x, b').
Proof. unfold mbind, stm_bind. destruct (m b) as [[a|] b1]; [eauto|done]. Qed.

Lemma New_Ok b a b' :
  New pl cfg b = (Ok a, b') ->
  ASteps a = Steps b' /\ AGateway a = gateway_of /\
  exists b1, NewVerifier cfg b = (Ok (AVerifier a), b1).
Proof.
  unfold New. intros (v & b1 & Hv & E)%bind_inv. apply bind_inv in E as (fl & b2 & _ & E).
  apply bind_inv in E as (_ & b3 & _ & E). apply bind_inv in E as (_ & b4 & _ & E).
  apply bind_inv in E as (s & b5 & _ & E). apply bind_inv in E as (l & b6 & _ & E).
  apply bind_inv in E as (_ & b7 & _ & E). apply bind_inv in E as (g & b8 & Hg & E).
  apply bind_inv in E as (ss & b9 & [= <- <-] & [= <- <-]). cbn.
  apply prefixed_orClose_Ok, buildGateway_Ok in Hg. split_ands; [done|done|].
  revert Hv. unfold prefixed. destruct (NewVerifier cfg b) as [[v'|] b']; [|done].
  intros [= -> ->]. eauto.
Qed.

(** * What shutting down releases *)

Definition shrinking (s : step) : Prop :=
  forall f, Fn s = Some f -> forall ctx p, Opened (f ctx p).2 ⊆ Opened p.
Definition releases (r : resource) (s : step) : Prop :=
  exists f, Fn s = Some f /\ forall ctx p, r ∉ Opened (f ctx p).2.
Definition notes (s : step) : Prop :=
  exists f, Fn s = Some f /\
    forall ctx p, exists d, Journal (f ctx p).2 = Journal p ++ [Closed (StepName s) d].

Lemma release_elem r r' p : r' ∈ Opened (release r p) <-> r' ∈ Opened p /\ r' <> r.
Proof.
  unfold release. cbn. rewrite !list_elem_of_In, filter_In, negb_true_iff, bool_decide_eq_false.
  done.
Qed.

Lemma foldr_release_elem rs r' p :
  r' ∈ Opened (foldr release p rs) <-> r' ∈ Opened p /\ r' ∉ rs.
Proof.
  induction rs as [|r rs IH]; cbn [foldr].
  - split; [intros ?; split; [done|apply not_elem_of_nil]|by intros []].
  - rewrite release_elem, IH, not_elem_of_cons. tauto.
Qed.

Lemma closing_shrinking n t rs : shrinking (closing pl n t rs).
Proof.
  intros f [= <-] ctx p r. unfold closer. cbn [snd Opened]. rewrite foldr_release_elem. tauto.
Qed.

Lemma closing_releases n t rs r : r ∈ rs -> releases r (closing pl n t rs).
Proof.
  intros Hr. eexists. split; [done|]. intros ctx p. unfold closer. cbn [snd Opened].
  rewrite foldr_release_elem. tauto.
Qed.

Lemma foldr_release_Journal rs p : Journal (foldr release p rs) = Journal p.
Proof. by induction rs. Qed.

Lemma closing_notes n t rs : notes (closing pl n t rs).
Proof.
  eexists. split; [done|]. intros ctx p. eexists. unfold closer. cbn [snd Journal].
  by rewrite foldr_release_Journal.
Qed.

Lemma flushStep_shrinking fl : shrinking (flushStep pl fl).
Proof. destruct fl; [by intros f [= <-]|apply closing_shrinking]. Qed.

Lemma flushStep_notes fl : notes (flushStep pl fl).
Proof. destruct fl; [|apply closing_notes]. eexists. split; [done|]. intros. by eexists. Qed.

Lemma flushStep_releases fl r : r ∈ fl -> releases r (flushStep pl fl).
Proof. destruct fl; [by intros ?%elem_of_nil|apply closing_releases]. Qed.

Lemma runStep_Opened ctx s p : shrinking s -> Opened (runStep clock ctx s p).2 ⊆ Opened p.
Proof.
  intros Hs. unfold runStep. destruct (Fn s) as [f|] eqn:Ef; [|done].
  match goal with |- context [f ?c p] => pose proof (Hs f Ef c p) as Hf; destruct (f c p) as [[]] end;
    exact Hf.
Qed.

Lemma runAll_Opened ctx ss p :
  Forall shrinking ss ->
  Opened (runAll clock ctx ss p).2 ⊆ Opened p /\
  forall r, Exists (releases r) ss -> r ∉ Opened (runAll clock ctx ss p).2.
Proof.
  intros Hs. revert p. induction Hs as [|s ss Hs Hss IH]; intros p; cbn [runAll].
  - split; [done|]. by intros r ?%Exists_nil.
  - pose proof (runStep_Opened ctx s p Hs) as Hsub1. destruct (IH (runStep clock ctx s p).2) as [Hsub2 Hgone].
    destruct (runStep clock ctx s p) as [err p1] eqn:Er. cbn [snd] in *.
    destruct (runAll clock ctx ss p1) as [errs p2]. cbn [snd] in *.
    split; [by etrans|]. intros r [Hr|Hr]%Exists_cons; [|by apply Hgone].
    intros Hin%Hsub2. destruct Hr as (f & Ef & Hf). unfold runStep in Er. rewrite Ef in Er.
    match type of Er with context [f ?c p] => specialize (Hf c p); destruct (f c p) as [[]] end;
      injection Er as <- <-; cbn in Hf; done.
Qed.

Definition closed_names (j : list event) : list string :=
  omap (fun e => match e with Closed n _ => Some n | _ => None end) j.

Lemma runAll_Journal ctx ss p :
  Forall notes ss ->
  exists tail, Journal (runAll clock ctx ss p).2 = Journal p ++ tail /\
    closed_names tail = StepName <$> ss /\ Forall (fun e => exists n d, e = Closed n d) tail.
Proof.
  intros Hs. revert p. induction Hs as [|s ss Hs Hss IH]; intros p; cbn [runAll].
  - exists []. by rewrite app_nil_r.
  - destruct Hs as (f & Ef & Hf).
    assert (exists d, Journal (runStep clock ctx s p).2 = Journal p ++ [Closed (StepName s) d])
      as [d Hd].
    { unfold runStep. rewrite Ef. match goal with |- context [f ?c p] => destruct (Hf c p) as [d Hd];
        exists d; destruct (f c p) as [[]] end; exact Hd. }
    destruct (runStep clock ctx s p) as [err p1]. cbn [snd] in Hd.
    destruct (IH p1) as (tail & Ht & Hn & Ha). destruct (runAll clock ctx ss p1) as [errs p2].
    cbn [snd] in *. exists (Closed (StepName s) d :: tail). split_ands.
    + rewrite Ht, Hd. by rewrite <- app_assoc.
    + change (StepName s :: closed_names tail = StepName s :: (StepName <$> ss)). by rewrite Hn.
    + constructor; eauto.
Qed.

Lemma Shutdown_runAll ctx (ss : list step) (p : process) :
  (Shutdown.Shutdown clock ctx ss p).2 = (runAll clock ctx (reverse ss) p).2.
Proof.
  unfold Shutdown.Shutdown. rewrite shutdownLoop_runAll by done. rewrite firstn_all.
  by destruct (runAll _ _ _).
Qed.

(** * Failing to start *)

Lemma Exists_reverse_2 {A} (P : A -> Prop) l : Exists P l -> Exists P (reverse l).
Proof. rewrite !Exists_exists. intros (x & Hx & Hp). exists x. by rewrite elem_of_reverse. Qed.

(** Every open resource has a step that releases it. *)
Record covered (b : building) : Prop := {
  cov_shrink : Forall shrinking (Steps b);
  cov_all : forall r, r ∈ Opened (Proc b) -> Exists (releases r) (Steps b) }.

(** [m] keeps the resources covered, failing or not. *)
Definition keeps {A} (m : build A) : Prop := forall b, covered b -> covered (m b).2.

Lemma keeps_bind {A B} (m : build A) (k : A -> build B) :
  keeps m -> (forall a, keeps (k a)) -> keeps (m ≫= k).
Proof.
  intros Hm Hk b Hb. specialize (Hm b Hb). unfold mbind, stm_bind.
  destruct (m b) as [[x|] b1]; [by apply Hk|done].
Qed.

Lemma keeps_same {A} (m : build A) :
  (forall b, Steps (m b).2 = Steps b /\ Opened (Proc (m b).2) = Opened (Proc b)) -> keeps m.
Proof. intros Hm b []. destruct (Hm b) as [Es Eo]. split; [by rewrite Es|by rewrite Es, Eo]. Qed.

Lemma keeps_ret {A} (a : A) : keeps (mret a).
Proof. by intros b. Qed.
Lemma keeps_log l : keeps (logLine l).
Proof. by apply keeps_same. Qed.
Lemma keeps_fail {A} e : keeps (fail (A:=A) e).
Proof. by intros b. Qed.
Lemma keeps_lift {A} (r : result A) : keeps (lift r).
Proof. by intros b. Qed.
Lemma keeps_failing e w : keeps (failing e w).
Proof. intros b Hb. by destruct e. Qed.

Lemma covered_more b b' ss rs :
  covered b -> Steps b' = Steps b ++ ss -> Opened (Proc b') = Opened (Proc b) ++ rs ->
  Forall shrinking ss -> (forall r, r ∈ rs -> Exists (releases r) ss) -> covered b'.
Proof.
  intros [Hs Ho] Es Eo Hss Hrs. split; rewrite Es; [by apply Forall_app|].
  rewrite Eo. intros r [Hr|Hr]%elem_of_app; rewrite Exists_app; auto.
Qed.

(** A computation that adds matching steps and resources when it succeeds, and opens nothing
    for good when it fails. *)
Lemma keeps_adds {A} (m : build A) ss rs :
  adds m ss rs -> Forall shrinking ss -> (forall r, r ∈ rs -> Exists (releases r) ss) ->
  (forall b e b', m b = (Err e, b') ->
     Steps b' = Steps b /\ forall r, r ∈ Opened (Proc b') -> r ∈ Opened (Proc b)) ->
  keeps m.
Proof.
  intros Hm Hss Hrs Herr b Hb. destruct (m b) as [[x|e] b1] eqn:E; cbn.
  - destruct (Hm _ _ _ E) as (Es & Eo & _). by eapply covered_more.
  - destruct (Herr _ _ _ E) as [Es Eo], Hb as [Hs Ho]. split; rewrite Es; auto.
Qed.

Lemma covered_closeOpened b : covered b -> Opened (Proc (closeOpened b).2) = [].
Proof.
  intros [Hs Ho]. unfold closeOpened.
  pose proof (Shutdown_runAll Background (Steps b) (Proc b)) as E.
  destruct (Shutdown.Shutdown clock Background (Steps b) (Proc b)) as [err p]. cbn in E |- *.
  destruct (runAll_Opened Background (reverse (Steps b)) (Proc b)) as [Hsub Hgone];
    [by apply Forall_reverse|]. rewrite <- E in *.
  destruct (Opened p) as [|r l] eqn:Ep; [done|]. exfalso. apply (Hgone r); [|left].
  apply (Exists_reverse_2 _ (Steps b)), Ho, Hsub. left.
Qed.

(** Started so far with everything covered, or failed with everything released. *)
Definition clean_failure {A} (m : build A) : Prop := forall b, covered b ->
  match m b with (Ok _, b') => covered b' | (Err _, b') => Opened (Proc b') = [] end.

Lemma clean_bind {A B} (m : build A) (k : A -> build B) :
  clean_failure m -> (forall a, clean_failure (k a)) -> clean_failure (m ≫= k).
Proof.
  intros Hm Hk b Hb. specialize (Hm b Hb). unfold mbind, stm_bind.
  destruct (m b) as [[x|] b1]; [by apply Hk|done].
Qed.

Lemma clean_orClose {A} (m : build A) : keeps m -> clean_failure (orClose m).
Proof.
  intros Hm b Hb. specialize (Hm b Hb). unfold orClose. destruct (m b) as [[x|] b1]; [done|].
  by apply covered_closeOpened.
Qed.

Lemma keeps_relabel {A} (m : build A) (f : error -> error) :
  keeps m -> keeps (fun b => match m b with (Err e, b) => (Err (f e), b) | r => r end).
Proof. intros Hm b Hb. specialize (Hm b Hb). by destruct (m b) as [[x|] b1]. Qed.

(** The failures of the libraries after which a resource is already open that no step
    releases yet. *)
Definition no_gap : Prop :=
  ResourceErr pl = None /\ UnwrapErr pl = None /\ GuardErr pl = None /\
  UnwrapAgainErr pl = None /\ DialErr pl = None /\ MuxErr pl = None.

Ltac run_build := unfold mbind, stm_bind, failing, logLine, onProc, open_resource, addStep.

Lemma Open_fails b e b' :
  no_gap -> Open pl cfg b = (Err e, b') ->
  Steps b' = Steps b /\ forall r, r ∈ Opened (Proc b') -> r ∈ Opened (Proc b).
Proof.
  intros (_ & E1 & E2 & _). unfold Open. run_build. rewrite E1, E2.
  destruct (_ =? "")%string; [by intros [= _ <-]|].
  destruct (GormOpenErr pl); [by intros [= _ <-]|].
  destruct (PingErr pl); [|done]. intros [= _ <-]. split; [done|]. intros r.
  cbn -[release]. rewrite release_elem. cbn. rewrite elem_of_app, list_elem_of_singleton. tauto.
Qed.

Lemma buildStore_keeps : no_gap -> keeps (buildStore pl cfg).
Proof.
  intros Hg. eapply keeps_adds; [apply buildStore_adds| | |].
  - unfold when. destruct postgres; repeat constructor. apply closing_shrinking.
  - unfold when. destruct postgres; [|by intros r ?%elem_of_nil].
    intros r Hr. apply Exists_cons. left. by apply closing_releases.
  - intros b e b'. unfold buildStore.
    destruct (_ =? Config.StoreMemory)%string.
    { destruct (Seed.seeded _) as [[[]|] mem]; [done|]. by intros [= _ <-]. }
    destruct (_ =? Config.StorePostgres)%string; [|by intros [= _ <-]].
    run_build. destruct Hg as (G1 & G2 & G3 & G4 & G5). rewrite G4.
    destruct (Open pl cfg b) as [[x|err] b1] eqn:Eo; [done|]. intros [= _ <-].
    eapply Open_fails; [|done]. by split_ands.
Qed.

Lemma buildLimiter_keeps : keeps (buildLimiter pl cfg).
Proof.
  eapply keeps_adds; [apply buildLimiter_adds| | |].
  - unfold when. destruct limited; repeat constructor. apply closing_shrinking.
  - unfold when. destruct limited; [|by intros r ?%elem_of_nil].
    intros r Hr. apply Exists_cons. left. by apply closing_releases.
  - intros b e b'. unfold buildLimiter. run_build. destruct (_ =? "")%string; [done|].
    destruct (RateLimit.NewRedis _); [done|]. intros [= _ <-]. split; [done|]. intros r.
    cbn -[release]. rewrite release_elem. cbn. rewrite elem_of_app, list_elem_of_singleton. tauto.
Qed.

Lemma buildGateway_keeps : no_gap -> keeps (buildGateway pl cfg).
Proof.
  intros (_ & _ & _ & _ & E1 & E2). eapply keeps_adds; [apply buildGateway_adds| | |].
  - unfold when. destruct rest; repeat constructor; apply closing_shrinking.
  - unfold when. destruct rest; [|by intros r ?%elem_of_nil].
    intros r. rewrite !elem_of_cons, elem_of_nil, !Exists_cons.
    intros [->|[->|[]]]; [right; left|left]; by apply closing_releases, list_elem_of_singleton.
  - intros b e b'. unfold buildGateway. run_build. rewrite E1, E2. by destruct (_ =? "")%string.
Qed.

Lemma tracing_clean {A} (k : build A) :
  no_gap -> clean_failure k ->
  clean_failure (fl ← orClose (prefixed "tracing" (NewTracerProvider pl cfg));
                 _ ← addStep (flushStep pl fl); k).
Proof.
  intros Hg Hk b Hb. unfold mbind at 1, stm_bind at 1.
  destruct (orClose _ b) as [[fl|e] b1] eqn:E.
  - apply prefixed_orClose_Ok in E. pose proof (NewTracerProvider_Ok _ _ _ E) as ->.
    destruct (NewTracerProvider_adds _ _ _ E) as (Es & Eo & _).
    unfold mbind, stm_bind. apply Hk.
    eapply (covered_more b _ [flushStep pl flush_of] flush_of Hb); cbn.
    + by rewrite Es, app_nil_r.
    + done.
    + repeat constructor. apply flushStep_shrinking.
    + intros r Hr. apply Exists_cons. left. by apply flushStep_releases.
  - revert E. unfold orClose, prefixed.
    destruct (NewTracerProvider pl cfg b) as [[fl|e'] b2] eqn:E; [done|].
    intros [= _ <-]. apply covered_closeOpened. revert E.
    unfold NewTracerProvider. run_build. destruct Hg as [-> _]. destruct (_ =? "")%string; [done|].
    destruct (ExporterErr pl); [by intros [= _ <-]|done].
Qed.

Lemma NewVerifier_Opened b : Opened (Proc (NewVerifier cfg b).2) = Opened (Proc b) /\
  Steps (NewVerifier cfg b).2 = Steps b.
Proof.
  unfold NewVerifier. run_build. destruct (_ =? Config.AuthDev)%string; [done|].
  destruct (_ =? Config.AuthOIDC)%string; [|done].
  destruct (Config.AllowInsecureIssuer _); cbn; by destruct (Oidc.NewOIDCVerifier _).
Qed.

Lemma New_clean p :
  no_gap -> Opened p = [] ->
  match New pl cfg (mkBuilding p []) with
  | (Ok _, b) => True
  | (Err _, b) => Opened (Proc b) = []
  end.
Proof.
  intros Hg Hp. unfold New. unfold mbind at 1, stm_bind at 1. unfold prefixed at 1.
  destruct (NewVerifier_Opened (mkBuilding p [])) as [Eo Es].
  destruct (NewVerifier cfg (mkBuilding p [])) as [r b1]; cbn in Eo, Es.
  destruct r as [v|e]; [|by rewrite Eo].
  assert (covered b1) as Hb.
  { split; [by rewrite Es|]. rewrite Eo, Hp. by intros r ?%elem_of_nil. }
  match goal with |- match ?m b1 with _ => _ end => assert (clean_failure m) as Hc end.
  { apply tracing_clean; [done|].
    apply clean_bind; [apply clean_orClose, keeps_failing|intros _].
    apply clean_bind; [by apply clean_orClose, buildStore_keeps|intros s].
    apply clean_bind; [apply clean_orClose, keeps_relabel, buildLimiter_keeps|intros l].
    apply clean_bind; [apply clean_orClose, keeps_lift|intros _].
    apply clean_bind; [by apply clean_orClose, keeps_relabel, buildGateway_keeps|intros g].
    by intros b Hb'. }
  specialize (Hc b1 Hb). match goal with |- match ?x with _ => _ end => destruct x as [[a|e] b2] end;
    [done|exact Hc].
Qed.

(** * Start and stop *)

(** The order in which the parts of the server stop: outside in. *)
Definition shutdown_order : list string :=
  when rest ["gateway-server"] ++ ["grpc-server"; "admin-server"] ++
  when rest ["gateway-listener"; "gateway-conn"] ++ when limited ["redis-client"] ++
  when postgres ["postgres-pool"] ++ ["flush-traces"].

Lemma stopGRPC_notes t : notes (mkStep "grpc-server" t (Some (stopGRPC pl))).
Proof. eexists. split; [done|]. intros ctx p. by eexists. Qed.

Lemma stopGRPC_shrinking t : shrinking (mkStep "grpc-server" t (Some (stopGRPC pl))).
Proof. by intros f [= <-]. Qed.

#[local] Hint Resolve closing_notes closing_shrinking stopGRPC_notes stopGRPC_shrinking
  flushStep_notes flushStep_shrinking : build.

(** The steps [Close] runs, first to last. *)
Lemma shutdownSteps_spec a :
  ASteps a = steps_of -> AGateway a = gateway_of ->
  Forall notes (reverse (shutdownSteps pl cfg a)) /\
  Forall shrinking (reverse (shutdownSteps pl cfg a)) /\
  StepName <$> reverse (shutdownSteps pl cfg a) = shutdown_order /\
  forall r, r ∈ resources_of -> Exists (releases r) (reverse (shutdownSteps pl cfg a)).
Proof.
  intros Es Eg. unfold shutdownSteps. rewrite Es, Eg. unfold gateway_of.
  assert (StepName (flushStep pl flush_of) = "flush-traces") as En by (by destruct flush_of).
  split_ands.
  - apply Forall_reverse. unfold steps_of, when.
    destruct postgres, limited, rest; cbn; repeat constructor; auto with build.
  - apply Forall_reverse. unfold steps_of, when.
    destruct postgres, limited, rest; cbn; repeat constructor; auto with build.
  - rewrite fmap_reverse. unfold shutdown_order, steps_of, when.
    destruct postgres, limited, rest; cbn; by rewrite En.
  - intros r Hr. apply Exists_reverse_2. apply Exists_app. left. revert Hr.
    unfold resources_of, steps_of. rewrite !elem_of_app, !Exists_app, Exists_cons.
    intros [Hr|[Hr|[Hr|Hr]]].
    + left. left. by apply flushStep_releases.
    + right. left. unfold when in *. destruct postgres; [|by apply elem_of_nil in Hr].
      apply Exists_cons. left. by apply closing_releases.
    + right. right. left. unfold when in *. destruct limited; [|by apply elem_of_nil in Hr].
      apply Exists_cons. left. by apply closing_releases.
    + right. right. right. unfold when in *. destruct rest; [|by apply elem_of_nil in Hr].
      rewrite !elem_of_cons, elem_of_nil in Hr. rewrite !Exists_cons.
      destruct Hr as [->|[->|[]]]; [right; left|left];
        by apply closing_releases, list_elem_of_singleton.
Qed.

(** Closing a server that started releases what it opened, whatever happened in between. *)
Lemma Close_releases p a b q done ctx :
  Opened p = [] -> New pl cfg (mkBuilding p []) = (Ok a, b) -> Opened q ⊆ Opened (Proc b) ->
  Opened (Close pl cfg a done ctx q).2 = [].
Proof.
  intros Hp E Hq. destruct (New_Ok _ _ _ E) as (Es & Eg & _).
  destruct (New_adds _ _ _ E) as (Esb & Eo & _). cbn [Steps Proc] in Esb, Eo.
  rewrite app_nil_l in Esb. rewrite Hp, app_nil_l in Eo.
  destruct (shutdownSteps_spec a) as (_ & Hs & _ & Hr); [congruence|done|].
  unfold Close. rewrite Shutdown_runAll. match goal with |- context [runAll clock ctx _ ?x] => set (q1 := x) end.
  destruct (runAll_Opened ctx _ q1 Hs) as [Hsub Hgone].
  apply elem_of_nil_inv. intros r Hin. apply (Hgone r); [|done].
  apply Hr. rewrite <- Eo. by apply Hq, Hsub.
Qed.

(** A server that started, closed. *)
Lemma started_closes p a b done ctx :
  Opened p = [] -> New pl cfg (mkBuilding p []) = (Ok a, b) ->
  let p' := (Close pl cfg a done ctx (Proc b)).2 in
  Opened p' = [] /\
  exists w tail, 0 <= w <= Z.max 0 (Config.DrainDelay (Config.Shutdown cfg)) /\
    (done = None -> w = Z.max 0 (Config.DrainDelay (Config.Shutdown cfg))) /\
    Journal p' = Journal p ++ [SetServing false; Drained w] ++ tail /\
    Forall (fun e => exists n d, e = Closed n d) tail /\ closed_names tail = shutdown_order.
Proof.
  intros Hp E p'. split; [by eapply Close_releases|].
  destruct (New_Ok _ _ _ E) as (Es & Eg & _), (New_adds _ _ _ E) as (Esb & _ & Ej).
  cbn [Steps Proc] in Esb, Ej. rewrite app_nil_l in Esb.
  destruct (shutdownSteps_spec a) as (Hn & _ & Hnames & _); [congruence|done|].
  unfold p', Close. rewrite Shutdown_runAll.
  set (w := match done with Some _ => _ | None => _ end).
  match goal with |- context [runAll clock ctx _ ?q] => set (p1 := q) end.
  destruct (runAll_Journal ctx _ p1 Hn) as (tail & Hj & Ht & Ha).
  exists w, tail. split_ands; [unfold w; destruct done; lia..| | |done|by rewrite Ht].
  { intros Ed. unfold w. by rewrite Ed. }
  rewrite Hj. unfold p1. cbn. rewrite Ej. by rewrite <- !app_assoc.
Qed.

(** C24. Whatever the configuration and whatever the libraries answer: a server that starts
    releases every resource it opened when it is closed, whichever closers fail; it first
    reports itself unhealthy and waits the drain delay, and then stops from the outside in,
    the gateway before the gRPC server it forwards to and the pools after both.  A server
    that does not start has nothing open, unless a library fails in one of the gaps of
    [no_gap]. *)
Theorem start_and_stop p :
  Opened p = [] ->
  match New pl cfg (mkBuilding p []) with
  | (Ok a, b) => forall done ctx,
      let p' := (Close pl cfg a done ctx (Proc b)).2 in
      Opened p' = [] /\
      exists w tail, 0 <= w <= Z.max 0 (Config.DrainDelay (Config.Shutdown cfg)) /\
        (done = None -> w = Z.max 0 (Config.DrainDelay (Config.Shutdown cfg))) /\
        Journal p' = Journal p ++ [SetServing false; Drained w] ++ tail /\
        Forall (fun e => exists n d, e = Closed n d) tail /\ closed_names tail = shutdown_order
  | (Err _, b) => no_gap -> Opened (Proc b) = []
  end.
Proof.
  intros Hp. pose proof (New_clean p) as Hclean.
  destruct (New pl cfg (mkBuilding p [])) as [[a|e] b] eqn:E; [clear Hclean|by intros ?; apply Hclean].
  intros done ctx. by apply started_closes.
Qed.

(** C23. A production server verifies tokens.  Whatever the environment holds, a server process
    that starts in production has the OIDC verifier, built from its configuration with an
    audience and a tenant claim, and the addresses it is configured with, of the issuer and of
    its keys, are https, or http to a loopback host only; the development verifier never serves
    production. *)
Theorem production_verifies float_text entries p a b :
  Config.Load float_text entries = Ok cfg -> Config.AppEnv cfg = Config.EnvProduction ->
  New pl cfg (mkBuilding p []) = (Ok a, b) ->
  let opts := oidcOptions cfg in
  exists v, AVerifier a = OIDC v /\ Oidc.NewOIDCVerifier opts = Ok v /\
    Oidc.AllowInsecureIssuer opts = false /\
    OidcSpec.secure false (Oidc.IssuerURL opts) /\
    (Oidc.JWKSURL opts = "" \/ OidcSpec.secure false (Oidc.JWKSURL opts)) /\
    Oidc.Audience opts <> "" /\ TenantClaim (Oidc.OClaims opts) <> "".
Proof.
  unfold Config.Load, Config.Parse. rewrite ConfigSpec.ParseFor_Ok.
  intros (_ & Ecfg & Hc) Henv E. cbv zeta. set (opts := oidcOptions cfg). destruct (New_Ok _ _ _ E) as (_ & _ & b1 & Hv).
  assert (Config.CRole cfg = Config.RoleServer) as Hrole
    by (rewrite Ecfg; apply ConfigSpec.described_role).
  pose proof (ConfigSpec.wc_no_dev_auth _ Hc Hrole Henv) as Hdev.
  pose proof (ConfigSpec.wc_no_insecure _ Hc Henv) as Hins.
  revert Hv. unfold NewVerifier.
  destruct (String.eqb_spec (Config.AuthMode cfg) Config.AuthDev); [done|].
  destruct (String.eqb_spec (Config.AuthMode cfg) Config.AuthOIDC) as [Ha|]; [|done].
  intros (_ & b2 & _ & Hv)%bind_inv. apply bind_inv in Hv as (v & b3 & [= Hv _] & [= <- _]).
  destruct (OidcSpec.NewOIDCVerifier_opts _ _ Hv) as (Ei & Ej & Ea & Ec & Es).
  destruct (OidcSpec.NewOIDCVerifier_ok _ _ Hv) as [_ Hau Ht Hi Hj _ _].
  rewrite Ea in Hau. rewrite Ec in Ht. rewrite Ei, Es in Hi. rewrite Ej, Es in Hj.
  exists v. fold opts in Hv, Hau, Ht, Hi, Hj.
  change (Oidc.AllowInsecureIssuer opts) with (Config.AllowInsecureIssuer (Config.OIDC cfg)) in Hi, Hj |- *.
  rewrite Hins in Hi, Hj. by split_ands.
Qed.

End Spec.

(** * At concrete environments *)

#[local] Existing Instance ascii_tables.
#[local] Existing Instance Cursor.bits_env.
#[local] Existing Instance OidcSpec.demo_lib.

(** Libraries that answer; closing the Redis client reports an error, and the gRPC server
    drains for eight seconds. *)
Definition answering : platform := {|
  ExporterErr := None; ResourceErr := None; ValidatorErr := None; GormOpenErr := None;
  UnwrapErr := None; GuardErr := None; PingErr := None; UnwrapAgainErr := None;
  PolicyOrder := (map_to_list GrpcServer.DefaultPolicy).*1;
  ServiceInfo := GrpcServer.registered; Files := GrpcServer.order_files;
  DialErr := None; MuxErr := None;
  CloseErr n := if (n =? "redis-client")%string then Some (errorsNew "redis: closed") else None;
  CloseTime n := if (n =? "grpc-server")%string then 8 * Second else 0 |}.

Definition entries : list string :=
  ["APP_ENV=production"; "AUTH_MODE=oidc"; "OIDC_ISSUER_URL=https://idp"; "OIDC_AUDIENCE=orders";
   "STORE_DRIVER=postgres"; "POSTGRES_DSN=postgres://db"; "REDIS_ADDR=redis:6379";
   "OTEL_EXPORTER_OTLP_ENDPOINT=collector:4317"].

Definition production : Config.Config :=
  ConfigSpec.loaded (Config.Load ConfigSpec.quiet entries).

Definition boot : process := mkProcess [] [] 0 [].

(** The whole life of a production server: started, signalled after a minute, stopped. *)
Example lifetime :
  let '(err, p) := orderd ConfigSpec.quiet entries answering (Signalled (60 * Second)) boot in
  is_Some err /\ Opened p = [] /\ Clock p = 73 * Second /\
  closed_names (Journal p) =
    ["gateway-server"; "grpc-server"; "admin-server"; "gateway-listener"; "gateway-conn";
     "redis-client"; "postgres-pool"; "flush-traces"] /\
  take 3 (Journal p) = [SetServing true; SetServing false; Drained (5 * Second)].
Proof. vm_compute. split; [by eexists|done]. Qed.

Definition built : App * building :=
  match New answering production (mkBuilding boot []) with
  | (Ok a, b) => (a, b)
  | (Err _, b) => (mkApp DevVerifier InPostgres AllowAll (transportOptions production) None [], b)
  end.

Lemma start_and_stop_witness :
  Opened (Proc built.2) =
    [Exporter; TracerProvider; PostgresPool; RedisClient; GatewayListener; GatewayConn] /\
  Opened (Close answering production built.1 None Background (Proc built.2)).2 = [].
Proof.
  split; [by vm_compute|].
  pose proof (start_and_stop answering production boot eq_refl) as Hs. unfold built.
  destruct (New answering production (mkBuilding boot [])) as [[a|e] b] eqn:E.
  - exact (proj1 (Hs None Background)).
  - exfalso. assert (is_ok (New answering production (mkBuilding boot [])).1 = true) as Hok
      by (by vm_compute). rewrite E in Hok. discriminate.
Defined.

Lemma production_verifies_witness :
  exists v, AVerifier built.1 = OIDC v /\ Oidc.Audience (oidcOptions production) <> "".
Proof.
  unfold built. destruct (New answering production (mkBuilding boot [])) as [[a|e] b] eqn:E.
  - destruct (production_verifies answering production ConfigSpec.quiet entries boot a b
                ltac:(vm_compute; reflexivity) ltac:(vm_compute; reflexivity) E)
      as (v & Hv & _ & _ & _ & _ & Ha & _).
    exact (ex_intro _ v (conj Hv Ha)).
  - exfalso. assert (is_ok (New answering production (mkBuilding boot [])).1 = true) as Hok
      by (by vm_compute). rewrite E in Hok. discriminate.
Defined.

(** * The gaps

    When the last step of building the gateway fails, its connection and its listener have
    no closing step yet and stay open. *)
Definition mux_fails : platform :=
  let p := answering in
  mkPlatform (ExporterErr p) (ResourceErr p) (ValidatorErr p) (GormOpenErr p) (UnwrapErr p)
    (GuardErr p) (PingErr p) (UnwrapAgainErr p) (PolicyOrder p) (ServiceInfo p) (Files p)
    (DialErr p) (Some (errorsNew "mux")) (CloseErr p) (CloseTime p).

Lemma gateway_leaks :
  let '(r, b) := New mux_fails production (mkBuilding boot []) in
  is_ok r = false /\ Opened (Proc b) = [GatewayListener; GatewayConn].
Proof. by vm_compute. Qed.

(** The same for the pool, when the tenant guard cannot be registered. *)
Definition guard_fails : platform :=
  let p := answering in
  mkPlatform (ExporterErr p) (ResourceErr p) (ValidatorErr p) (GormOpenErr p) (UnwrapErr p)
    (Some (errorsNew "guard")) (PingErr p) (UnwrapAgainErr p) (PolicyOrder p) (ServiceInfo p)
    (Files p) (DialErr p) (MuxErr p) (CloseErr p) (CloseTime p).

Lemma pool_leaks :
  let '(r, b) := New guard_fails production (mkBuilding boot []) in
  is_ok r = false /\ Opened (Proc b) = [PostgresPool].
Proof. by vm_compute. Qed.

(** A server that fails while serving ends [Run] at once: nothing is drained, no step runs,
    and the health it last reported is SERVING. *)
Lemma serve_failure_skips_shutdown :
  let '(err, p) := orderd ConfigSpec.quiet entries answering
                     (ServeFailed "admin" (errorsNew "accept: too many open files")) boot in
  is_Some err /\ Journal p = [SetServing true] /\
  Opened p = [Exporter; TracerProvider; PostgresPool; RedisClient; GatewayListener; GatewayConn].
Proof. vm_compute. split; [by eexists|done]. Qed.
