(* ===== verification/Pipeline.v ===== *)
(** The whole event path: service, outbox, relay, stream, consumer, read model.

    One state machine composes the components of the other files: a call of the order
    service commits its orders and outbox row together (StoresAgree.v shows that, for calls that
    do not overlap, the Postgres store does what the abstract store of this machine does), relays,
    replays and pruning act on the outbox (OutboxSpec.v), the consumer dispatches whatever
    the stream holds, in any order and any number of times, to the projection (Events.v,
    OrderProj.v), the stream drops its oldest messages at any time, as its MaxAge does, whether
    or not the relay has managed to mark their rows, and the pruner drops the deduplication rows
    of rows that are marked and of which the stream holds no copy.

    That last guard is what the retention rule of the configuration is for: it keeps a
    deduplication row for longer than the stream keeps a message (ConfigSpec.v), so the guard
    can fail only for a row the relay published and then could not mark for longer than the
    difference of the two.  Without the guard an event would be counted twice
    ([forgotten_too_early]). *)

From S2P Require Import Prelude GoErr GoStr GoLog Money Order Cursor Store Service ServiceSpec.
From S2P Require Import Outbox OutboxSpec OrderPg OrderPgRefines Events EventsSpec OrderProj StoresAgree.

(** The read model decodes a payload with the function the store decodes it with. *)
#[local] Instance snapshot_of_pg `{PgLib} : SnapshotLib := {| json_Order := order_Unmarshal |}.

Record pipeline := mkPipe {
  Served : sstate;                (* the orders, and the events committed with them *)
  Sys : sys;                      (* the outbox, the stream, every event ever written *)
  Proj : tables;                  (* the read model *)
  Dropped : nat }.                (* how many of its oldest messages the stream has dropped *)

(** What the stream still holds. *)
Definition held (s : pipeline) : list Message := drop (Dropped s) (Broker (Out (Sys s))).

Section Pipeline.
Context `{PgLib, Unicode, CursorEnv}.
Context {printable : Z -> Prop} `{Hev : EventLib, !EventLaws printable}.
Context (p : Publisher) (consumer : string) (cfg : NATSConfig).

(** The consumer is given a message of the stream, for the first time or again. *)
Inductive delivery : pipeline -> pipeline -> Prop :=
  | Delivered m msg md penv env entries s :
      m ∈ held s -> envelope p m = Ok msg -> commit_honest penv ->
      delivery s (mkPipe (Served s) (Sys s)
                    (dispatch cfg (Handle consumer penv) env entries msg md (Proj s)).2 (Dropped s)).

(** A row that is marked (or pruned after it was) and of which the stream holds no copy. *)
Definition done_with (id : Z) (s : pipeline) : Prop := settled id (Sys s) /\ copies id (held s) = [].

Definition forget (id : Z) (t : tables) : tables :=
  mkTables (Processed t ∖ {[(consumer, msgID p id)]}) (Counts t).

Inductive step : pipeline -> pipeline -> Prop :=
  (* a call that publishes nothing: it reads or fails *)
  | Quiet c s :
      s_events (exec sstate c (Served s)).2 = s_events (Served s) ->
      step s (mkPipe (exec sstate c (Served s)).2 (Sys s) (Proj s) (Dropped s))
  (* a call that publishes [e], with the outbox row its transaction inserts *)
  | Serve c e id r s :
      s_events (exec sstate c (Served s)).2 = s_events (Served s) ++ [e] ->
      Written (Sys s) !! id = None -> 0 <= id -> stands_for r e -> printable (OccurredAt e) ->
      step s (mkPipe (exec sstate c (Served s)).2
                (mkSys (mkOutbox (<[id := r]> (Table (Out (Sys s)))) (Broker (Out (Sys s)))
                          (RLogs (Out (Sys s)))) (<[id := message id r]> (Written (Sys s))))
                (Proj s) (Dropped s))
  (* a relay drains, an operator replays a quarantined row, the pruner deletes *)
  | Background sy s :
      sys_step (Sys s) sy -> Written sy = Written (Sys s) ->
      step s (mkPipe (Served s) sy (Proj s) (Dropped s))
  | Deliver s s' : delivery s s' -> step s s'
  (* the stream drops its oldest messages *)
  | Expire n s :
      (Dropped s <= n <= length (Broker (Out (Sys s))))%nat ->
      step s (mkPipe (Served s) (Sys s) (Proj s) n)
  (* the pruner drops a deduplication row *)
  | Forget id s :
      done_with id s ->
      step s (mkPipe (Served s) (Sys s) (forget id (Proj s)) (Dropped s)).

Definition start : pipeline := mkPipe empty_sstate sys_init (mkTables ∅ ∅) 0.

(** * What is counted *)

(** The orders of a tenant. *)
Definition owned (tn : string) (a : sstate) : nat :=
  size (filter (fun kx : (string * string) * Order => kx.1.1 = tn) (s_orders a)).

(** The tenant an event of the outbox counts for. *)
Definition counts_for (m : Message) : option string :=
  if bool_decide (MEventType m = EventOrderCreated) then Some (MTenantID m) else None.

Definition event_for (tn : string) (e : Store.Event) : bool :=
  bool_decide (EType e = EventOrderCreated) && bool_decide (ETenantID e = tn).

Definition row_for (w : gmap Z Message) (tn : string) (id : Z) : bool :=
  bool_decide (w !! id ≫= counts_for = Some tn).

Definition tallied (w : gmap Z Message) (tn : string) (ids : list Z) : nat :=
  length (List.filter (row_for w tn) ids).

(** The message of a row carries the event. *)
Definition carries_event (m : Message) (e : Store.Event) : Prop :=
  MTenantID m = ETenantID e /\ MEventType m = EType e /\
  order_Unmarshal (MPayload m) = Ok (EOrder e) /\ ETenantID e <> "" /\ printable (MOccurredAt m).

Record sound (s : pipeline) : Prop := {
  so_wf : sstate_wf (Served s);
  so_tenants : forall t i o, s_orders (Served s) !! (t, i) = Some o -> t <> "";
  so_created : forall tn,
    length (List.filter (event_for tn) (s_events (Served s))) = owned tn (Served s);
  so_sys : sys_ok (Sys s);
  so_stream : forall m, m ∈ Broker (Out (Sys s)) -> Written (Sys s) !! MID m = Some m;
  so_dropped : (Dropped s <= length (Broker (Out (Sys s))))%nat;
  so_ids : forall id m, Written (Sys s) !! id = Some m -> 0 <= id /\ MID m = id;
  so_rows : exists rows, NoDup rows /\ (forall id, id ∈ rows <-> is_Some (Written (Sys s) !! id)) /\
    Forall2 (fun id e => exists m, Written (Sys s) !! id = Some m /\ carries_event m e)
      rows (s_events (Served s));
  so_proj : exists ids, NoDup ids /\
    (forall id, id ∈ ids -> is_Some (Written (Sys s) !! id)) /\
    (forall k, k ∈ Processed (Proj s) -> exists id, id ∈ ids /\ k = (consumer, msgID p id)) /\
    (forall id, id ∈ ids -> (consumer, msgID p id) ∈ Processed (Proj s) \/ done_with id s) /\
    (forall tn, Count None tn (Proj s) = Ok (Z.of_nat (tallied (Written (Sys s)) tn ids))) }.

(** * A call and its event *)

(** The shapes of what a call does to the abstract store. *)
Lemma exec_effect c a :
  sstate_wf a ->
  let a' := (exec sstate c a).2 in
  a' = a \/
  (exists o now, s_orders a !! (TenantID o, ID o) = None /\ TenantID o <> "" /\
     a' = mkS (<[(TenantID o, ID o) := o]> (s_orders a))
            (s_events a ++ [Store.mkEvent EventOrderCreated (ID o) (TenantID o) now o])) \/
  (exists t i o o' now, s_orders a !! (t, i) = Some o /\ TenantID o' = t /\ ID o' = i /\
     a' = mkS (<[(t, i) := o']> (s_orders a))
            (s_events a ++ [Store.mkEvent EventOrderCancelled i t now o'])).
Proof.
  intros Hw a'. destruct c as [id now cmd|t i|t f|now t i]; unfold a'; cbn [exec].
  - pose proof (Create_effect id now cmd a) as He.
    destruct (Service.Create id now cmd a) as [[o|e] a1]; cbn [snd]; [|by left].
    destruct He as (Hn & -> & Hv & _). right; left. exists o, now.
    apply OrderValidate_spec in Hv as (Ht & _). done.
  - left. unfold Service.Get. destruct (t =? "")%string eqn:Ht; [done|]. cbn -[lookup].
    rewrite Ht. by destruct (s_orders a !! _).
  - left. unfold Service.List. by destruct (t =? "")%string.
  - pose proof (Cancel_effect now t i a Hw) as He.
    destruct (Service.Cancel now t i a) as [[o'|e] a1]; cbn [snd]; [|by left; destruct He].
    destruct He as (o & Ho & Hc & ->). right; right.
    destruct (Hw t i o Ho) as [HT HI]. apply Cancel_fields in Hc as (_ & _ & Hi & Ht & _).
    exists t, i, o, o', now. split_ands; congruence.
Qed.

Lemma owned_insert_new tn a t i o evs :
  s_orders a !! (t, i) = None ->
  owned tn (mkS (<[(t, i) := o]> (s_orders a)) evs) =
    ((if bool_decide (t = tn) then 1 else 0) + owned tn a)%nat.
Proof.
  intros Hn. unfold owned. cbn [s_orders]. case_bool_decide as Ht.
  - rewrite map_filter_insert_True by done. apply map_size_insert_None.
    apply map_lookup_filter_None. by left.
  - rewrite map_filter_insert_False by done. by rewrite delete_id.
Qed.

Lemma owned_insert_old tn a t i o o' evs :
  s_orders a !! (t, i) = Some o ->
  owned tn (mkS (<[(t, i) := o']> (s_orders a)) evs) = owned tn a.
Proof.
  intros Ho. unfold owned. cbn [s_orders]. destruct (decide (t = tn)) as [Ht|Ht].
  - rewrite map_filter_insert_True by done. apply map_size_insert_Some.
    exists o. by apply map_lookup_filter_Some.
  - rewrite map_filter_insert_False by done. f_equal. apply map_eq. intros k.
    rewrite !map_lookup_filter, lookup_delete. case_decide as Hk; [|done]. subst k.
    rewrite Ho. cbn. by rewrite option_guard_False.
Qed.

(** What a call preserves: keys and tenants, and one creation per order. *)
Lemma exec_created c a :
  sstate_wf a -> (forall t i o, s_orders a !! (t, i) = Some o -> t <> "") ->
  (forall tn, length (List.filter (event_for tn) (s_events a)) = owned tn a) ->
  let a' := (exec sstate c a).2 in
  sstate_wf a' /\ (forall t i o, s_orders a' !! (t, i) = Some o -> t <> "") /\
  (forall tn, length (List.filter (event_for tn) (s_events a')) = owned tn a') /\
  (forall e, s_events a' = s_events a ++ [e] -> ETenantID e <> "").
Proof.
  intros Hw Ht Hc a'.
  destruct (exec_effect c a Hw)
    as [E|[(o & now & Hn & Hne & E)|(t & i & o & o' & now & Ho & HT & HI & E)]]; fold a' in E;
    rewrite E.
  - split_ands; [done|done|done|]. intros e Ee. apply (f_equal length) in Ee.
    rewrite length_app in Ee. cbn in Ee. lia.
  - split_ands; [by apply insert_wf| | |].
    + intros t i o'. cbn. rewrite lookup_insert. case_decide as Hk; [|apply Ht].
      by injection Hk as <- <-.
    + intros tn. cbn [s_events]. rewrite List.filter_app, length_app, Hc, owned_insert_new by done.
      cbn [List.filter]. unfold event_for. cbn [EType ETenantID]. rewrite bool_decide_eq_true_2 by done.
      cbn [andb]. case_bool_decide; cbn; lia.
    + intros e [_ <-]%app_inj_tail. done.
  - split_ands; [by apply insert_wf| | |].
    + intros t' i' o1. cbn. rewrite lookup_insert. case_decide as Hk; [|apply Ht].
      injection Hk as <- <-. intros _. by eapply Ht.
    + intros tn. cbn [s_events]. rewrite List.filter_app, length_app, Hc.
      rewrite (owned_insert_old _ _ _ _ o) by done.
      cbn [List.filter]. unfold event_for. cbn [EType]. rewrite bool_decide_eq_false_2 by done.
      cbn. lia.
    + intros e [_ <-]%app_inj_tail. by eapply Ht.
Qed.

(** * A delivery *)

(** Dispatching changes the read model only through the handler, and only for a delivery that
    has metadata. *)
Lemma dispatch_world penv env entries msg md t :
  (dispatch cfg (Handle consumer penv) env entries msg md t).2 = t \/
  exists md', md = Ok md' /\
    (dispatch cfg (Handle consumer penv) env entries msg md t).2 =
      (Handle consumer penv (eventFrom msg md') t).2.
Proof.
  destruct md as [md|]; [|by left]. right. exists md. split; [done|]. unfold dispatch.
  destruct (Handle consumer penv (eventFrom msg md) t) as [[err|] w]; [|done].
  destruct (IsPermanent err); [done|]. by destruct (_ >=? _).
Qed.

(** The event the consumer sees counts for the tenant of its row. *)
Lemma counted_event m e msg md :
  carries_event m e -> envelope p m = Ok msg ->
  EvID (eventFrom msg md) = msgID p (MID m) /\ counted_for (eventFrom msg md) = counts_for m.
Proof.
  intros (Ht & _ & Hj & Hne & Hp) Hm. rewrite (eventFrom_envelope printable p m msg md Hp Hm).
  split; [done|]. unfold counted_for, counts_for. cbn [EvType EvPayload].
  destruct (String.eqb_spec (MEventType m) EventOrderCreated) as [->|Hty];
    [rewrite bool_decide_eq_true_2 by done|by rewrite bool_decide_eq_false_2].
  unfold json_Order, snapshot_of_pg. rewrite Hj. unfold eventTenant. cbn [EvTenantID].
  rewrite <- Ht in Hne. apply String.eqb_neq in Hne. by rewrite !Hne.
Qed.

(** One delivery either leaves the read model or records the row and counts it once. *)
Lemma Deliver_effect m e msg md penv env entries t :
  carries_event m e -> envelope p m = Ok msg -> commit_honest penv ->
  let t' := (dispatch cfg (Handle consumer penv) env entries msg md t).2 in
  t' = t \/
  exists tenant at_, counts_for m = Some tenant /\
    ((consumer, msgID p (MID m)) ∉ Processed t) /\
    t' = upsertCount tenant at_
           (mkTables ({[(consumer, msgID p (MID m))]} ∪ Processed t) (Counts t)).
Proof.
  intros Hc Hm Hh t'. destruct (dispatch_world penv env entries msg md t) as [?|(md' & _ & E)];
    [by left|]. fold t' in E. rewrite E.
  destruct (counted_event m e msg md' Hc Hm) as [Hid Hf].
  pose proof (Handle_spec consumer penv (eventFrom msg md') t Hh) as Hs. rewrite Hid, Hf in Hs.
  destruct (Handle consumer penv (eventFrom msg md') t) as [err t1]. cbn [snd].
  destruct (counts_for m) as [tenant|]; [|left; apply Hs].
  destruct Hs as [[-> _]|[Hn ->]]; [by left|right]. by eexists _, _.
Qed.

Lemma Count_upsert tn tenant at_ P t :
  Count None tn (upsertCount tenant at_ (mkTables P (Counts t))) =
    (n ← Count None tn t; Ok ((if bool_decide (tenant = tn) then 1 else 0) + n)).
Proof.
  unfold Count, upsertCount. cbn. rewrite lookup_insert. case_decide as Ht.
  - subst tn. rewrite bool_decide_eq_true_2 by done. destruct (Counts t !! tenant); cbn; f_equal; lia.
  - rewrite bool_decide_eq_false_2 by done. by destruct (Counts t !! tn).
Qed.

(** * The invariant *)

Lemma tallied_fresh w id m tn ids :
  w !! id = None -> (forall i, i ∈ ids -> is_Some (w !! i)) ->
  tallied (<[id := m]> w) tn ids = tallied w tn ids.
Proof.
  intros Hn Hi. unfold tallied. f_equal. induction ids as [|i ids IH]; cbn; [done|].
  assert (row_for (<[id := m]> w) tn i = row_for w tn i) as ->.
  { unfold row_for. rewrite lookup_insert_ne; [done|]. intros ->.
    destruct (Hi i) as [x Hx]; [left|congruence]. }
  rewrite IH; [done|]. intros j Hj. apply Hi. by right.
Qed.

(** Drains, replays and pruning put nothing into the stream but rows that were written. *)
Lemma stream_written s s' :
  sys_step s s' -> Written s' = Written s -> sys_ok s ->
  (forall m, m ∈ Broker (Out s) -> Written s !! MID m = Some m) ->
  forall m, m ∈ Broker (Out s') -> Written s !! MID m = Some m.
Proof.
  intros Hstep Hw [Hr _] Hb m. destruct Hstep as [id r s Hid Hf|n e s Hh|id r s Hr'|cutoff scan n s Hsc];
    cbn [Out Broker] in *; auto.
  pose proof (DrainOnce_drained n e (Out s) Hh) as Hd.
  destruct (DrainOnce n e (Out s)) as [[k err] [t' b' l']]. cbn [fst snd Broker] in *.
  assert (forall x, x ∈ batch_of (claimSQL n (Locked e) (Table (Out s))) ->
            Written s !! MID x = Some x) as Hclaim.
  { intros x ([id r] & -> & Hin)%list_elem_of_fmap. cbn.
    by apply (Hr id r), (claim_is_claim n (Locked e) (Table (Out s))). }
  destruct Hd as [sent Ht E Hs|sent m' cause Ht E Hs|l Ht E]; cbn in E; subst b';
    intros [Hin|Hin]%elem_of_app; auto.
Qed.

(** ** What the stream has dropped of a marked row stays dropped *)

Lemma copies_drop id n b : copies id b = [] -> copies id (drop n b) = [].
Proof.
  rewrite <- (take_drop n b) at 1. rewrite copies_app. by intros [_ ?]%app_nil.
Qed.

(** No drain, replay or pruning publishes such a row again. *)
Lemma done_background id sy x proj s :
  sys_step (Sys s) sy -> (Dropped s <= length (Broker (Out (Sys s))))%nat -> done_with id s ->
  done_with id (mkPipe x sy proj (Dropped s)) /\
  copies id (Broker (Out sy)) = copies id (Broker (Out (Sys s))).
Proof.
  intros Hst Hle [Hset Hno]. destruct (settled_step _ _ id Hst Hset) as [Hset' Hc].
  split; [|done]. split; [done|]. destruct (sys_step_stream _ _ Hst) as [sent E].
  unfold held. cbn [Dropped Sys]. rewrite E in *. rewrite drop_app_le, copies_app by done.
  unfold held in Hno. rewrite Hno. rewrite copies_app in Hc.
  by rewrite <- (app_nil_r (copies id (Broker (Out (Sys s))))) in Hc at 2; apply app_inv_head in Hc.
Qed.

Lemma done_expire id n s :
  (Dropped s <= n)%nat -> done_with id s -> done_with id (mkPipe (Served s) (Sys s) (Proj s) n).
Proof.
  intros Hle [Hset Hno]. split; [done|]. unfold held in *. cbn [Dropped Sys].
  replace n with (Dropped s + (n - Dropped s))%nat by lia.
  rewrite <- drop_drop. by apply copies_drop.
Qed.

Lemma step_done id s s' :
  (Dropped s <= length (Broker (Out (Sys s))))%nat -> step s s' -> done_with id s ->
  done_with id s' /\ copies id (Broker (Out (Sys s'))) = copies id (Broker (Out (Sys s))).
Proof.
  intros Hle Hstep Hd. destruct Hstep as [c s He|c e i r s He Hn Hpos Hst Hpr|sy s Hy Hw
    |s s' []|n s Hn|i s Hi]; try by split.
  - apply (done_background id (mkSys _ _) _ _ s); [|done..]. apply Write; [done|apply Hst].
  - by apply (done_background id sy (Served s) (Proj s) s).
  - split; [|done]. apply done_expire; [lia|done].
Qed.

Lemma start_sound : sound start.
Proof.
  split.
  - intros t i o. cbn. by rewrite lookup_empty.
  - intros t i o. cbn. by rewrite lookup_empty.
  - done.
  - apply reachable_ok. constructor.
  - intros m. by intros []%elem_of_nil.
  - done.
  - intros id m. cbn. by rewrite lookup_empty.
  - exists []. split_ands; [constructor| |constructor].
    intros id. cbn. rewrite lookup_empty, elem_of_nil. split; [done|]. by intros [].
  - exists []. split_ands; [constructor|..].
    + by intros id ?%elem_of_nil.
    + intros k. cbn. set_solver.
    + by intros id ?%elem_of_nil.
    + done.
Qed.

Lemma row_event s id m :
  sound s -> Written (Sys s) !! id = Some m -> exists e, carries_event m e.
Proof.
  intros Hs Hm. destruct (so_rows s Hs) as (rows & _ & Hin & Hall).
  assert (id ∈ rows) as [i Hi]%list_elem_of_lookup by (apply Hin; by eexists).
  destruct (Forall2_lookup_l _ _ _ _ _ Hall Hi) as (e & _ & m' & Hm' & Hc).
  exists e. by rewrite Hm in Hm'; injection Hm' as <-.
Qed.

Lemma Serve_sound c e id r s :
  sound s -> s_events (exec sstate c (Served s)).2 = s_events (Served s) ++ [e] ->
  Written (Sys s) !! id = None -> 0 <= id -> stands_for r e -> printable (OccurredAt e) ->
  sound (mkPipe (exec sstate c (Served s)).2
           (mkSys (mkOutbox (<[id := r]> (Table (Out (Sys s)))) (Broker (Out (Sys s)))
                     (RLogs (Out (Sys s)))) (<[id := message id r]> (Written (Sys s))))
           (Proj s) (Dropped s)).
Proof.
  intros Hs He Hn Hpos Hst Hpr.
  pose proof (fun i => step_done i s _ (so_dropped s Hs) (Serve c e id r s He Hn Hpos Hst Hpr)) as Hdone.
  destruct Hs as [Hw Ht Hc Hsys Hb Hle Hid Hrows Hproj].
  destruct (exec_created c (Served s) Hw Ht Hc) as (Hw' & Ht' & Hc' & Hten).
  assert (fresh_row r) as Hf by apply Hst.
  split; cbn [Served Sys Proj Dropped Out Broker Written]; [done|done|done| | |done| | |].
  - by apply (sys_step_ok _ _ (Write id r (Sys s) Hn Hf)).
  - intros m Hm%Hb. rewrite lookup_insert_ne; [done|]. congruence.
  - intros i m. rewrite lookup_insert. case_decide; [|apply Hid]. by intros [= <-]; subst.
  - destruct Hrows as (rows & Hnd & Hin & Hall). exists (rows ++ [id]). split_ands.
    + apply NoDup_app. split_ands; [done| |by apply NoDup_singleton].
      intros i Hi ->%list_elem_of_singleton. apply Hin in Hi as [x Hx]. congruence.
    + intros i. rewrite elem_of_app, list_elem_of_singleton, Hin, lookup_insert.
      case_decide as Hi; [subst; by split; eauto|]. split; [intros [?|?]; congruence|auto].
    + rewrite He. apply Forall2_app; [|constructor; [|done]].
      * eapply Forall2_impl; [exact Hall|]. intros i x (m & Hm & Hcar). exists m.
        split; [|done]. rewrite lookup_insert_ne; [done|congruence].
      * exists (message id r). rewrite lookup_insert_eq. split; [done|].
        destruct Hst as (E1 & _ & E2 & E3 & E4 & _). unfold carries_event, message. cbn.
        rewrite E1, E2, E3. split_ands; auto.
  - destruct Hproj as (ids & Hnd & Hin & Hp & Hd & Hcnt). exists ids. split_ands; [done| |done| |].
    + intros i Hi. destruct (Hin i Hi) as [x Hx]. exists x.
      rewrite lookup_insert_ne; [done|congruence].
    + intros i Hi. destruct (Hd i Hi) as [?|Hdn]; [by left|right]. by apply Hdone.
    + intros tn. by rewrite tallied_fresh.
Qed.

Lemma held_stream m s : m ∈ held s -> m ∈ Broker (Out (Sys s)).
Proof. unfold held. rewrite <- (take_drop (Dropped s) (Broker _)) at 2. set_solver. Qed.

Lemma held_copies m s : m ∈ held s -> copies (MID m) (held s) <> [].
Proof.
  intros Hm Hno. assert (m ∈ copies (MID m) (held s)) as Hin; [|by rewrite Hno in Hin; apply elem_of_nil in Hin].
  apply elem_of_filter_list. by rewrite Z.eqb_refl.
Qed.

Lemma Deliver_sound m msg md penv env entries s :
  sound s -> m ∈ held s -> envelope p m = Ok msg -> commit_honest penv ->
  sound (mkPipe (Served s) (Sys s)
           (dispatch cfg (Handle consumer penv) env entries msg md (Proj s)).2 (Dropped s)).
Proof.
  intros Hs Hm Hmsg Hh.
  assert (Written (Sys s) !! MID m = Some m) as Hw by (by apply (so_stream s Hs), held_stream).
  destruct (row_event s _ _ Hs Hw) as [e Hcar].
  pose proof (Deliver_effect m e msg md penv env entries (Proj s) Hcar Hmsg Hh) as Heff.
  destruct Hs as [Hwf Ht Hc Hsys Hb Hle Hid Hrows (ids & Hnd & Hin & Hp & Hd & Hcnt)].
  split; cbn [Served Sys Proj Dropped]; try done.
  destruct Heff as [->|(tenant & at_ & Hf & Hnew & ->)]; [by exists ids|].
  exists (MID m :: ids). split_ands.
  - constructor; [|done]. intros Hi. destruct (Hd _ Hi) as [?|[_ Hno]]; [done|].
    by apply (held_copies m s Hm).
  - intros i [->|Hi]%elem_of_cons; [by eexists|auto].
  - intros k. cbn. intros [->%elem_of_singleton|Hk]%elem_of_union; [exists (MID m); by split; [left|]|].
    destruct (Hp k Hk) as (i & Hi & ->). exists i. by split; [right|].
  - intros i. cbn. intros [->|Hi]%elem_of_cons; [set_solver|].
    destruct (Hd i Hi); [left; set_solver|by right].
  - intros tn. rewrite Count_upsert, Hcnt. cbn [mbind result_bind]. f_equal.
    unfold tallied. cbn [List.filter]. unfold row_for at 2. rewrite Hw. cbn [mbind option_bind].
    rewrite Hf. destruct (decide (tenant = tn)) as [->|Hne].
    + rewrite !bool_decide_eq_true_2 by done. cbn [length]. lia.
    + rewrite !bool_decide_eq_false_2 by congruence. lia.
Qed.

Lemma Forget_sound id s :
  sound s -> done_with id s ->
  sound (mkPipe (Served s) (Sys s) (forget id (Proj s)) (Dropped s)).
Proof.
  intros [Hw Ht Hc Hsys Hb Hle Hid Hrows (ids & Hnd & Hin & Hp & Hd & Hcnt)] Hdone.
  pose proof Hdone as [[[m0 Hm0] _] _].
  split; cbn [Served Sys Proj Dropped Processed]; try done.
  exists ids. split_ands; try done.
  - intros k [Hk _]%elem_of_difference. by apply Hp.
  - intros i Hi. destruct (decide (msgID p i = msgID p id)) as [E|Hne].
    + right. destruct (Hin i Hi) as [m Hm]. destruct (Hid i m Hm) as [Hi0 _], (Hid id m0 Hm0) as [Hpos _].
      by apply msgID_collision_free in E as [_ ->].
    + destruct (Hd i Hi); [left|by right]. apply elem_of_difference.
      split; [done|]. rewrite elem_of_singleton. congruence.
Qed.

Lemma step_sound s s' : step s s' -> sound s -> sound s'.
Proof.
  intros Hstep Hs. pose proof (fun i => step_done i s s' (so_dropped s Hs) Hstep) as Hdone.
  destruct Hstep as [c s He|c e id r s He Hn Hpos Hst Hpr|sy s Hy Hw
    |s s' [m msg md penv env entries s1 Hm Hmsg Hh]|n s Hn|id s Hd].
  - destruct (exec_created c (Served s) (so_wf s Hs) (so_tenants s Hs) (so_created s Hs))
      as (Hw' & Ht' & Hc' & _).
    destruct Hs as [_ _ _ Hsys Hb Hle Hid Hrows Hproj]. split; try done. cbn. by rewrite He.
  - by apply (Serve_sound c e).
  - destruct (sys_step_stream _ _ Hy) as [sent Hsent].
    destruct Hs as [Hwf Ht Hc Hsys Hb Hle Hid Hrows (ids & Hnd & Hin & Hp & Hd & Hcnt)].
    split; cbn [Served Sys Proj Dropped]; rewrite ?Hw; try done.
    + by apply (sys_step_ok (Sys s)).
    + by apply (stream_written (Sys s)).
    + rewrite Hsent, length_app. lia.
    + exists ids. split_ands; try done. intros i Hi. destruct (Hd i Hi); [by left|right]. by apply Hdone.
  - by apply (Deliver_sound m msg).
  - destruct Hs as [Hw Ht Hc Hsys Hb Hle Hid Hrows (ids & Hnd & Hin & Hp & Hd & Hcnt)].
    split; try done; [cbn; lia|]. exists ids. split_ands; try done.
    intros i Hi. destruct (Hd i Hi); [by left|right]. by apply Hdone.
  - by apply Forget_sound.
Qed.

Lemma reachable_sound s : rtc step start s -> sound s.
Proof.
  revert s. apply (rtc_ind_r sound); [apply start_sound|].
  intros s s' _ Hstep Hs. by apply (step_sound s).
Qed.

(** * What the stream has dropped stays dropped *)

(** C20. Once a row is marked published and the stream has dropped its last message, no relay,
    replay, pruning or expiry ever puts another into the stream: the duplicates a consumer must
    expect belong to rows the stream still holds or the relay has not yet marked.  (A row whose
    messages are dropped before the relay could mark it is published again; see
    [unmarked_is_republished].) *)
Theorem expired_stays_gone s s' id :
  rtc step start s -> done_with id s -> rtc step s s' ->
  done_with id s' /\ copies id (Broker (Out (Sys s'))) = copies id (Broker (Out (Sys s))).
Proof.
  intros Hr Hid Hs. apply reachable_sound in Hr.
  induction Hs as [s|s s1 s2 Hst _ IH]; [done|].
  destruct (step_done id s s1 (so_dropped s Hr) Hst Hid) as [Hid1 <-].
  apply IH; [by apply (step_sound s)|done].
Qed.

(** * What is read *)

Lemma tallied_rows w rows evs tn :
  Forall2 (fun id e => exists m, w !! id = Some m /\ carries_event m e) rows evs ->
  tallied w tn rows = length (List.filter (event_for tn) evs).
Proof.
  unfold tallied. induction 1 as [|id e rows evs (m & Hm & Hc) _ IH]; [done|]. cbn [List.filter].
  assert (row_for w tn id = event_for tn e) as ->.
  { destruct Hc as (E1 & E2 & _). unfold row_for, event_for, counts_for. rewrite Hm.
    cbn [mbind option_bind]. rewrite E1, E2. destruct (decide (EType e = EventOrderCreated)).
    - rewrite !(bool_decide_eq_true_2 (EType e = _)) by done. apply bool_decide_ext. naive_solver.
    - rewrite !(bool_decide_eq_false_2 (EType e = _)) by done. by rewrite bool_decide_eq_false_2. }
  destruct (event_for tn e); cbn [length]; by rewrite IH.
Qed.

Lemma tallied_le w tn ids ids' :
  NoDup ids -> (forall i, i ∈ ids -> row_for w tn i = true -> i ∈ ids') ->
  (tallied w tn ids <= tallied w tn ids')%nat.
Proof.
  intros Hnd Hin. apply submseteq_length, NoDup_submseteq; [by apply NoDup_filter_list|].
  intros i [Hf Hi]%elem_of_filter_list. apply elem_of_filter_list. auto.
Qed.

Lemma sound_counts s tn :
  sound s ->
  exists n, Count None tn (Proj s) = Ok (Z.of_nat n) /\ (n <= owned tn (Served s))%nat /\
    ((forall id m, Written (Sys s) !! id = Some m -> counts_for m = Some tn ->
        (consumer, msgID p id) ∈ Processed (Proj s)) -> n = owned tn (Served s)).
Proof.
  intros Hs.
  destruct (so_rows s Hs) as (rows & Hndr & Hinr & Hall).
  destruct (so_proj s Hs) as (ids & Hnd & Hin & Hp & Hd & Hcnt).
  pose proof (tallied_rows _ _ _ tn Hall) as Hrows. rewrite (so_created s Hs) in Hrows.
  assert (tallied (Written (Sys s)) tn ids <= tallied (Written (Sys s)) tn rows)%nat as Hle
    by (apply tallied_le; [done|]; intros i Hi _; by apply Hinr, Hin).
  exists (tallied (Written (Sys s)) tn ids). split_ands; [apply Hcnt|lia|]. intros Hdone.
  assert (tallied (Written (Sys s)) tn rows <= tallied (Written (Sys s)) tn ids)%nat; [|lia].
  apply tallied_le; [done|]. intros i [m Hm]%Hinr Hf. unfold row_for in Hf. rewrite Hm in Hf.
  apply bool_decide_eq_true in Hf. destruct (Hp _ (Hdone i m Hm Hf)) as (i' & Hi' & [= E]).
  destruct (Hin i' Hi') as [m' Hm'], (so_ids s Hs i m Hm), (so_ids s Hs i' m' Hm').
  by apply msgID_collision_free in E as [_ ->].
Qed.

(** C5. The read model never runs ahead of the orders and catches up exactly.  The steps are whole
    service calls, drains with whatever failures (by a publisher that answers nil only for a
    stored message), redeliveries, replays, the expiry of the stream's oldest messages at any
    time, marked or not, and pruning; a deduplication row is pruned only when its outbox row is
    marked published and the stream holds no copy of it.  In every state that any sequence of
    them can reach, the count a tenant reads is at most the number of orders it has; and once the
    creation of each of them is recorded as processed, it is that number. *)
Theorem counts_track_orders s tn :
  rtc step start s ->
  exists n, Count None tn (Proj s) = Ok (Z.of_nat n) /\ (n <= owned tn (Served s))%nat /\
    ((forall id m, Written (Sys s) !! id = Some m -> counts_for m = Some tn ->
        (consumer, msgID p id) ∈ Processed (Proj s)) -> n = owned tn (Served s)).
Proof. intros Hs. by apply sound_counts, reachable_sound. Qed.

(** * Catching up *)

Definition calm_db : projEnv := mkProjEnv None None None None true None.
Definition calm_broker : brokerEnv := mkBroker None None None true None.
Definition first_delivery : metadata := mkMeta 1 0 "" 1.

(** The part of the state a delivery does not touch, and the claims it keeps. *)
Definition later (s s' : pipeline) : Prop :=
  Served s' = Served s /\ Sys s' = Sys s /\ Dropped s' = Dropped s /\
  Processed (Proj s) ⊆ Processed (Proj s').

Lemma Deliver_progress s m e msg tn :
  m ∈ held s -> envelope p m = Ok msg -> carries_event m e -> counts_for m = Some tn ->
  exists s', delivery s s' /\ later s s' /\ (consumer, msgID p (MID m)) ∈ Processed (Proj s').
Proof.
  intros Hm Hmsg Hcar Hf. eexists. split.
  { by apply (Delivered m msg (Ok first_delivery) calm_db calm_broker []). }
  destruct (counted_event m e msg first_delivery Hcar Hmsg) as [Hid Hev'].
  set (t' := (dispatch _ _ _ _ _ _ _).2).
  assert (t' = (Handle consumer calm_db (eventFrom msg first_delivery) (Proj s)).2) as E.
  { unfold t', dispatch. destruct (Handle _ _ _ _) as [[err|] w]; [|done].
    destruct (IsPermanent err); [done|]. by destruct (_ >=? _). }
  assert ((Handle consumer calm_db (eventFrom msg first_delivery) (Proj s)).1 = None) as Hnone.
  { rewrite Hf in Hev'. revert Hev'. unfold counted_for, Handle.
    destruct (_ =? EventOrderCreated)%string; [|done]. cbn [negb].
    destruct (json_Order _); [|done]. destruct (_ =? "")%string; [done|]. intros _. cbn.
    destruct (claimEvent _ _) as [? []]; done. }
  pose proof (Handle_spec consumer calm_db (eventFrom msg first_delivery) (Proj s)
    (fun _ => eq_refl)) as Hs. rewrite Hev', Hf, Hid in Hs.
  destruct (Handle _ _ _ _) as [err t1]. cbn [fst snd] in *. subst err t1. unfold later.
  cbn [Served Sys Proj Dropped]. destruct Hs as [[Hsame Hin]|[_ Hs]].
  - rewrite Hsame. split_ands; auto.
  - rewrite Hs. cbn. split_ands; try done; set_solver.
Qed.

(** C21. Nothing the pipeline does strands a count: from every reachable state in which the stream
    still holds the creations of a tenant's orders, each with a subject and headers it can be
    read back from, a sequence of deliveries and nothing else leads to a state where the tenant's
    count is the number of its orders, which the deliveries leave as they were. *)
Theorem read_model_catches_up s tn :
  rtc step start s ->
  (forall id m, Written (Sys s) !! id = Some m -> counts_for m = Some tn ->
     m ∈ held s /\ exists msg, envelope p m = Ok msg) ->
  exists s', rtc delivery s s' /\ Served s' = Served s /\
    Count None tn (Proj s') = Ok (Z.of_nat (owned tn (Served s))).
Proof.
  intros Hr Hheld. pose proof (reachable_sound s Hr) as Hs.
  destruct (so_rows s Hs) as (rows & _ & Hinr & _).
  assert (forall l : list Z, (forall i, i ∈ l -> is_Some (Written (Sys s) !! i)) ->
    exists s', rtc delivery s s' /\ later s s' /\
      forall i m, i ∈ l -> Written (Sys s) !! i = Some m -> counts_for m = Some tn ->
        (consumer, msgID p i) ∈ Processed (Proj s')) as Hall.
  { induction l as [|i l IH]; intros Hl.
    { exists s. split_ands; [done|by unfold later|by intros ?? ?%elem_of_nil]. }
    destruct IH as (s1 & Hr1 & (E1 & E2 & E3 & Hsub) & Hd1); [intros; apply Hl; by right|].
    destruct (Hl i) as [m Hm]; [left|]. destruct (decide (counts_for m = Some tn)) as [Hf|Hf].
    2:{ exists s1. split_ands; [done|by unfold later|]. intros j x [->|Hj]%elem_of_cons Hx Hfx;
          [congruence|by eapply Hd1]. }
    destruct (Hheld i m Hm Hf) as (Hb & msg & Hmsg).
    destruct (row_event s i m Hs Hm) as [e Hcar], (so_ids s Hs i m Hm) as [_ Hmid].
    destruct (Deliver_progress s1 m e msg tn) as (s2 & Hst & (F1 & F2 & F3 & Hsub2) & Hin);
      [by unfold held in *; rewrite E2, E3|done|done|done|].
    exists s2. split_ands; [by eapply rtc_r|unfold later; split_ands; [congruence..|by etrans]|].
    intros j x [->|Hj]%elem_of_cons Hx Hfx; [by rewrite <- Hmid|]. eapply Hsub2, Hd1; eauto. }
  destruct (Hall rows) as (s' & Hr' & (E1 & E2 & _ & _) & Hd); [by intros i ?%Hinr|].
  destruct (sound_counts s' tn) as (n & Hn & _ & Heq).
  { apply reachable_sound. etrans; [exact Hr|]. eapply rtc_subrel; [|exact Hr']. intros ??. apply Deliver. }
  exists s'. split_ands; [done|done|]. rewrite Hn, Heq, E1; [done|]. rewrite E2.
  intros i m Hm Hf. by apply (Hd i m); [apply Hinr; eexists|..].
Qed.

End Pipeline.

(** * One order on its way *)

#[local] Existing Instance plain_pg.
#[local] Existing Instance ascii_tables.
#[local] Existing Instance bits_env.
#[local] Existing Instance plain_events.
#[local] Existing Instance plain_events_laws.

Definition demo_publisher : Publisher := mkPublisher "events" "orders-api".
Definition demo_cfg : NATSConfig := mkNATS 5 "dlq".

Definition demo_call : call :=
  CallCreate (Ok some_id) 7000 (mkCreateCommand "acme" "cust-1" (Items two_lines)).
Definition demo_served : sstate := (exec sstate demo_call empty_sstate).2.
Definition demo_order : Order :=
  match s_orders demo_served !! ("acme", some_id) with Some o => o | None => two_lines end.
Definition demo_event : Store.Event :=
  Store.mkEvent EventOrderCreated some_id "acme" 7000 demo_order.
Definition demo_row : row :=
  mkRow "acme" some_id EventOrderCreated (bits_write (encode demo_order)) 7000 (Some "")
    None None None.
Definition demo_message : Message := message 1 demo_row.

Definition demo_written : sys := mkSys (mkOutbox {[1 := demo_row]} [] []) {[1 := demo_message]}.
Definition demo_drained : sys :=
  mkSys (DrainOnce 10 (quiet (fun _ _ => (true, None))) (Out demo_written)).2 (Written demo_written).
Definition in_stream : pipeline := mkPipe demo_served demo_drained (mkTables ∅ ∅) 0.

Definition demo_msg : natsMsg :=
  match envelope demo_publisher demo_message with Ok m => m | Err _ => mkMsg "" ∅ "" end.

(** The message delivered twice. *)
Definition delivered : pipeline :=
  let handle := Handle "counts" calm_db in
  let once := (dispatch demo_cfg handle calm_broker [] demo_msg (Ok first_delivery) (mkTables ∅ ∅)).2 in
  mkPipe demo_served demo_drained
    (dispatch demo_cfg handle calm_broker [] demo_msg (Ok first_delivery) once).2 0.

Abbreviation demo_step := (step (printable:=fun _ => True) demo_publisher "counts" demo_cfg).

Lemma in_stream_reachable : rtc demo_step start in_stream.
Proof.
  eapply rtc_l.
  { by apply (Serve _ _ _ demo_call demo_event 1 demo_row start). }
  eapply rtc_l; [|apply rtc_refl].
  apply (Background _ _ _ demo_drained (mkPipe demo_served demo_written (mkTables ∅ ∅) 0)); [|done].
  apply Drain. by intros k m.
Defined.

(** The stream drops the published message, and the relay drains once more. *)
Definition dropped : pipeline := mkPipe demo_served demo_drained (mkTables ∅ ∅) 1.
Definition drained_again : pipeline :=
  mkPipe demo_served
    (mkSys (DrainOnce 10 (quiet (fun _ _ => (true, None))) (Out demo_drained)).2 (Written demo_drained))
    (mkTables ∅ ∅) 1.

Lemma dropped_reachable : rtc demo_step start dropped.
Proof.
  eapply rtc_r; [exact in_stream_reachable|]. apply (Expire _ _ _ 1 in_stream).
  apply (bool_decide_unpack _). vm_compute. exact I.
Defined.

Lemma dropped_done : done_with 1 dropped.
Proof.
  split; [|by vm_compute]. split; [apply (bool_decide_unpack _); vm_compute; exact I|].
  assert (bool_decide (map_Forall (fun k r => k <> 1 \/ PublishedAt r <> None) (Table (Out demo_drained))) = true)
    as Hm by (vm_compute; reflexivity).
  intros r Hr. apply bool_decide_eq_true in Hm. destruct (Hm 1 r Hr) as [Hne|Hp]; [by destruct Hne|exact Hp].
Defined.

Lemma demo_message_held : demo_message ∈ held in_stream.
Proof. apply (bool_decide_unpack _). vm_compute. exact I. Defined.

Lemma demo_envelope : envelope demo_publisher demo_message = Ok demo_msg.
Proof.
  assert (is_ok (envelope demo_publisher demo_message) = true) as Hok by (vm_compute; reflexivity).
  unfold demo_msg. by destruct (envelope demo_publisher demo_message).
Defined.

Lemma demo_only id m : Written demo_drained !! id = Some m -> id = 1 /\ m = demo_message.
Proof.
  change (Written demo_drained) with ({[1 := demo_message]} : gmap Z Message).
  by intros [<- <-]%lookup_singleton_Some.
Qed.

Lemma delivered_reachable : rtc demo_step start delivered.
Proof.
  eapply rtc_r; [eapply rtc_r; [exact in_stream_reachable|]|].
  all: apply Deliver, (Delivered _ _ _ demo_message demo_msg (Ok first_delivery) calm_db calm_broker []);
    [apply demo_message_held|apply demo_envelope|done].
Defined.

Lemma counts_track_orders_witness :
  Count None "acme" (Proj delivered) = Ok 1 /\
  exists n, Count None "acme" (Proj delivered) = Ok (Z.of_nat n) /\ n = owned "acme" demo_served.
Proof.
  split; [by vm_compute|].
  destruct (counts_track_orders (printable:=fun _ => True) demo_publisher "counts" demo_cfg
              delivered "acme" delivered_reachable) as (n & Hn & _ & Heq).
  exists n. split; [exact Hn|]. apply Heq. intros id m Hm _.
  apply demo_only in Hm as [-> _]. apply (bool_decide_unpack _). vm_compute. exact I.
Defined.

Lemma expired_stays_gone_witness :
  length (Broker (Out (Sys dropped))) = 1%nat /\
  copies 1 (Broker (Out (Sys drained_again))) = copies 1 (Broker (Out (Sys dropped))).
Proof.
  split; [by vm_compute|].
  apply (expired_stays_gone (printable:=fun _ => True) demo_publisher "counts" demo_cfg
           dropped drained_again 1 dropped_reachable).
  - apply dropped_done.
  - eapply rtc_l; [|apply rtc_refl].
    apply (Background _ _ _ (Sys drained_again) dropped); [|done]. apply Drain. by intros k m.
Defined.

Lemma read_model_catches_up_witness :
  exists s', rtc (delivery demo_publisher "counts" demo_cfg) in_stream s' /\
    Count None "acme" (Proj s') = Ok (Z.of_nat (owned "acme" demo_served)).
Proof.
  destruct (read_model_catches_up (printable:=fun _ => True) demo_publisher "counts" demo_cfg
              in_stream "acme" in_stream_reachable) as (s' & Hs & _ & Hc).
  - intros id m Hm _. apply demo_only in Hm as [-> ->].
    split; [exact demo_message_held|exists demo_msg; exact demo_envelope].
  - exists s'. by split.
Defined.

(** A relay whose mark is rolled back by a failed COMMIT publishes the row again, although the
    stream has dropped the first copy in the meantime. *)
Definition commit_refused : Outbox.env :=
  let e := quiet (fun _ _ => (true, None)) in
  mkEnv (DbNow e) (Locked e) (BeginErr e) (ClaimErr e) (ScanErr e) (RowsErr e) (CloseErr e)
    (EmptyCommitErr e) (PublishR e) (MarkErr e) (MarkAffectedErr e)
    (Some (errorsNew "connection reset", false)) (QuarantineErr e) (QuarantineAffectedErr e).

Lemma unmarked_is_republished :
  let unmarked := mkSys (DrainOnce 10 commit_refused (Out demo_written)).2 (Written demo_written) in
  let again := mkSys (DrainOnce 10 (quiet (fun _ _ => (true, None))) (Out unmarked)).2 (Written unmarked) in
  length (copies 1 (held (mkPipe demo_served unmarked (mkTables ∅ ∅) 1))) = 0%nat /\
  length (copies 1 (held (mkPipe demo_served again (mkTables ∅ ∅) 1))) = 1%nat.
Proof. split; vm_compute; reflexivity. Qed.

(** And had its deduplication row been pruned before that, the order would be counted twice. *)
Lemma forgotten_too_early :
  let handle := Handle "counts" calm_db in
  Count None "acme" (dispatch demo_cfg handle calm_broker [] demo_msg (Ok first_delivery)
    (forget demo_publisher "counts" 1 (Proj delivered))).2 = Ok 2 /\
  owned "acme" demo_served = 1%nat.
Proof. by vm_compute. Qed.
