(* ===== verification/Delivery.v ===== *)
(** internal/platform/events: connecting to the stream, the consumer's run, and the fate of a
    message over all its deliveries.

    JetStream delivers a message again until it is acknowledged or terminated, and stops when
    it has delivered it MaxDeliver times; what it answers to each delivery is an environment
    per delivery. *)

From S2P Require Import Prelude GoErr GoStr GoNum GoLog Outbox Events EventsSpec.
From S2P Require Config ConfigSpec.

(** * publisher.go: Connect and EnsureStream *)

(** The stream that is created: limits retention in a file store, and one subtree for the
    events and one for the dead letters. *)
Record StreamConfig := mkStreamConfig {
  SName : string; Subjects : list string; Duplicates : Z; MaxAge : Z }.

Definition streamOf (cfg : Config.NATSConfig) : StreamConfig :=
  mkStreamConfig (Config.Stream cfg)
    [Config.SubjectPrefix cfg +:+ ".>"; Config.DLQSubjectPrefix cfg +:+ ".>"]
    (Config.DuplicateWindow cfg) (Config.StreamMaxAge cfg).

(** What the client library answers. *)
Record connectEnv := mkConnectEnv {
  DialErr : option error; JetStreamErr : option error;
  CreateStreamErr : StreamConfig -> option error }.

Definition EnsureStream (env : connectEnv) (cfg : Config.NATSConfig) : result unit :=
  match CreateStreamErr env (streamOf cfg) with
  | Some err => Err (wrapf [PStr "create or update stream "; PQuote (Config.Stream cfg);
                            PStr " (an existing stream with incompatible settings must be migrated or deleted deliberately)"] err)
  | None => Ok tt
  end.

(** The publisher, and whether a connection is left open. *)
Definition Connect (env : connectEnv) (cfg : Config.Config) : result Publisher * bool :=
  let n := Config.NATS cfg in
  match DialErr env with
  | Some err => (Err (wrapf [PStr "connect to nats at "; PStr (Config.URL n)] err), false)
  | None =>
  match JetStreamErr env with
  | Some err => (Err (wrapf [PStr "jetstream"] err), false)
  | None =>
  match EnsureStream env n with
  | Err err => (Err err, false)
  | Ok _ => (Ok (mkPublisher (Config.SubjectPrefix n) (Config.ServiceName cfg)), true)
  end end end.

(** The subjects below a root, the pattern ["root.>"]. *)
Definition below (root subject : string) : bool := HasPrefix subject (root +:+ ".").

Lemma below_join root s : below root (root +:+ "." +:+ s) = true.
Proof.
  unfold below, HasPrefix. apply prefix_app. exists s. apply to_list_inj.
  by rewrite !to_list_app, <- app_assoc.
Qed.

(** The stream that was created takes in every message the publisher builds and every dead
    letter the consumer copies it to; a connection that is not returned is closed. *)
Lemma Connect_spec `{EventLib} env cfg :
  match Connect env cfg with
  | (Ok p, open) => open = true /\ forall m msg entries e cause,
      envelope p m = Ok msg ->
      below (Config.SubjectPrefix (Config.NATS cfg)) (MsgSubject msg) = true /\
      below (Config.DLQSubjectPrefix (Config.NATS cfg))
        (MsgSubject (deadLetterCopy (ConfigSpec.consumerConfig cfg) entries msg e cause)) = true
  | (Err _, open) => open = false
  end.
Proof.
  unfold Connect. destruct (DialErr env); [done|]. destruct (JetStreamErr env); [done|].
  destruct (EnsureStream env _); [|done]. split; [done|]. intros m msg entries e cause Hm.
  apply bind_Ok in Hm as (subject & Hs & [= <-]). cbn [MsgSubject deadLetterCopy].
  unfold Subject in Hs. apply bind_Ok in Hs as (? & _ & Hs).
  apply bind_Ok in Hs as (? & _ & [= <-]).
  cbn [DLQSubjectPrefix ConfigSpec.consumerConfig Prefix].
  split; apply below_join.
Qed.

(** * Consumer.Run *)

(** The durable consumer that is created; acknowledgements are explicit. *)
Record ConsumerConfig := mkConsumerConfig {
  Durable : string; Filter : string; MaxDeliver : Z; AckWait : Z; BackOff : list Z }.

Definition consumerOf (cfg : Config.NATSConfig) : ConsumerConfig :=
  mkConsumerConfig (Config.Consumer cfg) (Config.SubjectPrefix cfg +:+ ".>")
    (Config.MaxDeliver cfg) (Config.AckWait cfg) [Second; 5 * Second; 30 * Second].

(** What the broker answers to starting and stopping: an error per call, and how long the
    drain of what is in flight takes. *)
Record runEnv := mkRunEnv {
  StreamErr : option error; CreateErr : ConsumerConfig -> option error;
  ConsumeErr : option error; DrainTime : Z }.

(** [Run] either fails before it consumes, or ends with nil after the cancellation; the time
    is how long it takes to end once it is cancelled. *)
Inductive runEnd := FailedToStart (e : error) | Stopped (logs : list logline) (takes : Z).

Definition Run (cfg : Config.NATSConfig) (env : runEnv) : runEnd :=
  match StreamErr env with
  | Some err => FailedToStart (wrapf [PStr "open stream "; PQuote (Config.Stream cfg)] err)
  | None =>
  match CreateErr env (consumerOf cfg) with
  | Some err => FailedToStart (wrapf [PStr "create consumer "; PQuote (Config.Consumer cfg)] err)
  | None =>
  match ConsumeErr env with
  | Some err => FailedToStart (wrapf [PStr "consume"] err)
  | None =>
      let started := mkLog LevelInfo "jetstream consumer started"
        [("stream", AStr (Config.Stream cfg)); ("consumer", AStr (Config.Consumer cfg));
         ("filter", AStr (Config.SubjectPrefix cfg +:+ ".>"));
         ("max_deliver", AInt (Config.MaxDeliver cfg))] in
      let drained := DrainTime env <=? Config.AckWait cfg in
      Stopped
        ([started] ++
         (if drained then []
          else [mkLog LevelWarn "jetstream consumer did not drain within AckWait; in-flight messages will be redelivered" []]) ++
         [mkLog LevelInfo "jetstream consumer stopped" []])
        (if drained then DrainTime env else Z.max 0 (Config.AckWait cfg))
  end end end.

(** Stopping is bounded: a consumer that started ends with nil within AckWait of the
    cancellation, however long its handlers take. *)
Lemma Run_bounded cfg env logs takes :
  0 <= DrainTime env -> 0 < Config.AckWait cfg -> Run cfg env = Stopped logs takes ->
  0 <= takes <= Config.AckWait cfg.
Proof.
  intros Hd Hw. unfold Run. destruct (StreamErr env); [done|].
  destruct (CreateErr env _); [done|]. destruct (ConsumeErr env); [done|].
  intros [= _ <-]. destruct (Z.leb_spec (DrainTime env) (Config.AckWait cfg)); lia.
Qed.

(** * All the deliveries of one message *)

Section Deliveries.
Context `{EventLib} {W : Type} (cfg : NATSConfig) (handle : Event -> W -> option error * W).
Context (entries : list (string * list string)) (msg : natsMsg).
Context (stream : string) (stored_at sequence : Z).
(** What the broker answers to the [k]-th delivery. *)
Context (envs : Z -> brokerEnv).

Definition delivery (k : Z) : metadata := mkMeta k stored_at stream sequence.

(** The broker knows that the message is done with. *)
Definition settled (env : brokerEnv) (acts : list action) : bool :=
  existsb (fun a => match a with
                    | Acked => bool_decide (AckErr env = None)
                    | Termed _ => bool_decide (TermErr env = None)
                    | _ => false
                    end) acts.

(** At most [n] deliveries from the [k]-th on: how many took place, what the broker was told,
    and the world after them. *)
Fixpoint deliveries (n : nat) (k : Z) (w : W) : Z * list action * W :=
  match n with
  | O => (0, [], w)
  | S n =>
      let '((acts, _), w) := dispatch cfg handle (envs k) entries msg (Ok (delivery k)) w in
      if settled (envs k) acts then (1, acts, w)
      else let '(count, more, w) := deliveries n (k + 1) w in (1 + count, acts ++ more, w)
  end.

(** The whole life of the message. *)
Definition life (w : W) : Z * list action * W := deliveries (Z.to_nat (CMaxDeliver cfg)) 1 w.

Definition attempt (k : Z) : Event := eventFrom msg (delivery k).

(** The handler accepted the message at delivery [k]. *)
Definition accepted_at (k : Z) : Prop := exists w, (handle (attempt k) w).1 = None.

(** Why a delivery was refused, for one of the two reasons to give a message up. *)
Definition given_up (k : Z) (cause : error) : Prop :=
  (exists w, (handle (attempt k) w).1 = Some cause) /\
  (IsPermanent cause = true \/ k = CMaxDeliver cfg).

(** What is known of the messages told so far, over the deliveries [lo] to [hi]. *)
Record accounted (lo hi : Z) (acts : list action) : Prop := {
  acc_acked : Acked ∈ acts -> exists k, lo <= k <= hi /\ accepted_at k;
  acc_copied : forall copy, Copied copy ∈ acts -> exists k cause,
    lo <= k <= hi /\ given_up k cause /\ faithful_copy cfg msg copy (attempt k) cause;
  acc_termed : forall reason, Termed reason ∈ acts -> exists copy, Copied copy ∈ acts }.

Lemma accounted_app lo hi k acts more :
  accounted lo k acts -> accounted (k + 1) hi more -> lo <= k -> k <= hi ->
  accounted lo hi (acts ++ more).
Proof.
  intros [A1 C1 T1] [A2 C2 T2] Hlo Hhi. split.
  - intros [(j & Hj & ?)%A1|(j & Hj & ?)%A2]%elem_of_app; exists j; (split; [lia|done]).
  - intros copy [(j & cause & Hj & ?)%C1|(j & cause & Hj & ?)%C2]%elem_of_app;
      exists j, cause; (split; [lia|done]).
  - intros reason [(copy & ?)%T1|(copy & ?)%T2]%elem_of_app; exists copy; set_solver.
Qed.

Lemma accounted_one k acts :
  Forall (fun a => match a with
    | Acked => accepted_at k
    | Naked => True
    | Termed _ => exists copy, Copied copy ∈ acts
    | Copied copy => exists cause,
        given_up k cause /\ faithful_copy cfg msg copy (attempt k) cause
    end) acts -> accounted k k acts.
Proof.
  rewrite Forall_forall. intros Ha. split.
  - intros Hin%Ha. exists k. split; [lia|done].
  - intros copy Hin%Ha. destruct Hin as (cause & ?). exists k, cause. split; [lia|done].
  - intros reason Hin%Ha. done.
Qed.

Section Honest.
Context {printable : Z -> Prop} `{!EventLaws printable}.
Context (Hentries : entries ≡ₚ map_to_list (MsgHeader msg)).
Context (Hmax : 1 <= CMaxDeliver cfg < 2 ^ 64).
(** A copy the broker confirms is stored. *)
Context (Hcopy : forall k, CopyErr (envs k) = None -> CopyStored (envs k) = true).

Lemma deadLetter_accounted k cause :
  given_up k cause ->
  let acts := (deadLetter cfg (envs k) entries msg (attempt k) cause).1 in
  accounted k k acts /\ ((exists copy, Copied copy ∈ acts) \/ CopyStored (envs k) = false).
Proof.
  intros Hg. unfold deadLetter.
  pose proof (deadLetterCopy_faithful printable cfg entries msg (attempt k) cause Hentries) as Hf.
  set (copy := deadLetterCopy cfg entries msg (attempt k) cause) in *.
  pose proof (Hcopy k) as Hst.
  destruct (CopyErr (envs k)); [|rewrite (Hst eq_refl)]; [destruct (CopyStored (envs k))|];
    cbn; (split; [apply accounted_one|]).
  all: try (by right).
  all: try (left; exists copy; by left).
  all: repeat apply List.Forall_cons; try apply List.Forall_nil; eauto.
  exists copy. by left.
Qed.

(** One delivery: accepted, asked for again, or given up. *)
Lemma one_delivery k w acts logs w' :
  1 <= k <= CMaxDeliver cfg ->
  dispatch cfg handle (envs k) entries msg (Ok (delivery k)) w = (acts, logs, w') ->
  accounted k k acts /\
  (Acked ∈ acts \/ (exists copy, Copied copy ∈ acts) \/
   k < CMaxDeliver cfg \/ CopyStored (envs k) = false).
Proof.
  intros Hk. unfold dispatch. fold (attempt k).
  assert (Deliveries (attempt k) = k) as -> by (unfold attempt, eventFrom; done).
  unfold uwrap. rewrite Z.mod_small by lia.
  destruct (handle (attempt k) w) as [[err|] w1] eqn:Eh.
  2:{ intros [= <- _ _]. split; [|left; by left]. apply accounted_one.
      apply List.Forall_cons; [|apply List.Forall_nil]. exists w. by rewrite Eh. }
  assert (IsPermanent err = true \/ k = CMaxDeliver cfg -> given_up k err) as Hg.
  { intros ?. split; [exists w; by rewrite Eh|done]. }
  pose proof (deadLetter_accounted k err) as Hd.
  destruct (deadLetter cfg (envs k) entries msg (attempt k) err) as [dacts dlogs]. cbn in Hd.
  destruct (IsPermanent err) eqn:Ep; [|destruct (Z.geb_spec k (CMaxDeliver cfg))].
  - intros [= <- _ _]. destruct Hd as [Ha Hc]; [auto|]. split; [done|]. destruct Hc; auto.
  - intros [= <- _ _]. destruct Hd as [Ha Hc]; [apply Hg; right; lia|]. split; [done|].
    destruct Hc; auto.
  - intros [= <- _ _]. split; [|auto]. apply accounted_one.
    by apply List.Forall_cons; [|apply List.Forall_nil].
Qed.

(** A broker that is told that a message is done with has been told one of two things. *)
Lemma settled_told env acts :
  settled env acts = true -> Acked ∈ acts \/ exists reason, Termed reason ∈ acts.
Proof.
  unfold settled. intros (a & Ha & Hs)%existsb_exists. apply list_elem_of_In in Ha.
  destruct a; try done; eauto.
Qed.

Lemma deliveries_account n k w :
  1 <= k -> k + Z.of_nat n = CMaxDeliver cfg + 1 -> (0 < n)%nat ->
  let '(count, acts, _) := deliveries n k w in
  1 <= count <= Z.of_nat n /\ accounted k (k + count - 1) acts /\
  (Acked ∈ acts \/ (exists copy, Copied copy ∈ acts) \/
   count = Z.of_nat n /\ CopyStored (envs (CMaxDeliver cfg)) = false).
Proof.
  revert k w. induction n as [|n IH]; intros k w Hk Hn Hpos; [lia|]. cbn [deliveries].
  destruct (dispatch _ _ _ _ _ _ _) as [[acts logs] w1] eqn:Ed.
  destruct (one_delivery k w acts logs w1) as [Ha Hfate]; [lia|done|].
  destruct (settled (envs k) acts) eqn:Hs.
  - replace (k + 1 - 1) with k by lia. split; [lia|]. split; [done|].
    apply settled_told in Hs as [?|[reason Ht]]; [auto|]. right; left. by eapply acc_termed.
  - destruct n as [|n].
    + cbn [deliveries]. rewrite app_nil_r. replace (k + (1 + 0) - 1) with k by lia.
      assert (k = CMaxDeliver cfg) as Ek by lia. split; [lia|]. split; [done|].
      destruct Hfate as [?|[?|[?|Hc]]]; [auto|auto|lia|]. right; right. rewrite <- Ek. auto.
    + specialize (IH (k + 1) w1). destruct (deliveries (S n) (k + 1) w1) as [[count more] w2].
      destruct IH as (Hc & Hacc & Hf); [lia..|].
      replace (k + (1 + count) - 1) with (k + 1 + count - 1) by lia.
      split; [lia|]. split; [apply (accounted_app _ _ k); (done || lia)|].
      destruct Hf as [?|[[copy ?]|[? ?]]]; [left; set_solver|right; left; exists copy; set_solver|].
      right; right. split; [lia|done].
Qed.

(** C19. The life of a message is finite and ends in one of three ways.  Whatever the handler does
    and the broker answers, a message is delivered at least once and at most MaxDeliver
    times; it is acknowledged only when the handler has accepted it, and terminated only
    after a faithful copy of it, with the reason, is in the dead-letter subtree; and unless
    one of the two has happened, every delivery was used up and the broker refused the copy
    on the last one. *)
Theorem message_settles w :
  let '(count, acts, _) := life w in
  1 <= count <= CMaxDeliver cfg /\
  (Acked ∈ acts -> exists k, 1 <= k <= count /\ accepted_at k) /\
  (forall copy, Copied copy ∈ acts -> exists k cause,
     1 <= k <= count /\ given_up k cause /\ faithful_copy cfg msg copy (attempt k) cause) /\
  (forall reason, Termed reason ∈ acts -> exists copy, Copied copy ∈ acts) /\
  (Acked ∈ acts \/ (exists copy, Copied copy ∈ acts) \/
   count = CMaxDeliver cfg /\ CopyStored (envs (CMaxDeliver cfg)) = false).
Proof.
  unfold life. pose proof (deliveries_account (Z.to_nat (CMaxDeliver cfg)) 1 w) as Hd.
  destruct (deliveries _ 1 w) as [[count acts] w']. rewrite Z2Nat.id in Hd by lia.
  destruct Hd as (Hc & [A C T] & Hf); [lia..|].
  replace (1 + count - 1) with count in * by lia. done.
Qed.

End Honest.
End Deliveries.

(** * Messages that cannot be handled *)

Section Examples.
#[local] Existing Instance plain_events.
#[local] Existing Instance plain_events_laws.
#[local] Existing Instance ascii_tables.

Definition three_tries : NATSConfig := mkNATS 3 "dlq".

(** A handler whose dependency is down, counting its calls. *)
Definition failing_handler (e : Event) (n : nat) : option error * nat :=
  (Some (errorsNew "connection refused"), S n).

(** A broker that answers; and one that refuses every dead letter. *)
Definition healthy (k : Z) : brokerEnv := mkBroker None None None true None.
Definition refusing (k : Z) : brokerEnv :=
  mkBroker None None None false (Some (errorsNew "nats: timeout")).

Definition life_of (envs : Z -> brokerEnv) : Z * list action * nat :=
  life three_tries failing_handler (map_to_list (MsgHeader some_natsMsg)) some_natsMsg
    "EVENTS" 5 12 envs 0%nat.

Lemma message_settles_witness :
  (life_of healthy).2 = 3%nat /\
  ((exists copy, Copied copy ∈ (life_of healthy).1.2) \/ Acked ∈ (life_of healthy).1.2).
Proof.
  split; [by vm_compute|].
  pose proof (message_settles three_tries failing_handler (map_to_list (MsgHeader some_natsMsg))
    some_natsMsg "EVENTS" 5 12 healthy (reflexivity _) ltac:(cbn; lia) (fun _ _ => eq_refl) 0%nat)
    as Hs.
  unfold life_of. destruct (life _ _ _ _ _ _ _ _ _) as [[count acts] w].
  destruct Hs as (_ & _ & _ & _ & [?|[?|[_ Hc]]]); [by right|by left|discriminate].
Defined.

(** The comment in [deadLetter] leaves a message whose copy was refused "for redelivery": on
    the last delivery there is none, and the message is neither handled nor dead-lettered. *)
Lemma last_copy_lost : life_of refusing = (3, [Naked; Naked; Naked], 3%nat).
Proof. by vm_compute. Qed.

(** A limit below the length of the back-off list loads. *)
Lemma backoff_longer :
  let c := ConfigSpec.loaded (Config.ParseFor ConfigSpec.quiet (Config.environ
    ["POSTGRES_DSN=postgres://db"; "NATS_URL=nats://broker:4222"; "NATS_MAX_DELIVER=2"])
    Config.RoleWorker) in
  let cc := consumerOf (Config.NATS c) in
  Config.Validate ConfigSpec.quiet c = None /\
  MaxDeliver cc = 2 /\ length (BackOff cc) = 3%nat.
Proof. by vm_compute. Qed.

End Examples.
