(* ===== verification/Commands.v ===== *)
(** cmd/worker and cmd/prune: the processes beside the server.

    The worker's goroutines are tasks of a step relation; how each can end is read off the
    models of the components they run (Outbox.v, Delivery.v).  The prune job is a function
    of its environment. *)

From S2P Require Import Prelude GoErr GoStr GoNum GoLog Outbox OutboxSpec.
From S2P Require Config ConfigSpec Delivery.

(** * cmd/worker *)

(** ** outbox.LogPublisher *)

Definition LogPublish (jsonValid : string -> bool) (m : Message) : option error * list logline :=
  let compact := if jsonValid (MPayload m) then MPayload m else "" in
  (None, [mkLog LevelInfo "outbox event (LogPublisher: not sent to any broker)"
            [("outbox_id", AInt (MID m)); ("event_type", AStr (MEventType m));
             ("aggregate_id", AStr (MAggregateID m)); ("tenant_id", AStr (MTenantID m));
             ("occurred_at", AInt (MOccurredAt m)); ("payload_bytes", AInt (strlen compact))]]).

(** ** Starting *)

Inductive task := TRelay | TObserver | TConsumer.

#[export] Instance task_eq_dec : EqDecision task.
Proof. solve_decision. Defined.

(** What the libraries answer while the worker starts. *)
Record workerEnv := mkWorkerEnv {
  WOpenErr : option error; WPingErr : option error; WConnectErr : option error }.

(** What a started worker runs with: the settings of its parts, and its tasks. *)
Record plan := mkPlan {
  PublishTo : string; BatchSize : Z; PollInterval : Z; ObserveInterval : Z;
  PoolSize : Z; WAdminAddr : string; Tasks : list task }.

Section Start.
Context `{Unicode} (float_text : SpecFloat.spec_float -> string).

Definition startWorker (entries : list string) (env : workerEnv) : result plan :=
  cfg ← mapErr (wrapf [PStr "configuration"]) (Config.LoadWorker float_text entries);
  match WOpenErr env with
  | Some err => Err (wrapf [PStr "open database"] err)
  | None =>
  match WPingErr env with
  | Some err => Err (wrapf [PStr "connect to database"] err)
  | None =>
      let nats := Config.NATS cfg in
      let with_broker := negb (Config.URL nats =? "")%string in
      match (if with_broker then WConnectErr env else None) with
      | Some err => Err (wrapf [PStr "nats"] err)
      | None =>
          Ok (mkPlan
                (if with_broker then Config.URL nats +:+ " stream=" +:+ Config.Stream nats
                 else "log (NATS_URL is empty; no broker)")
                (NewRelay [WithBatchSize (Config.OutboxBatchSize (Config.Outbox cfg))])
                (Config.PollInterval (Config.Outbox cfg))
                (Config.ObserveInterval (Config.Outbox cfg)) (Config.MaxConns (Config.Outbox cfg))
                (Config.AdminAddr cfg)
                ([TRelay; TObserver] ++ if with_broker then [TConsumer] else []))
      end
  end end.

End Start.

(** ** Running *)

(** How a task's function returns, before or after the signal: as the loop it runs returns over
    what its selects yield, where a select finds the context done only after the signal. *)
Inductive ends (cancelled : bool) : task -> option error -> Prop :=
  | RelayReturned n interval wakes o ret :
      (Outbox.Run n interval wakes o).1.1.1 = Some ret ->
      (CtxDone ∈ wakes -> cancelled = true) -> ends cancelled TRelay ret
  | ObserverReturned interval first wakes g ret :
      (ObserverRun interval first wakes g).2.1 = Some ret ->
      (CtxDone ∈ wakes -> cancelled = true) -> ends cancelled TObserver ret
  | ConsumerFailed cfg env err :
      Delivery.Run cfg env = Delivery.FailedToStart err -> ends cancelled TConsumer (Some err)
  | ConsumerCancelled cfg env logs takes :
      Delivery.Run cfg env = Delivery.Stopped logs takes -> cancelled = true ->
      ends cancelled TConsumer None.

(** A relay that returns returns nil: its context is done, or a drain failed with a context
    error. *)
Lemma Run_returns n interval wakes o ret :
  (Outbox.Run n interval wakes o).1.1.1 = Some ret -> ret = None.
Proof.
  revert interval o. induction wakes as [|[|e] wakes IH]; intros interval o; cbn [Outbox.Run].
  - done.
  - by intros [= <-].
  - destruct (DrainOnce n e o) as [[published err] o'].
    assert (forall x i (d : Z),
      (let '((returned, left_, delays), o) := Outbox.Run n i wakes x in
       ((returned, left_, d :: delays), o)).1.1.1 = Some ret -> ret = None) as Hnext.
    { intros x i d. specialize (IH i x). by destruct (Outbox.Run n i wakes x) as [[[r l] ds] y]. }
    destruct err as [err|].
    + destruct (errIs Canceled err || errIs DeadlineExceeded err); [by intros [= <-]|apply Hnext].
    + destruct (published >? 0); apply Hnext.
Qed.

(** An observer that returns returns nil, and found its context done. *)
Lemma ObserverRun_returns interval first wakes g ret :
  (ObserverRun interval first wakes g).2.1 = Some ret -> ret = None /\ CtxDone ∈ wakes.
Proof.
  cbn. generalize (observing first g). induction wakes as [|[|o] wakes IH]; cbn; intros g'.
  - done.
  - intros [= <-]. split; [done|left].
  - intros (-> & Hin)%IH. split; [done|by right].
Qed.

Lemma ends_error c t err : ends c t (Some err) -> t = TConsumer.
Proof.
  intros H. inversion H as [n i w o r Hr|i f w g r Hr| |]; subst; [|by apply ObserverRun_returns in Hr as []|done].
  by apply Run_returns in Hr.
Qed.

Lemma observer_ends c err : ends c TObserver err -> c = true.
Proof.
  intros H. inversion H as [|i f w g r Hr Hc| |]; subst. apply Hc.
  by apply ObserverRun_returns in Hr as [].
Qed.

(** After the signal each task can return nil. *)
Lemma cancelled_ends cfg env logs takes t :
  Delivery.Run cfg env = Delivery.Stopped logs takes -> ends true t None.
Proof.
  intros Hrun. destruct t.
  - by apply (RelayReturned _ 1 0 [CtxDone] (mkOutbox ∅ [] [])).
  - by apply (ObserverReturned _ 0 (mkObservation None None None None 0 ∅) [CtxDone]
                (mkGauges 0 0 0 0 0)).
  - by apply (ConsumerCancelled _ cfg env logs takes).
Qed.

Definition task_name (t : task) : string :=
  match t with TRelay => "relay" | TObserver => "observer" | TConsumer => "consumer" end.

(** The wait group's live tasks, the buffered channel of errors, the signal's context, and
    what [run] returned, once it has. *)
Record worker := mkWorker {
  Live : list task; Errs : list error; Cancelled : bool; Returned : option (option error) }.

Definition launch (p : plan) : worker := mkWorker (Tasks p) [] false None.

Definition remove (t : task) (l : list task) : list task :=
  List.filter (fun t' => negb (bool_decide (t' = t))) l.

Inductive wstep : worker -> worker -> Prop :=
  | Signal w : wstep w (mkWorker (Live w) (Errs w) true (Returned w))
  | TaskEnds t err w :
      t ∈ Live w -> ends (Cancelled w) t err ->
      wstep w (mkWorker (remove t (Live w))
                 (Errs w ++ match err with Some e => [wrapf [PStr (task_name t)] e] | None => [] end)
                 (Cancelled w) (Returned w))
  (* wg.Wait, then the first error of the closed channel *)
  | Joined w :
      Live w = [] -> Returned w = None ->
      wstep w (mkWorker [] (Errs w) (Cancelled w) (Some (head (Errs w)))).

(** The observer is there until the signal; only a consumer that is gone has left an error;
    a worker that returned had no task left. *)
Record supervised (w : worker) : Prop := {
  sv_observer : Cancelled w = false -> TObserver ∈ Live w;
  sv_errs : Errs w = [] \/
    (~ TConsumer ∈ Live w) /\ exists e, Errs w = [wrapf [PStr "consumer"] e];
  sv_returned : forall r, Returned w = Some r ->
    Cancelled w = true /\ Live w = [] /\ r = head (Errs w) }.

Lemma elem_of_remove t t' l : t' ∈ remove t l <-> t' ∈ l /\ t' <> t.
Proof.
  unfold remove. rewrite elem_of_filter_list, negb_true_iff, bool_decide_eq_false. tauto.
Qed.

Lemma wstep_supervised w w' : wstep w w' -> supervised w -> supervised w'.
Proof.
  intros Hstep [Ho He Hr]. destruct Hstep as [w|t err w Ht Hend|w Hl Hn]; split; cbn.
  - done.
  - done.
  - intros r (_ & ? & ?)%Hr. done.
  - intros Hc. apply elem_of_remove. split; [auto|]. intros <-.
    apply observer_ends in Hend. congruence.
  - destruct He as [He|[Hgone [e He]]].
    + rewrite He. destruct err as [err|]; [|by left]. apply ends_error in Hend as ->.
      right. split; [|by eexists]. rewrite elem_of_remove. by intros [].
    + right. split; [rewrite elem_of_remove; by intros []|]. exists e. rewrite He.
      destruct err as [err|]; [|done]. by apply ends_error in Hend as ->.
  - intros r (_ & Hl & _)%Hr. rewrite Hl in Ht. by apply elem_of_nil in Ht.
  - intros Hc. apply Ho in Hc. rewrite Hl in Hc. by apply elem_of_nil in Hc.
  - destruct He as [?|[_ ?]]; [by left|right]. split; [|done]. by intros ?%elem_of_nil.
  - intros r [= <-]. split_ands; [|done|done].
    destruct (Cancelled w) eqn:Hc; [done|]. specialize (Ho eq_refl). rewrite Hl in Ho.
    by apply elem_of_nil in Ho.
Qed.

Lemma launched_supervised p w :
  TObserver ∈ Tasks p -> rtc wstep (launch p) w -> supervised w.
Proof.
  intros Hp. revert w. apply (rtc_ind_r supervised).
  - split; cbn; [done|by left|done].
  - intros w w' _ Hs Hw. by apply (wstep_supervised w).
Qed.

(** After the signal each task can end without an error, one after the other. *)
Lemma tasks_drain cfg env logs takes l errs r :
  Delivery.Run cfg env = Delivery.Stopped logs takes ->
  rtc wstep (mkWorker l errs true r) (mkWorker [] errs true r).
Proof.
  intros Hrun. remember (length l) as n eqn:Hn. revert l Hn.
  induction (lt_wf n) as [n _ IH]. intros l ->.
  destruct l as [|t l]; [apply rtc_refl|].
  eapply rtc_l.
  - apply (TaskEnds t None); [left|]. cbn [Cancelled].
    by eapply cancelled_ends.
  - cbn [Live Errs Cancelled Returned]. rewrite app_nil_r. eapply IH; [|done].
    unfold remove. cbn. rewrite bool_decide_eq_true_2 by done. cbn.
    pose proof (List.filter_length_le (fun t' => negb (bool_decide (t' = t))) l). lia.
Qed.

Lemma startWorker_tasks `{Unicode} float_text entries env p :
  startWorker float_text entries env = Ok p -> TObserver ∈ Tasks p /\ TRelay ∈ Tasks p.
Proof.
  unfold startWorker. intros (cfg & _ & E)%bind_Ok. revert E.
  destruct (WOpenErr env); [done|]. destruct (WPingErr env); [done|].
  destruct (if negb _ then _ else _); [done|]. intros [= <-]. cbn.
  rewrite !elem_of_cons. auto.
Qed.

(** C35. The worker stops when it is told to and not before.  Whatever its tasks meet, no task ever
    waits for room in the error channel; [run] returns only after the signal, when every
    task has ended, and then with the error of a consumer that could not start, if it
    could not, and nil otherwise; and once the signal is there, it can always return. *)
Theorem worker_lifecycle `{Unicode} float_text entries env p w :
  startWorker float_text entries env = Ok p -> rtc wstep (launch p) w ->
  (length (Errs w) <= 3)%nat /\
  (forall r, Returned w = Some r ->
     Cancelled w = true /\ Live w = [] /\
     (r = None \/ exists e, r = Some (wrapf [PStr "consumer"] e))) /\
  (Cancelled w = true -> exists w', rtc wstep w w' /\ Returned w' = Some (head (Errs w))).
Proof.
  intros [Ho _]%startWorker_tasks Hr. destruct (launched_supervised p w Ho Hr) as [_ He Hret].
  split_ands.
  - destruct He as [->|[_ [e ->]]]; cbn; lia.
  - intros r (Hc & Hl & ->)%Hret. split_ands; [done|done|].
    destruct He as [->|[_ [e ->]]]; [by left|right; by exists e].
  - intros Hc. destruct w as [l errs c r]. cbn in *. subst c.
    destruct r as [r|].
    { destruct (Hret r eq_refl) as (_ & _ & ->). by eexists. }
    exists (mkWorker [] errs true (Some (head errs))). split; [|done].
    eapply rtc_r; [|exact (Joined (mkWorker [] errs true None) eq_refl eq_refl)].
    eapply (tasks_drain (Config.mkNATS "" "" "" "" 0 0 "" 0 0)
              (Delivery.mkRunEnv None (fun _ => None) None 0)).
    reflexivity.
Qed.

(** * cmd/prune *)

(** What the database answers; the batches of [Prune] and the counts of [Eligible]. *)
Record pruneEnv := mkPruneEnv {
  POpenErr : option error; PPingErr : option error;
  OutboxCountErr : option error; ProcessedCountErr : option error;
  OutboxBatches : batch_env; ProcessedBatches : batch_env }.

(** What a run leaves: the tables, what it printed and logged. *)
Record pruned := mkPruned {
  OutboxTable : table; ProcessedTable : gmap Z Z; Printed : list text; PruneLogs : list logline }.

Section PruneCommand.
Context `{Unicode} (float_text : SpecFloat.spec_float -> string) (FormatRFC3339 : Z -> string).
Context (scan : table -> list (Z * row)) (scan' : gmap Z Z -> list (Z * Z)).

Definition pruneReport (cfg : Config.Config) (now : Z) (eligible : PruneResult) : list text :=
  let r := Config.Retention cfg in
  [[PStr "dry run: would delete "; PInt (POutbox eligible); PStr " outbox rows and ";
    PInt (PProcessedEvents eligible); PStr " processed_events rows"];
   [PStr "  outbox:           published before ";
    PStr (FormatRFC3339 (now - Config.RetentionOutbox r))];
   [PStr "  processed_events: processed before ";
    PStr (FormatRFC3339 (now - Config.ProcessedEvents r))]].

(** The last lines of [run]: what an error of [Prune] means for the job. *)
Definition pruneOutcome (result : PruneResult) (err : option error) : option error * list logline :=
  match err with
  | None => (None, [])
  | Some err =>
      if errIs Canceled err
      then (None, [mkLog LevelInfo "prune stopped by a signal; the completed batches are kept" []])
      else if errIs DeadlineExceeded err
      then (Some (wrapf [PStr "prune did not finish within its deadline; the backlog is growing ";
                         PStr "faster than this schedule clears it -- run it more often or raise ";
                         PStr "RETENTION_BATCH_SIZE (deleted "; PInt (POutbox result);
                         PStr " outbox and "; PInt (PProcessedEvents result);
                         PStr " processed_events rows)"] err), [])
      else (Some err, [])
  end.

(** [run], at the instant [now]; [None] when the fuel is too small. *)
Definition runPrune (fuel : nat) (entries : list string) (dryRun : bool) (env : pruneEnv)
    (now : Z) (t : table) (pe : gmap Z Z) : option (option error * pruned) :=
  let untouched := mkPruned t pe [] [] in
  match Config.LoadWorker float_text entries with
  | Err err => Some (Some (wrapf [PStr "configuration"] err), untouched)
  | Ok cfg =>
  match POpenErr env with
  | Some err => Some (Some (wrapf [PStr "open database"] err), untouched)
  | None =>
  match PPingErr env with
  | Some err => Some (Some (wrapf [PStr "connect to database"] err), untouched)
  | None =>
      let r := Config.Retention cfg in
      let batchSize := NewPruner_batchSize (Config.RetentionBatchSize r) in
      if dryRun then
        match Eligible (OutboxCountErr env) (ProcessedCountErr env) now
                (Config.RetentionOutbox r) (Config.ProcessedEvents r) t pe with
        | (_, Some err) => Some (Some err, untouched)
        | (eligible, None) => Some (None, mkPruned t pe (pruneReport cfg now eligible) [])
        end
      else
        let starting := mkLog LevelInfo "prune starting"
          [("outbox_retention", AStr (DurationString (Config.RetentionOutbox r)));
           ("processed_events_retention", AStr (DurationString (Config.ProcessedEvents r)));
           ("batch_size", AInt (Config.RetentionBatchSize r))] in
        match Prune fuel (OutboxBatches env) (ProcessedBatches env) (Z.to_nat batchSize) scan scan'
                now (Config.RetentionOutbox r) (Config.ProcessedEvents r) t pe with
        | None => None
        | Some ((result, err), t, pe) =>
            let finished := mkLog LevelInfo "prune finished"
              [("outbox_deleted", AInt (POutbox result));
               ("processed_events_deleted", AInt (PProcessedEvents result))] in
            let '(err, logs) := pruneOutcome result err in
            Some (err, mkPruned t pe [] ([starting; finished] ++ logs))
        end
  end end end.

Lemma pruneOutcome_exit result err :
  ((pruneOutcome result err).1 = None <->
     err = None \/ exists e, err = Some e /\ errIs Canceled e = true) /\
  (forall e, err = Some e -> errIs Canceled e = false ->
     exists e', (pruneOutcome result err).1 = Some e' /\
       (errIs DeadlineExceeded e = true -> errIs DeadlineExceeded e' = true)).
Proof.
  unfold pruneOutcome. destruct err as [e|]; [|by split; [split; [by left|]|]].
  destruct (errIs Canceled e) eqn:Ec.
  { split; [split; [right; by exists e|done]|]. intros e' [= <-]. congruence. }
  destruct (errIs DeadlineExceeded e) eqn:Ed; cbn [fst].
  - split; [split; [done|intros [?|(? & [= <-] & ?)]; congruence]|].
    intros e' [= <-] _. eexists. split; [done|]. intros _. cbn. by rewrite Ed.
  - split; [split; [done|intros [?|(? & [= <-] & ?)]; congruence]|].
    intros e' [= <-] _. exists e. split; [done|]. congruence.
Qed.

(** The retention job keeps its promises.  With a configuration that loads and a database that
    answers the first ping, wherever it then fails or is stopped, the job returns; no pending
    or quarantined row is gone, and no deduplication row of a message the stream may still
    hold; it exits with nil exactly when it finished or was stopped by a signal, and a missed
    deadline is reported as one.  The dry run changes nothing and prints the numbers a job
    that finishes reports. *)
Theorem prune_keeps_promises fuel entries cfg env now t pe :
  Config.LoadWorker float_text entries = Ok cfg -> POpenErr env = None -> PPingErr env = None ->
  honest_scan scan -> (forall m, scan' m ≡ₚ map_to_list m) ->
  (size t < fuel)%nat -> (size pe < fuel)%nat ->
  exists result perr err out,
    runPrune fuel entries false env now t pe = Some (err, out) /\
    (forall id r, t !! id = Some r -> PublishedAt r = None -> OutboxTable out !! id = Some r) /\
    (forall id at_, pe !! id = Some at_ -> now - Config.StreamMaxAge (Config.NATS cfg) <= at_ ->
       ProcessedTable out !! id = Some at_) /\
    err = (pruneOutcome result perr).1 /\
    (err = None <-> perr = None \/ exists e, perr = Some e /\ errIs Canceled e = true) /\
    (forall e, perr = Some e -> errIs Canceled e = false -> errIs DeadlineExceeded e = true ->
       exists e', err = Some e' /\ errIs DeadlineExceeded e' = true) /\
    (OutboxCountErr env = None -> ProcessedCountErr env = None -> perr = None ->
       runPrune fuel entries true env now t pe =
         Some (None, mkPruned t pe (pruneReport cfg now result) [])).
Proof.
  intros Hcfg Ho Hp Hsc Hsc' Hf Hf'. pose proof Hcfg as Hload.
  unfold Config.LoadWorker in Hcfg. apply ConfigSpec.ParseFor_Ok in Hcfg as (_ & _ & Hwc).
  destruct (ConfigSpec.wc_retention _ Hwc) as (Hage & _ & _ & Hbatch).
  set (n := Z.to_nat (NewPruner_batchSize (Config.RetentionBatchSize (Config.Retention cfg)))).
  assert (0 < n)%nat as Hn.
  { unfold n, NewPruner_batchSize. destruct (Z.leb_spec (Config.RetentionBatchSize (Config.Retention cfg)) 0); lia. }
  destruct (Prune_outcome n scan scan' fuel (OutboxBatches env) (ProcessedBatches env) now
    (Config.RetentionOutbox (Config.Retention cfg)) (Config.ProcessedEvents (Config.Retention cfg))
    t pe Hn Hsc Hsc' Hf Hf') as (result & perr & t' & pe' & E & Hk & Hkd & _ & _ & Hfin).
  unfold runPrune. rewrite Hload, Ho, Hp. fold n. rewrite E.
  destruct (pruneOutcome_exit result perr) as [Hexit Hdead].
  destruct (pruneOutcome result perr) as [err logs] eqn:Eout. cbn [fst] in *.
  exists result, perr, err. eexists. split; [reflexivity|]. cbn [OutboxTable ProcessedTable].
  split_ands.
  - intros id r Hr Hpub. apply Hk; [done|]. unfold prunable. by rewrite Hpub.
  - intros id at_ Hi Hat. apply Hkd; [done|lia].
  - by rewrite Eout.
  - done.
  - intros e He Hc Hd. destruct (Hdead e He Hc) as (e' & ? & ?). exists e'. auto.
  - intros Hc1 Hc2 Hnil. destruct (Hfin Hnil) as [_ Hres]. rewrite Hc1, Hc2.
    unfold Eligible in *. cbn [fst] in Hres. by rewrite <- Hres.
Qed.
End PruneCommand.

(** * cmd/migrate and internal/platform/migrations *)

(** goose, over the embedded files, on a database in a state of type [S]: each operation may
    fail after changing it. *)
Record goose (S : Type) := mkGoose {
  ProviderErr : option error;
  GUp : S -> option error * S;
  GDownTo : Z -> S -> option error * S;
  GStatus : S -> result (list (string * option Z));    (* a file, and when it was applied *)
  GVersion : S -> result Z }.
Arguments ProviderErr {S}. Arguments GUp {S}. Arguments GDownTo {S}. Arguments GStatus {S}.
Arguments GVersion {S}.

Section Migrations.
Context {S : Type} (g : goose S).

Definition provider : result unit :=
  match ProviderErr g with
  | Some err => Err (wrapf [PStr "build migration provider"] err)
  | None => Ok tt
  end.

Definition Up (db : S) : option error * S :=
  match provider with
  | Err err => (Some err, db)
  | Ok _ =>
      let '(err, db) := GUp g db in
      (match err with Some err => Some (wrapf [PStr "apply migrations"] err) | None => None end, db)
  end.

Definition DownTo (version : Z) (db : S) : option error * S :=
  match provider with
  | Err err => (Some err, db)
  | Ok _ =>
      let '(err, db) := GDownTo g version db in
      (match err with Some err => Some (wrapf [PStr "roll back migrations"] err) | None => None end,
       db)
  end.

Definition Status (db : S) : result (list (string * option Z)) := _ ← provider; GStatus g db.
Definition Version (db : S) : result Z := _ ← provider; GVersion g db.

Context `{Unicode} (float_text : SpecFloat.spec_float -> string) (FormatRFC3339 : Z -> string).

(** [%-10s]. *)
Definition pad10 (s : string) : string :=
  of_list (to_list s ++ replicate (10 - String.length s) " "%char).

Definition printVersion (db : S) : option error * list text :=
  match Version db with
  | Err err => (Some err, [])
  | Ok v => (None, [[PStr "schema version: "; PInt v]])
  end.

Definition statusLine (s : string * option Z) : text :=
  [PStr (pad10 (match s.2 with Some at_ => FormatRFC3339 at_ | None => "pending" end));
   PStr " "; PStr s.1].

(** [run] with its command and the command's argument: the error, what it printed, and the
    database after it. *)
Definition runMigrate (entries : list string) (openErr pingErr : option error)
    (command arg : string) (db : S) : option error * list text * S :=
  if (command =? "")%string then (Some (errorsNew "no command given"), [], db)
  else
  match Config.Load float_text entries with
  | Err err => (Some (wrapf [PStr "configuration"] err), [], db)
  | Ok cfg =>
  if (Config.Reveal (Config.DSN (Config.Postgres cfg)) =? "")%string
  then (Some (errorsNew "POSTGRES_DSN is required"), [], db)
  else
  match openErr with
  | Some err => (Some (wrapf [PStr "open database"] err), [], db)
  | None =>
  match pingErr with
  | Some err => (Some (wrapf [PStr "connect to database"] err), [], db)
  | None =>
      if (command =? "up")%string then
        match Up db with
        | (Some err, db) => (Some err, [], db)
        | (None, db) => (printVersion db, db)
        end
      else if (command =? "status")%string then
        match Status db with
        | Err err => (Some err, [], db)
        | Ok statuses => (None, statusLine <$> statuses, db)
        end
      else if (command =? "version")%string then (printVersion db, db)
      else if (command =? "down-to")%string then
        if (arg =? "")%string
        then (Some (errorsNew "down-to requires a version (see `migrate status`); use 0 to undo everything"), [], db)
        else
          match Atoi arg with
          | None => (Some (EFmt [PStr "version "; PQuote arg; PStr " is not a number"]), [], db)
          | Some version =>
              match DownTo version db with
              | (Some err, db) => (Some err, [], db)
              | (None, db) => (printVersion db, db)
              end
          end
      else (Some (EFmt [PStr "unknown command "; PQuote command]), [], db)
  end end end.

(** There is no bare "down": the schema changes only when a command names the change. *)
Lemma migrate_asked_for entries openErr pingErr command arg db :
  let db' := (runMigrate entries openErr pingErr command arg db).2 in
  db' = db \/ (command = "up" /\ db' = (Up db).2) \/
  exists version, command = "down-to" /\ Atoi arg = Some version /\ db' = (DownTo version db).2.
Proof.
  unfold runMigrate. destruct (command =? "")%string; [by left|].
  destruct (Config.Load _ _) as [cfg|]; [|by left]. destruct (_ =? "")%string; [by left|].
  destruct openErr; [by left|]. destruct pingErr; [by left|].
  destruct (String.eqb_spec command "up") as [->|].
  { right; left. split; [done|]. by destruct (Up db) as [[err|] db']. }
  destruct (command =? "status")%string; [left; by destruct (Status db)|].
  destruct (command =? "version")%string; [by left|].
  destruct (String.eqb_spec command "down-to") as [->|]; [|by left].
  destruct (arg =? "")%string; [by left|]. destruct (Atoi arg) as [v|] eqn:Ea; [|by left].
  right; right. exists v. split_ands; [done|done|]. by destruct (DownTo v db) as [[err|] db'].
Qed.
End Migrations.

(** * At concrete environments *)

Section Examples.
#[local] Existing Instance ascii_tables.

Definition worker_entries : list string :=
  ["POSTGRES_DSN=postgres://db"; "NATS_URL=nats://broker:4222"].
Definition all_well : workerEnv := mkWorkerEnv None None None.

Definition demo_plan : plan :=
  match startWorker ConfigSpec.quiet worker_entries all_well with
  | Ok p => p
  | Err _ => mkPlan "" 0 0 0 0 "" []
  end.

Lemma demo_started : startWorker ConfigSpec.quiet worker_entries all_well = Ok demo_plan.
Proof. by vm_compute. Defined.

Example demo_tasks :
  Tasks demo_plan = [TRelay; TObserver; TConsumer] /\
  PublishTo demo_plan = "nats://broker:4222 stream=EVENTS" /\ BatchSize demo_plan = 100.
Proof. by vm_compute. Qed.

Definition signalled : worker := mkWorker (Tasks demo_plan) [] true None.

Lemma worker_lifecycle_witness :
  exists w', rtc wstep signalled w' /\ Returned w' = Some None.
Proof.
  apply (worker_lifecycle ConfigSpec.quiet worker_entries all_well demo_plan signalled demo_started);
    [|reflexivity].
  apply rtc_once. exact (Signal (launch demo_plan)).
Defined.

Lemma timed_out_relay_ends : ends false TRelay None.
Proof.
  apply (RelayReturned _ 10 0 [Fired (quiet ack_timeout)] (mkOutbox some_table [] [])).
  - vm_compute. reflexivity.
  - intros Hin. apply list_elem_of_singleton in Hin. discriminate.
Qed.

(** A relay that a publish timeout has ended does not end the worker: without a signal it goes
    on with nothing that publishes, and no error is reported. *)
Lemma worker_outlives_relay :
  exists w, rtc wstep (launch demo_plan) w /\ (~ TRelay ∈ Live w) /\
    forall w', rtc wstep w w' -> Cancelled w' = false -> Returned w' = None.
Proof.
  eexists. split.
  { apply rtc_once. apply (TaskEnds TRelay None).
    - vm_compute. left.
    - exact timed_out_relay_ends. }
  split.
  - intros Hin%elem_of_remove. by destruct Hin.
  - intros w' Hr Hc. assert (supervised w') as [_ _ Hret].
    { apply (launched_supervised demo_plan).
      - vm_compute. right. left.
      - eapply rtc_l; [|exact Hr]. apply (TaskEnds TRelay None).
        + vm_compute. left.
        + exact timed_out_relay_ends. }
    destruct (Returned w') as [r|]; [|done]. destruct (Hret r eq_refl). congruence.
Qed.

Definition calm_batches : batch_env := mkBatchEnv (fun _ => None) (fun _ => None) (fun _ => None).
Definition calm_prune : pruneEnv := mkPruneEnv None None None None calm_batches calm_batches.

Definition prune_config : Config.Config :=
  ConfigSpec.loaded (Config.LoadWorker ConfigSpec.quiet ["POSTGRES_DSN=postgres://db"]).
Definition day : Z := 24 * Hour.

(** An old published row, a pending one, and two deduplication rows. *)
Definition prune_table : table :=
  <[4 := set_published day (some_row "old")]> {[1 := some_row "pending"]}.
Definition prune_processed : gmap Z Z := {[7 := day; 8 := 29 * day]}.

Lemma prune_keeps_promises_witness :
  exists err out,
    runPrune ConfigSpec.quiet (fun _ => "") map_to_list map_to_list 10
      ["POSTGRES_DSN=postgres://db"] false calm_prune (30 * day) prune_table prune_processed =
      Some (err, out) /\
    OutboxTable out !! 1 = Some (some_row "pending") /\ ProcessedTable out !! 8 = Some (29 * day).
Proof.
  destruct (prune_keeps_promises ConfigSpec.quiet (fun _ => "") map_to_list map_to_list 10
    ["POSTGRES_DSN=postgres://db"] prune_config calm_prune (30 * day) prune_table prune_processed)
    as (result & perr & err & out & E & Hpending & Hdedup & _).
  - vm_compute. reflexivity.
  - reflexivity.
  - reflexivity.
  - by intros m.
  - by intros m.
  - vm_compute. lia.
  - vm_compute. lia.
  - exists err, out. split; [exact E|]. split.
    + apply Hpending; vm_compute; reflexivity.
    + apply Hdedup; [vm_compute; reflexivity|]. apply Z.leb_le. vm_compute. reflexivity.
Defined.

(** The migration command loads the configuration as a server and inherits its rule about
    the development verifier; the worker next to it, with the same environment, starts. *)
Lemma migrate_needs_server_settings :
  let entries := ["APP_ENV=production"; "POSTGRES_DSN=postgres://db"] in
  is_ok (Config.LoadWorker ConfigSpec.quiet entries) = true /\
  exists e, (runMigrate (mkGoose nat None (fun n => (None, S n)) (fun v n => (None, Z.to_nat v))
      (fun _ => Ok []) (fun n => Ok (Z.of_nat n))) ConfigSpec.quiet (fun _ => "") entries None None
      "up" "" 0%nat) = (Some (wrapf [PStr "configuration"] e), [], 0%nat).
Proof. split; [by vm_compute|]. eexists. vm_compute. reflexivity. Qed.

End Examples.
