(* ===== verification/Observe.v ===== *)
(** internal/platform/observability: the logger and its trace correlation, the metrics registry
    (with the collectors the outbox observer adds to it), the admin listener, as the application
    builds it too, and the trace pipeline's settings.

    OpenTelemetry and the Prometheus registry are parameters.  [log/slog] is modelled as far as
    the package uses it: a handler is one of the two standard ones, with the attributes and the
    groups it has accumulated, or a [TraceHandler] around another.  Memory cells of collectors
    are numbered in the order they are created; [ClientFor] holds a lock throughout. *)

From S2P Require Import Prelude GoErr GoStr GoNum GoLog Config.
From Stdlib Require Import SpecFloat.

(** * log/slog *)

(** [slog.Level]. *)
Definition SlogDebug : Z := -4.
Definition SlogInfo : Z := 0.
Definition SlogWarn : Z := 4.
Definition SlogError : Z := 8.

Record record := mkRecord { RLevel : Z; RMsg : string; RAttrs : list (string * attr) }.

(** What [WithAttrs] and [WithGroup] leave in a standard handler, oldest first. *)
Inductive scope := InAttrs (l : list (string * attr)) | InGroup (name : string).

Record handlerOptions := mkHandlerOptions { Level : Z; AddSource : bool }.

(** A line written: the handler's format and accumulated scope, and the record. *)
Record emitted := mkEmitted { EText : bool; EScope : list scope; ERecord : record }.

Inductive handler :=
  | Std (text : bool) (opts : handlerOptions) (sc : list scope)
  | TraceHandler (inner : handler).

(** OpenTelemetry's span contexts. *)
Class Otel := {
  spanContext : Type;
  IsValid : spanContext -> bool;
  TraceID : spanContext -> string;
  SpanID : spanContext -> string }.

Section Logging.
Context `{Unicode, Otel}.

Definition NewTraceHandler (inner : handler) : handler := TraceHandler inner.

Fixpoint Enabled (h : handler) (level : Z) : bool :=
  match h with
  | Std _ opts _ => Level opts <=? level
  | TraceHandler inner => Enabled inner level
  end.

Definition TraceIDFrom (sc : spanContext) : string := if negb (IsValid sc) then "" else TraceID sc.
Definition SpanIDFrom (sc : spanContext) : string := if negb (IsValid sc) then "" else SpanID sc.

(** [sc] is the span context of the call's context. *)
Fixpoint Handle (sc : spanContext) (r : record) (h : handler) : list emitted :=
  match h with
  | Std text _ scope => [mkEmitted text scope r]
  | TraceHandler inner =>
      let r :=
        if IsValid sc
        then mkRecord (RLevel r) (RMsg r)
               (RAttrs r ++ [("trace_id", AStr (TraceID sc)); ("span_id", AStr (SpanID sc))])
        else r in
      Handle sc r inner
  end.

Fixpoint WithAttrs (attrs : list (string * attr)) (h : handler) : handler :=
  match h with
  | Std text opts sc => Std text opts (sc ++ [InAttrs attrs])
  | TraceHandler inner => TraceHandler (WithAttrs attrs inner)
  end.

Fixpoint WithGroup (name : string) (h : handler) : handler :=
  match h with
  | Std text opts sc => Std text opts (sc ++ [InGroup name])
  | TraceHandler inner => TraceHandler (WithGroup name inner)
  end.

(** [slog.Logger]: [With] and [WithGroup] return the receiver when there is nothing to add. *)
Definition LoggerWith (attrs : list (string * attr)) (l : handler) : handler :=
  match attrs with [] => l | _ => WithAttrs attrs l end.

Definition LoggerWithGroup (name : string) (l : handler) : handler :=
  if (name =? "")%string then l else WithGroup name l.

Definition Log (sc : spanContext) (level : Z) (msg : string) (args : list (string * attr))
    (l : handler) : list emitted :=
  if Enabled l level then Handle sc (mkRecord level msg args) l else [].

Definition parseLevel (s : string) : Z :=
  let l := ToLower s in
  if (l =? "debug")%string then SlogDebug
  else if ((l =? "warn") || (l =? "warning"))%string then SlogWarn
  else if (l =? "error")%string then SlogError
  else SlogInfo.

Definition NewLogger (cfg : Config) : handler :=
  let level := parseLevel (LogLevel cfg) in
  let opts := mkHandlerOptions level (level =? SlogDebug) in
  let base := Std (EqualFold (LogFormat cfg) "text") opts [] in
  LoggerWith [("service", AStr (ServiceName cfg)); ("version", AStr (Version cfg));
              ("env", AStr (AppEnv cfg))] (NewTraceHandler base).

(** ** Loggers derived from it *)

Inductive derivation := DWith (attrs : list (string * attr)) | DGroup (name : string).

Definition derive (l : handler) (d : derivation) : handler :=
  match d with DWith attrs => LoggerWith attrs l | DGroup name => LoggerWithGroup name l end.

Definition scope_of (d : derivation) : list scope :=
  match d with
  | DWith [] => []
  | DWith attrs => [InAttrs attrs]
  | DGroup name => if (name =? "")%string then [] else [InGroup name]
  end.

Lemma derive_trace text opts sc d :
  derive (TraceHandler (Std text opts sc)) d = TraceHandler (Std text opts (sc ++ scope_of d)).
Proof.
  destruct d as [[|a l]|name]; cbn; rewrite ?app_nil_r; [done|done|].
  unfold LoggerWithGroup. destruct (name =? "")%string; cbn; by rewrite ?app_nil_r.
Qed.

Lemma derives_trace text opts sc ds :
  foldl derive (TraceHandler (Std text opts sc)) ds =
  TraceHandler (Std text opts (sc ++ concat (scope_of <$> ds))).
Proof.
  revert sc. induction ds as [|d ds IH]; intros sc; cbn [foldl fmap list_fmap concat].
  - by rewrite app_nil_r.
  - by rewrite derive_trace, IH, <- app_assoc.
Qed.

(** Correlation survives derivation: however a logger was derived from the one the process
    starts with, a record below the configured level is dropped, and any other is written once,
    in the configured format, under the service's identity and the derived scope, with the
    caller's attributes followed by the trace and span id exactly when the context has a valid
    span. *)
Theorem logs_correlated cfg ds sc level msg args :
  Log sc level msg args (foldl derive (NewLogger cfg) ds) =
  if parseLevel (LogLevel cfg) <=? level
  then [mkEmitted (EqualFold (LogFormat cfg) "text")
          (InAttrs [("service", AStr (ServiceName cfg)); ("version", AStr (Version cfg));
                    ("env", AStr (AppEnv cfg))] :: concat (scope_of <$> ds))
          (mkRecord level msg
             (args ++ if IsValid sc
                      then [("trace_id", AStr (TraceIDFrom sc)); ("span_id", AStr (SpanIDFrom sc))]
                      else []))]
  else [].
Proof.
  unfold NewLogger, NewTraceHandler. cbn [LoggerWith WithAttrs]. rewrite derives_trace.
  unfold Log, TraceIDFrom, SpanIDFrom. cbn. destruct (_ <=? level); [|done].
  destruct (IsValid sc); [done|]. by rewrite app_nil_r.
Qed.

(** The level the configuration validated is the level the logger uses. *)
Lemma levels_agree s z : Config.parseLevel s = Ok z -> parseLevel s = z.
Proof.
  unfold Config.parseLevel, parseLevel, SlogDebug, SlogWarn, SlogError, SlogInfo.
  destruct (ToLower s =? "debug")%string; [by intros [= <-]|].
  destruct (ToLower s =? "info")%string eqn:E; to_prop; [rewrite E; by intros [= <-]|].
  destruct ((_ =? "warn") || _)%string; [by intros [= <-]|].
  destruct (ToLower s =? "error")%string; [by intros [= <-]|done].
Qed.
End Logging.

(** * Tracing *)

(** The attributes [newResource] adds to the SDK's own. *)
Definition newResource (cfg : Config) : list (string * string) :=
  [("service.name", ServiceName cfg); ("service.version", Version cfg);
   ("deployment.environment.name", AppEnv cfg)].

(** * Metrics *)

(** Decimal seconds. *)
Definition latencyBuckets : list spec_float :=
  [scaled false 10 1 (-3); scaled false 10 5 (-3); scaled false 10 1 (-2); scaled false 10 25 (-3);
   scaled false 10 5 (-2); scaled false 10 1 (-1); scaled false 10 25 (-2); scaled false 10 5 (-1);
   float_of_Z 1; scaled false 10 25 (-1); float_of_Z 5; float_of_Z 10; float_of_Z 30].

(** The collectors the package makes; a gRPC collector with its cell and its buckets. *)
Inductive collector :=
  | GoCollector | ProcessCollector
  | ServerMetrics (cell : Z) (buckets : list spec_float)
  | ClientMetrics (cell : Z) (buckets : list spec_float)
  | OwnMetric (name : string).

(** What makes two registrations duplicates, besides their constant labels. *)
Inductive family := GoFamily | ProcessFamily | ServerFamily | ClientFamily | OwnFamily (name : string).

#[export] Instance family_eq_dec : EqDecision family.
Proof. solve_decision. Defined.

Definition family_of (c : collector) : family :=
  match c with
  | GoCollector => GoFamily | ProcessCollector => ProcessFamily
  | ServerMetrics _ _ => ServerFamily | ClientMetrics _ _ => ClientFamily
  | OwnMetric name => OwnFamily name
  end.

Definition Labels : Type := list (string * string).

(** The Prometheus registry; [MustRegister] under constant labels panics with [None]. *)
Class Prometheus := {
  registry : Type;
  NewRegistry : registry;
  MustRegister : Labels -> collector -> registry -> option registry;
  ValidLabel : string -> bool }.

Section Metrics.
Context `{Prometheus}.

Definition MustRegisterAll (cs : list collector) (r : registry) : option registry :=
  foldl (fun r c => r ≫= MustRegister [] c) (Some r) cs.

Definition NewProcessRegistry : option registry :=
  MustRegisterAll [GoCollector; ProcessCollector] NewRegistry.

(** [clients] is a Go map that may be nil; [NextCell] numbers the allocations. *)
Record Metrics := mkMetrics {
  Registry : registry; Server : collector; Clients : option (gmap string collector);
  NextCell : Z }.

Definition NewMetrics : option Metrics :=
  let server := ServerMetrics 0 latencyBuckets in
  reg ← MustRegisterAll [server; GoCollector; ProcessCollector] NewRegistry;
  Some (mkMetrics reg server (Some ∅) 1).

Definition ClientFor (upstream : string) (m : Metrics) : option (collector * Metrics) :=
  let clients := default ∅ (Clients m) in
  match clients !! upstream with
  | Some existing => Some (existing, mkMetrics (Registry m) (Server m) (Some clients) (NextCell m))
  | None =>
      let client := ClientMetrics (NextCell m) latencyBuckets in
      reg ← MustRegister [("upstream", upstream)] client (Registry m);
      Some (client, mkMetrics reg (Server m) (Some (<[upstream := client]> clients)) (NextCell m + 1))
  end.

(** The connections a process opens, in order. *)
Fixpoint ClientsFor (upstreams : list string) (m : Metrics) : option (list collector * Metrics) :=
  match upstreams with
  | [] => Some ([], m)
  | u :: r =>
      '(c, m) ← ClientFor u m;
      '(cs, m) ← ClientsFor r m;
      Some (c :: cs, m)
  end.

(** What the Prometheus registry documents: a registration succeeds, and is exposed from then
    on, unless a label value is not valid text or the same series are registered already under
    the same constant labels. *)
Class PrometheusLaws := {
  exposed : registry -> list (Labels * collector);
  exposed_new : exposed NewRegistry = [];
  register_ok ls c r :
    Forall (fun l => ValidLabel l.2 = true) ls ->
    (forall c', (ls, c') ∈ exposed r -> family_of c' <> family_of c) ->
    exists r', MustRegister ls c r = Some r' /\ exposed r' = exposed r ++ [(ls, c)] }.
Context `{PrometheusLaws}.

(** The names in the order of first use. *)
Fixpoint first_uses (seen : list string) (l : list string) : list string :=
  match l with
  | [] => seen
  | u :: r => first_uses (if bool_decide (u ∈ seen) then seen else seen ++ [u]) r
  end.

(** [outbox.NewObserver]: its four gauges and its counter, registered together. *)
Definition observerMetrics : list collector :=
  OwnMetric <$> ["gomicro_outbox_quarantined_rows"; "gomicro_outbox_pending_rows";
                 "gomicro_outbox_oldest_pending_age_seconds"; "gomicro_outbox_observation_failures_total";
                 "gomicro_outbox_last_observation_timestamp_seconds"].

Definition NewObserver (reg : registry) : option registry := MustRegisterAll observerMetrics reg.

(** Collectors of different families, none of them in the registry yet, can all be registered. *)
Lemma MustRegisterAll_fresh cs r :
  NoDup (family_of <$> cs) ->
  (forall ls c c', (ls, c) ∈ exposed r -> c' ∈ cs -> family_of c <> family_of c') ->
  exists r', MustRegisterAll cs r = Some r' /\ exposed r' = exposed r ++ ((fun c => ([], c)) <$> cs).
Proof.
  unfold MustRegisterAll. revert r. induction cs as [|c cs IH]; intros r Hnd Hfresh; cbn.
  { exists r. by rewrite app_nil_r. }
  apply NoDup_cons in Hnd as [Hc Hnd].
  destruct (register_ok [] c r) as (r1 & E1 & X1); [constructor|intros c' Hin; apply (Hfresh [] c' c Hin); set_solver|].
  rewrite E1. destruct (IH r1 Hnd) as (r' & E & X).
  { intros ls d d'. rewrite X1, elem_of_app, list_elem_of_singleton. intros [Hin|[= -> ->]] Hd.
    - apply (Hfresh ls d d' Hin). set_solver.
    - intros Heq. apply Hc. rewrite Heq. by apply list_elem_of_fmap_2. }
  exists r'. split; [exact E|]. by rewrite X, X1, <- app_assoc.
Qed.

(** The worker's registry: no registration panics, and it exposes the runtime's collectors and
    the observer's. *)
Lemma worker_registry :
  exists reg, (NewProcessRegistry ≫= NewObserver) = Some reg /\
    exposed reg = (fun c => ([], c)) <$> [GoCollector; ProcessCollector] ++ observerMetrics.
Proof.
  destruct (MustRegisterAll_fresh [GoCollector; ProcessCollector] NewRegistry) as (r & E & X).
  { apply (bool_decide_unpack _). by vm_compute. }
  { intros ls c c'. rewrite exposed_new. by intros ?%elem_of_nil. }
  unfold NewProcessRegistry. rewrite E. cbn [mbind option_bind].
  destruct (MustRegisterAll_fresh observerMetrics r) as (r' & E' & X').
  { apply (bool_decide_unpack _). by vm_compute. }
  { intros ls c c' Hin (name & -> & _)%list_elem_of_fmap. revert Hin. rewrite X, exposed_new. cbn.
    rewrite !elem_of_cons, elem_of_nil. by intros [[= _ ->]|[[= _ ->]|[]]]. }
  exists r'. split; [exact E'|]. by rewrite X', X, exposed_new, fmap_app.
Qed.

Definition client_at (k : nat) : collector := ClientMetrics (Z.of_nat k + 1) latencyBuckets.

Definition base : list (Labels * collector) :=
  [([], ServerMetrics 0 latencyBuckets); ([], GoCollector); ([], ProcessCollector)].

(** The registry holds the process collectors and one client per name seen. *)
Record holds (m : Metrics) (seen : list string) : Prop := {
  seen_once : NoDup seen;
  next_cell : NextCell m = Z.of_nat (length seen) + 1;
  clients_seen u : default ∅ (Clients m) !! u = client_at <$> (fst <$> list_find (.= u) seen);
  registered : exposed (Registry m) =
    base ++ imap (fun k u => ([("upstream", u)], client_at k)) seen }.

Abbreviation memo m := (default ∅ (Clients m)).

Lemma NewMetrics_holds : exists m, NewMetrics = Some m /\ holds m [].
Proof.
  unfold NewMetrics, MustRegisterAll. cbn [foldl].
  destruct (register_ok [] (ServerMetrics 0 latencyBuckets) NewRegistry) as (r1 & E1 & X1);
    [constructor|by intros c'; rewrite exposed_new, elem_of_nil|].
  destruct (register_ok [] GoCollector r1) as (r2 & E2 & X2); [constructor| |].
  { intros c'. rewrite X1, exposed_new. cbn. rewrite list_elem_of_singleton. by intros [= ->]. }
  destruct (register_ok [] ProcessCollector r2) as (r3 & E3 & X3); [constructor| |].
  { intros c'. rewrite X2, X1, exposed_new. cbn. rewrite !elem_of_cons, elem_of_nil.
    by intros [[= ->]|[[= ->]|[]]]. }
  cbn [mbind option_bind]. rewrite E1. cbn. rewrite E2. cbn. rewrite E3. cbn.
  eexists. split; [done|]. split; cbn; [constructor|done|done|].
  by rewrite X3, X2, X1, exposed_new.
Qed.

Lemma seen_position (u : string) seen :
  u ∈ seen -> exists k, list_find (.= u) seen = Some (k, u) /\ seen !! k = Some u.
Proof.
  intros Hu. destruct (list_find (.= u) seen) as [[k x]|] eqn:E.
  - pose proof E as E'. apply list_find_Some in E' as (Hk & -> & _). eauto.
  - apply list_find_None in E. rewrite Forall_forall in E. by destruct (E u Hu).
Qed.

Lemma find_app_new (u w : string) seen :
  u ∉ seen -> fst <$> list_find (.= w) (seen ++ [u]) =
    if bool_decide (w ∈ seen) then fst <$> list_find (.= w) seen
    else if bool_decide (w = u) then Some (length seen) else None.
Proof.
  intros Hu. case_bool_decide as Hw.
  - destruct (seen_position w seen Hw) as (k & Hk & _). rewrite Hk. by rewrite (list_find_app_l _ _ _ _ _ Hk).
  - assert (list_find (.= w) seen = None) as Hn.
    { apply list_find_None, Forall_forall. intros x Hx ->. done. }
    rewrite (list_find_app_r _ _ _ Hn). cbn. rewrite decide_bool_decide.
    destruct (decide (u = w)) as [->|Hne]; cbn.
    + rewrite !bool_decide_true by done. done.
    + rewrite !bool_decide_false by congruence. done.
Qed.

Lemma not_exposed (u : string) seen c' :
  u ∉ seen ->
  ([("upstream", u)], c') ∈ base ++ imap (fun k w => ([("upstream", w)], client_at k)) seen -> False.
Proof.
  intros Hu. rewrite elem_of_app. intros [Hin|Hin].
  - unfold base in Hin. rewrite !elem_of_cons, elem_of_nil in Hin. by destruct Hin as [?|[?|[?|[]]]].
  - apply elem_of_lookup_imap in Hin as (k & w & [= <- _] & Hw). by apply list_elem_of_lookup_2 in Hw.
Qed.

Lemma ClientFor_holds u m seen :
  holds m seen -> ValidLabel u = true ->
  exists c m', ClientFor u m = Some (c, m') /\ holds m' (first_uses seen [u]) /\ memo m' !! u = Some c /\
    (forall w d, memo m !! w = Some d -> memo m' !! w = Some d).
Proof.
  intros Hm Hvalid. pose proof (clients_seen m seen Hm) as Hc. unfold ClientFor. cbn [first_uses].
  destruct (decide (u ∈ seen)) as [Hu|Hu].
  - rewrite bool_decide_true by done. destruct (seen_position u seen Hu) as (k & Hk & _).
    assert (memo m !! u = Some (client_at k)) as Hmemo by (rewrite Hc, Hk; done).
    rewrite Hmemo. eexists _, _. split; [done|]. split_ands; [|done|done].
    destruct Hm. by split.
  - rewrite bool_decide_false by done. assert (memo m !! u = None) as Hmemo.
    { rewrite Hc. assert (list_find (.= u) seen = None) as ->; [|done].
      apply list_find_None, Forall_forall. by intros x Hx ->. }
    rewrite Hmemo. destruct (register_ok [("upstream", u)] (ClientMetrics (NextCell m) latencyBuckets) (Registry m))
      as (r' & Hr & Hx); [by constructor| |].
    { intros c'. rewrite (registered m seen Hm). by intros ?%not_exposed. }
    rewrite Hr. cbn. eexists _, _. split; [done|]. cbn [Clients from_option id].
    assert (ClientMetrics (NextCell m) latencyBuckets = client_at (length seen)) as Hcell
      by (unfold client_at; by rewrite (next_cell m seen Hm)).
    split_ands; [|by rewrite lookup_insert_eq|].
    + destruct Hm as [Hnd Hn _ Hreg]. split; cbn [NextCell Clients Registry from_option id].
      * apply NoDup_app. split; [done|]. split; [|by apply NoDup_singleton].
        intros x Hx' ->%list_elem_of_singleton. done.
      * rewrite length_app. cbn. lia.
      * intros w. rewrite find_app_new, lookup_insert by done. cbn. rewrite Hc.
        destruct (decide (u = w)) as [<-|Hne].
        { rewrite bool_decide_false, bool_decide_true by done. cbn. by rewrite Hcell. }
        case_bool_decide as Hw; [done|]. rewrite bool_decide_false by congruence.
        assert (list_find (.= w) seen = None) as ->; [|done].
        apply list_find_None, Forall_forall. by intros x Hx' ->.
      * rewrite Hx, Hreg, Hcell, imap_app, app_assoc. cbn. by rewrite Nat.add_0_r.
    + intros w d Hw. rewrite lookup_insert_ne by congruence. done.
Qed.

Lemma first_uses_app seen u r : first_uses seen (u :: r) = first_uses (first_uses seen [u]) r.
Proof. reflexivity. Qed.

Lemma ClientsFor_holds l m seen :
  holds m seen -> Forall (fun u => ValidLabel u = true) l ->
  exists cs m', ClientsFor l m = Some (cs, m') /\ holds m' (first_uses seen l) /\
    Forall2 (fun u c => memo m' !! u = Some c) l cs /\
    (forall w d, memo m !! w = Some d -> memo m' !! w = Some d).
Proof.
  intros Hm Hl. revert m seen Hm. induction Hl as [|u r Hu Hr IH]; intros m seen Hm.
  - exists [], m. split_ands; [done|done|constructor|done].
  - destruct (ClientFor_holds u m seen Hm Hu) as (c & m1 & Hc & Hm1 & Hmemo & Hmono).
    destruct (IH m1 _ Hm1) as (cs & m' & Hcs & Hm' & Hall & Hmono').
    exists (c :: cs), m'. cbn [ClientsFor]. rewrite Hc. cbn. rewrite Hcs. cbn.
    split_ands; [done|done| |]; [constructor; auto|auto].
Qed.

(** Asking for an upstream's collectors never takes the process down: whatever names a
    process asks for, in whatever order and however often, no registration panics, two requests
    get the same collectors exactly when they name the same upstream, and the registry exposes
    the process collectors and one set per name under that name's label. *)
Theorem clients_memoised l :
  Forall (fun u => ValidLabel u = true) l ->
  exists m0 cs m, NewMetrics = Some m0 /\ ClientsFor l m0 = Some (cs, m) /\ length cs = length l /\
    (forall i j u w c d, l !! i = Some u -> l !! j = Some w -> cs !! i = Some c -> cs !! j = Some d ->
       c = d <-> u = w) /\
    exposed (Registry m) =
      base ++ imap (fun k u => ([("upstream", u)], client_at k)) (first_uses [] l).
Proof.
  intros Hl. destruct NewMetrics_holds as (m0 & Hnew & Hm0).
  destruct (ClientsFor_holds l m0 [] Hm0 Hl) as (cs & m & Hcs & Hm & Hall & _).
  exists m0, cs, m. split_ands; [done|done|by rewrite (Forall2_length _ _ _ Hall)| |apply (registered m _ Hm)].
  intros i j u w c d Hi Hj Hci Hdj.
  pose proof (Forall2_lookup_lr _ _ _ _ _ _ Hall Hi Hci) as Hu.
  pose proof (Forall2_lookup_lr _ _ _ _ _ _ Hall Hj Hdj) as Hw. cbn beta in Hu, Hw.
  split; [|by intros <-; congruence]. intros <-.
  rewrite (clients_seen m _ Hm) in Hu, Hw.
  destruct (list_find (.= u) (first_uses [] l)) as [[a x]|] eqn:Ea; [|done].
  destruct (list_find (.= w) (first_uses [] l)) as [[b y]|] eqn:Eb; [|done].
  cbn in Hu, Hw. apply list_find_Some in Ea as (Ha & -> & _). apply list_find_Some in Eb as (Hb & -> & _).
  assert (a = b) as -> by (unfold client_at in *; injection Hu as <-; injection Hw as ?; lia).
  congruence.
Qed.
End Metrics.

(** ** A registry to run it with *)

Section MetricsExample.

#[local] Instance listRegistry : Prometheus := {|
  registry := list (Labels * collector);
  NewRegistry := [];
  MustRegister ls c r :=
    if bool_decide (Exists (fun p => p.1 = ls /\ family_of p.2 = family_of c) r) then None
    else Some (r ++ [(ls, c)]);
  ValidLabel s := is_ascii s |}.

#[local] Program Instance listRegistry_laws : PrometheusLaws := {| exposed r := r |}.
Next Obligation. done. Qed.
Next Obligation.
  intros ls c r _ Hfresh. exists (r ++ [(ls, c)]). split; [|done]. cbn.
  rewrite bool_decide_false; [done|]. intros [[ls' c'] (Hin & <- & Hf)]%Exists_exists.
  by destruct (Hfresh c' Hin).
Qed.

Lemma clients_memoised_witness :
  exists m0 cs m, NewMetrics = Some m0 /\ ClientsFor ["orders"; "billing"; "orders"] m0 = Some (cs, m) /\
    length cs = 3%nat /\ cs !! 0%nat = cs !! 2%nat /\ cs !! 0%nat <> cs !! 1%nat.
Proof.
  destruct (clients_memoised ["orders"; "billing"; "orders"]) as (m0 & cs & m & Hnew & Hrun & Hlen & Heq & _).
  { repeat constructor. }
  exists m0, cs, m. destruct cs as [|a [|b [|c [|]]]]; try done.
  split_ands; [exact Hnew|exact Hrun|exact Hlen| |].
  - cbn. f_equal. by apply (Heq 0%nat 2%nat "orders" "orders").
  - cbn. intros [= Hab]. by apply (Heq 0%nat 1%nat "orders" "billing") in Hab.
Defined.
End MetricsExample.

(** * The admin listener *)

Inductive target :=
  | Healthz | MetricsEndpoint | PprofIndex | PprofCmdline | PprofProfile | PprofSymbol | PprofTrace.

(** A pattern of [http.ServeMux]: a method or none, a path that is a subtree when it ends in a
    slash. *)
Record route := mkRoute { RMethod : string; RPath : string; RTarget : target }.

Inductive response :=
  | Wrote (status : Z) (body : string)
  | Delegated (t : target)
  | Redirected (path : string).

Definition adminRoutes : list route :=
  [mkRoute "GET" "/healthz" Healthz; mkRoute "GET" "/metrics" MetricsEndpoint;
   mkRoute "" "/debug/pprof/" PprofIndex; mkRoute "" "/debug/pprof/cmdline" PprofCmdline;
   mkRoute "" "/debug/pprof/profile" PprofProfile; mkRoute "" "/debug/pprof/symbol" PprofSymbol;
   mkRoute "" "/debug/pprof/trace" PprofTrace].

Definition subtree (path : string) : bool :=
  match reverse (to_list path) with c :: _ => Ascii.eqb c "/"%char | [] => false end.

Definition path_matches (path : string) (r : route) : bool :=
  if subtree (RPath r) then HasPrefix path (RPath r) else (path =? RPath r)%string.

(** A GET pattern also serves HEAD. *)
Definition method_matches (method : string) (r : route) : bool :=
  (RMethod r =? "")%string || (RMethod r =? method)%string ||
  ((RMethod r =? "GET")%string && (method =? "HEAD")%string).

(** The most specific of the matching patterns: the longest path. *)
Definition most_specific (l : list route) : option route :=
  foldl (fun best r =>
    match best with
    | Some b => if strlen (RPath b) <? strlen (RPath r) then Some r else best
    | None => Some r
    end) None l.

(** The mux over [routes] for a request whose path is clean. *)
Definition ServeMux (routes : list route) (serve : target -> response) (method path : string)
    : response :=
  let here := List.filter (path_matches path) routes in
  match most_specific (List.filter (method_matches method) here) with
  | Some r => serve (RTarget r)
  | None =>
      if existsb (path_matches (path +:+ "/")) (List.filter (fun r => subtree (RPath r)) routes) &&
         match here with [] => true | _ => false end
      then Redirected (path +:+ "/")
      else match here with
           | [] => Wrote 404 "404 page not found"
           | _ => Wrote 405 "Method Not Allowed"
           end
  end.

(** [live] is the function's current answer, [None] when there is none. *)
Definition healthz (live : option bool) : response :=
  match live with Some false => Wrote 503 "not live" | _ => Wrote 200 "ok" end.

Definition NewAdminMux (live : option bool) (method path : string) : response :=
  ServeMux adminRoutes
    (fun t => match t with Healthz => healthz live | _ => Delegated t end) method path.

(** The timeouts of the server around it; zero means none. *)
Record httpServer := mkHttpServer {
  SAddr : string; ReadHeaderTimeout : Z; ReadTimeout : Z; IdleTimeout : Z; WriteTimeout : Z }.

Definition NewAdminServer (cfg : Config) : httpServer :=
  mkHttpServer (AdminAddr cfg) (5 * Second) (30 * Second) (60 * Second) 0.

(** Liveness looks at the process and nothing else. *)
Lemma healthz_only_live live :
  NewAdminMux live "GET" "/healthz" =
    (if bool_decide (live = Some false) then Wrote 503 "not live" else Wrote 200 "ok").
Proof. by destruct live as [[]|]. Qed.

Lemma most_specific_elem l b r :
  foldl (fun best r =>
    match best with
    | Some b => if strlen (RPath b) <? strlen (RPath r) then Some r else best
    | None => Some r
    end) b l = Some r -> r ∈ l \/ b = Some r.
Proof.
  revert b. induction l as [|x l IH]; intros b; cbn [foldl]; [auto|].
  intros [Hr|Hr]%IH; [left; by right|]. destruct b as [b|].
  - destruct (_ <? _); [injection Hr as <-; left; by left|auto].
  - injection Hr as <-. left. by left.
Qed.

(** Nothing but the routes listed is reachable, and the profiler only under its own prefix. *)
Lemma admin_surface live method path t :
  NewAdminMux live method path = Delegated t ->
  t = MetricsEndpoint /\ path = "/metrics" \/ HasPrefix path "/debug/pprof/" = true.
Proof.
  unfold NewAdminMux, ServeMux, most_specific.
  destruct (foldl _ None _) as [r|] eqn:E.
  2:{ destruct (existsb _ _ && _); [done|]. by destruct (List.filter (path_matches path) adminRoutes). }
  apply most_specific_elem in E as [Hin|]; [|done].
  apply list_elem_of_In in Hin. rewrite !filter_In in Hin. destruct Hin as [[Hr Hp] _].
  unfold path_matches in Hp. apply list_elem_of_In in Hr. unfold adminRoutes in Hr.
  rewrite !elem_of_cons, elem_of_nil in Hr.
  destruct Hr as [->|[->|[->|[->|[->|[->|[->|[]]]]]]]]; cbn in Hp |- *; intros Ht.
  - by destruct live as [[]|].
  - injection Ht as <-. left. apply String.eqb_eq in Hp. done.
  - right. exact Hp.
  - right. apply String.eqb_eq in Hp. by subst.
  - right. apply String.eqb_eq in Hp. by subst.
  - right. apply String.eqb_eq in Hp. by subst.
  - right. apply String.eqb_eq in Hp. by subst.
Qed.

(** ** The application's own *)

(** [buildAdminServer]: the process is live as long as it answers. *)
Definition buildAdminServer (cfg : Config) : httpServer * (string -> string -> response) :=
  (NewAdminServer cfg, NewAdminMux (Some true)).

(** No dependency's failure makes the liveness probe fail. *)
Lemma always_live cfg : (buildAdminServer cfg).2 "GET" "/healthz" = Wrote 200 "ok".
Proof. exact (healthz_only_live (Some true)). Qed.
