(* ===== verification/GormLog.v ===== *)
(** internal/platform/gormx, the parts around the queries: the pool's bounds, GORM's logger on
    log/slog, and the counter of statements.

    A statement is what GORM hands a callback: none when the operation was never built, else its
    SQL and the number of its bind variables.  [Explain], GORM's interpolation, is a parameter.
    The counter's lists are copied in and out under its lock, so they are plain values. *)

From S2P Require Import Prelude GoErr GoStr GoNum GoLog Config Observe.

(** * The pool *)

Record sqlPool := mkPool {
  PMaxOpenConns : Z; PMaxIdleConns : Z; PConnMaxLifetime : Z; PConnMaxIdleTime : Z }.

Definition configurePool (cfg : Config) : sqlPool :=
  mkPool (MaxOpenConns (Postgres cfg)) (MaxIdleConns (Postgres cfg))
    (ConnMaxLifetime (Postgres cfg)) (ConnMaxIdleTime (Postgres cfg)).

(** * The logger *)

Definition slowQueryThreshold : Z := 200 * Millisecond.

Section Logger.
Context `{Otel}.

Record slogLogger := mkSlogLogger { GLog : handler; Slow : Z }.

Definition NewSlogLogger (log : handler) (slow : Z) : slogLogger := mkSlogLogger log slow.

(** GORM asks for another level; the logger's own decides. *)
Definition LogMode (level : Z) (l : slogLogger) : slogLogger := l.

(** What GORM itself has to say, at a level of its own; [Sprintf] is [fmt]'s. *)
Definition Info (sc : spanContext) (Sprintf : string -> list string -> string) (msg : string)
    (args : list string) (l : slogLogger) : list emitted :=
  Log sc SlogInfo (Sprintf msg args) [] (GLog l).
Definition Warn (sc : spanContext) (Sprintf : string -> list string -> string) (msg : string)
    (args : list string) (l : slogLogger) : list emitted :=
  Log sc SlogWarn (Sprintf msg args) [] (GLog l).
Definition Error (sc : spanContext) (Sprintf : string -> list string -> string) (msg : string)
    (args : list string) (l : slogLogger) : list emitted :=
  Log sc SlogError (Sprintf msg args) [] (GLog l).

(** The lines written, and whether the statement was formatted.  [fc] formats it: its SQL and
    the rows affected. *)
Definition Trace (sc : spanContext) (elapsed : Z) (fc : string * Z) (err : option error)
    (l : slogLogger) : list emitted * bool :=
  let '(sqlText, rows) := fc in
  let failure :=
    match err with
    | Some e => if negb (errIs GormErrRecordNotFound e) then Some e else None
    | None => None
    end in
  match failure with
  | Some e =>
      (Log sc SlogError "sql error"
         [("error", AErr e); ("sql", AStr sqlText); ("rows", AInt rows); ("elapsed", AInt elapsed)]
         (GLog l), true)
  | None =>
      if (Slow l >? 0) && (Slow l <=? elapsed)
      then (Log sc SlogWarn "slow sql"
              [("sql", AStr sqlText); ("rows", AInt rows); ("elapsed", AInt elapsed);
               ("threshold", AInt (Slow l))] (GLog l), true)
      else if Enabled (GLog l) SlogDebug
      then (Log sc SlogDebug "sql"
              [("sql", AStr sqlText); ("rows", AInt rows); ("elapsed", AInt elapsed)] (GLog l), true)
      else ([], false)
  end.

(** ** What it writes *)

Lemma Handle_level sc r h e : e ∈ Handle sc r h -> RLevel (ERecord e) = RLevel r /\ RMsg (ERecord e) = RMsg r.
Proof.
  revert r. induction h as [text opts scp|inner IH]; intros r; cbn.
  - rewrite list_elem_of_singleton. by intros ->.
  - intros He. apply IH in He. by destruct (IsValid sc).
Qed.

Lemma Log_level sc lvl msg args h e : e ∈ Log sc lvl msg args h -> RLevel (ERecord e) = lvl /\ Enabled h lvl = true.
Proof.
  unfold Log. destruct (Enabled h lvl); [|by intros ?%elem_of_nil]. intros He%Handle_level. by destruct He.
Qed.

(** An error line means an error that is not a missing row; a missing row or success is at most a
    slow query, at the threshold or above; and a fast, ordinary statement is formatted only when
    someone will read it. *)
Lemma Trace_lines sc elapsed fc err l :
  let '(lines, formatted) := Trace sc elapsed fc err l in
  (forall e, e ∈ lines -> RLevel (ERecord e) = SlogError ->
     exists x, err = Some x /\ errIs GormErrRecordNotFound x = false) /\
  (forall e, e ∈ lines -> RLevel (ERecord e) = SlogWarn -> 0 < Slow l <= elapsed) /\
  (formatted = false -> lines = []) /\
  (formatted = true -> Enabled (GLog l) SlogDebug = true \/ 0 < Slow l <= elapsed \/
     exists x, err = Some x /\ errIs GormErrRecordNotFound x = false).
Proof.
  unfold Trace. destruct fc as [sql rows].
  set (failure := match err with Some e => _ | None => _ end).
  assert (forall x, failure = Some x -> err = Some x /\ errIs GormErrRecordNotFound x = false) as Hf.
  { unfold failure. destruct err as [x|]; [|done]. destruct (negb _) eqn:E; [|done].
    apply negb_true_iff in E. by intros ? [= <-]. }
  destruct failure as [x|]; [specialize (Hf x eq_refl)|clear Hf].
  2: destruct ((Slow l >? 0) && (Slow l <=? elapsed)) eqn:Es;
    [apply andb_true_iff in Es as [?%Z.gtb_lt ?%Z.leb_le]|destruct (Enabled (GLog l) SlogDebug) eqn:Ed].
  all: split_ands; try done; try (by intros e [Hl _]%Log_level; rewrite Hl);
    try (by intros e ?%elem_of_nil); eauto.
Qed.
End Logger.

(** * The counter *)

(** What a callback sees of the statement. *)
Record statement := mkStatement { SQL : string; Vars : Z; Dialector : bool }.

Record QueryCounter := mkCounter { Count : Z; Statements : list string; Executed : list string }.

Definition NewQueryCounter : QueryCounter := mkCounter 0 [] [].

(** GORM's callback chains, in one of the orders a map ranges: the names registered, and the
    first refusal. *)
Definition counterHooks : list string := ["query"; "create"; "update"; "delete"; "row"; "raw"].

Fixpoint Attach (register : string -> option error) (hooks : list string) : option error :=
  match hooks with
  | [] => None
  | name :: r =>
      match register ("gomicro:count_" +:+ name) with
      | Some err => Some err
      | None => Attach register r
      end
  end.

Section Counter.
Context (Explain : string -> Z -> string).

Definition record_query (st : option statement) (c : QueryCounter) : QueryCounter :=
  match st with
  | None => c
  | Some st =>
      let raw := SQL st in
      let interpolated := if Dialector st && (Vars st >? 0) then Explain raw (Vars st) else raw in
      mkCounter (Count c + 1) (Statements c ++ [raw]) (Executed c ++ [interpolated])
  end.

Definition ResetCounter (c : QueryCounter) : QueryCounter := mkCounter 0 [] [].

(** The statements of a block of code, in order. *)
Definition count_block (l : list (option statement)) (c : QueryCounter) : QueryCounter :=
  foldl (fun c st => record_query st c) c l.

(** After a reset the counter says exactly what the block issued: how many statements were
    built, their text, and their interpolated text, in order. *)
Lemma counter_exact l c :
  let c' := count_block l (ResetCounter c) in
  let built := omap id l in
  Count c' = Z.of_nat (length built) /\ Statements c' = SQL <$> built /\
  length (Executed c') = length (Statements c').
Proof.
  cbv zeta. assert (forall c0, let c' := count_block l c0 in
    Count c' = Count c0 + Z.of_nat (length (omap id l)) /\
    Statements c' = Statements c0 ++ (SQL <$> omap id l) /\
    (length (Executed c0) = length (Statements c0) -> length (Executed c') = length (Statements c'))) as Hgen.
  { induction l as [|[st|] l IH]; intros c0; cbn [count_block foldl omap list_omap id].
    - rewrite app_nil_r. split_ands; [cbn; lia|done|done].
    - destruct (IH (record_query (Some st) c0)) as (Hc & Hs & He). unfold count_block in *.
      rewrite Hc, Hs. cbn [record_query Count Statements Executed fmap list_fmap length] in *.
      rewrite Hs in He. rewrite <- app_assoc in *. split_ands; [lia|done|]. intros Heq.
      apply He. rewrite !length_app. cbn. lia.
    - apply IH. }
  destruct (Hgen (ResetCounter c)) as (Hc & Hs & He). split_ands; auto.
Qed.
End Counter.
