(* ===== verification/TestIssuer.v ===== *)
(** internal/platform/auth/testjwks: the in-process OIDC issuer the verifier is tested
    against, a hostile one on request.

    Parameters stand for the libraries: JSON encoding, JWT signing and the PEM form of a
    public key.  The keys drawn by [ecdsa.GenerateKey] and [rsa.GenerateKey] and the address
    the listener got are arguments.  [t.Fatalf] is an error.  An HTTP handler takes the issuer
    and gives what the client sees, how long the answer took, and the issuer after it; the
    read-write lock makes each method atomic. *)

From S2P Require Import Prelude GoErr GoStr GoNum Cursor Auth Oidc.

(** * Keys *)

Record ecdsaKey := mkEcdsa { EX : Z; EY : Z; ED : Z }.
Record rsaKey := mkRsa { RN : Z; RE : Z; RD : Z }.

#[export] Instance ecdsaKey_eq_dec : EqDecision ecdsaKey.
Proof. solve_decision. Defined.
#[export] Instance rsaKey_eq_dec : EqDecision rsaKey.
Proof. solve_decision. Defined.

(** What [SignedString] accepts as a key: [jwt.UnsafeAllowNoneSignatureType] is the sentinel
    that signs with "none". *)
Inductive signingKey :=
  | KeyEC (k : ecdsaKey) | KeyRSA (k : rsaKey) | KeyBytes (b : string)
  | UnsafeAllowNoneSignatureType.

(** [big.Int.FillBytes] into [size] bytes, big-endian, and [big.Int.Bytes]. *)
Fixpoint le_bytes (size : nat) (z : Z) : list ascii :=
  match size with
  | O => []
  | S size => of_byte (z mod 256) :: le_bytes size (z / 256)
  end.

Definition FillBytes (z : Z) (size : nat) : string := of_list (reverse (le_bytes size z)).
Definition Bytes (z : Z) : string := FillBytes z (Z.to_nat ((BitLen z + 7) / 8)).

(** The values the tests put in a [jwt.MapClaims] they sign, and what a parser decodes. *)
Inductive claim := CStr (s : string) | CInt (z : Z).
Abbreviation Claims := (gmap string claim).

Definition decoded (claims : Claims) : MapClaims :=
  (fun c => match c with CStr s => JString s | CInt z => JNumber (pretty z) end) <$> claims.

(** * The issuer *)

Record issuer := mkIssuer {
  SrvURL : string;
  EcKey : ecdsaKey; EcKid : string; RsaKey : rsaKey; RsaKid : string;
  ExtraKeys : list string;
  JwksFetches : Z;
  Offline : bool;
  JwksDelay : Z;
  DiscoveryIssuer : option string;
  IAudience : string; ITenantClaim : string; IScopeClaim : string;
  Closed : bool }.

(** The libraries. *)
Class IssuerLib := {
  json_MarshalMap : gmap string string -> result string;
  (** The document [{"keys": [...]}] over raw messages, checked to be valid JSON. *)
  json_MarshalKeys : list string -> result string;
  (** [NewWithClaims], the header's kid and [SignedString]. *)
  jwt_SignedString : string -> signingKey -> string -> Claims -> result string;
  (** [pem.EncodeToMemory] of [x509.MarshalPKIXPublicKey]. *)
  x509_pem : rsaKey -> result string }.

Section WithLib.
Context `{IssuerLib}.

Definition New (ecKey : result ecdsaKey) (rsaKey : result rsaKey) (addr : string)
    : result issuer :=
  ecKey ← mapErr (wrapf [PStr "generate ec key"]) ecKey;
  rsaKey ← mapErr (wrapf [PStr "generate rsa key"]) rsaKey;
  mret {| SrvURL := addr; EcKey := ecKey; EcKid := "ec-key-1"; RsaKey := rsaKey;
          RsaKid := "rsa-key-1"; ExtraKeys := []; JwksFetches := 0; Offline := false;
          JwksDelay := 0; DiscoveryIssuer := None; IAudience := "orderd";
          ITenantClaim := "tenant_id"; IScopeClaim := "scope"; Closed := false |}.

Definition URL (i : issuer) : string := SrvURL i.
Definition IssuerJWKSURL (i : issuer) : string := SrvURL i +:+ "/jwks.json".
Definition JWKSFetches (i : issuer) : Z := JwksFetches i.

Definition Close (i : issuer) : issuer :=
  mkIssuer (SrvURL i) (EcKey i) (EcKid i) (RsaKey i) (RsaKid i) (ExtraKeys i) (JwksFetches i)
    (Offline i) (JwksDelay i) (DiscoveryIssuer i) (IAudience i) (ITenantClaim i) (IScopeClaim i)
    true.

Definition SetOffline (offline : bool) (i : issuer) : issuer :=
  mkIssuer (SrvURL i) (EcKey i) (EcKid i) (RsaKey i) (RsaKid i) (ExtraKeys i) (JwksFetches i)
    offline (JwksDelay i) (DiscoveryIssuer i) (IAudience i) (ITenantClaim i) (IScopeClaim i)
    (Closed i).

Definition SetJWKSDelay (d : Z) (i : issuer) : issuer :=
  mkIssuer (SrvURL i) (EcKey i) (EcKid i) (RsaKey i) (RsaKid i) (ExtraKeys i) (JwksFetches i)
    (Offline i) d (DiscoveryIssuer i) (IAudience i) (ITenantClaim i) (IScopeClaim i) (Closed i).

Definition SetDiscoveryIssuer (url : string) (i : issuer) : issuer :=
  mkIssuer (SrvURL i) (EcKey i) (EcKid i) (RsaKey i) (RsaKid i) (ExtraKeys i) (JwksFetches i)
    (Offline i) (JwksDelay i) (Some url) (IAudience i) (ITenantClaim i) (IScopeClaim i)
    (Closed i).

Definition set_keys (ec : ecdsaKey) (kid : string) (extra : list string) (i : issuer) : issuer :=
  mkIssuer (SrvURL i) ec kid (RsaKey i) (RsaKid i) extra (JwksFetches i)
    (Offline i) (JwksDelay i) (DiscoveryIssuer i) (IAudience i) (ITenantClaim i) (IScopeClaim i)
    (Closed i).

Definition count_fetch (i : issuer) : issuer :=
  mkIssuer (SrvURL i) (EcKey i) (EcKid i) (RsaKey i) (RsaKid i) (ExtraKeys i)
    (JwksFetches i + 1) (Offline i) (JwksDelay i) (DiscoveryIssuer i) (IAudience i)
    (ITenantClaim i) (IScopeClaim i) (Closed i).

Definition Rotate (key : result ecdsaKey) (newKid : string) (i : issuer) : result issuer :=
  key ← mapErr (wrapf [PStr "rotate"]) key;
  mret (set_keys key newKid (ExtraKeys i) i).

Definition PublishRawKey (raw : string) (i : issuer) : issuer :=
  set_keys (EcKey i) (EcKid i) (ExtraKeys i ++ [raw]) i.

Definition mustJSON (v : gmap string string) : result string :=
  mapErr (wrapf [PStr "marshal jwk"]) (json_MarshalMap v).

(** A literal over the entries in source order: a later entry for the same name wins. *)
Definition literal {V} (l : list (string * V)) : gmap string V := list_to_map (reverse l).

Definition ecJWK (key : ecdsaKey) (kid : string) : gmap string string :=
  let size := 32%nat in
  literal
    [("kty", "EC"); ("crv", "P-256"); ("kid", kid); ("alg", "ES256"); ("use", "sig");
     ("x", EncodeToString (FillBytes (EX key) size));
     ("y", EncodeToString (FillBytes (EY key) size))].

Definition rsaJWK (key : rsaKey) (kid : string) : gmap string string :=
  literal
    [("kty", "RSA"); ("kid", kid); ("alg", "RS256"); ("use", "sig");
     ("n", EncodeToString (Bytes (RN key))); ("e", EncodeToString (Bytes (RE key)))].

Definition PublishSymmetricKey (kid secret : string) (i : issuer) : result issuer :=
  raw ← mustJSON (literal
    [("kty", "oct"); ("kid", kid); ("alg", "HS256"); ("use", "sig");
     ("k", EncodeToString secret)]);
  mret (PublishRawKey raw i).

Definition PublishWeakRSAKey (key : result rsaKey) (kid : string) (i : issuer)
    : result (rsaKey * issuer) :=
  key ← mapErr (wrapf [PStr "generate weak rsa key"]) key;
  raw ← mustJSON (rsaJWK key kid);
  mret (key, PublishRawKey raw i).

(** ** Tokens *)

(** [time.Time.Unix] of an instant in nanoseconds. *)
Definition Unix (t : Z) : Z := t / Second.

Definition DefaultClaims (now : Z) (i : issuer) : Claims :=
  literal
    [("iss", CStr (URL i)); ("aud", CStr (IAudience i)); ("sub", CStr "user-123");
     ("exp", CInt (Unix (now + Hour))); ("iat", CInt (Unix now));
     ("nbf", CInt (Unix (now + - Minute)));
     (ITenantClaim i, CStr "tenant-a"); (IScopeClaim i, CStr "orders:read orders:write")].

Definition sign (method : string) (key : signingKey) (kid : string) (claims : Claims)
    : result string :=
  mapErr (wrapf [PStr "sign token"]) (jwt_SignedString method key kid claims).

Definition Sign (claims : Claims) (i : issuer) : result string :=
  sign "ES256" (KeyEC (EcKey i)) (EcKid i) claims.

Definition SignRSA (claims : Claims) (i : issuer) : result string :=
  sign "RS256" (KeyRSA (RsaKey i)) (RsaKid i) claims.

Definition SignPS256 (claims : Claims) (i : issuer) : result string :=
  sign "PS256" (KeyRSA (RsaKey i)) (RsaKid i) claims.

Definition SignWithKid (kid : string) (claims : Claims) (i : issuer) : result string :=
  sign "ES256" (KeyEC (EcKey i)) kid claims.

Definition SignNone (claims : Claims) (i : issuer) : result string :=
  sign "none" UnsafeAllowNoneSignatureType (EcKid i) claims.

Definition SignHS256WithRSAPublicKey (claims : Claims) (i : issuer) : result string :=
  secret ← mapErr (wrapf [PStr "marshal public key"]) (x509_pem (RsaKey i));
  sign "HS256" (KeyBytes secret) (RsaKid i) claims.

Definition SignHMAC (kid secret : string) (claims : Claims) (i : issuer) : result string :=
  sign "HS256" (KeyBytes secret) kid claims.

Definition SignRSAWith (key : rsaKey) (kid : string) (claims : Claims) (i : issuer)
    : result string :=
  sign "RS256" (KeyRSA key) kid claims.

(** ** The server *)

Definition handler : Type := issuer -> http_answer * Z * issuer.

Definition guard (next : handler) : handler := fun i =>
  if Offline i then (BadStatus "503 Service Unavailable", 0, i) else next i.

(** [json.NewEncoder(w).Encode]: a newline after the document, and nothing when it fails. *)
Definition Encode (doc : result string) : http_answer :=
  match doc with Ok b => Body (b +:+ NL) | Err _ => Body "" end.

Definition handleDiscovery : handler := fun i =>
  let url := match DiscoveryIssuer i with Some override => override | None => URL i end in
  (Encode (json_MarshalMap (literal [("issuer", url); ("jwks_uri", IssuerJWKSURL i)])), 0, i).

(** A failed [mustJSON] ends the handler's goroutine: the client reads an aborted answer. *)
Definition handleJWKS : handler := fun i =>
  let i := count_fetch i in
  let d := if JwksDelay i >? 0 then JwksDelay i else 0 in
  let keys :=
    ec ← mustJSON (ecJWK (EcKey i) (EcKid i));
    rsa ← mustJSON (rsaJWK (RsaKey i) (RsaKid i));
    Ok ([ec; rsa] ++ ExtraKeys i) in
  match keys with
  | Ok keys => (Encode (json_MarshalKeys keys), d, i)
  | Err e => (TransportErr e, d, i)
  end.

(** A GET of [url]: the mux [New] registers, behind a listener that may be closed. *)
Definition GET (url : string) (i : issuer) : http_answer * Z * issuer :=
  if Closed i then (TransportErr (ELib "connection refused"), 0, i)
  else if (url =? SrvURL i +:+ "/.well-known/openid-configuration")%string
  then guard handleDiscovery i
  else if (url =? SrvURL i +:+ "/jwks.json")%string then guard handleJWKS i
  else (BadStatus "404 Not Found", 0, i).
End WithLib.
