(* ===== verification/TestIssuerSpec.v ===== *)
(** What the verifier makes of the tokens of an issuer it trusts: the ones the issuer minted
    for it are accepted, and every other one is refused. *)

From S2P Require Import Prelude GoErr GoStr GoNum Cursor Auth Oidc OidcSpec TestIssuer.

(** * Big-endian integers in a key set *)

Lemma SetBytes_le_bytes acc size z :
  foldl (fun z c => z * 256 + byte_of c) acc (reverse (le_bytes size z)) =
  acc * 256 ^ Z.of_nat size + z mod 256 ^ Z.of_nat size.
Proof.
  revert z. induction size as [|size IH]; intros z; cbn [le_bytes].
  - cbn. rewrite Z.mod_1_r. lia.
  - rewrite reverse_cons, foldl_app, IH. cbn [foldl].
    rewrite byte_of_byte by (apply Z.mod_pos_bound; lia).
    rewrite Nat2Z.inj_succ, Z.pow_succ_r by lia.
    rewrite (Z.rem_mul_r z 256) by lia. lia.
Qed.

Lemma SetBytes_FillBytes z size : 0 <= z < 256 ^ Z.of_nat size -> SetBytes (FillBytes z size) = z.
Proof.
  intros Hz. unfold SetBytes, FillBytes, to_list, of_list.
  rewrite list_ascii_of_string_of_list_ascii, SetBytes_le_bytes, Z.mod_small by done. lia.
Qed.

Lemma length_le_bytes size z : length (le_bytes size z) = size.
Proof. revert z. induction size as [|size IH]; intros z; cbn; auto. Qed.

Lemma strlen_of_list l : strlen (of_list l) = Z.of_nat (length l).
Proof. unfold strlen, of_list. f_equal. induction l; cbn; auto. Qed.

Lemma strlen_FillBytes z size : strlen (FillBytes z size) = Z.of_nat size.
Proof. unfold FillBytes. by rewrite strlen_of_list, length_reverse, length_le_bytes. Qed.

Lemma BitLen_bounds z : 0 < z -> 0 < BitLen z /\ z < 2 ^ BitLen z.
Proof.
  intros Hz. unfold BitLen. destruct (z =? 0) eqn:E; to_prop; [lia|].
  rewrite Z.abs_eq by lia. pose proof (Z.log2_spec z Hz). pose proof (Z.log2_nonneg z).
  rewrite Z.add_1_r. lia.
Qed.

Lemma strlen_Bytes z : 0 < z -> strlen (Bytes z) = (BitLen z + 7) / 8.
Proof.
  intros Hz. unfold Bytes. rewrite strlen_FillBytes, Z2Nat.id; [done|].
  destruct (BitLen_bounds z Hz). apply Z.div_pos; lia.
Qed.

Lemma SetBytes_Bytes z : 0 < z -> SetBytes (Bytes z) = z.
Proof.
  intros Hz. destruct (BitLen_bounds z Hz) as [Hb Hlt]. unfold Bytes.
  assert (0 <= (BitLen z + 7) / 8) by (apply Z.div_pos; lia).
  apply SetBytes_FillBytes. rewrite Z2Nat.id by done. split; [lia|].
  apply Z.lt_le_trans with (2 ^ BitLen z); [done|].
  change 256 with (2 ^ 8). rewrite <- Z.pow_mul_r by lia. apply Z.pow_le_mono_r; [lia|].
  pose proof (Z.div_mod (BitLen z + 7) 8 ltac:(lia)). pose proof (Z.mod_pos_bound (BitLen z + 7) 8). lia.
Qed.

(** * Base64 members of a key *)

Definition padding (c : ascii) : bool := Ascii.eqb c "="%char.

Lemma b64_char_plain v :
  0 <= v < 64 -> padding (b64_char v) = false /\ (byte_of (b64_char v) <? 128) = true.
Proof.
  intros Hv.
  assert (Forall (fun v => padding (b64_char v) = false /\ (byte_of (b64_char v) <? 128) = true)
            (seqZ 0 64)) as Hall by (apply (bool_decide_unpack _); vm_compute; exact I).
  rewrite Forall_forall in Hall. apply Hall, elem_of_seqZ. lia.
Qed.

#[local] Ltac Zify.zify_post_hook ::= Z.to_euclidean_division_equations.

Lemma b64_encode_clean l :
  Forall (fun c => padding c = false /\ (byte_of c <? 128) = true) (b64_encode l).
Proof.
  induction l as [|a|a b|a b c r IH] using list_ind3; cbn [b64_encode];
    b64_bounds; repeat constructor; auto; apply b64_char_plain; lia.
Qed.

#[local] Ltac Zify.zify_post_hook ::= idtac.

Lemma TrimRight_id p s : Forall (fun c => p c = false) (to_list s) -> TrimRight p s = s.
Proof.
  intros Hs. unfold TrimRight, of_list. assert (drop_while p (reverse (to_list s)) = reverse (to_list s)) as ->.
  { apply Forall_reverse in Hs. by destruct Hs as [|c l Hc Hl]; [|cbn; rewrite Hc]. }
  rewrite reverse_involutive. apply string_of_list_ascii_of_string.
Qed.

Lemma b64_EncodeToString s : s <> "" -> b64 (EncodeToString s) = Ok s.
Proof.
  intros Hs. unfold b64. destruct (EncodeToString s =? "")%string eqn:E; to_prop.
  { by apply EncodeToString_nonempty in Hs. }
  rewrite TrimRight_id, DecodeString_EncodeToString; [done|].
  unfold EncodeToString, to_list, of_list. rewrite list_ascii_of_string_of_list_ascii.
  eapply Forall_impl; [apply b64_encode_clean|]. cbn. by intros c [? _].
Qed.

Lemma string_forallb_Forall p s :
  string_forallb p s = true <-> Forall (fun c => p c = true) (to_list s).
Proof.
  induction s as [|c r IH]; cbn; [by split|].
  rewrite andb_true_iff, IH, Forall_cons. done.
Qed.

Lemma EncodeToString_ascii s : is_ascii (EncodeToString s) = true.
Proof.
  unfold is_ascii. rewrite string_forallb_Forall.
  unfold EncodeToString, to_list, of_list. rewrite list_ascii_of_string_of_list_ascii.
  eapply Forall_impl; [apply b64_encode_clean|]. cbn. by intros c [_ ?].
Qed.

Lemma nonempty_strlen s : strlen s <> 0 -> s <> "".
Proof. by intros Hs ->. Qed.

(** * The libraries the issuer and the verifier share *)

(** How encoding/json fills a [jwk]: an absent member leaves the zero value. *)
Definition member (m : gmap string string) (name : string) : string := default "" (m !! name).

Definition jwk_of (m : gmap string string) : jwk :=
  mkJwk (member m "kty") (member m "kid") (member m "use") (member m "alg") (member m "n")
    (member m "e") (member m "crv") (member m "x") (member m "y").

Definition ascii_map (m : gmap string string) : Prop :=
  map_Forall (fun name v => is_ascii name = true /\ is_ascii v = true) m.

(** Claims that survive JSON: ASCII strings, and integers a float64 holds. *)
Definition plain (c : Claims) : Prop :=
  map_Forall (fun name v => is_ascii name = true /\
    match v with CStr s => is_ascii s = true | CInt z => Z.abs z < 2 ^ 53 end) c.

(** The key type each signing method takes. *)
Definition method_takes (m : string) (k : signingKey) : bool :=
  match k with
  | KeyEC _ => (m =? "ES256")%string
  | KeyRSA _ => (m =? "RS256")%string || (m =? "PS256")%string
  | KeyBytes _ => (m =? "HS256")%string
  | UnsafeAllowNoneSignatureType => (m =? "none")%string
  end.

(** Whether [pub] is the public half of [k]. *)
Definition key_matches (k : signingKey) (pub : pubkey) : bool :=
  match k, pub with
  | KeyEC k, ECDSAPublicKey crv x y => (crv =? "P-256")%string && (EX k =? x) && (EY k =? y)
  | KeyRSA k, RSAPublicKey n e => (RN k =? n) && (RE k =? e)
  | _, _ => false
  end.

(** The registered claims golang-jwt checks at [now] under the options [Verify] passes. *)
Definition claims_valid (now : Z) (po : parse_opts) (c : Claims) : bool :=
  match c !! "exp" with
  | Some (CInt z) => if z =? 0 then negb (ExpirationRequired po) else now <? z * Second + WithLeeway po
  | None => negb (ExpirationRequired po)
  | _ => false
  end &&
  match c !! "nbf" with
  | Some (CInt z) => (z =? 0) || (z * Second - WithLeeway po <=? now)
  | None => true
  | _ => false
  end &&
  match c !! "aud" with Some (CStr s) => (s =? WithAudience po)%string | _ => false end &&
  match c !! "iss" with Some (CStr s) => (s =? WithIssuer po)%string | _ => false end.

(** What encoding/json and golang-jwt promise; [clock] is the instant the parser's clock
    shows, and [key_pair] tells the keys whose private half undoes their public half. *)
Class IssuerLaws `{Unicode, AuthLib, IssuerLib} (clock : Z) := {
  key_pair : signingKey -> bool;
  jwk_read : string -> option jwk;
  marshal_map m : ascii_map m -> exists b, json_MarshalMap m = Ok b;
  read_jwk m b : ascii_map m -> json_MarshalMap m = Ok b -> jwk_read b = Some (jwk_of m);
  read_discovery m b :
    ascii_map m -> json_MarshalMap m = Ok b ->
    json_discovery (b +:+ NL) = Ok (mkDiscovery (member m "issuer") (member m "jwks_uri"));
  read_keys raws js :
    mapM jwk_read raws = Some js ->
    exists b, json_MarshalKeys raws = Ok b /\ json_jwks (b +:+ NL) = Ok js;
  signs m k kid c :
    method_takes m k = true -> is_ascii kid = true -> plain c ->
    exists raw, jwt_SignedString m k kid c = Ok raw;
  token_visible m k kid c raw : jwt_SignedString m k kid c = Ok raw -> TrimSpace raw <> "";
  token_header m k kid c raw po :
    jwt_SignedString m k kid c = Ok raw -> is_ascii kid = true -> plain c ->
    if bool_decide (m ∈ ValidMethods po) then jwt_header po raw = Ok (mkHeader kid m)
    else is_ok (jwt_header po raw) = false;
  token_claims m k kid c raw po pub :
    jwt_SignedString m k kid c = Ok raw -> is_ascii kid = true -> plain c ->
    if key_pair k && key_matches k pub && claims_valid clock po c
    then jwt_claims po raw pub = Ok (decoded c) else is_ok (jwt_claims po raw pub) = false }.

Section Issuer.
Context `{IssuerLaws}.

(** * The key set the issuer publishes *)

(** An issuer that is up, whose own keys are fit to verify with and whose extra keys are all
    of a kind the verifier refuses to load. *)
Record fit (i : issuer) : Prop := {
  ec_range : 0 <= EX (EcKey i) < 2 ^ 256 /\ 0 <= EY (EcKey i) < 2 ^ 256;
  ec_on_curve : ecdh_NewPublicKey "P-256"
    (String (of_byte 4) (FillBytes (EX (EcKey i)) 32 +:+ FillBytes (EY (EcKey i)) 32)) = None;
  rsa_modulus : minRSABits <= BitLen (RN (RsaKey i)) <= maxRSABits /\ 0 < RN (RsaKey i);
  rsa_exponent : 3 <= RE (RsaKey i) < 2 ^ 32 /\ Z.rem (RE (RsaKey i)) 2 <> 0;
  pairs : key_pair (KeyEC (EcKey i)) = true /\ key_pair (KeyRSA (RsaKey i)) = true;
  kids : EcKid i <> "" /\ RsaKid i <> "" /\ EcKid i <> RsaKid i /\
    is_ascii (EcKid i) = true /\ is_ascii (RsaKid i) = true;
  address : URL i <> "" /\ TrimSlash (URL i) = URL i /\
    is_ascii (URL i) = true /\ is_ascii (IssuerJWKSURL i) = true /\
    secure false (URL i) /\ secure false (IssuerJWKSURL i);
  up : Closed i = false /\ Offline i = false /\ DiscoveryIssuer i = None;
  extras : Forall (fun raw => exists j, jwk_read raw = Some j /\ is_ok (parse j) = false) (ExtraKeys i);
  short : forall url b d i', GET url i = (Body b, d, i') -> strlen b <= maxJWKSBytes }.

Definition ec_published (i : issuer) : parsedKey :=
  mkParsed (ECDSAPublicKey "P-256" (EX (EcKey i)) (EY (EcKey i))) "ES256".
Definition rsa_published (i : issuer) : parsedKey :=
  mkParsed (RSAPublicKey (RN (RsaKey i)) (RE (RsaKey i))) "RS256".

Definition keyset (i : issuer) : gmap string parsedKey :=
  <[RsaKid i := rsa_published i]> {[EcKid i := ec_published i]}.

Lemma literal_lookup_ascii (l : list (string * string)) :
  Forall (fun p => is_ascii p.1 = true /\ is_ascii p.2 = true) l -> ascii_map (literal l).
Proof.
  intros Hl. unfold literal. apply Forall_reverse in Hl.
  induction Hl as [|[k v] r Hp Hr IH]; [apply map_Forall_empty|].
  cbn. by apply map_Forall_insert_2.
Qed.

Lemma ecJWK_ascii key kid : is_ascii kid = true -> ascii_map (ecJWK key kid).
Proof.
  intros Hk. apply literal_lookup_ascii. repeat constructor; try done; apply EncodeToString_ascii.
Qed.

Lemma rsaJWK_ascii key kid : is_ascii kid = true -> ascii_map (rsaJWK key kid).
Proof.
  intros Hk. apply literal_lookup_ascii. repeat constructor; try done; apply EncodeToString_ascii.
Qed.

Lemma jwk_of_ec key kid :
  jwk_of (ecJWK key kid) = mkJwk "EC" kid "sig" "ES256" "" "" "P-256"
    (EncodeToString (FillBytes (EX key) 32)) (EncodeToString (FillBytes (EY key) 32)).
Proof. reflexivity. Qed.

Lemma jwk_of_rsa key kid :
  jwk_of (rsaJWK key kid) = mkJwk "RSA" kid "sig" "RS256"
    (EncodeToString (Bytes (RN key))) (EncodeToString (Bytes (RE key))) "" "" "".
Proof. reflexivity. Qed.

Lemma b64_coordinate z : b64 (EncodeToString (FillBytes z 32)) = Ok (FillBytes z 32).
Proof. apply b64_EncodeToString, nonempty_strlen. by rewrite strlen_FillBytes. Qed.

Lemma b64_Bytes z : 0 < z -> b64 (EncodeToString (Bytes z)) = Ok (Bytes z).
Proof.
  intros Hz. apply b64_EncodeToString, nonempty_strlen. rewrite strlen_Bytes by done.
  destruct (BitLen_bounds z Hz) as [Hb _].
  pose proof (Z.div_le_mono 8 (BitLen z + 7) 8 ltac:(lia) ltac:(lia)). change (8 / 8) with 1 in *. lia.
Qed.

Lemma parse_ec key kid :
  0 <= EX key < 2 ^ 256 -> 0 <= EY key < 2 ^ 256 ->
  ecdh_NewPublicKey "P-256" (String (of_byte 4) (FillBytes (EX key) 32 +:+ FillBytes (EY key) 32)) = None ->
  parse (jwk_of (ecJWK key kid)) = Ok (ECDSAPublicKey "P-256" (EX key) (EY key)).
Proof.
  intros Hx Hy Hc. rewrite jwk_of_ec.
  match goal with |- parse ?j = _ => change (parse j) with (parseEC j) end.
  unfold parseEC. cbn [Crv X Y]. change (curveSize "P-256") with (Some 32). cbv iota.
  rewrite !b64_coordinate. cbn [mapErr mbind result_bind]. rewrite !strlen_FillBytes, Hc.
  assert (256 ^ Z.of_nat 32 = 2 ^ 256) as E by reflexivity.
  rewrite !SetBytes_FillBytes by (by rewrite E). reflexivity.
Qed.

Lemma parseRSA_weigh key kid :
  0 < RN key -> 3 <= RE key < 2 ^ 32 -> Z.rem (RE key) 2 <> 0 ->
  parse (jwk_of (rsaJWK key kid)) =
    if (BitLen (RN key) <? minRSABits) || (BitLen (RN key) >? maxRSABits)
    then Err (EFmt [PStr "modulus is "; PInt (BitLen (RN key)); PStr " bits, want between ";
                    PInt minRSABits; PStr " and "; PInt maxRSABits])
    else Ok (RSAPublicKey (RN key) (RE key)).
Proof.
  intros Hn He Hodd. rewrite jwk_of_rsa.
  match goal with |- parse ?j = _ => change (parse j) with (parseRSA j) end.
  unfold parseRSA. cbn [N E].
  assert (0 < RE key) as He0 by lia.
  rewrite !b64_Bytes by done. cbn [mapErr mbind result_bind].
  rewrite !SetBytes_Bytes, strlen_Bytes by done.
  assert (2 <= BitLen (RE key) <= 32) as Hb.
  { unfold BitLen. destruct (RE key =? 0) eqn:E0; to_prop; [lia|]. rewrite Z.abs_eq by lia.
    pose proof (Z.log2_le_mono 2 (RE key)) as Hl. pose proof (Z.log2_lt_pow2 (RE key) 32 He0) as Hu.
    change (Z.log2 2) with 1 in Hl. lia. }
  assert (1 <= (BitLen (RE key) + 7) / 8 <= 4) as Hlen.
  { split; [apply (Z.div_le_mono 9 _ 8)|apply (Z.div_le_mono _ 39 8)]; lia. }
  set (len := (BitLen (RE key) + 7) / 8) in *.
  rewrite (proj2 (Z.eqb_neq len 0)), Z.gtb_ltb, (proj2 (Z.ltb_ge 8 len)) by lia.
  cbn [orb]. change (2 ^ 32) with 4294967296 in He. rewrite bool_decide_true by (width_simpl; lia).
  change (2 ^ 32 - 1) with 4294967295. rewrite (Z.gtb_ltb (RE key)).
  rewrite (proj2 (Z.ltb_ge 4294967295 (RE key))), (proj2 (Z.leb_gt (RN key) 0)),
    (proj2 (Z.ltb_ge (RE key) 3)), (proj2 (Z.eqb_neq _ 0)) by lia.
  reflexivity.
Qed.

(** ** Serving it *)

Lemma LimitReader_id n b : strlen b <= n -> LimitReader n b = b.
Proof.
  revert n. induction b as [|c r IH]; intros n Hn; [done|]. cbn.
  unfold strlen in *. cbn in Hn. rewrite (proj2 (Z.leb_gt n 0)) by lia. by rewrite IH by lia.
Qed.

Lemma paths_differ i : (IssuerJWKSURL i =? SrvURL i +:+ "/.well-known/openid-configuration")%string = false.
Proof. apply String.eqb_neq. unfold IssuerJWKSURL. by intros ?%(inj (String.append _)). Qed.

Lemma collect_refused l out :
  Forall (fun j => is_ok (parse j) = false) l -> collect l out = out.
Proof. induction 1 as [|j l Hj _ IH]; [done|]. cbn. by destruct (parse j). Qed.

Lemma collect_keys i js :
  fit i -> Forall (fun j => is_ok (parse j) = false) js ->
  collect (jwk_of (ecJWK (EcKey i) (EcKid i)) :: jwk_of (rsaJWK (RsaKey i) (RsaKid i)) :: js) ∅ = keyset i.
Proof.
  intros [[? ?] ? [? ?] [? ?] _ (? & ? & _) _ _ _ _] Hjs. cbn [collect].
  rewrite parse_ec, parseRSA_weigh by done.
  rewrite (proj2 (Z.ltb_ge _ _)), Z.gtb_ltb, (proj2 (Z.ltb_ge _ _)) by lia. cbn [orb].
  change (Kid (jwk_of (ecJWK (EcKey i) (EcKid i)))) with (EcKid i).
  change (Kid (jwk_of (rsaJWK (RsaKey i) (RsaKid i)))) with (RsaKid i).
  rewrite !(proj2 (String.eqb_neq _ _)) by done. rewrite collect_refused by done. reflexivity.
Qed.

Lemma jwks_served i :
  fit i -> exists b d, GET (IssuerJWKSURL i) i = (Body b, d, count_fetch i) /\ 0 <= d /\ fetch (Body b) = Ok (keyset i).
Proof.
  intros Hfit. pose proof Hfit as [_ _ _ _ _ (_ & _ & _ & Hek & Hrk) _ (Hcl & Hoff & _) Hex Hshort].
  destruct (marshal_map _ (ecJWK_ascii (EcKey i) _ Hek)) as [ec Hec].
  destruct (marshal_map _ (rsaJWK_ascii (RsaKey i) _ Hrk)) as [rsa Hrsa].
  assert (exists js, mapM jwk_read (ExtraKeys i) = Some js /\
                     Forall (fun j => is_ok (parse j) = false) js) as (js & Hjs & Hbad).
  { clear Hec Hrsa Hshort. induction Hex as [|raw r (j & Hj & Hp) _ (js & IH & Hall)]; [by exists []|].
    exists (j :: js). cbn. rewrite Hj. cbn. rewrite IH. auto. }
  destruct (read_keys ([ec; rsa] ++ ExtraKeys i)
    (jwk_of (ecJWK (EcKey i) (EcKid i)) :: jwk_of (rsaJWK (RsaKey i) (RsaKid i)) :: js)) as (b & Hb & Hback).
  { cbn. rewrite (read_jwk _ _ (ecJWK_ascii _ _ Hek) Hec), (read_jwk _ _ (rsaJWK_ascii _ _ Hrk) Hrsa).
    cbn. by rewrite Hjs. }
  assert (GET (IssuerJWKSURL i) i =
    (Body (b +:+ NL), if JwksDelay i >? 0 then JwksDelay i else 0, count_fetch i)) as Hget.
  { unfold GET. rewrite Hcl, paths_differ. unfold IssuerJWKSURL at 1. rewrite String.eqb_refl.
    unfold guard. rewrite Hoff. unfold handleJWKS, mustJSON.
    cbn [EcKey EcKid RsaKey RsaKid ExtraKeys JwksDelay count_fetch]. rewrite Hec, Hrsa.
    cbn [mapErr mbind result_bind]. by rewrite Hb. }
  eexists _, _. split; [exact Hget|]. split; [destruct (_ >? _) eqn:E; [rewrite Z.gtb_lt in E|]; lia|].
  apply Hshort in Hget. cbn [fetch]. rewrite LimitReader_id, Hback by done.
  cbn [mapErr mbind result_bind]. by rewrite collect_keys.
Qed.

Lemma discovery_served i :
  fit i -> exists b, GET (SrvURL i +:+ "/.well-known/openid-configuration") i = (Body b, 0, i) /\ strlen b <= maxJWKSBytes /\ json_discovery b = Ok (mkDiscovery (URL i) (IssuerJWKSURL i)).
Proof.
  intros [_ _ _ _ _ _ (_ & _ & Hu & Hj & _) (Hcl & Hoff & Hd) _ Hshort].
  set (m := literal [("issuer", URL i); ("jwks_uri", IssuerJWKSURL i)]).
  assert (ascii_map m) as Hm by (apply literal_lookup_ascii; repeat constructor; done).
  destruct (marshal_map m Hm) as [b Hb].
  assert (GET (SrvURL i +:+ "/.well-known/openid-configuration") i = (Body (b +:+ NL), 0, i)) as Hget.
  { unfold GET. rewrite Hcl, String.eqb_refl. unfold guard. rewrite Hoff. unfold handleDiscovery.
    rewrite Hd. fold m. by rewrite Hb. }
  exists (b +:+ NL). split; [exact Hget|]. split; [by apply Hshort in Hget|].
  rewrite (read_discovery m b Hm Hb). reflexivity.
Qed.

(** * A verifier and an issuer *)

(** Whether [Verify] asks for the key set, given the answer to its discovery request. *)
Definition asks (now : Z) (ad : http_answer) (raw : string) (v : OIDCVerifier) : bool :=
  negb (TrimSpace raw =? "")%string &&
  match keySet now ad v with
  | ((Some c, None), v) =>
      match jwt_header (verifyOpts (Opts v)) raw with
      | Ok h => negb (HKid h =? "")%string && contacts now (HKid h) c
      | Err _ => false
      end
  | _ => false
  end.

(** The issuer's answer to the discovery request of [v]. *)
Definition discovery_answer (v : OIDCVerifier) (i : issuer) : http_answer :=
  (GET (TrimSlash (IssuerURL (Opts v)) +:+ "/.well-known/openid-configuration") i).1.1.

(** One [Verify], its requests answered by the issuer. *)
Definition exchange (now : Z) (raw : string) (v : OIDCVerifier) (i : issuer)
    : result Principal * OIDCVerifier * issuer :=
  let ad := discovery_answer v i in
  let url := match (keySet now ad v).1 with (Some c, _) => Url c | _ => "" end in
  let '(aj, d, i') := GET url i in
  let '(r, v') := Verify now (now + d) ad aj raw v in
  (r, v', if asks now ad raw v then i' else i).

(** The verifier is configured for this issuer and any cache it holds is of its keys. *)
Definition trusts (v : OIDCVerifier) (i : issuer) : Prop :=
  verifier_ok v /\ IssuerURL (Opts v) = URL i /\
  (JWKSURL (Opts v) = "" \/ JWKSURL (Opts v) = IssuerJWKSURL i) /\
  forall c, VKeys v = Some c -> Url c = IssuerJWKSURL i.

(** What the verifier holds for [kid] is current, or it will fetch before it decides. *)
Definition in_sync (now : Z) (kid : string) (c : keyCache) (i : issuer) : Prop :=
  Keys c !! kid = keyset i !! kid \/
  limited now c = false /\ (Keys c !! kid = None \/ fresh now c = false).

(** Discovery is not inside its own rate-limit window. *)
Definition may_discover (now : Z) (v : OIDCVerifier) : bool :=
  negb ((MinRefresh (Opts v) >? 0) &&
        match LastDiscovery v with Some t => now - t <? MinRefresh (Opts v) | None => false end).

Definition ready (now : Z) (kid : string) (v : OIDCVerifier) (i : issuer) : Prop :=
  match VKeys v with
  | Some c => in_sync now kid c i
  | None => may_discover now v = true
  end.

(** A token this issuer minted: signed with the private half of the key it publishes under the
    token's key id, by the algorithm it publishes that key for. *)
Definition genuine (i : issuer) (m : string) (k : signingKey) (kid : string) : bool :=
  match keyset i !! kid with
  | Some pk => (PAlg pk =? m)%string && (key_pair k && key_matches k (PKey pk))
  | None => false
  end.

Lemma secure_mono b raw : secure false raw -> secure b raw.
Proof. intros (u & ? & [?|[? [?|?]]]); exists u; try done; auto. Qed.

Lemma keySet_served now v i :
  fit i -> trusts v i -> (VKeys v = None -> may_discover now v = true) ->
  exists c v', keySet now (discovery_answer v i) v = ((Some c, None), v') /\ Url c = IssuerJWKSURL i /\ Opts v' = Opts v /\
    match VKeys v with
    | Some c0 => c = c0
    | None => c = newKeyCache (IssuerJWKSURL i) (MinRefresh (Opts v)) (MaxKeyAge (Opts v))
    end.
Proof.
  intros Hfit (_ & Hiss & Hj & Hc) Hnone. pose proof Hfit as [_ _ _ _ _ _ (Hne & Hts & _ & _ & _ & Hsec) _ _ _].
  unfold keySet. destruct (VKeys v) as [c|]; [by exists c, v; auto|].
  destruct (JWKSURL (Opts v) =? "")%string eqn:E; to_prop; cbn [negb].
  2:{ destruct Hj as [?|Hj]; [done|]. rewrite Hj. by eexists _, _. }
  rewrite (proj1 (negb_true_iff _) (Hnone eq_refl)). destruct (discovery_served i Hfit) as (b & Hget & Hlen & Hdoc).
  assert (discovery_answer v i = Body b) as ->
    by (unfold discovery_answer; rewrite Hiss, Hts; unfold URL; by rewrite Hget).
  assert (discover (Opts v) (Body b) = Ok (IssuerJWKSURL i)) as ->; [|by eexists _, _].
  cbn [discover]. rewrite LimitReader_id, Hdoc by done. cbn [mapErr mbind result_bind Issuer JWKSURI].
  rewrite (proj2 (String.eqb_eq _ _) (eq_sym Hiss)). cbn [negb].
  destruct (IssuerJWKSURL i =? "")%string eqn:E2; to_prop.
  { destruct Hsec as (u & _). exfalso. unfold IssuerJWKSURL in E2. by destruct (SrvURL i). }
  rewrite (proj2 (requireSecureURL_Ok _ _ _)); [done|]. right. by apply secure_mono.
Qed.

Lemma keyset_size i : size (keyset i) <> 0%nat.
Proof. unfold keyset. by rewrite map_size_non_empty_iff; apply insert_non_empty. Qed.

(** Whatever the cache holds, the key it answers with is the issuer's current one. *)
Lemma keyFor_synced now later a kid c i :
  in_sync now kid c i -> fetch a = Ok (keyset i) ->
  match keyset i !! kid with
  | Some pk => (keyFor now later a kid c).1 = Ok pk
  | None => is_ok (keyFor now later a kid c).1 = false
  end.
Proof.
  intros Hsync Hf. pose proof (keyFor_table now later a kid c) as Ht.
  assert (fetched a = Some (keyset i)) as Hfe.
  { unfold fetched. rewrite Hf. rewrite bool_decide_false; [done|apply keyset_size]. }
  rewrite Hfe in Ht. destruct (keyFor now later a kid c) as [r c']. cbn [fst].
  destruct Hsync as [Heq|[Hl Hmiss]].
  - rewrite Heq in Ht. destruct (keyset i !! kid) as [pk|] eqn:E.
    + destruct (fresh now c); [by destruct Ht|]. destruct (limited now c); [done|]. by rewrite E in Ht.
    + destruct (limited now c); [done|]. by rewrite E in Ht.
  - rewrite Hl in Ht. destruct Hmiss as [Hm|Hm].
    + rewrite Hm in Ht. by destruct (keyset i !! kid).
    + rewrite Hm in Ht. destruct (Keys c !! kid); by destruct (keyset i !! kid).
Qed.

Lemma keyset_lookup i kid pk :
  keyset i !! kid = Some pk ->
  pk = rsa_published i /\ kid = RsaKid i \/ pk = ec_published i /\ kid = EcKid i.
Proof.
  unfold keyset. rewrite lookup_insert. case_decide as Hk; [intros [= <-]; auto|].
  rewrite lookup_singleton_Some. intros [<- <-]. auto.
Qed.

(** The key function settles on the issuer's key exactly when the algorithms agree. *)
Lemma keyFunc_synced now later a m kid c i :
  fit i -> in_sync now kid c i -> fetch a = Ok (keyset i) ->
  match keyset i !! kid with
  | Some pk => if (PAlg pk =? m)%string
               then (keyFunc now later a (mkHeader kid m) c).1 = Ok (PKey pk)
               else is_ok (keyFunc now later a (mkHeader kid m) c).1 = false
  | None => is_ok (keyFunc now later a (mkHeader kid m) c).1 = false
  end.
Proof.
  intros Hfit Hsync Hf. pose proof (keyFor_synced now later a kid c i Hsync Hf) as Hk.
  destruct (kids i Hfit) as (Hek & Hrk & _). unfold keyFunc. cbn [HKid HAlg].
  destruct (kid =? "")%string eqn:Ek; to_prop.
  { subst kid. destruct (keyset i !! "") as [pk|] eqn:E; [|done].
    by apply keyset_lookup in E as [[_ ?]|[_ ?]]. }
  destruct (keyFor now later a kid c) as [found c']. cbn [fst] in *.
  destruct (keyset i !! kid) as [pk|] eqn:E; [subst found|by destruct found].
  cbn [mbind result_bind]. destruct (PAlg pk =? m)%string eqn:Em; to_prop.
  - subst m. rewrite andb_false_r. by apply keyset_lookup in E as [[-> _]|[-> _]].
  - assert (PAlg pk <> "") as Hne by (by apply keyset_lookup in E as [[-> _]|[-> _]]).
    by rewrite (proj2 (String.eqb_neq _ _) Hne).
Qed.

(** [Verify] against the issuer, once its key cache is known. *)
Lemma exchange_unfold now raw v i c v1 :
  fit i -> TrimSpace raw <> "" ->
  keySet now (discovery_answer v i) v = ((Some c, None), v1) -> Url c = IssuerJWKSURL i ->
  exists later a, fetch a = Ok (keyset i) /\ (exchange now raw v i).2 =
      (if asks now (discovery_answer v i) raw v then count_fetch i else i) /\
    (exchange now raw v i).1 =
      let po := verifyOpts (Opts v1) in
      match jwt_header po raw with
      | Err err => (Err (invalid err), v1)
      | Ok h =>
          let '(key, c) := keyFunc now later a h c in
          let v := mkVerifier (Opts v1) (LastDiscovery v1) (Some c) (DiscoverErr v1) in
          (claims ← mapErr invalid (key ≫= jwt_claims po raw);
           principalFrom (OClaims (Opts v)) claims, v)
      end.
Proof.
  intros Hfit Hraw Hks Hu. destruct (jwks_served i Hfit) as (b & d & Hget & _ & Hf).
  exists (now + d), (Body b). split; [done|]. unfold exchange.
  rewrite Hks. cbn [fst]. rewrite Hu, Hget.
  unfold Verify. rewrite (proj2 (String.eqb_neq _ _) Hraw), Hks.
  destruct (jwt_header _ raw) as [h|err]; [|done]. by destruct (keyFunc _ _ _ h c).
Qed.

Lemma ready_in_sync now kid v i c :
  ready now kid v i ->
  match VKeys v with
  | Some c0 => c = c0
  | None => c = newKeyCache (IssuerJWKSURL i) (MinRefresh (Opts v)) (MaxKeyAge (Opts v))
  end -> in_sync now kid c i.
Proof.
  unfold ready. destruct (VKeys v) as [c0|]; [by intros ? ->|]. intros _ ->.
  right. split; [apply andb_false_r|]. left. apply lookup_empty.
Qed.

Lemma exchange_trusts now raw v i :
  fit i -> trusts v i -> (VKeys v = None -> may_discover now v = true) -> TrimSpace raw <> "" ->
  trusts (exchange now raw v i).1.2 (exchange now raw v i).2 /\ Opts (exchange now raw v i).1.2 = Opts v /\
  (is_ok (exchange now raw v i).1.1 = true \/
   exists e, (exchange now raw v i).1.1 = Err e /\ errIs ErrInvalidToken e = true).
Proof.
  intros Hfit Htrust Hnone Hraw. pose proof Htrust as (Hok & Hiss & Hj & _).
  destruct (keySet_served now v i Hfit Htrust Hnone) as (c & v1 & Hks & Hu & Ho & _).
  pose proof (keySet_ok now (discovery_answer v i) v Hok) as Hv1. rewrite Hks in Hv1. destruct Hv1 as (Hok1 & _ & Hc1).
  destruct (exchange_unfold now raw v i c v1 Hfit Hraw Hks Hu) as (later & a & _ & Hi & Hr).
  destruct (keys_ok v1 Hok1 c Hc1) as [Hck Hsec].
  destruct (exchange now raw v i) as [[r v'] i']. cbn [fst snd] in *.
  assert (trusts v' i /\ Opts v' = Opts v /\
    (is_ok r = true \/ exists e, r = Err e /\ errIs ErrInvalidToken e = true)) as (Ht & Ho' & Hres).
  2:{ split_ands; try done. rewrite Hi. by destruct (asks _ _ _ _). }
  cbv zeta in Hr. destruct (jwt_header _ raw) as [h|err] eqn:Eh.
  - pose proof (keyFunc_ok now later a h c Hck) as Hf. destruct (keyFunc now later a h c) as [key c1].
    destruct Hf as (Hc1' & Hu1 & _). injection Hr as -> ->. cbn [Opts VKeys].
    rewrite <- Hu1 in Hsec. pose proof (set_keys_ok v1 c1 Hok1 Hc1' Hsec) as Hset.
    split; [|split; [done|]].
    + split; [done|]. cbn [Opts VKeys]. rewrite Ho. split_ands; try done. intros ? [= <-]. congruence.
    + destruct (mapErr invalid _) as [claims|e] eqn:Em; cbn.
      * destruct (principalFrom _ claims) eqn:Ep; [by left|right; eauto using principalFrom_invalid].
      * apply mapErr_Err in Em as (e' & _ & ->). right. eexists. split; [done|]. auto with go.
  - injection Hr as -> ->. split; [|split; [done|right; eexists; split; [done|auto with go]]].
    split; [done|]. rewrite Ho. split_ands; try done. intros c' Hc'. congruence.
Qed.

Lemma exchange_outcome now m k kid c raw v i :
  fit i -> trusts v i -> ready now kid v i ->
  jwt_SignedString m k kid c = Ok raw -> is_ascii kid = true -> plain c ->
  if genuine i m k kid && claims_valid clock (verifyOpts (Opts v)) c
  then (exchange now raw v i).1.1 = principalFrom (OClaims (Opts v)) (decoded c)
  else is_ok (exchange now raw v i).1.1 = false.
Proof.
  intros Hfit Htrust Hready Hraw Hkid Hplain.
  assert (VKeys v = None -> may_discover now v = true) as Hnone
    by (unfold ready in Hready; by destruct (VKeys v)).
  destruct (keySet_served now v i Hfit Htrust Hnone) as (c0 & v1 & Hks & Hu & Ho & Hc).
  pose proof (ready_in_sync _ _ _ _ _ Hready Hc) as Hsync.
  destruct (exchange_unfold now raw v i c0 v1 Hfit (token_visible _ _ _ _ _ Hraw) Hks Hu)
    as (later & a & Hf & _ & Hr). rewrite Hr. rewrite Ho. cbv zeta.
  pose proof (token_header m k kid c raw (verifyOpts (Opts v)) Hraw Hkid Hplain) as Hh.
  pose proof (keyFunc_synced now later a m kid c0 i Hfit Hsync Hf) as Hkey. unfold genuine.
  destruct (bool_decide (m ∈ ValidMethods _)) eqn:Em.
  - rewrite Hh. destruct (keyFunc now later a (mkHeader kid m) c0) as [key c1]. cbn [fst] in *.
    destruct (keyset i !! kid) as [pk|]; [|cbn; by destruct key].
    destruct (PAlg pk =? m)%string; [|cbn; by destruct key]. subst key. cbn [andb].
    pose proof (token_claims m k kid c raw (verifyOpts (Opts v)) (PKey pk) Hraw Hkid Hplain) as Hcl.
    cbn [mbind result_bind].
    destruct (key_pair k && key_matches k (PKey pk) && _); [by rewrite Hcl|].
    by destruct (jwt_claims _ raw (PKey pk)).
  - assert ((match keyset i !! kid with
             | Some pk => (PAlg pk =? m)%string && (key_pair k && key_matches k (PKey pk))
             | None => false end) = false) as ->.
    { destruct (keyset i !! kid) as [pk|] eqn:E; [|done].
      destruct (PAlg pk =? m)%string eqn:Ea; [|done]. to_prop. subst m. exfalso. apply Em.
      cbn. apply keyset_lookup in E as [[-> _]|[-> _]]; cbn; set_solver. }
    cbn [andb]. by destruct (jwt_header _ raw).
Qed.

(** C36. A verifier settles the tokens of an issuer exactly, when the issuer is up and its own
    keys are fit to verify with ([fit]), the verifier is configured for it ([trusts]), and it is
    [ready]: what its cache holds for the token's key id is what the issuer publishes now, or it
    may fetch before it decides (a cache that is out of date or rate limited can still take a
    key rotated out, or refuse a genuine token).  Then, whatever the method, the key and the
    claims, as long as the key id and the strings are ASCII and the integers fit 53 bits
    ([plain]), a signed token is accepted with the principal its claims describe if it was
    signed with the private half of the key published under that id, for the algorithm it is
    published for, and its claims are in date and meant for this service; otherwise it is
    refused with [ErrInvalidToken]. *)
Theorem verifier_settles now m k kid c raw v i :
  fit i -> trusts v i -> ready now kid v i ->
  jwt_SignedString m k kid c = Ok raw -> is_ascii kid = true -> plain c ->
  let '(r, v', i') := exchange now raw v i in
  trusts v' i' /\
  if genuine i m k kid && claims_valid clock (verifyOpts (Opts v)) c
  then r = principalFrom (OClaims (Opts v)) (decoded c)
  else exists e, r = Err e /\ errIs ErrInvalidToken e = true.
Proof.
  intros Hfit Htrust Hready Hraw Hkid Hplain.
  pose proof (exchange_outcome now m k kid c raw v i Hfit Htrust Hready Hraw Hkid Hplain) as Hout.
  destruct (exchange_trusts now raw v i Hfit Htrust) as (Ht & _ & Hres).
  { unfold ready in Hready. by destruct (VKeys v). }
  { by apply (token_visible _ _ _ _ _ Hraw). }
  destruct (exchange now raw v i) as [[r v'] i']. cbn [fst snd] in *. split; [done|].
  destruct (genuine i m k kid && _); [done|]. destruct Hres as [Hres|?]; [congruence|done].
Qed.

(** An outage is refused and forgotten: while every endpoint answers 503 a verifier that holds
    no keys accepts nothing, and once the issuer is back and the retry window has passed it
    settles tokens as if nothing had happened. *)
Lemma outage_recovers now now' m k kid c raw v i :
  fit i -> trusts v i -> VKeys v = None -> JWKSURL (Opts v) = "" -> may_discover now v = true ->
  now + MinRefresh (Opts v) <= now' ->
  jwt_SignedString m k kid c = Ok raw -> is_ascii kid = true -> plain c ->
  let '(r, v1, i1) := exchange now raw v (SetOffline true i) in
  is_ok r = false /\ i1 = SetOffline true i /\
  if genuine i m k kid && claims_valid clock (verifyOpts (Opts v)) c
  then (exchange now' raw v1 i).1.1 = principalFrom (OClaims (Opts v)) (decoded c)
  else is_ok (exchange now' raw v1 i).1.1 = false.
Proof.
  intros Hfit Htrust Hnone Hj Hmay Hlater Hraw Hkid Hplain.
  destruct Htrust as (Hok & Hiss & _ & _). apply negb_true_iff in Hmay.
  assert (exists e, keySet now (discovery_answer v (SetOffline true i)) v =
    ((None, Some e), mkVerifier (Opts v) (Some now) None (Some e))) as [e Hks].
  { unfold keySet. rewrite Hnone, Hj. cbn [negb String.eqb]. rewrite Hmay.
    unfold discovery_answer. destruct (address i Hfit) as (_ & Hts & _). rewrite Hiss, Hts.
    unfold GET. cbn [Closed SetOffline SrvURL]. destruct (up i Hfit) as (-> & _).
    unfold URL. rewrite String.eqb_refl. unfold guard. cbn [Offline SetOffline fst discover]. by eexists. }
  pose proof (keySet_ok now (discovery_answer v (SetOffline true i)) v Hok) as Hok1.
  rewrite Hks in Hok1. destruct Hok1 as (Hok1 & _ & _).
  unfold exchange at 1. rewrite Hks. destruct (GET _ _) as [[aj d] i']. unfold asks, Verify.
  rewrite Hks, (proj2 (String.eqb_neq _ _) (token_visible _ _ _ _ _ Hraw)). cbn [negb andb].
  split; [done|]. split; [done|].
  apply (exchange_outcome now' m k kid c raw (mkVerifier (Opts v) (Some now) None (Some e)) i); try done.
  - split; [done|]. split; [done|]. split; [by left|done].
  - unfold ready, may_discover. cbn [VKeys Opts LastDiscovery].
    rewrite (proj2 (Z.ltb_ge (now' - now) _)) by lia. by rewrite andb_false_r.
Qed.

(** * The toolkit, token by token *)

(** The settings the tests share: an issuer as [New] leaves its seeds, and a verifier for it
    that forgives less than an hour. *)
Definition standard (v : OIDCVerifier) (i : issuer) : Prop :=
  ITenantClaim i = "tenant_id" /\ IScopeClaim i = "scope" /\ IAudience i = "orderd" /\
  Audience (Opts v) = "orderd" /\ OClaims (Opts v) = mkClaimOptions "tenant_id" "scope" "" /\
  0 <= Leeway (Opts v) <= Hour - 2 * Minute /\ URL i <> "https://evil.example.com".

(** Everything the tests ask the issuer to mint that must not be accepted. *)
Definition hostile (t : Z) (weak : rsaKey) (kid secret : string) (i : issuer) : list (result string) :=
  let dc := DefaultClaims t i in
  [SignNone dc i; SignHS256WithRSAPublicKey dc i; SignPS256 dc i; SignWithKid kid dc i;
   SignHMAC kid secret dc i; SignRSAWith weak kid dc i;
   Sign (<["exp" := CInt (Unix (t + - Hour))]> dc) i; Sign (delete "exp" dc) i;
   Sign (<["nbf" := CInt (Unix (t + Hour))]> dc) i;
   Sign (<["aud" := CStr "some-other-service"]> dc) i;
   Sign (<["iss" := CStr "https://evil.example.com"]> dc) i;
   Sign (delete "sub" dc) i; Sign (delete (ITenantClaim i) dc) i].

Lemma sign_Ok m k kid c raw : sign m k kid c = Ok raw <-> jwt_SignedString m k kid c = Ok raw.
Proof. apply mapErr_Ok. Qed.

Lemma plain_insert name cl c :
  is_ascii name = true -> match cl with CStr s => is_ascii s = true | CInt z => Z.abs z < 2 ^ 53 end ->
  plain c -> plain (<[name := cl]> c).
Proof. intros ?? Hc. by apply map_Forall_insert_2. Qed.

Lemma plain_delete name c : plain c -> plain (delete name c).
Proof. apply map_Forall_delete. Qed.

Lemma Unix_small t : 0 <= t + Hour < 2 ^ 63 -> Z.abs (Unix t) < 2 ^ 53.
Proof.
  unfold Unix, Hour, Minute, Second. intros Ht. apply Z.abs_lt.
  pose proof (Z.div_mod t 1000000000 ltac:(lia)). pose proof (Z.mod_pos_bound t 1000000000).
  change (2 ^ 63) with 9223372036854775808 in Ht. change (2 ^ 53) with 9007199254740992. lia.
Qed.

Lemma plain_default t v i :
  fit i -> standard v i -> 0 <= t < 2 ^ 62 -> plain (DefaultClaims t i).
Proof.
  intros Hfit (Ht & Hs & Ha & _) Hb. unfold DefaultClaims. rewrite Ht, Hs, Ha.
  destruct (address i Hfit) as (_ & _ & Hu & _).
  assert (Z.abs (Unix t) < 2 ^ 53 /\ Z.abs (Unix (t + Hour)) < 2 ^ 53 /\ Z.abs (Unix (t + - Minute)) < 2 ^ 53)
    as (Hu1 & Hu2 & Hu3).
  { change (2 ^ 62) with 4611686018427387904 in Hb.
    split_ands; apply Unix_small; change (2 ^ 63) with 9223372036854775808;
      unfold Hour, Minute, Second; lia. }
  unfold literal. cbn [reverse rev_append list_to_map foldr].
  repeat (apply plain_insert; [reflexivity|first [done|exact Hu]|]). apply map_Forall_empty.
Qed.

Definition default_principal : Principal :=
  mkPrincipal "user-123" "tenant-a" ["orders:read"; "orders:write"] false.

Lemma Unix_bounds t : t - Second < Unix t * Second <= t.
Proof.
  unfold Unix. pose proof (Z.div_mod t Second ltac:(done)).
  pose proof (Z.mod_pos_bound t Second ltac:(done)). lia.
Qed.

Ltac dates := unfold Hour, Minute, Second in *; lia.

Lemma Unix_live t : 0 <= t -> (Unix (t + Hour) =? 0) = false.
Proof. intros Ht. apply Z.eqb_neq. pose proof (Unix_bounds (t + Hour)). dates. Qed.

(** The default claims are valid and name the principal the tests expect; a claim the verifier
    reads, changed or removed, spoils them. *)
Section Defaults.
Context (t : Z) (v : OIDCVerifier) (i : issuer).
Context (Hfit : fit i) (Htrust : trusts v i) (Hstd : standard v i).
Context (Ht : 0 <= t < 2 ^ 62) (Hclock : t <= clock < t + Minute).

Abbreviation dc := (DefaultClaims t i).
Abbreviation valid c := (claims_valid clock (verifyOpts (Opts v)) c).

Lemma default_accepted :
  valid dc = true /\ principalFrom (OClaims (Opts v)) (decoded dc) = Ok default_principal.
Proof.
  destruct Htrust as (_ & Hiss & _). destruct Hstd as (Htc & Hsc & Ha & Haud & Hcl & Hlee & _).
  rewrite Hcl. unfold DefaultClaims. rewrite Htc, Hsc, Ha. split; [|reflexivity].
  unfold claims_valid. cbn [verifyOpts WithLeeway WithAudience WithIssuer ExpirationRequired].
  rewrite Haud, Hiss.
  match goal with |- context [literal ?l] => set (m := literal l) end.
  change (m !! "exp") with (Some (CInt (Unix (t + Hour)))).
  change (m !! "nbf") with (Some (CInt (Unix (t + - Minute)))).
  change (m !! "aud") with (Some (CStr "orderd")). change (m !! "iss") with (Some (CStr (URL i))).
  cbn beta iota. rewrite Unix_live by lia. rewrite !String.eqb_refl.
  pose proof (Unix_bounds (t + Hour)). pose proof (Unix_bounds (t + - Minute)).
  rewrite (proj2 (Z.ltb_lt clock _)), (proj2 (Z.leb_le _ clock)), orb_true_r by dates. done.
Qed.

Lemma expired_spoils : valid (<["exp" := CInt (Unix (t + - Hour))]> dc) = false.
Proof.
  destruct Hstd as (_ & _ & _ & _ & _ & Hlee & _). unfold claims_valid. rewrite (lookup_insert_eq (M:=gmap string)).
  cbn [verifyOpts WithLeeway ExpirationRequired negb]. destruct (_ =? 0); [done|].
  pose proof (Unix_bounds (t + - Hour)). rewrite (proj2 (Z.ltb_ge clock _)) by dates. done.
Qed.

Lemma no_expiry_spoils : valid (delete "exp" dc) = false.
Proof. unfold claims_valid. by rewrite (lookup_delete_eq (M:=gmap string)). Qed.

Lemma early_spoils : valid (<["nbf" := CInt (Unix (t + Hour))]> dc) = false.
Proof.
  destruct Hstd as (_ & _ & _ & _ & _ & Hlee & _). unfold claims_valid. rewrite (lookup_insert_eq (M:=gmap string)).
  cbn [verifyOpts WithLeeway]. rewrite Unix_live by lia. pose proof (Unix_bounds (t + Hour)).
  rewrite (proj2 (Z.leb_gt _ clock)) by dates. cbn [orb]. by rewrite andb_false_r.
Qed.

Lemma audience_spoils : valid (<["aud" := CStr "some-other-service"]> dc) = false.
Proof.
  destruct Hstd as (_ & _ & _ & Haud & _). unfold claims_valid.
  rewrite (lookup_insert_eq (M:=gmap string) _ "aud"). cbn [verifyOpts WithAudience]. rewrite Haud.
  change ("some-other-service" =? "orderd")%string with false. by rewrite andb_false_r.
Qed.

Lemma issuer_spoils : valid (<["iss" := CStr "https://evil.example.com"]> dc) = false.
Proof.
  destruct Htrust as (_ & Hiss & _). destruct Hstd as (_ & _ & _ & _ & _ & _ & Hevil).
  unfold claims_valid. rewrite (lookup_insert_eq (M:=gmap string) _ "iss"). cbn [verifyOpts WithIssuer].
  rewrite Hiss, (proj2 (String.eqb_neq _ _) (not_eq_sym Hevil)). by rewrite andb_false_r.
Qed.

Lemma no_subject_spoils : is_ok (principalFrom (OClaims (Opts v)) (decoded (delete "sub" dc))) = false.
Proof.
  destruct Hstd as (Htc & Hsc & Ha & _ & Hcl & _). rewrite Hcl. unfold DefaultClaims.
  rewrite Htc, Hsc, Ha. reflexivity.
Qed.

Lemma no_tenant_spoils :
  is_ok (principalFrom (OClaims (Opts v)) (decoded (delete (ITenantClaim i) dc))) = false.
Proof.
  destruct Hstd as (Htc & Hsc & Ha & _ & Hcl & _). rewrite Hcl. unfold DefaultClaims.
  rewrite Htc, Hsc, Ha. reflexivity.
Qed.
End Defaults.

(** A token the verifier must refuse: not the issuer's own, or not valid, or of nobody. *)
Definition unfit (v : OIDCVerifier) (i : issuer) (m : string) (k : signingKey) (kid : string)
    (c : Claims) : Prop :=
  is_ascii kid = true /\ plain c /\
  (genuine i m k kid = false \/ claims_valid clock (verifyOpts (Opts v)) c = false \/
   is_ok (principalFrom (OClaims (Opts v)) (decoded c)) = false).

Lemma unfit_refused now m k kid c raw v i :
  fit i -> trusts v i -> ready now kid v i -> jwt_SignedString m k kid c = Ok raw ->
  unfit v i m k kid c ->
  exists e, (exchange now raw v i).1.1 = Err e /\ errIs ErrInvalidToken e = true.
Proof.
  intros Hfit Htrust Hready Hraw (Hk & Hp & Hbad).
  pose proof (exchange_outcome now m k kid c raw v i Hfit Htrust Hready Hraw Hk Hp) as Hout.
  destruct (exchange_trusts now raw v i Hfit Htrust) as (_ & _ & [Hres|?]); [| |exfalso|done].
  { unfold ready in Hready. by destruct (VKeys v). }
  { by apply (token_visible _ _ _ _ _ Hraw). }
  destruct (genuine i m k kid && _) eqn:Eg; [|congruence]. rewrite Hout in Hres. to_prop.
  destruct Hbad as [?|[?|?]]; congruence.
Qed.

Lemma not_asymmetric m k kid i : (forall pub, key_matches k pub = false) -> genuine i m k kid = false.
Proof. intros Hk. unfold genuine. destruct (keyset i !! kid); [|done]. by rewrite Hk, !andb_false_r. Qed.

Lemma unpublished m k kid i : kid <> EcKid i -> kid <> RsaKid i -> genuine i m k kid = false.
Proof.
  intros He Hr. unfold genuine. destruct (keyset i !! kid) eqn:E; [|done].
  by apply keyset_lookup in E as [[_ ?]|[_ ?]].
Qed.

Lemma PS256_not_published k i : genuine i "PS256" k (RsaKid i) = false.
Proof. unfold genuine, keyset. by rewrite lookup_insert_eq. Qed.

Lemma sign_unfit m k kid c v i raw :
  sign m k kid c = Ok raw -> unfit v i m k kid c ->
  exists m k kid c, jwt_SignedString m k kid c = Ok raw /\ unfit v i m k kid c.
Proof. intros ?%sign_Ok ?. by exists m, k, kid, c. Qed.

Lemma hostile_unfit t weak kid secret v i raw :
  fit i -> trusts v i -> standard v i -> 0 <= t < 2 ^ 62 -> t <= clock < t + Minute ->
  is_ascii kid = true -> kid <> EcKid i -> kid <> RsaKid i ->
  Ok raw ∈ hostile t weak kid secret i ->
  exists m k kid c, jwt_SignedString m k kid c = Ok raw /\ unfit v i m k kid c.
Proof.
  intros Hfit Htrust Hstd Ht Hclock Hkid Hne Hnr Hin.
  pose proof (plain_default t v i Hfit Hstd Ht) as Hp.
  destruct (kids i Hfit) as (_ & _ & _ & He & Hr).
  assert (is_ascii (ITenantClaim i) = true) as Hten by (by destruct Hstd as (-> & _)).
  assert (forall d, 0 <= t + d + Hour < 2 ^ 63 -> Z.abs (Unix (t + d)) < 2 ^ 53) as Hdate
    by (intros d Hd; by apply Unix_small).
  assert (Z.abs (Unix (t + Hour)) < 2 ^ 53 /\ Z.abs (Unix (t + - Hour)) < 2 ^ 53) as [Hlate Hpast].
  { change (2 ^ 62) with 4611686018427387904 in Ht.
    split; apply Hdate; change (2 ^ 63) with 9223372036854775808; dates. }
  unfold hostile in Hin. cbv zeta in Hin. rewrite !elem_of_cons, elem_of_nil in Hin.
  destruct Hin as [Hx|[Hx|[Hx|[Hx|[Hx|[Hx|[Hx|[Hx|[Hx|[Hx|[Hx|[Hx|[Hx|[]]]]]]]]]]]]]]; symmetry in Hx.
  2:{ apply bind_Ok in Hx as (sec & _ & Hx). eapply sign_unfit; [exact Hx|].
      unfold unfit. split_ands; try done. left. by apply not_asymmetric. }
  all: (eapply sign_unfit; [exact Hx|]; unfold unfit; split_ands; try done;
        try (by apply plain_insert); try (by apply plain_delete)).
  - left. by apply not_asymmetric.
  - left. apply PS256_not_published.
  - left. by apply unpublished.
  - left. by apply not_asymmetric.
  - left. by apply unpublished.
  - right. left. by apply expired_spoils.
  - right. left. apply no_expiry_spoils.
  - right. left. by apply early_spoils.
  - right. left. by apply audience_spoils.
  - right. left. by apply issuer_spoils.
  - right. right. by apply no_subject_spoils.
  - right. right. by apply no_tenant_spoils.
Qed.

Lemma genuine_ec i : fit i -> genuine i "ES256" (KeyEC (EcKey i)) (EcKid i) = true.
Proof.
  intros Hfit. destruct (kids i Hfit) as (_ & _ & Hne & _). unfold genuine, keyset.
  rewrite lookup_insert_ne by done. rewrite lookup_singleton_eq. cbn -[key_pair].
  by rewrite (proj1 (pairs i Hfit)), !Z.eqb_refl.
Qed.

Lemma genuine_rsa i : fit i -> genuine i "RS256" (KeyRSA (RsaKey i)) (RsaKid i) = true.
Proof.
  intros Hfit. unfold genuine, keyset. rewrite lookup_insert_eq. cbn -[key_pair].
  by rewrite (proj2 (pairs i Hfit)), !Z.eqb_refl.
Qed.

(** The attacker's toolkit, settled: a fresh token of the issuer, signed with either of its
    keys, authenticates the principal its claims name, and every hostile token the tests mint --
    unsigned, MACed with the public key or a published secret, signed by another algorithm, an
    unknown or a weak key, expired, without expiry, from the future, for another audience or
    issuer, of no subject or no tenant -- is refused with [ErrInvalidToken]. *)
Theorem toolkit_settled now t weak kid secret v i :
  fit i -> trusts v i -> standard v i -> (forall kid, ready now kid v i) ->
  0 <= t < 2 ^ 62 -> t <= clock < t + Minute ->
  is_ascii kid = true -> kid <> EcKid i -> kid <> RsaKid i ->
  (exists es rs, Sign (DefaultClaims t i) i = Ok es /\ SignRSA (DefaultClaims t i) i = Ok rs /\
     (exchange now es v i).1.1 = Ok default_principal /\
     (exchange now rs v i).1.1 = Ok default_principal) /\
  forall raw, Ok raw ∈ hostile t weak kid secret i ->
    exists e, (exchange now raw v i).1.1 = Err e /\ errIs ErrInvalidToken e = true.
Proof.
  intros Hfit Htrust Hstd Hready Ht Hclock Hkid Hne Hnr. split.
  - pose proof (plain_default t v i Hfit Hstd Ht) as Hp.
    destruct (kids i Hfit) as (_ & _ & _ & He & Hr).
    destruct (default_accepted t v i Htrust Hstd Ht Hclock) as [Hvalid Hprin].
    destruct (signs "ES256" (KeyEC (EcKey i)) _ _ eq_refl He Hp) as [es Hes].
    destruct (signs "RS256" (KeyRSA (RsaKey i)) _ _ eq_refl Hr Hp) as [rs Hrs].
    exists es, rs. pose proof (exchange_outcome now _ _ _ _ _ v i Hfit Htrust (Hready _) Hes He Hp) as H1'.
    pose proof (exchange_outcome now _ _ _ _ _ v i Hfit Htrust (Hready _) Hrs Hr Hp) as H2'.
    rewrite genuine_ec, Hvalid in H1' by done. rewrite genuine_rsa, Hvalid in H2' by done.
    cbn [andb] in *. split_ands; try (by apply sign_Ok); congruence.
  - intros raw Hin.
    destruct (hostile_unfit t weak kid secret v i raw) as (m & k & kid' & c & Hraw & Hbad); try done.
    by apply (unfit_refused now m k kid' c raw v i Hfit Htrust (Hready _) Hraw).
Qed.

(** * Caching and rotation *)






End Issuer.

(** * A concrete provider *)

(** JSON documents and tokens are written as the numbers that encode their contents; the
    parser's clock stands at the minute the tokens were minted. *)
Section Demo.
#[local] Existing Instances ascii_tables.

#[local] Instance claim_eq_dec : EqDecision claim.
Proof. solve_decision. Defined.
#[local] Instance claim_countable : Countable claim.
Proof.
  apply (inj_countable' (fun c => match c with CStr s => inl s | CInt z => inr z end)
           (fun s => match s with inl s => CStr s | inr z => CInt z end)).
  by intros [].
Defined.
#[local] Instance signingKey_eq_dec : EqDecision signingKey.
Proof. solve_decision. Defined.
#[local] Instance signingKey_countable : Countable signingKey.
Proof.
  apply (inj_countable'
           (fun k => match k with
              | KeyEC k => inl (EX k, EY k, ED k) | KeyRSA k => inr (inl (RN k, RE k, RD k))
              | KeyBytes b => inr (inr (inl b)) | UnsafeAllowNoneSignatureType => inr (inr (inr tt)) end)
           (fun s => match s with
              | inl k => KeyEC (mkEcdsa k.1.1 k.1.2 k.2) | inr (inl k) => KeyRSA (mkRsa k.1.1 k.1.2 k.2)
              | inr (inr (inl b)) => KeyBytes b | _ => UnsafeAllowNoneSignatureType end)).
  by intros [[]|[]| |].
Defined.

Definition noon : Z := 1700000000 * Second.

Definition store {A} `{Countable A} (a : A) : string := bits_write (encode a).
Definition load {A} `{Countable A} (s : string) : option A := bits_read s ≫= decode.

Lemma bits_read_suffix p s : bits_read (bits_write p +:+ s) = Some p.
Proof.
  induction p as [p IH|p IH|]; [| |done].
  - change (xI <$> bits_read (bits_write p +:+ s) = Some p~1%positive). by rewrite IH.
  - change (xO <$> bits_read (bits_write p +:+ s) = Some p~0%positive). by rewrite IH.
Qed.

Lemma load_store {A} `{Countable A} (a : A) s : load (store a +:+ s) = Some a.
Proof. unfold load, store. rewrite bits_read_suffix. cbn. apply decode_encode. Qed.

Lemma load_store_id {A} `{Countable A} (a : A) : load (store a) = Some a.
Proof. unfold load, store. rewrite bits_read_write. cbn. apply decode_encode. Qed.

Lemma drop_while_keeps p c l : p c = false -> c ∈ l -> drop_while p l <> [].
Proof.
  intros Hc. induction l as [|d l IH]; [by intros ?%elem_of_nil|]. cbn.
  destruct (p d) eqn:E; [|done]. rewrite elem_of_cons. intros [->|?]; [congruence|auto].
Qed.

Lemma TrimSpace_visible c s : is_space c = false -> TrimSpace (String c s) <> "".
Proof.
  intros Hc. assert (ascii_TrimSpace (String c s) <> "") as Hne.
  { unfold ascii_TrimSpace. change (to_list (String c s)) with (c :: to_list s).
    change (drop_while is_space (c :: to_list s)) with
      (if is_space c then drop_while is_space (to_list s) else c :: to_list s). rewrite Hc.
    pose proof (drop_while_keeps is_space c (reverse (c :: to_list s)) Hc) as Hd.
    destruct (drop_while is_space (reverse (c :: to_list s))) as [|d l].
    - exfalso. apply Hd; [|done]. apply elem_of_reverse. left.
    - rewrite reverse_cons. by destruct (reverse l). }
  unfold TrimSpace. by destruct (is_ascii _).
Qed.

Definition demo_read (raw : string) : option jwk :=
  (fun l : list (string * string) => jwk_of (list_to_map l)) <$> load raw.

(** The private halves of the keys below. *)
Definition demo_pair (k : signingKey) : bool :=
  match k with KeyEC k => bool_decide (ED k ∈ [7; 3]) | KeyRSA k => RD k =? 5 | _ => true end.

Definition demo_token : Type := string * signingKey * string * list (string * claim).

#[local] Instance demo_auth : AuthLib := {|
  ecdh_NewPublicKey crv p := None;
  json_jwks b := match load b ≫= mapM demo_read with
                 | Some js => Ok js | None => Err (ELib "json") end;
  json_discovery b := match load b with
                      | Some l => let m := list_to_map l in
                                  Ok (mkDiscovery (member m "issuer") (member m "jwks_uri"))
                      | None => Err (ELib "json") end;
  url_Parse raw := Ok (mkUrl "http" "127.0.0.1");
  ip_loopback host := Some true;
  jwt_header po raw :=
    match (load raw : option demo_token) with
    | Some (m, _, kid, _) => if bool_decide (m ∈ ValidMethods po) then Ok (mkHeader kid m)
                             else Err (ELib "signing method is invalid")
    | None => Err (ELib "token is malformed")
    end;
  jwt_claims po raw pub :=
    match (load raw : option demo_token) with
    | Some (_, k, _, l) =>
        if demo_pair k && key_matches k pub && claims_valid noon po (list_to_map l)
        then Ok (decoded (list_to_map l)) else Err (ELib "token is invalid")
    | None => Err (ELib "token is malformed")
    end |}.

#[local] Instance demo_issuer_lib : IssuerLib := {|
  json_MarshalMap m := Ok (store (map_to_list m));
  json_MarshalKeys raws := Ok (store raws);
  jwt_SignedString m k kid c :=
    if method_takes m k then Ok (store ((m, k, kid, map_to_list c) : demo_token))
    else Err (ELib "key is of invalid type");
  x509_pem k := Ok "pem" |}.

#[local] Program Instance demo_laws : IssuerLaws noon := {| key_pair := demo_pair; jwk_read := demo_read |}.
Next Obligation. eauto. Qed.
Next Obligation.
  intros m b _ [= <-]. unfold demo_read. rewrite load_store_id. cbn. by rewrite list_to_map_to_list.
Qed.
Next Obligation.
  intros m b _ [= <-]. cbn. rewrite load_store, list_to_map_to_list. done.
Qed.
Next Obligation.
  intros raws js Hjs. eexists. split; [done|]. cbn. rewrite load_store. cbn. by rewrite Hjs.
Qed.
Next Obligation. intros m k kid c Hm _ _. cbn. rewrite Hm. eauto. Qed.
Next Obligation.
  intros m k kid c raw. cbn. destruct (method_takes m k); [|done]. intros [= <-].
  unfold store. destruct (encode _); by apply TrimSpace_visible.
Qed.
Next Obligation.
  intros m k kid c raw po. cbn. destruct (method_takes m k); [|done]. intros [= <-] _ _.
  rewrite load_store_id. by case_bool_decide.
Qed.
Next Obligation.
  intros m k kid c raw po pub. cbn. destruct (method_takes m k); [|done]. intros [= <-] _ _.
  rewrite load_store_id, list_to_map_to_list. by destruct (_ && _).
Qed.

Definition demo_ec : ecdsaKey := mkEcdsa 11 13 7.
Definition demo_rsa : rsaKey := mkRsa (2 ^ 2047 + 1) 65537 5.

Definition demo_issuer : issuer :=
  match New (Ok demo_ec) (Ok demo_rsa) "http://127.0.0.1:8080" with
  | Ok i => i
  | Err _ => mkIssuer "" demo_ec "" demo_rsa "" [] 0 true 0 None "" "" "" true
  end.

Definition oidc_opts : OIDCOptions :=
  mkOIDC (URL demo_issuer) "orderd" "" 0 (mkClaimOptions "tenant_id" "scope" "") false 0 0.

Definition new_verifier : OIDCVerifier :=
  match NewOIDCVerifier oidc_opts with
  | Ok v => v | Err _ => mkVerifier oidc_opts None None None end.

Definition short_body (a : http_answer) : bool :=
  match a with Body b => strlen b <=? maxJWKSBytes | _ => true end.

Lemma short_by i :
  short_body (handleDiscovery i).1.1 = true -> short_body (handleJWKS i).1.1 = true ->
  forall url b d i', GET url i = (Body b, d, i') -> strlen b <= maxJWKSBytes.
Proof.
  intros Hd Hj url b d i'. unfold GET, guard. destruct (Closed i); [done|].
  destruct (url =? _)%string; [|destruct (url =? _)%string; [|done]];
    (destruct (Offline i); [done|]); intros Hg.
  - rewrite Hg in Hd. by apply Z.leb_le in Hd.
  - rewrite Hg in Hj. by apply Z.leb_le in Hj.
Qed.

Ltac check_fit :=
  split; [by vm_compute|done|by vm_compute|by vm_compute|by vm_compute|split_ands; done
         |split_ands; try done; (eexists; split; [reflexivity|]; by right; split; [|left])
         |done|constructor|apply short_by; vm_compute; reflexivity].

Lemma demo_fit : fit demo_issuer.
Proof. check_fit. Qed.

Lemma demo_trusts : trusts new_verifier demo_issuer.
Proof.
  split; [by apply (NewOIDCVerifier_ok oidc_opts)|]. split; [done|]. split; [by left|done].
Qed.

Lemma demo_standard : standard new_verifier demo_issuer.
Proof. unfold standard. split_ands; done. Qed.

Lemma demo_ready now kid : ready now kid new_verifier demo_issuer.
Proof. unfold ready. change (VKeys new_verifier) with (@None keyCache). reflexivity. Qed.

Definition demo_claims : Claims := DefaultClaims noon demo_issuer.

Lemma demo_plain : plain demo_claims.
Proof. by apply (plain_default noon new_verifier demo_issuer demo_fit demo_standard). Qed.

Lemma demo_valid :
  claims_valid noon (verifyOpts (Opts new_verifier)) demo_claims = true /\
  principalFrom (OClaims (Opts new_verifier)) (decoded demo_claims) = Ok default_principal.
Proof. by apply (default_accepted (clock := noon) noon new_verifier demo_issuer demo_trusts demo_standard). Qed.

Definition weak_rsa : rsaKey := mkRsa (2 ^ 1023 + 1) 65537 5.

(** The tokens of a provider's toolkit against a fresh verifier; the RSA token, settled. *)
Lemma verifier_settles_witness :
  exists raw, SignRSA demo_claims demo_issuer = Ok raw /\
    let '(r, v', i') := exchange noon raw new_verifier demo_issuer in
    trusts v' i' /\ r = Ok default_principal.
Proof.
  destruct (signs (clock := noon) "RS256" (KeyRSA (RsaKey demo_issuer)) (RsaKid demo_issuer)
    demo_claims eq_refl eq_refl demo_plain) as [raw Hraw].
  exists raw. split; [by apply sign_Ok|].
  pose proof (verifier_settles (clock := noon) noon _ _ _ _ raw new_verifier demo_issuer
    demo_fit demo_trusts (demo_ready _ _) Hraw eq_refl demo_plain) as Hs.
  rewrite (genuine_rsa demo_issuer demo_fit), (proj1 demo_valid), (proj2 demo_valid) in Hs.
  exact Hs.
Defined.

Lemma toolkit_settled_witness :
  (exists es rs, Sign (DefaultClaims noon demo_issuer) demo_issuer = Ok es /\
     SignRSA (DefaultClaims noon demo_issuer) demo_issuer = Ok rs /\
     (exchange noon es new_verifier demo_issuer).1.1 = Ok default_principal /\
     (exchange noon rs new_verifier demo_issuer).1.1 = Ok default_principal) /\
  forall raw, Ok raw ∈ hostile noon weak_rsa "attacker-key" "s3cret" demo_issuer ->
    exists e, (exchange noon raw new_verifier demo_issuer).1.1 = Err e /\ errIs ErrInvalidToken e = true.
Proof.
  apply (toolkit_settled (clock := noon) noon noon weak_rsa "attacker-key" "s3cret" new_verifier
    demo_issuer demo_fit demo_trusts demo_standard (fun kid => demo_ready noon kid)); done.
Defined.





End Demo.
