(* ===== verification/TestSupport.v ===== *)
(** The helpers of the tests that decide something: internal/platform/testdb, the databases of
    the integration tier, and internal/testutil, the harness's configuration and repository
    walk.

    Docker, the Postgres server, the migrator and the toolchain are parameters: their answers
    are arguments.  The servers of the harness are in TestServer.v. *)

From S2P Require Import Prelude GoErr GoStr GoText Config.

(** * testdb: one template database, cloned for each test *)

Definition templateDB : string := "gomicro_template".

(** [strings.LastIndex] and [strings.Index] on the bytes of the DSN. *)
Definition replaceDBName_bytes (dsn name : bytes) : bytes :=
  match LastIndex dsn ["/"%char] with
  | None => dsn
  | Some idx =>
      let rest :=
        match Index (drop idx dsn) ["?"%char] with
        | Some q => drop (idx + q) dsn
        | None => []
        end in
      take (idx + 1) dsn ++ name ++ rest
  end.

Definition replaceDBName (dsn name : string) : string :=
  of_list (replaceDBName_bytes (to_list dsn) (to_list name)).

(** What the helper does to the servers, in order. *)
Inductive action :=
  | StartContainer | TerminateContainer
  | OpenDSN (dsn : string) | CloseDSN (dsn : string)
  | Exec (dsn sql : string) | MigrateUp (dsn : string).

Record Instance := mkInstance { AdminDSN : string; Counter : Z }.

(** Which calls fail. *)
Record dbEnv := mkDbEnv {
  RunErr : option error; ConnString : result string; OpenErr : string -> option error;
  ExecErr : string -> option error; UpErr : option error; CloseErr : option error }.

Definition wrapped (msg : text) (e : option error) : option error := wrapf msg <$> e.

Section TestDB.
Context (env : dbEnv).

Definition buildTemplate (i : Instance) : option error * list action :=
  match OpenErr env (AdminDSN i) with
  | Some err => (Some (wrapf [PStr "open admin connection"] err), [])
  | None =>
      let close := [CloseDSN (AdminDSN i)] in
      let create := Exec (AdminDSN i) ("CREATE DATABASE " +:+ templateDB) in
      let opened := [OpenDSN (AdminDSN i); create] in
      match ExecErr env ("CREATE DATABASE " +:+ templateDB) with
      | Some err => (Some (wrapf [PStr "create template database"] err), opened ++ close)
      | None =>
          let tmpl := replaceDBName (AdminDSN i) templateDB in
          match OpenErr env tmpl with
          | Some err => (Some (wrapf [PStr "open template connection"] err), opened ++ close)
          | None =>
              let migrated := opened ++ [OpenDSN tmpl; MigrateUp tmpl; CloseDSN tmpl] in
              match UpErr env with
              | Some err => (Some (wrapf [PStr "migrate template"] err), migrated ++ close)
              | None => (wrapped [PStr "close template connection"] (CloseErr env), migrated ++ close)
              end
          end
      end
  end.

Definition Start : result Instance * list action :=
  match RunErr env with
  | Some err => (Err (wrapf [PStr "start postgres container"] err), [])
  | None =>
      match ConnString env with
      | Err err => (Err (wrapf [PStr "container connection string"] err), [StartContainer])
      | Ok adminDSN =>
          let inst := mkInstance adminDSN 0 in
          match buildTemplate inst with
          | (Some err, acts) => (Err err, StartContainer :: acts ++ [TerminateContainer])
          | (None, acts) => (Ok inst, StartContainer :: acts)
          end
      end
  end.

(** The counter is an atomic 64-bit integer. *)
Definition Fresh (i : Instance) : result string * list action * Instance :=
  let n := wrap64 (Counter i + 1) in
  let i := mkInstance (AdminDSN i) n in
  let name := "gomicro_t" +:+ pretty n in
  let sql := "CREATE DATABASE " +:+ name +:+ " TEMPLATE " +:+ templateDB in
  match OpenErr env (AdminDSN i) with
  | Some err => (Err (EFmt [PStr "open admin connection: "; PVal err]), [], i)
  | None =>
      let acts := [OpenDSN (AdminDSN i); Exec (AdminDSN i) sql; CloseDSN (AdminDSN i)] in
      match ExecErr env sql with
      | Some err => (Err (EFmt [PStr "clone template database: "; PVal err]), acts, i)
      | None => (Ok (replaceDBName (AdminDSN i) name), acts, i)
      end
  end.

Definition Terminate (i : option Instance) : list action :=
  match i with Some _ => [TerminateContainer] | None => [] end.
End TestDB.

(** ** The Docker probe *)

Section Docker.
Context `{Unicode}.

(** [out] is what the docker CLI printed within five seconds, or why it failed. *)
Definition activeDockerContext (out : result string) : string :=
  match out with
  | Err _ => "unknown (docker CLI not on PATH)"
  | Ok out => TrimSpace out
  end.

(** The text of [t.Skipf], when the provider cannot be made or is not healthy; [None] lets the
    test go on. *)
Definition RequireDocker (newProvider health : option error) (out : result string) : option text :=
  let err := match newProvider with Some err => Some err | None => health end in
  match err with
  | None => None
  | Some err =>
      Some [PStr "skipping: Docker is not reachable ("; PVal err;
            PStr (")" +:+ of_list [of_byte 10] +:+ "  active docker context: ");
            PStr (activeDockerContext out);
            PStr (of_list [of_byte 10] +:+ "  This tier needs a Docker daemon. Start Docker Desktop, or run only the default"
                  +:+ of_list [of_byte 10] +:+
                  "  tier with `go test ./...` (no -tags=integration), which needs nothing at all.")]
  end.
End Docker.

(** * testutil *)

Section Harness.
Context `{Unicode} (fmtFloat : SpecFloat.spec_float -> string).

Definition testEnv : env :=
  list_to_map
    [("APP_ENV", EnvDevelopment); ("SERVICE_NAME", "orderd-test"); ("STORE_DRIVER", StoreMemory);
     ("AUTH_MODE", AuthDev); ("SHUTDOWN_DRAIN_DELAY", "0s"); ("SHUTDOWN_GRACE_PERIOD", "2s")].

(** [None] is the panic. *)
Definition TestConfig (mutate : list (Config -> Config)) : option Config :=
  match Parse fmtFloat testEnv with
  | Ok cfg => Some (foldl (fun cfg fn => fn cfg) cfg mutate)
  | Err _ => None
  end.

(** The walk up from the working directory, a clean absolute path given innermost component
    first: the root is its own parent, which ends it. *)
Fixpoint RepoRoot (hasGoMod : list string -> bool) (dir : list string) : option (list string) :=
  if hasGoMod dir then Some dir
  else match dir with
       | [] => None
       | _ :: parent => RepoRoot hasGoMod parent
       end.

Definition CRLF : bytes := [of_byte 13; of_byte 10].

Definition nonEmptyLines (s : string) : list string :=
  List.filter (fun line => negb (line =? "")%string)
    (TrimSpace <$> Split (of_byte 10) (of_list (ReplaceAll (to_list s) CRLF [of_byte 10]))).

(** [out] is what the command printed, or why it failed. *)
Definition GoList (args : list string) (out : result string) (stderr : string) : result (list string) :=
  match out with
  | Err err => Err (EFmt [PStr "go list "; PStr (String.concat " " args); PStr ": "; PVal err; PStr stderr])
  | Ok out => Ok (nonEmptyLines out)
  end.

(** A failing git skips the test. *)
Definition TrackedFiles (out : result string) : option (list string) :=
  match out with Err _ => None | Ok out => Some (nonEmptyLines out) end.
End Harness.

(** * What they guarantee *)

(** ** The databases *)

Lemma LastIndex_last a c b : c ∉ b -> LastIndex (a ++ c :: b) [c] = Some (length a).
Proof.
  intros Hb. assert (LastIndex b [c] = None) as Hn.
  { induction b as [|d b IH]; [done|]. apply not_elem_of_cons in Hb as [Hd Hb]. cbn. rewrite IH by done.
    apply Ascii.eqb_neq in Hd. by rewrite Hd. }
  induction a as [|d a IH]; cbn [app length LastIndex].
  - rewrite Hn. cbn. by rewrite Ascii.eqb_refl.
  - by rewrite IH.
Qed.

Lemma Index_char a c b : c ∉ a -> Index (a ++ c :: b) [c] = Some (length a).
Proof.
  induction a as [|d a IH]; intros Ha; cbn.
  - by rewrite Ascii.eqb_refl.
  - apply not_elem_of_cons in Ha as [Hd Ha]. apply Ascii.eqb_neq in Hd. rewrite Hd. cbn. by rewrite IH.
Qed.

Lemma Index_char_none (c : ascii) l : c ∉ l -> Index l [c] = None.
Proof.
  induction l as [|d l IH]; intros Hl; [done|]. apply not_elem_of_cons in Hl as [Hd Hl].
  cbn. apply Ascii.eqb_neq in Hd. rewrite Hd. cbn. by rewrite IH.
Qed.

(** The options of a DSN: nothing, or a query. *)
Definition options (opts : bytes) : Prop := opts = [] \/ exists q, opts = "?"%char :: q.

(** On a DSN whose database and options contain no slash the database is swapped and nothing
    else changes, whatever the user, password and host. *)
Lemma replaceDBName_swaps pre db opts name :
  "/"%char ∉ db -> "?"%char ∉ db -> "/"%char ∉ opts -> options opts ->
  replaceDBName_bytes (pre ++ "/"%char :: db ++ opts) name = pre ++ "/"%char :: name ++ opts.
Proof.
  intros Hdb Hq Hopts Ho. unfold replaceDBName_bytes.
  rewrite LastIndex_last by (rewrite elem_of_app; tauto).
  rewrite drop_app_length. assert (take (length pre + 1) (pre ++ "/"%char :: db ++ opts) = pre ++ ["/"%char]) as ->.
  { rewrite take_app_ge by lia. f_equal. replace (length pre + 1 - length pre)%nat with 1%nat by lia. done. }
  rewrite <- app_assoc. cbn [app]. f_equal. f_equal. f_equal.
  assert ("?"%char ∉ "/"%char :: db) as Hsl by (by rewrite not_elem_of_cons).
  destruct Ho as [->|[q ->]].
  - rewrite app_nil_r. by rewrite Index_char_none.
  - change ("/"%char :: db ++ "?"%char :: q) with (("/"%char :: db) ++ "?"%char :: q).
    rewrite Index_char by done.
    by rewrite <- drop_drop, drop_app_length, drop_app_length.
Qed.

(** A slash in the options is taken for the one before the database. *)
Lemma replaceDBName_slash_in_options :
  replaceDBName "postgres://u:p@h:5432/postgres?sslrootcert=/ca.pem" "t1" =
    "postgres://u:p@h:5432/postgres?sslrootcert=/t1".
Proof. vm_compute. reflexivity. Qed.

(** Every name a [Fresh] hands out is a new one. *)
Fixpoint freshes (envs : list dbEnv) (i : Instance) : list (result string) :=
  match envs with
  | [] => []
  | env :: r => let '(dsn, _, i) := Fresh env i in dsn :: freshes r i
  end.

Lemma Fresh_name env i dsn acts i' pre db opts :
  to_list (AdminDSN i) = pre ++ "/"%char :: db ++ opts ->
  "/"%char ∉ db -> "?"%char ∉ db -> "/"%char ∉ opts -> options opts ->
  Fresh env i = (Ok dsn, acts, i') ->
  to_list dsn = pre ++ "/"%char :: to_list ("gomicro_t" +:+ pretty (wrap64 (Counter i + 1))) ++ opts.
Proof.
  intros Hdsn Hdb Hq Hopts Ho. unfold Fresh. cbn [AdminDSN].
  destruct (OpenErr env (AdminDSN i)); [done|]. destruct (ExecErr env _); [done|].
  intros [= <- _ _]. unfold replaceDBName, to_list at 1, of_list.
  rewrite list_ascii_of_string_of_list_ascii. fold (to_list (AdminDSN i)). rewrite Hdsn.
  by apply replaceDBName_swaps.
Qed.

Lemma Fresh_counter env i : (Fresh env i).2 = mkInstance (AdminDSN i) (wrap64 (Counter i + 1)).
Proof. unfold Fresh. cbn [AdminDSN]. destruct (OpenErr env _); [done|]. by destruct (ExecErr env _). Qed.

Lemma freshes_named envs i k dsn pre db opts :
  to_list (AdminDSN i) = pre ++ "/"%char :: db ++ opts ->
  "/"%char ∉ db -> "?"%char ∉ db -> "/"%char ∉ opts -> options opts ->
  0 <= Counter i -> Counter i + Z.of_nat (length envs) < 2 ^ 63 ->
  freshes envs i !! k = Some (Ok dsn) ->
  to_list dsn = pre ++ "/"%char :: to_list ("gomicro_t" +:+ pretty (Counter i + 1 + Z.of_nat k)) ++ opts.
Proof.
  revert i k. induction envs as [|env r IH]; intros i k Hdsn Hdb Hq Hopts Ho Hpos Hmax; [done|].
  cbn [freshes length] in *. assert (wrap64 (Counter i + 1) = Counter i + 1) as Hw
    by (apply wrap64_id; width_simpl; lia).
  pose proof (Fresh_counter env i) as Hc. destruct (Fresh env i) as [[d acts] i'] eqn:E. cbn [snd] in Hc.
  rewrite Hw in Hc. subst i'. destruct k as [|k]; cbn [lookup list_lookup].
  - intros [= ->]. pose proof (Fresh_name env i dsn acts _ pre db opts Hdsn Hdb Hq Hopts Ho E) as Hn.
    rewrite Hw in Hn. by rewrite Z.add_0_r.
  - intros Hk. rewrite (IH (mkInstance (AdminDSN i) (Counter i + 1)) k) by (cbn; try done; lia).
    cbn [Counter]. by replace (Counter i + 1 + 1 + Z.of_nat k) with (Counter i + 1 + Z.of_nat (S k)) by lia.
Qed.

(** No two tests of a package get the same database. *)
Lemma freshes_distinct envs i j k dsn pre db opts :
  to_list (AdminDSN i) = pre ++ "/"%char :: db ++ opts ->
  "/"%char ∉ db -> "?"%char ∉ db -> "/"%char ∉ opts -> options opts ->
  0 <= Counter i -> Counter i + Z.of_nat (length envs) < 2 ^ 63 ->
  freshes envs i !! j = Some (Ok dsn) -> freshes envs i !! k = Some (Ok dsn) -> j = k.
Proof.
  intros Hdsn Hdb Hq Hopts Ho Hpos Hmax Hj Hk.
  pose proof (freshes_named envs i j dsn pre db opts Hdsn Hdb Hq Hopts Ho Hpos Hmax Hj) as Ej.
  rewrite (freshes_named envs i k dsn pre db opts Hdsn Hdb Hq Hopts Ho Hpos Hmax Hk) in Ej.
  apply (inj (pre ++.)) in Ej. injection Ej as Ej. apply (inj (.++ opts)) in Ej.
  apply to_list_inj in Ej. apply (inj (String.append _)) in Ej. apply (inj pretty) in Ej. lia.
Qed.

(** When the template was built its connection is closed, so that it can be cloned; and a start
    that fails after the container is up stops it, except when only its address is unknown. *)
Lemma template_closed env i acts :
  buildTemplate env i = (None, acts) ->
  acts = [OpenDSN (AdminDSN i); Exec (AdminDSN i) ("CREATE DATABASE " +:+ templateDB);
          OpenDSN (replaceDBName (AdminDSN i) templateDB); MigrateUp (replaceDBName (AdminDSN i) templateDB);
          CloseDSN (replaceDBName (AdminDSN i) templateDB); CloseDSN (AdminDSN i)] /\ CloseErr env = None.
Proof.
  unfold buildTemplate, wrapped. destruct (OpenErr env (AdminDSN i)); [done|].
  destruct (ExecErr env _); [done|]. destruct (OpenErr env _); [done|]. destruct (UpErr env); [done|].
  destruct (CloseErr env); [done|]. by intros [= <-].
Qed.

Lemma Start_cleans_up env e acts :
  Start env = (Err e, acts) ->
  StartContainer ∈ acts -> is_ok (ConnString env) = true -> last acts = Some TerminateContainer.
Proof.
  unfold Start. destruct (RunErr env).
  { intros [= _ <-] Hin. by apply elem_of_nil in Hin. }
  destruct (ConnString env) as [dsn|]; [|done].
  destruct (buildTemplate env (mkInstance dsn 0)) as [[err|] a]; [|done].
  intros [= _ <-] _ _. by rewrite app_comm_cons, last_snoc.
Qed.

Lemma Start_leaks_container env e :
  RunErr env = None -> ConnString env = Err e -> exists e', Start env = (Err e', [StartContainer]).
Proof. intros Hr Hc. unfold Start. rewrite Hr, Hc. eauto. Qed.

(** A machine without Docker skips, and is told which context was asked. *)
Lemma RequireDocker_skips `{Unicode} newProvider health out :
  (RequireDocker newProvider health out = None <-> newProvider = None /\ health = None) /\
  forall t, RequireDocker newProvider health out = Some t -> PStr (activeDockerContext out) ∈ t.
Proof.
  unfold RequireDocker. destruct newProvider, health; cbn; (split; [by split; [|intros [? ?]]|]);
    intros t; try done; intros [= <-]; set_solver.
Qed.

(** ** The harness *)

(** The walk ends at the nearest directory with a go.mod, and fails only when none has one. *)
Lemma RepoRoot_nearest has dir :
  match RepoRoot has dir with
  | Some root => has root = true /\ exists below, dir = below ++ root /\
      forall mid rest, below = mid ++ rest -> rest <> [] -> has (rest ++ root) = false
  | None => forall below root, dir = below ++ root -> has root = false
  end.
Proof.
  induction dir as [|c parent IH]; cbn [RepoRoot].
  - destruct (has []) eqn:E.
    + split; [done|]. exists []. split; [done|]. by intros mid rest [-> ->]%eq_sym%app_nil.
    + intros below root [-> ->]%eq_sym%app_nil. done.
  - destruct (has (c :: parent)) eqn:E.
    { split; [done|]. exists []. split; [done|]. by intros mid rest [-> ->]%eq_sym%app_nil. }
    destruct (RepoRoot has parent) as [root|].
    + destruct IH as (Hroot & below & -> & Hall). split; [done|]. exists (c :: below). split; [done|].
      intros [|d mid] rest Hb Hne; cbn in Hb.
      * by subst rest.
      * injection Hb as -> ->. by apply (Hall mid rest).
    + intros [|d below] root Hd; cbn in Hd; [by subst root|]. injection Hd as -> ->.
      by apply (IH below root).
Qed.

#[local] Existing Instance ascii_tables.

(** The harness's configuration is one the program accepts. *)
Lemma TestConfig_valid : is_Some (TestConfig (fun _ => "") []).
Proof. vm_compute. eauto. Qed.
