(* ===== verification/TestServer.v ===== *)
(** internal/testutil/server.go and internal/platform/events/eventstest: the servers tests are
    run against, the production server over an in-memory listener and an embedded broker.

    A helper is a program of the test it is called from: it opens things, registers cleanups,
    which run last first when the test ends, and may stop the test.  What the libraries answer
    are arguments. *)

From S2P Require Import Prelude GoErr GoStr GoLog Auth RateLimit Interceptor Shutdown App AppSpec StoreContract TestSupport.
From S2P Require Config Cursor Oidc.

(** * A test and its cleanups *)

Record bench (B : Type) := mkBench { State : B; Cleanups : list (B -> B) }.
Arguments mkBench {B}. Arguments State {B}. Arguments Cleanups {B}.

Section Bench.
Context {B : Type}.

Definition modify (f : B -> B) : tst (bench B) unit := fun s =>
  ((Some tt, []), mkBench (f (State s)) (Cleanups s)).

(** [t.Cleanup]. *)
Definition Cleanup (f : B -> B) : tst (bench B) unit := fun s =>
  ((Some tt, []), mkBench (State s) (f :: Cleanups s)).

(** The end of the test, however it ended. *)
Definition finish (s : bench B) : B := fold_left (fun b f => f b) (Cleanups s) (State s).

(** [if err != nil { t.Fatalf(msg) }]. *)
Definition fatalOn (err : option error) (msg : string) : tst (bench B) unit :=
  match err with Some _ => Fatalf msg | None => mret tt end.
End Bench.

(** * server.go *)

(** What a test holds beside the application's resources. *)
Inductive held := BufListener | TestConn | Serving | HTTPTestServer.

#[export] Instance held_eq_dec : EqDecision held.
Proof. solve_decision. Defined.

Record lab := mkLab { LProc : process; LHeld : list held }.

Definition hold (h : held) (b : lab) : lab := mkLab (LProc b) (LHeld b ++ [h]).
Definition drop_held (h : held) (b : lab) : lab :=
  mkLab (LProc b) (List.filter (fun h' => negb (bool_decide (h' = h))) (LHeld b)).
Definition onApp (f : process -> process) (b : lab) : lab := mkLab (f (LProc b)) (LHeld b).

Section Harness.
Context `{Unicode, Cursor.CursorEnv, Oidc.AuthLib} (fmtFloat : SpecFloat.spec_float -> string).
(** What the libraries answer the application, and [grpc.NewClient] the harness. *)
Context (pl : platform) (NewClientErr : option error).

Abbreviation mutation := (list (Config.Config -> Config.Config)).

(** [app.New(context.Background(), TestConfig(mutate...), log)], fatal when it fails.  An
    invalid configuration panics, which stops the test too. *)
Definition newApp (mutate : mutation) : tst (bench lab) (Config.Config * App) :=
  match TestConfig fmtFloat mutate with
  | None => Fatalf "testutil.TestConfig is invalid"
  | Some cfg => fun s =>
      match New pl cfg (mkBuilding (LProc (State s)) []) with
      | (Err _, b) => ((None, ["app.New"]), mkBench (onApp (fun _ => Proc b) (State s)) (Cleanups s))
      | (Ok a, b) => ((Some (cfg, a), []), mkBench (onApp (fun _ => Proc b) (State s)) (Cleanups s))
      end
  end.

(** [application.Close] under ten seconds; its error is ignored. *)
Definition closeApp (cfg : Config.Config) (a : App) (b : lab) : lab :=
  let now := Clock (LProc b) in
  onApp (fun p => (Close pl cfg a (Some (now + 10 * Second)) (WithTimeout Background now (10 * Second)) p).2) b.

Definition MarkServing : tst (bench lab) unit := modify (onApp (note (SetServing true))).

Definition NewTestServerListener (mutate : mutation) : tst (bench lab) unit :=
  '(cfg, a) ← newApp mutate;
  _ ← modify (hold BufListener);
  _ ← MarkServing;
  _ ← modify (hold Serving);
  Cleanup (fun b => drop_held BufListener (drop_held Serving (closeApp cfg a b))).

(** The dialer of the returned option reaches the listener. *)
Definition NewTestServerDialer (mutate : mutation) : tst (bench lab) unit :=
  NewTestServerListener mutate.

Definition serve (cfg : Config.Config) (a : App) : tst (bench lab) unit :=
  _ ← modify (hold BufListener);
  _ ← MarkServing;
  _ ← modify (hold Serving);
  _ ← fatalOn NewClientErr "grpc.NewClient";
  _ ← modify (hold TestConn);
  Cleanup (fun b => drop_held BufListener (drop_held Serving (closeApp cfg a (drop_held TestConn b)))).

(** The loggers of the two differ only in where their lines go. *)
Definition NewTestServer (mutate : mutation) : tst (bench lab) unit :=
  '(cfg, a) ← newApp mutate; serve cfg a.
Definition NewTestServerWithLogs (mutate : mutation) : tst (bench lab) unit :=
  '(cfg, a) ← newApp mutate; serve cfg a.

(** app.go: the handler of the gateway's server, nil when there is none. *)
Definition GatewayHandler (a : App) : option httpServer := AGateway a.

Definition NewTestGateway (mutate : mutation) : tst (bench lab) App :=
  '(cfg, a) ← newApp mutate;
  _ ← MarkServing;
  _ ← fatalIf (bool_decide (GatewayHandler a = None))
        "the app has no gateway handler; GATEWAY_ADDR must be set for this harness";
  _ ← modify (hold HTTPTestServer);
  _ ← Cleanup (fun b => closeApp cfg a (drop_held HTTPTestServer b));
  mret a.

(** ** Nothing outlives the test *)

Definition empty_lab (b : lab) : Prop := Opened (LProc b) = [] /\ LHeld b = [].

(** The bench a helper is called on, with no resource of an application yet. *)
Definition fresh_bench (p : process) : bench lab := mkBench (mkLab p []) [].

(** A test whose helper returned ends with nothing held; so does one the helper stopped, as
    long as [ok] holds. *)
Definition leaves_nothing {A} (ok : Prop) (m : tst (bench lab) A) : Prop :=
  forall p, Opened p = [] ->
  let '((r, _), s) := m (fresh_bench p) in (is_Some r \/ ok) -> empty_lab (finish s).

(** A started application, then a program that registers a cleanup closing it. *)
Lemma newApp_then {A} mutate (ok : Prop) (k : Config.Config * App -> tst (bench lab) A) :
  (ok -> no_gap pl) ->
  (forall cfg a b p, TestConfig fmtFloat mutate = Some cfg ->
     Opened p = [] -> New pl cfg (mkBuilding p []) = (Ok a, b) ->
     let '((r, _), s) := k (cfg, a) (fresh_bench (Proc b)) in (is_Some r \/ ok) -> empty_lab (finish s)) ->
  leaves_nothing ok (x ← newApp mutate; k x).
Proof.
  intros Hg Hk p Hp. unfold mbind, tst_bind, newApp.
  destruct (TestConfig fmtFloat mutate) as [cfg|]; [|by intros _].
  change (LProc (State (fresh_bench p))) with p. specialize (fun a b => Hk cfg a b p eq_refl Hp).
  pose proof (New_clean pl cfg p) as Hc. destruct (New pl cfg (mkBuilding p [])) as [[a|e] b].
  - specialize (Hk a b eq_refl). unfold fresh_bench in Hk. cbn.
    destruct (k (cfg, a) _) as [[r l] s]. exact Hk.
  - intros [[? [=]]|Hok]. split; [|done]. cbn. auto.
Qed.

Lemma closeApp_empties cfg a b p c :
  Opened p = [] -> New pl cfg (mkBuilding p []) = (Ok a, b) -> Opened (LProc c) = Opened (Proc b) ->
  Opened (LProc (closeApp cfg a c)) = [] /\ LHeld (closeApp cfg a c) = LHeld c.
Proof.
  intros Hp E Ho. split; [|done]. unfold closeApp, onApp. cbn [LProc].
  eapply Close_releases; [exact Hp|exact E|by rewrite Ho].
Qed.

Lemma serve_leaves_nothing cfg a b p :
  Opened p = [] -> New pl cfg (mkBuilding p []) = (Ok a, b) ->
  let '((r, _), s) := serve cfg a (fresh_bench (Proc b)) in
  (is_Some r \/ (no_gap pl /\ NewClientErr = None)) -> empty_lab (finish s).
Proof.
  intros Hp E. unfold serve, fatalOn. cbn. destruct NewClientErr; cbn.
  { by intros [[? [=]]|[_ [=]]]. }
  intros _. unfold empty_lab, finish. cbn.
  destruct (closeApp_empties cfg a b p (drop_held TestConn
    (mkLab (note (SetServing true) (Proc b)) [BufListener; Serving; TestConn]))) as [Ho Hh]; [done|done|done|].
  cbn in Ho, Hh. split; [exact Ho|]. reflexivity.
Qed.

(** Whatever the libraries answer, a helper that returns leaves a test that releases the whole
    application and its own listener, connection and server; and one that stops the test does
    too, unless a library failed in one of the gaps of [no_gap], the client could not be built,
    or the gateway the helper is for is switched off. *)
Theorem harness_leaves_nothing mutate :
  leaves_nothing (no_gap pl) (NewTestServerListener mutate) /\
  leaves_nothing (no_gap pl /\ NewClientErr = None) (NewTestServer mutate) /\
  leaves_nothing (no_gap pl /\ forall cfg, TestConfig fmtFloat mutate = Some cfg -> Config.GatewayAddr cfg <> "")
    (NewTestGateway mutate).
Proof.
  split_ands; apply newApp_then; [done| |by intros []| |by intros []|].
  - intros cfg a b p _ Hp E. cbn. intros _.
    destruct (closeApp_empties cfg a b p (mkLab (note (SetServing true) (Proc b)) [BufListener; Serving]))
      as [Ho _]; [done..|]. by split.
  - intros cfg a b p _ Hp E. by apply (serve_leaves_nothing cfg a b p).
  - intros cfg a b p Hcfg Hp E. destruct (New_Ok _ _ _ _ _ E) as (_ & Eg & _).
    unfold GatewayHandler. cbn. case_bool_decide as Hn; cbn.
    + intros [[? [=]]|[_ Hne]]. rewrite Hn in Eg. unfold gateway_of, rest in Eg.
      specialize (Hne cfg Hcfg). apply String.eqb_neq in Hne. by rewrite Hne in Eg.
    + intros _. destruct (closeApp_empties cfg a b p (mkLab (note (SetServing true) (Proc b)) []))
        as [Ho _]; [done..|]. by split.
Qed.

(** A client that cannot be built stops the test before anything is registered: the application
    and its server stay. *)
Lemma serve_leaks cfg a b err :
  NewClientErr = Some err ->
  let '((r, reports), s) := serve cfg a (fresh_bench (Proc b)) in
  r = None /\ reports = ["grpc.NewClient"] /\
  Opened (LProc (finish s)) = Opened (Proc b) /\ LHeld (finish s) = [BufListener; Serving].
Proof. intros E. unfold serve, fatalOn. rewrite E. by cbn. Qed.
End Harness.

(** * eventstest: an embedded broker

    The state of the test is the journal of what was done to the server, the client and the
    store's directory. *)

Inductive brokerAct :=
  | MakeDir | StartServer | ShutdownServer | AwaitShutdown | ConnectClient | CloseClient | RemoveDir.

#[export] Instance brokerAct_eq_dec : EqDecision brokerAct.
Proof. solve_decision. Defined.

Definition act (a : brokerAct) (j : list brokerAct) : list brokerAct := j ++ [a].

Section Broker.
(** What the server and client libraries answer. *)
Context (NewServerErr ConnectErr JetStreamErr : option error) (ready : bool).

(** [t.TempDir()] registers the removal of the directory it makes. *)
Definition TempDir : tst (bench (list brokerAct)) unit :=
  _ ← modify (act MakeDir); Cleanup (act RemoveDir).

Definition StartBroker : tst (bench (list brokerAct)) unit :=
  _ ← TempDir;
  _ ← fatalOn NewServerErr "start the embedded nats server";
  _ ← modify (act StartServer);
  _ ← (if ready then mret tt
       else _ ← modify (act ShutdownServer);
            Fatalf "the embedded nats server did not become ready within 15s");
  _ ← Cleanup (fun j => act AwaitShutdown (act ShutdownServer j));
  _ ← fatalOn ConnectErr "connect to the embedded nats server";
  _ ← modify (act ConnectClient);
  _ ← Cleanup (act CloseClient);
  fatalOn JetStreamErr "jetstream".

Ltac ordered := split; [done|split; [set_solver|split; [|by intros []]]]; intros ?; try (exfalso; set_solver).

(** The directory goes last, after the server that was started has been told to stop; the
    client that connected is closed before it; and a server that became ready is waited for. *)
Lemma StartBroker_ordered :
  let '((r, _), s) := StartBroker (mkBench [] []) in
  let j := finish s in
  last j = Some RemoveDir /\
  (StartServer ∈ j -> ShutdownServer ∈ j) /\
  (ConnectClient ∈ j -> exists before, j = before ++ [CloseClient; ShutdownServer; AwaitShutdown; RemoveDir]) /\
  (is_Some r -> j = [MakeDir; StartServer; ConnectClient; CloseClient; ShutdownServer; AwaitShutdown; RemoveDir]).
Proof.
  unfold StartBroker, fatalOn. cbn. destruct NewServerErr; cbn; [by ordered|].
  destruct ready; cbn; [|by ordered]. destruct ConnectErr; cbn; [by ordered|].
  destruct JetStreamErr; cbn; ordered; by exists [MakeDir; StartServer; ConnectClient].
Qed.

(** A server that never became ready is told to stop but not waited for before its directory
    is removed. *)
Lemma unready_not_awaited :
  NewServerErr = None -> ready = false ->
  finish (StartBroker (mkBench [] [])).2 = [MakeDir; StartServer; ShutdownServer; RemoveDir].
Proof. intros E1 E2. unfold StartBroker, fatalOn. rewrite E1, E2. by cbn. Qed.

End Broker.

(** ** Reading a stream *)

Section Messages.
Context {Msg : Type}.

(** The broker's answers to one reading: opening the stream, creating the consumer, its count
    of pending messages (64 bits, unsigned), and for a fetch the messages it delivered and the
    error of the batch. *)
Record reading := mkReading {
  StreamErr : option error; ConsumerErr : option error; InfoR : result Z;
  FetchR : Z -> result (list Msg * option error) }.

Definition Messages {B} (r : reading) : tst B (list Msg) :=
  match StreamErr r with Some _ => Fatalf "open stream" | None =>
  match ConsumerErr r with Some _ => Fatalf "create a reader" | None =>
  match InfoR r with Err _ => Fatalf "consumer info" | Ok numPending =>
    let pending := wrap64 numPending in
    if pending =? 0 then mret []
    else
      match FetchR r pending with
      | Err _ => Fatalf "fetch"
      | Ok (out, None) => mret out
      | Ok (_, Some _) => Fatalf "read"
      end
  end end end.

Definition Count {B} (r : reading) : tst B Z :=
  ms ← Messages r; mret (Z.of_nat (length ms)).

(** Documented: an ephemeral consumer that delivers all counts the messages stored on its
    subject, and a fetch whose batch ends without an error has delivered as many as it asked
    for, oldest first. *)
Definition reads (r : reading) (stored : list Msg) : Prop :=
  (forall n, InfoR r = Ok n -> n = Z.of_nat (length stored)) /\
  (forall n out, FetchR r n = Ok (out, None) -> out = take (Z.to_nat n) stored).

(** A reading that does not stop the test returns every stored message, oldest first. *)
Lemma Messages_all {B} r stored (s : B) ms s' :
  reads r stored -> Z.of_nat (length stored) < 2 ^ 63 ->
  Messages r s = ((Some ms, []), s') -> ms = stored /\ s' = s /\ Count r s = ((Some (Z.of_nat (length stored)), []), s).
Proof.
  intros [Hinfo Hfetch] Hlen. unfold Count, Messages.
  destruct (StreamErr r); [done|]. destruct (ConsumerErr r); [done|].
  destruct (InfoR r) as [n|] eqn:En; [|done]. specialize (Hinfo n eq_refl). subst n.
  rewrite wrap64_id by (width_simpl; lia). destruct (_ =? 0) eqn:Ez.
  - intros [= <- <-]. assert (stored = []) as -> by (apply nil_length_inv; to_prop; lia). done.
  - destruct (FetchR r _) as [[out [e|]]|] eqn:Ef; [done| |done]. intros [= <- <-].
    apply Hfetch in Ef as ->. rewrite Nat2Z.id, firstn_all. by split_ands.
Qed.
End Messages.
