(* ===== verification/DevTool.v ===== *)
(** cmd/devtool: the task runner's portable half.

    The machine is a parameter: the path lookup, the commands it runs and what they answer, the
    files removed.  A run gives the exit code, the lines it printed and the commands it ran. *)

From S2P Require Import Prelude GoErr GoStr GoText.

Record machine := mkMachine {
  GoVersion : string; GOOS : string; GOARCH : string; Separator : ascii;
  LookPath : string -> option string;
  RemoveAll : string -> option error;
  Run : list string -> option error;      (* a command and its arguments *)
  DockerContext : result string;          (* docker context show *)
  DockerHost : string;                    (* the environment variable *)
  Getwd : string }.

(** What a command did: its error, the lines on standard output, the commands run, and the
    paths removed. *)
Record effects := mkEffects { Failure : option error; Out : list text; Ran : list (list string);
                              Removed : list string }.

Section DevTool.
Context `{Unicode} (m : machine).

Definition cleanTargets : list string := ["bin"; "covdata"; "coverage.out"; "coverage.html"].

(** The loop of [clean]: the error that stops it and the paths tried. *)
Fixpoint removeTargets (targets tried : list string) : option error * list string :=
  match targets with
  | [] => (None, tried)
  | t :: r =>
      match RemoveAll m t with
      | Some err => (Some (wrapf [PStr "remove "; PStr t] err), tried ++ [t])
      | None => removeTargets r (tried ++ [t])
      end
  end.

Definition clean : effects :=
  match removeTargets cleanTargets [] with
  | (Some err, tried) => mkEffects (Some err) [] [] tried
  | (None, tried) =>
      let cmd := ["go"; "clean"; "-testcache"] in
      match Run m cmd with
      | Some err => mkEffects (Some (wrapf [PStr "go clean -testcache"] err)) [] [cmd] tried
      | None => mkEffects None [[PStr "cleaned: bin/, covdata/, coverage files, test cache"]] [cmd] tried
      end
  end.

Definition race : effects :=
  match LookPath m "gcc" with
  | None =>
      let err :=
        if (GOOS m =? "windows")%string
        then EFmt [PStr "the race detector needs cgo, and no C compiler was found on PATH.

This is expected on a stock Windows install and is not a bug in this template. The race
detector links the C++ ThreadSanitizer runtime, so it cannot work without a C toolchain.

Two options:

  1. Run it in a container (no install, slower):
       docker run --rm -v "; PQuote "${PWD}:/src"; PStr " -w /src golang:1.26 go test -race ./...

  2. Install a C toolchain natively (recommended if you develop here daily):
       winget install BrechtSanders.WinLibs.POSIX.UCRT
       go env -w CGO_ENABLED=1
     Note that "; PQuote "go env -w"; PStr " is GLOBAL for your user and affects every other Go project.

CI runs -race on ubuntu-latest on every push, so race coverage is not lost -- the
windows-latest CI leg proves compilation and non-race correctness only."]
        else errorsNew "no C compiler found on PATH; the race detector requires cgo" in
      mkEffects (Some err) [] [] []
  | Some _ =>
      let cmd := ["CGO_ENABLED=1"; "go"; "test"; "-race"; "./..."] in
      mkEffects (Run m cmd) [] [cmd] []
  end.

(** [%-13s]. *)
Definition pad13 (s : string) : string :=
  s +:+ String.concat "" (replicate (13 - String.length s) " ").

Definition reportTool (name purpose : string) : text :=
  match LookPath m name with
  | Some path => [PStr (pad13 name); PStr " "; PStr path]
  | None => [PStr (pad13 name); PStr " NOT FOUND -- needed for: "; PStr purpose]
  end.

Definition contextLines : list text :=
  match DockerContext m with
  | Err _ => []
  | Ok out =>
      let ctxName := TrimSpace out in
      [PStr "docker ctx    "; PStr ctxName] ::
      (if negb (ctxName =? "default")%string && (DockerHost m =? "")%string
       then [[PStr "              note: testcontainers ignores docker contexts and probes the"];
             [PStr "              default pipe. If the integration tier skips while docker works,"];
             [PStr "              set DOCKER_HOST to this context's endpoint."]]
       else [])
  end.

Definition inOneDrive : bool :=
  Contains (to_list (ToLower (Getwd m)))
    (Separator m :: to_list "onedrive" ++ [Separator m]).

Definition doctor : effects :=
  let lines :=
    [[PStr "go            "; PStr (GoVersion m); PStr " "; PStr (GOOS m); PStr "/"; PStr (GOARCH m)];
     reportTool "docker" "integration and e2e tiers";
     reportTool "kubectl" "task k8s:render";
     reportTool "grpcurl" "manual gRPC poking (optional)";
     match LookPath m "gcc" with
     | None => [PStr "cgo           NOT available -- `task test:race` will explain the options"]
     | Some _ => [PStr "cgo           available -- `task test:race` works natively"]
     end] ++ contextLines ++
    (if inOneDrive
     then [[]; [PStr "WARNING: this repository is inside OneDrive."];
           [PStr "  OneDrive's sync filter driver causes intermittent 'Access is denied' during"];
           [PStr "  builds and git checkouts, and syncing .git across machines corrupts the index."];
           [PStr "  Move the repository outside OneDrive."]]
     else []) ++
    [[]; [PStr "test tiers:"];
     [PStr "  task verify       always runs (no Docker, no network, no cgo)"];
     [PStr "  task verify:int   needs Docker"];
     [PStr "  task verify:e2e   needs Docker, builds the real image"]] in
  mkEffects None lines [["docker"; "context"; "show"]] [].

(** The exit code; 2 after the usage text. *)
Definition main (args : list string) : Z * option effects :=
  match args with
  | _ :: cmd :: _ =>
      let run :=
        if (cmd =? "doctor")%string then Some doctor
        else if (cmd =? "clean")%string then Some clean
        else if (cmd =? "race")%string then Some race
        else None in
      match run with
      | Some e => (match Failure e with Some _ => 1 | None => 0 end, Some e)
      | None => (2, None)
      end
  | _ => (2, None)
  end.

Lemma removeTargets_scope targets tried :
  exists done, (removeTargets targets tried).2 = tried ++ done /\ done `prefix_of` targets /\
    ((removeTargets targets tried).1 = None -> done = targets /\
       Forall (fun t => RemoveAll m t = None) targets).
Proof.
  revert tried. induction targets as [|t r IH]; intros tried; cbn [removeTargets].
  - exists []. rewrite app_nil_r. split_ands; [done|by exists []|by split].
  - destruct (RemoveAll m t) as [err|] eqn:E.
    + exists [t]. split_ands; [done|by exists r|done].
    + destruct (IH (tried ++ [t])) as (d & Hd & Hp & Hall). exists (t :: d).
      rewrite Hd, <- app_assoc. split_ands; [done|destruct Hp as [k ->]; by exists k|].
      intros Hn. destruct (Hall Hn) as [-> Hf]. by split; [|constructor].
Qed.

(** [clean] touches the build output and nothing else, in order, and reports success only when
    all of it is gone; [doctor] never fails; the race detector runs only where a C compiler is. *)
Lemma devtool_scope :
  Removed clean `prefix_of` cleanTargets /\
  (Failure clean = None -> Removed clean = cleanTargets /\ Run m ["go"; "clean"; "-testcache"] = None) /\
  Failure doctor = None /\ Removed doctor = [] /\
  (Ran race <> [] <-> is_Some (LookPath m "gcc")) /\
  forall args, (main args).1 = 0 \/ (main args).1 = 1 \/ (main args).1 = 2.
Proof.
  destruct (removeTargets_scope cleanTargets []) as (d & Hd & Hp & Hall).
  assert (Removed clean = d) as Hr.
  { unfold clean. destruct (removeTargets cleanTargets []) as [[err|] tried]; cbn in *; [done|].
    by destruct (Run m _). }
  split_ands; [by rewrite Hr| |done|done| |].
  - rewrite Hr. unfold clean. destruct (removeTargets cleanTargets []) as [[err|] tried]; [done|].
    destruct (Run m _) eqn:E; [done|]. intros _. destruct (Hall eq_refl) as [-> _]. by split.
  - unfold race. destruct (LookPath m "gcc"); cbn; split; intros Hx; try done; try (by destruct Hx); eauto.
  - intros args. unfold main. destruct args as [|a [|cmd r]]; [cbn; auto|cbn; auto|].
    destruct (if (cmd =? "doctor")%string then _ else _) as [e|]; [|cbn; auto].
    cbn [fst]. destruct (Failure e); auto.
Qed.
End DevTool.
