(* ===== verification/Rename.v ===== *)
(** cmd/rename/main.go: the command that turns the template into its user's repository.

    The working tree is a map from slash-separated relative paths to regular files, so joining a
    path to the root is the identity.  Git, the buf generator and the failures of the file system
    are the fields of [renameEnv]; a run gives its error, the tree it leaves and what it printed. *)

From S2P Require Import Prelude GoErr GoStr GoText.

Record file := mkFile { Content : string; Mode : Z }.
Abbreviation tree := (gmap string file).

#[export] Instance file_eq_dec : EqDecision file.
Proof. solve_decision. Defined.

(** * Strings *)

Definition NL : ascii := of_byte 10.
Definition replaceAll (s old new : string) : string :=
  of_list (ReplaceAll (to_list s) (to_list old) (to_list new)).
Definition contains (s sub : string) : bool := Contains (to_list s) (to_list sub).
Definition hasSuffix (s suffix : string) : bool := has_suffix (to_list suffix) (to_list s).
Definition containsAny (s : string) (chars : list ascii) : bool :=
  existsb (fun c => existsb (Ascii.eqb c) chars) (to_list s).

(** [filepath.Ext]: the suffix from the last dot of the last element. *)
Fixpoint ext_of (rev acc : list ascii) : list ascii :=
  match rev with
  | [] => []
  | c :: r =>
      if Ascii.eqb c "/"%char then []
      else if Ascii.eqb c "."%char then c :: acc
      else ext_of r (c :: acc)
  end.
Definition Ext (path : string) : string := of_list (ext_of (reverse (to_list path)) []).

Definition lastElement (path : string) : string :=
  match LastIndex (to_list path) (to_list "/") with
  | Some i => of_list (drop (i + 1) (to_list path))
  | None => path
  end.

(** * The plan *)

Record plan := mkPlan {
  OldModule : string; NewModule : string; OldImage : string; NewImage : string }.

Definition is_alnum (c : ascii) : bool :=
  let b := byte_of c in
  ((48 <=? b) && (b <=? 57)) || ((65 <=? b) && (b <=? 90)) || ((97 <=? b) && (b <=? 122)).
Definition path_char (c : ascii) : bool :=
  is_alnum c || existsb (Ascii.eqb c) ["."%char; "_"%char; "~"%char; "/"%char; "-"%char].

(** [^\[a-zA-Z0-9\]\[a-zA-Z0-9._~/-\]*\[a-zA-Z0-9\]$]. *)
Definition modulePathRE (s : string) : bool :=
  match to_list s with
  | c :: r =>
      is_alnum c &&
      match reverse r with
      | d :: m => is_alnum d && forallb path_char m
      | [] => false
      end
  | [] => false
  end.

Section WithUnicode.
Context `{Unicode}.

Definition newPlan (oldModule newModule newImage : string) : result plan :=
  let newModule := TrimSpace newModule in
  if (newModule =? "")%string
  then Err (errorsNew "-module is required, e.g. -module github.com/acme/orders")
  else if negb (modulePathRE newModule)
  then Err (EFmt [PQuote newModule; PStr " is not a usable module path"])
  else if (newModule =? oldModule)%string
  then Err (EFmt [PStr "the module path is already "; PStr oldModule])
  else if negb (contains newModule "/")
  then Err (EFmt [PQuote newModule; PStr " has no host: a module path outside a repository host cannot be fetched by anyone else"])
  else
    let oldImage := lastElement oldModule in
    let newImage := if (newImage =? "")%string then lastElement newModule else newImage in
    if containsAny newImage [" "%char; "/"%char; "\"%char; ":"%char]
    then Err (EFmt [PQuote newImage; PStr " is not a usable image prefix"])
    else Ok (mkPlan oldModule newModule oldImage newImage).

(** The reason a tracked file is left alone. *)
Definition skip (rel : string) : option string :=
  if HasPrefix rel "gen/" then Some "generated: regenerated instead"
  else if HasPrefix rel "proto/third_party/" then Some "third-party: not ours to edit"
  else if (rel =? "LICENSE")%string || hasSuffix rel "/LICENSE" then Some "licence text"
  else if HasPrefix rel ".git/" then Some "git internals"
  else None.

Definition isDeploymentFile (rel : string) : bool :=
  HasPrefix rel "deploy/" || (rel =? "Taskfile.yml")%string.

Definition imageTargets : list string := ["orderd"; "worker"; "migrate"].

Definition rewrite (p : plan) (rel content : string) : string :=
  let content := replaceAll content (OldModule p) (NewModule p) in
  if negb (OldImage p =? NewImage p)%string && isDeploymentFile rel
  then foldl (fun content target =>
         replaceAll content (OldImage p +:+ "/" +:+ target) (NewImage p +:+ "/" +:+ target))
         content imageTargets
  else content.

(** * The file system and the commands run *)

Record renameEnv := mkRenameEnv {
  gitToplevel : result string;             (* git rev-parse --show-toplevel *)
  gitStatus : result string;               (* git status --porcelain *)
  gitLsFiles : tree -> result string;      (* git ls-files -z *)
  readFails : string -> option error;
  statFails : string -> option error;
  (* why, and with how many bytes written by then, if the file was opened at all *)
  writeFails : string -> option (error * option nat);
  removeAllFails : option (error * (string -> bool));   (* with the files gone by then *)
  bufGenerate : tree -> option error * tree }.

Definition NULc : ascii := of_byte 0.

Section WithEnv.
Context (env : renameEnv).

Inductive readAnswer := NotExist | ReadError (e : error) | Read (f : file).

Definition ReadFile (t : tree) (rel : string) : readAnswer :=
  match t !! rel with
  | None => NotExist
  | Some f => match readFails env rel with Some e => ReadError e | None => Read f end
  end.

(** [os.WriteFile]: the mode is used only when the file is created.  Opening truncates the file,
    so a write that fails later leaves what was written by then. *)
Definition WriteFile (t : tree) (rel content : string) (mode : Z) : option error * tree :=
  let m := match t !! rel with Some f => Mode f | None => mode end in
  match writeFails env rel with
  | Some (e, None) => (Some e, t)
  | Some (e, Some n) => (Some e, <[rel := mkFile (take_bytes n content) m]> t)
  | None => (None, <[rel := mkFile content m]> t)
  end.

Definition repoRoot : result string :=
  out ← mapErr (wrapf [PStr "this does not look like a git repository"]) (gitToplevel env);
  Ok (TrimSpace out).

Definition requireCleanTree : result unit :=
  out ← mapErr (wrapf [PStr "git status"]) (gitStatus env);
  if (TrimSpace out =? "")%string then Ok tt
  else Err (EFmt [PStr "the working tree has uncommitted changes.

This rewrites most of the repository and then deletes itself, so the only practical
undo is `git checkout .` -- which would take your uncommitted work with it. Commit or
stash first.

"; PStr (TrimRight (Ascii.eqb NL) out)]).

(** The loop over the lines of go.mod. *)
Fixpoint moduleLine (lines : list string) : result string :=
  match lines with
  | [] => Err (errorsNew "go.mod has no module line")
  | line :: r =>
      let l := TrimSpace line in
      if HasPrefix l "module " then Ok (TrimSpace (drop_bytes 7 l)) else moduleLine r
  end.

Definition currentModulePath (t : tree) : result string :=
  match ReadFile t "go.mod" with
  | NotExist => Err (wrapf [PStr "read go.mod"] (ELib "fs.ErrNotExist"))
  | ReadError e => Err (wrapf [PStr "read go.mod"] e)
  | Read f => moduleLine (Split NL (Content f))
  end.

Definition trackedFiles (t : tree) : result (list string) :=
  out ← mapErr (wrapf [PStr "git ls-files"]) (gitLsFiles env t);
  Ok (List.filter (fun name => negb (name =? "")%string) (Split NULc out)).

(** [plan.apply]: the error, the paths that changed and the tree so far. *)
Fixpoint apply (p : plan) (files : list string) (dryRun : bool) (t : tree) (changed : list string)
    : (option error * list string) * tree :=
  match files with
  | [] => ((None, changed), t)
  | rel :: rest =>
      match skip rel with
      | Some _ => apply p rest dryRun t changed
      | None =>
          match ReadFile t rel with
          | NotExist => apply p rest dryRun t changed
          | ReadError e => ((Some (wrapf [PStr "read "; PStr rel] e), []), t)
          | Read f =>
              if ContainsByte NULc (Content f) then apply p rest dryRun t changed
              else
                let updated := rewrite p rel (Content f) in
                if (updated =? Content f)%string then apply p rest dryRun t changed
                else
                  let changed := changed ++ [rel] in
                  if dryRun then apply p rest dryRun t changed
                  else
                    match statFails env rel with
                    | Some e => ((Some (wrapf [PStr "stat "; PStr rel] e), []), t)
                    | None =>
                        match WriteFile t rel updated (Mode f) with
                        | (Some e, t) => ((Some (wrapf [PStr "write "; PStr rel] e), []), t)
                        | (None, t) => apply p rest dryRun t changed
                        end
                    end
          end
      end
  end.

(** * Removing the tool and what describes it *)

Definition forkToolBegin : string := "<!-- fork-tool:begin -->".
Definition forkToolEnd : string := "<!-- fork-tool:end -->".

(** The loop of [stripMarked]; each turn that cuts a region makes the text shorter, so
    [length content] turns are enough ([None] is never reached). *)
Fixpoint stripLoop (fuel : nat) (content : bytes) : option (result bytes) :=
  match fuel with
  | O => None
  | S fuel =>
      match Index content (to_list forkToolBegin) with
      | None =>
          Some (if Contains content (to_list forkToolEnd)
                then Err (EFmt [PStr "a "; PStr forkToolEnd; PStr " marker has no matching "; PStr forkToolBegin])
                else Ok content)
      | Some start =>
          match Index (drop start content) (to_list forkToolEnd) with
          | None => Some (Err (EFmt [PStr "a "; PStr forkToolBegin; PStr " marker has no matching "; PStr forkToolEnd]))
          | Some offset =>
              let e := (start + offset + String.length forkToolEnd)%nat in
              let e := match content !! e with
                       | Some c => if Ascii.eqb c NL then S e else e
                       | None => e
                       end in
              stripLoop fuel (take start content ++ drop e content)
          end
      end
  end.

Definition stripMarked (content : string) : result string :=
  match stripLoop (S (String.length content)) (to_list content) with
  | Some r => l ← r; Ok (of_list l)
  | None => Err (ELib "unreachable")
  end.

(** The loop of [removeForkToolDocs]. *)
Fixpoint stripDocs (files : list string) (t : tree) : option error * tree :=
  match files with
  | [] => (None, t)
  | rel :: rest =>
      if negb (Ext rel =? ".md")%string then stripDocs rest t
      else
        match ReadFile t rel with
        | Read f =>
            if negb (contains (Content f) forkToolBegin) then stripDocs rest t
            else
              match stripMarked (Content f) with
              | Err e => (Some (wrapf [PStr rel] e), t)
              | Ok updated =>
                  match WriteFile t rel updated 420 with
                  | (Some e, t) => (Some (wrapf [PStr "rewrite "; PStr rel] e), t)
                  | (None, t) => stripDocs rest t
                  end
              end
        | _ => stripDocs rest t
        end
  end.

Definition removeForkToolDocs (t : tree) : option error * tree :=
  match trackedFiles t with
  | Err e => (Some e, t)
  | Ok files => stripDocs files t
  end.

(** The lines from a target's body on: the first line that is neither blank nor indented. *)
Definition in_body (line : string) : bool :=
  (TrimSpace line =? "")%string || HasPrefix line "    " || HasPrefix line (String (of_byte 9) EmptyString).
Fixpoint afterBody (lines : list string) : list string :=
  match lines with
  | line :: r => if in_body line then afterBody r else lines
  | [] => []
  end.

Definition is_trailing (c : ascii) : bool :=
  Ascii.eqb c " "%char || Ascii.eqb c (of_byte 9) || Ascii.eqb c (of_byte 13).
Definition is_target (name line : string) : bool :=
  (TrimRight is_trailing line =? "  " +:+ name +:+ ":")%string.

(** The lines before the target and those after its own; [None] when there is no such line. *)
Fixpoint findTarget (name : string) (lines : list string) : option (list string * list string) :=
  match lines with
  | [] => None
  | line :: r =>
      if is_target name line then Some ([], r)
      else '(before, after) ← findTarget name r; Some (line :: before, after)
  end.

(** The blank line before the target goes too. *)
Definition dropBlankLast (lines : list string) : list string :=
  match reverse lines with
  | l :: r => if (TrimSpace l =? "")%string then reverse r else lines
  | [] => lines
  end.

Definition joinLines (lines : list string) : string := of_list (join [NL] (to_list <$> lines)).

Definition removeTaskTarget (content name : string) : string * bool :=
  match findTarget name (Split NL content) with
  | None => (content, false)
  | Some (before, after) => (joinLines (dropBlankLast before ++ afterBody after), true)
  end.

(** [os.RemoveAll(cmd/rename)]. *)
Definition under_rename (rel : string) : bool :=
  (rel =? "cmd/rename")%string || HasPrefix rel "cmd/rename/".

Definition removeSelf (t : tree) : option error * tree :=
  match removeAllFails env with
  | Some (e, gone) =>
      (Some (wrapf [PStr "delete cmd/rename"] e),
       filter (fun kv => under_rename kv.1 && gone kv.1 = false) t)
  | None =>
      let t := filter (fun kv => under_rename kv.1 = false) t in
      match ReadFile t "Taskfile.yml" with
      | NotExist => (None, t)
      | ReadError e => (Some (wrapf [PStr "read Taskfile.yml"] e), t)
      | Read f =>
          let '(updated, removed) := removeTaskTarget (Content f) "verify:rename" in
          if removed
          then match WriteFile t "Taskfile.yml" updated 420 with
               | (Some e, t) => (Some (wrapf [PStr "rewrite Taskfile.yml"] e), t)
               | (None, t) => removeForkToolDocs t
               end
          else removeForkToolDocs t
      end
  end.

Definition bufVersion : string := "v1.72.0".

Definition regenerate (t : tree) : option error * tree :=
  match bufGenerate env t with
  | (Some e, t) => (Some (wrapf [PStr "regenerate protobuf code"] e), t)
  | (None, t) => (None, t)
  end.

(** * The command *)

Record flags := mkFlags {
  FModule : string; FImage : string; FKeep : bool; FDryRun : bool; FSkipCodegen : bool }.

Definition reportWhatWasLeft (word : string) : text :=
  [PStr "
Still named "; PQuote word; PStr ", deliberately -- each set must move together or not at all:

  deploy/compose/docker-compose.yml   project name, database user, password, and every DSN
  deploy/keycloak/                    the realm name, and the issuer URL that names it
  deploy/k8s/                         the namespace and the app.kubernetes.io/part-of label
  internal/platform/client/identity.go   the x-"; PStr word; PStr "-* metadata headers -- a WIRE CONTRACT;
                                         renaming these breaks peers silently
  internal/platform/gormx/            callback names, which are internal to one process
  internal/platform/testdb/           the template database and its credentials

Also yours to change:

  LICENSE      set the copyright holder -- a test fails until you do
  README.md    it describes this project, not yours, including the clone URL"].

Definition run (f : flags) (t : tree) : (option error * tree) * list text :=
  let fails e := ((Some e, t), []) in
  match repoRoot with
  | Err e => fails e
  | Ok _ =>
  match currentModulePath t with
  | Err e => fails e
  | Ok oldModule =>
  match newPlan oldModule (FModule f) (FImage f) with
  | Err e => fails e
  | Ok p =>
  match (if negb (FDryRun f) then requireCleanTree else Ok tt) with
  | Err e => fails e
  | Ok _ =>
  match trackedFiles t with
  | Err e => fails e
  | Ok files =>
  match apply p files (FDryRun f) t [] with
  | ((Some e, _), t) => ((Some e, t), [])
  | ((None, changed), t) =>
      let counted verb := [PStr verb; PInt (Z.of_nat (length changed)); PStr " files: ";
                           PStr oldModule; PStr " -> "; PStr (NewModule p)] in
      if FDryRun f
      then ((None, t), counted "would rewrite " :: ((fun rel => [PStr "   "; PStr rel]) <$> changed) ++
                       [[PStr "would then regenerate gen/ and delete cmd/rename"]])
      else
        let out := counted "rewrote " ::
          (if negb (OldImage p =? NewImage p)%string
           then [[PStr "image prefix: "; PStr (OldImage p); PStr " -> "; PStr (NewImage p)]] else []) in
        if FSkipCodegen f
        then ((None, t), out ++
               [[]; [PStr "gen/ was NOT regenerated, so it still imports the old module path and the"];
                [PStr "tree will not compile. Run this before anything else:"]; [];
                [PStr "    go run github.com/bufbuild/buf/cmd/buf@"; PStr bufVersion; PStr " generate"]])
        else
          let out := out ++ [[PStr "regenerating gen/ (this takes a minute the first time)..."]] in
          match regenerate t with
          | (Some e, t) =>
              ((Some (EFmt [PErr e; PStr "

gen/ still imports "; PStr oldModule; PStr ", so the tree will not compile until codegen runs. That is
deliberate: the alternative -- rewriting the generated descriptors as text --
produces a repository that compiles and then panics at init. Fix the cause and run:

    go run github.com/bufbuild/buf/cmd/buf@"; PStr bufVersion; PStr " generate"]), t), out)
          | (None, t) =>
              match (if FKeep f then (None, t) else removeSelf t) with
              | (Some e, t) => ((Some e, t), out)
              | (None, t) =>
                  ((None, t),
                   out ++ (if FKeep f then [] else [[PStr "deleted cmd/rename and its task target"]]) ++
                   [[]; [PStr "done. Verify with:"]; [PStr "    go build ./... && go test ./..."];
                    reportWhatWasLeft (OldImage p)])
              end
          end
  end end end end end end.

End WithEnv.
End WithUnicode.
