(* ===== verification/RenameSpec.v ===== *)
(** What cmd/rename promises: which files a run may change and into what, that the marked
    documentation is removed exactly, and that the task target goes alone. *)

From S2P Require Import Prelude GoErr GoStr GoText Rename.

Section Spec.
Context `{Unicode} (env : renameEnv).

(** * What a run changes *)

(** Paths that are never rewritten as text. *)
Definition protected (q : string) : bool :=
  HasPrefix q "gen/" || HasPrefix q "proto/third_party/" || (q =? "LICENSE")%string ||
  hasSuffix q "/LICENSE" || HasPrefix q ".git/".

Lemma skip_protected q : skip q = None <-> protected q = false.
Proof.
  unfold skip, protected.
  destruct (HasPrefix q "gen/"), (HasPrefix q "proto/third_party/"), (q =? "LICENSE")%string,
    (hasSuffix q "/LICENSE"), (HasPrefix q ".git/"); cbn; split; done.
Qed.

(** A file after a rename: rewritten when it is tracked, not protected and not binary. *)
Definition renamed (p : plan) (files : list string) (q : string) (f : file) : file :=
  if bool_decide (q ∈ files) && negb (protected q) && negb (ContainsByte NULc (Content f))
  then mkFile (rewrite p q (Content f)) (Mode f) else f.

(** A file whose rewriting failed after [n] bytes. *)
Definition torn (n : nat) (f : file) : file := mkFile (take_bytes n (Content f)) (Mode f).

(** What a run that ends in [err] may leave at [q], where [o] was: that, its rename, or, at the
    one path whose write the error reports, a beginning of its rename. *)
Definition left_at (p : plan) (files : list string) (err : option error) (q : string)
    (o n : option file) : Prop :=
  n = o \/ n = renamed p files q <$> o \/
  exists k e, err = Some (wrapf [PStr "write "; PStr q] e) /\ n = torn k <$> (renamed p files q <$> o).

Lemma renamed_untracked p files q f : q ∉ files -> renamed p files q f = f.
Proof. unfold renamed. intros Hq. by rewrite bool_decide_eq_false_2. Qed.

Lemma renamed_cons_ne p files q rel f : q <> rel -> renamed p (rel :: files) q f = renamed p files q f.
Proof.
  intros Hne. unfold renamed. assert (bool_decide (q ∈ rel :: files) = bool_decide (q ∈ files)) as ->; [|done].
  apply bool_decide_ext. rewrite elem_of_cons. naive_solver.
Qed.

(** What each path holds after [apply] has gone through [files]. *)
Lemma apply_step p rel rest dry t changed :
  let '((err, ch), t') := apply env p (rel :: rest) dry t changed in
  (err <> None /\ t' = t) \/
  (dry = false /\ exists k e, err = Some (wrapf [PStr "write "; PStr rel] e) /\
     forall q, t' !! q = if decide (q = rel) then torn k <$> (renamed p [rel] q <$> t !! q) else t !! q) \/
  exists t1 changed1, apply env p rest dry t1 changed1 = ((err, ch), t') /\
    (dry = true -> t1 = t) /\
    (dry = false -> forall q, t1 !! q = if decide (q = rel) then renamed p [rel] q <$> t !! q else t !! q).
Proof.
  assert (forall f, t !! rel = Some f -> renamed p [rel] rel f = f ->
    forall q, t !! q = if decide (q = rel) then renamed p [rel] q <$> t !! q else t !! q) as Hsame.
  { intros f Hf Hr q. case_decide; [subst q|done]. by rewrite Hf; cbn; rewrite Hr. }
  assert (rel ∈ [rel]) as Hin by (by left).
  cbn [apply]. destruct (skip rel) eqn:Hs.
  { destruct (apply env p rest dry t changed) as [[err ch] t'] eqn:E. right. right.
    exists t, changed. split_ands; try done. intros _ q. case_decide; [subst q|done].
    destruct (t !! rel) as [f|]; [|done]. cbn. f_equal. unfold renamed.
    assert (protected rel = true) as -> by (apply not_false_iff_true; rewrite <- skip_protected; congruence).
    by rewrite andb_false_r. }
  apply skip_protected in Hs. unfold ReadFile. destruct (t !! rel) as [f|] eqn:Hf.
  2:{ destruct (apply env p rest dry t changed) as [[err ch] t'] eqn:E. right. right.
      exists t, changed. split_ands; try done. intros _ q. case_decide; [subst q|done]. by rewrite Hf. }
  destruct (readFails env rel); [by left|].
  destruct (ContainsByte NULc (Content f)) eqn:Hb.
  { destruct (apply env p rest dry t changed) as [[err ch] t'] eqn:E. right. right.
    exists t, changed. split_ands; try done. intros _. apply (Hsame f); [done|].
    unfold renamed. by rewrite Hb, !andb_false_r. }
  assert (renamed p [rel] rel f = mkFile (rewrite p rel (Content f)) (Mode f)) as Hr.
  { unfold renamed. by rewrite bool_decide_eq_true_2, Hs, Hb. }
  destruct (rewrite p rel (Content f) =? Content f)%string eqn:Hu; to_prop.
  { destruct (apply env p rest dry t changed) as [[err ch] t'] eqn:E. right. right.
    exists t, changed. split_ands; try done. intros _. apply (Hsame f); [done|].
    rewrite Hr, Hu. by destruct f. }
  destruct dry.
  { destruct (apply env p rest true t _) as [[err ch] t'] eqn:E. right. right. by exists t, (changed ++ [rel]). }
  destruct (statFails env rel); [by left|]. unfold WriteFile. rewrite Hf.
  destruct (writeFails env rel) as [[e [k|]]|]; [|by left|].
  { right. left. split; [done|]. exists k, e. split; [done|]. intros q. rewrite lookup_insert.
    repeat case_decide; subst; try done. by rewrite Hf; cbn; rewrite Hr. }
  destruct (apply env p rest false _ _) as [[err ch] t'] eqn:E. right. right.
  eexists _, _. split_ands; [exact E|done|]. intros _ q. rewrite lookup_insert.
  repeat case_decide; subst; try done. by rewrite Hf; cbn; rewrite Hr.
Qed.

Lemma renamed_at_head p files rel f :
  rel ∉ files -> renamed p files rel (renamed p [rel] rel f) = renamed p (rel :: files) rel f.
Proof.
  intros Hn. rewrite (renamed_untracked p files) by done. unfold renamed.
  rewrite !bool_decide_eq_true_2 by set_solver. done.
Qed.

Lemma apply_exact p files dry t changed :
  NoDup files ->
  let '((err, ch), t') := apply env p files dry t changed in
  (dry = true -> t' = t) /\
  (forall q, left_at p files err q (t !! q) (t' !! q)) /\
  (err = None -> dry = false -> forall q, t' !! q = renamed p files q <$> t !! q).
Proof.
  intros Hnd. revert t changed. induction Hnd as [|rel rest Hrel _ IH]; intros t changed.
  { cbn. split_ands; try done; [by left|]. intros _ _ q. destruct (t !! q) as [f|]; [|done].
    cbn. by rewrite renamed_untracked by set_solver. }
  pose proof (apply_step p rel rest dry t changed) as Hs.
  destruct (apply env p (rel :: rest) dry t changed) as [[err ch] t'].
  destruct Hs as [[He ->]|[(-> & k & e & -> & Ht)|(t1 & c1 & E & Hdry & Hwet)]];
    [split_ands; try done; by left| |].
  { split_ands; [done| |done]. intros q. unfold left_at. rewrite Ht. case_decide as Hq; [subst q|by left].
    right. right. exists k, e. split; [done|]. destruct (t !! rel) as [f|]; [|done]. cbn. do 2 f_equal.
    rewrite <- (renamed_at_head p rest) by done. by rewrite (renamed_untracked p rest). }
  specialize (IH t1 c1). rewrite E in IH. destruct IH as (IH1 & IH2 & IH3). destruct dry.
  { rewrite (Hdry eq_refl) in *. split_ands; try done. intros q. rewrite IH1 by done. by left. }
  specialize (Hwet eq_refl).
  assert (forall q, renamed p rest q <$> t1 !! q = renamed p (rel :: rest) q <$> t !! q) as Hall.
  { intros q. rewrite Hwet. case_decide as Hq; destruct (t !! q) as [f|]; try done; cbn; f_equal.
    - subst q. by apply renamed_at_head.
    - by rewrite renamed_cons_ne. }
  split_ands; [done| |].
  - intros q. specialize (IH2 q). unfold left_at in *. rewrite Hall in IH2.
    destruct IH2 as [IH2|IH2]; [|by right].
    rewrite IH2, Hwet. case_decide as Hq; [|by left]. subst q. right. left.
    destruct (t !! rel) as [f|]; [|done]. cbn. f_equal.
    rewrite <- (renamed_at_head p rest) by done. by rewrite (renamed_untracked p rest).
  - intros He _ q. by rewrite <- Hall, IH3.
Qed.

(** ** The clean-up *)

Lemma WriteFile_frame t rel c m q : q <> rel -> (WriteFile env t rel c m).2 !! q = t !! q.
Proof.
  intros Hq. unfold WriteFile. destruct (writeFails env rel) as [[e [n|]]|]; cbn [snd]; [|done|];
    by rewrite lookup_insert_ne.
Qed.

Lemma stripDocs_frame files t q : Ext q <> ".md" -> (stripDocs env files t).2 !! q = t !! q.
Proof.
  intros Hq. revert t. induction files as [|rel rest IH]; intros t; [done|]. cbn [stripDocs].
  destruct (Ext rel =? ".md")%string eqn:He; cbn [negb]; [to_prop|apply IH].
  destruct (ReadFile env t rel); try apply IH.
  destruct (contains _ _); cbn [negb]; [|apply IH]. destruct (stripMarked _) as [updated|]; [|done].
  pose proof (WriteFile_frame t rel updated 420 q ltac:(congruence)) as Hw.
  destruct (WriteFile _ _ _ _ _) as [[e|] t1]; [done|]. by rewrite IH.
Qed.

Lemma removeForkToolDocs_frame t q : Ext q <> ".md" -> (removeForkToolDocs env t).2 !! q = t !! q.
Proof.
  intros Hq. unfold removeForkToolDocs. destruct (trackedFiles env t); [|done]. by apply stripDocs_frame.
Qed.

(** Files that belong to the tool or describe it. *)
Definition tool_file (q : string) : bool :=
  under_rename q || (q =? "Taskfile.yml")%string || (Ext q =? ".md")%string.

Lemma filter_frame (P : string -> bool) (t : tree) q :
  P q = false -> filter (fun kv : string * file => P kv.1 = false) t !! q = t !! q.
Proof.
  intros Hq. rewrite map_lookup_filter. destruct (t !! q) as [f|]; [|done]. cbn.
  by rewrite option_guard_True.
Qed.

Lemma removeSelf_frame t q : tool_file q = false -> (removeSelf env t).2 !! q = t !! q.
Proof.
  unfold tool_file, removeSelf. intros Hq. to_prop.
  destruct (removeAllFails env) as [[e gone]|].
  { cbn [snd]. apply (filter_frame (fun q => under_rename q && gone q)). by rewrite H0. }
  set (t1 := filter _ t). assert (t1 !! q = t !! q) as <- by (by apply filter_frame).
  destruct (ReadFile env t1 "Taskfile.yml") as [|e|f]; [done|done|].
  destruct (removeTaskTarget _ _) as [updated removed].
  destruct removed; [|by apply removeForkToolDocs_frame].
  pose proof (WriteFile_frame t1 "Taskfile.yml" updated 420 q ltac:(done)) as Hw.
  destruct (WriteFile _ _ _ _ _) as [[e|] t2]; [done|]. by rewrite removeForkToolDocs_frame.
Qed.

(** ** The command *)

(** Paths that the later steps of a run may change: the generator's, and those of the clean-up. *)
Definition beyond (f : flags) (q : string) : bool :=
  negb (FSkipCodegen f) && (HasPrefix q "gen/" || (negb (FKeep f) && tool_file q)).

Lemma newPlan_fields old new image p :
  newPlan old new image = Ok p -> OldModule p = old /\ NewModule p <> "" /\ NewModule p <> old.
Proof.
  unfold newPlan. intros Hp. repeat (destruct (_ : bool) eqn:? in Hp; try done).
  all: repeat case_match; try done; injection Hp as <-; cbn; to_prop; done.
Qed.

Lemma to_list_of_list l : to_list (of_list l) = l.
Proof. apply list_ascii_of_string_of_list_ascii. Qed.

Lemma to_list_nonempty s : s <> "" -> to_list s <> [].
Proof. by destruct s. Qed.

Lemma apart_nonempty l m : m <> [] -> apart l m = true -> l <> [].
Proof. intros Hm Ha ->. by destruct m. Qed.

(** Outside the deployment files a rewritten text does not name the old module, when the two
    paths cannot overlap. *)
Lemma rewrite_clears p q c :
  NewModule p <> "" -> apart (to_list (OldModule p)) (to_list (NewModule p)) = true ->
  isDeploymentFile q = false -> contains (rewrite p q c) (OldModule p) = false.
Proof.
  intros Hn Ha Hq. unfold rewrite. rewrite Hq, andb_false_r. unfold contains, replaceAll.
  rewrite to_list_of_list. apply ReplaceAll_clears; [|done].
  eapply apart_nonempty; [|exact Ha]. by apply to_list_nonempty.
Qed.

(** A run, once the plan and the files are known. *)
Lemma run_after f t old p files :
  (forall t q, HasPrefix q "gen/" = false -> (bufGenerate env t).2 !! q = t !! q) ->
  currentModulePath env t = Ok old -> newPlan old (FModule f) (FImage f) = Ok p ->
  trackedFiles env t = Ok files ->
  let '((err, t'), _) := run env f t in
  (err <> None /\ t' = t) \/
  exists err1 ch t1, apply env p files (FDryRun f) t [] = ((err1, ch), t1) /\
    (FDryRun f = false -> requireCleanTree env = Ok tt) /\
    (err = None -> err1 = None) /\ (err1 <> None -> err = err1) /\
    (FDryRun f = true -> t' = t1) /\
    forall q, beyond f q = false -> t' !! q = t1 !! q.
Proof.
  intros Hbuf Hold Hp Hfiles. unfold run. destruct (repoRoot env); [|by left].
  rewrite Hold, Hp. destruct (if negb (FDryRun f) then requireCleanTree env else Ok tt) as [[]|] eqn:Hc; [|by left].
  rewrite Hfiles. destruct (apply env p files (FDryRun f) t []) as [[err1 ch] t1] eqn:Ha.
  assert (FDryRun f = false -> requireCleanTree env = Ok tt) as Hclean by (intros Hd; by rewrite Hd in Hc).
  destruct err1 as [e|]; [right; by exists (Some e), ch, t1|].
  destruct (FDryRun f) eqn:Hd; [right; by exists None, ch, t1|].
  destruct (FSkipCodegen f) eqn:Hs; [right; by exists None, ch, t1|].
  unfold regenerate. destruct (bufGenerate env t1) as [be t2] eqn:Hb.
  assert (forall q, beyond f q = false -> t2 !! q = t1 !! q) as Hgen.
  { intros q Hq. unfold beyond in Hq. rewrite Hs in Hq. cbn in Hq. apply orb_false_iff in Hq as [Hq _].
    specialize (Hbuf t1 q Hq). by rewrite Hb in Hbuf. }
  destruct be as [e|]; [right; by exists None, ch, t1|].
  destruct (FKeep f) eqn:Hk; [right; by exists None, ch, t1|].
  destruct (removeSelf env t2) as [re t3] eqn:Hr.
  assert (forall q, beyond f q = false -> t3 !! q = t1 !! q) as Hself.
  { intros q Hq. rewrite <- Hgen by done. pose proof Hq as Hq'. unfold beyond in Hq'.
    rewrite Hs, Hk in Hq'. cbn in Hq'. apply orb_false_iff in Hq' as [_ Hq'].
    pose proof (removeSelf_frame t2 q Hq') as Hf. by rewrite Hr in Hf. }
  destruct re; right; by exists None, ch, t1.
Qed.

(** C39. A rename changes what it says and nothing else.  A dry run, and a run over a tree with
    uncommitted work, leaves the tree as it was, and so does a run that is refused before its
    plan and file list are known.  Otherwise every path outside the two later steps (the
    generator's gen/, and the clean-up of the tool) holds either its old file or its file with
    the substitutions made, but for the one path whose write failed: the error of the run names
    it, and it may hold only a beginning of its new text, or nothing.  After a run without
    error exactly the tracked files that are text, and not generated, third-party, licence or
    git internals, have been substituted, with their modes kept; if the two module paths cannot
    overlap, none of these outside the deployment files names the old module any more.  The
    generator is taken to write under gen/ only, and git to list no path twice. *)
Theorem rename_confined f t :
  (forall t q, HasPrefix q "gen/" = false -> (bufGenerate env t).2 !! q = t !! q) ->
  (forall files, trackedFiles env t = Ok files -> NoDup files) ->
  let '((err, t'), _) := run env f t in
  (FDryRun f = true \/ is_ok (requireCleanTree env) = false -> t' = t) /\
  match (old ← currentModulePath env t; newPlan old (FModule f) (FImage f)), trackedFiles env t with
  | Ok p, Ok files =>
      forall q, beyond f q = false ->
        left_at p files err q (t !! q) (t' !! q) /\
        (err = None -> FDryRun f = false ->
         t' !! q = renamed p files q <$> t !! q /\
         (apart (to_list (OldModule p)) (to_list (NewModule p)) = true ->
          forall o n, t !! q = Some o -> t' !! q = Some n -> q ∈ files -> protected q = false ->
          ContainsByte NULc (Content o) = false -> isDeploymentFile q = false ->
          contains (Content n) (OldModule p) = false))
  | _, _ => err <> None /\ t' = t
  end.
Proof.
  intros Hbuf Hnd. destruct (currentModulePath env t) as [old|eo] eqn:Hold; cbn [mbind result_bind].
  2:{ unfold run. rewrite Hold. by destruct (repoRoot env). }
  destruct (newPlan old (FModule f) (FImage f)) as [p|ep] eqn:Hp.
  2:{ unfold run. rewrite Hold, Hp. by destruct (repoRoot env). }
  destruct (trackedFiles env t) as [files|ef] eqn:Hfiles.
  2:{ unfold run. rewrite Hold, Hp, Hfiles. destruct (repoRoot env); [|done]. by destruct (if negb _ then requireCleanTree env else Ok tt). }
  pose proof (run_after f t old p files Hbuf Hold Hp Hfiles) as Hrun.
  destruct (run env f t) as [[err t'] out].
  destruct Hrun as [[He ->]|(err1 & ch & t1 & Ha & Hclean & Herr & Hsame & Hdry & Hlater)].
  { split; [done|]. intros q _. split; [by left|done]. }
  pose proof (apply_exact p files (FDryRun f) t [] (Hnd files eq_refl)) as Hx. rewrite Ha in Hx.
  destruct Hx as (Hx1 & Hx2 & Hx3). split.
  - intros [Hd|Hn]; [by rewrite Hdry, Hx1|]. destruct (FDryRun f) eqn:Hd; [by rewrite Hdry, Hx1|].
    by rewrite Hclean in Hn.
  - intros q Hq. rewrite (Hlater q Hq). split.
    { destruct (Hx2 q) as [?|[?|(k & e & E1 & ?)]]; [by left|by right; left|right; right].
      exists k, e. split; [|done]. rewrite Hsame; [done|by rewrite E1]. }
    intros He Hd.
    rewrite (Hx3 (Herr He) Hd q). split; [done|].
    intros Hap o n Ho Hn Hin Hpr Hb Hdep. rewrite Ho in Hn. cbn in Hn. injection Hn as <-.
    destruct (newPlan_fields _ _ _ _ Hp) as (_ & Hne & _).
    unfold renamed. rewrite bool_decide_eq_true_2, Hpr, Hb by done. cbn [andb negb Content].
    by apply rewrite_clears.
Qed.

End Spec.

(** * Marked documentation *)

Definition B : bytes := to_list forkToolBegin.
Definition E : bytes := to_list forkToolEnd.

(** A document: its text up to the first region, then each region's body with the text after
    it. *)
Definition doc : Type := bytes * list (bytes * bytes).

Definition region (bt : bytes * bytes) : bytes := B ++ bt.1 ++ E ++ bt.2.
Definition marked (d : doc) : bytes := d.1 ++ concat (region <$> d.2).

(** The text with the regions gone, each with the newline after it. *)
Definition cutNewline (l : bytes) : bytes :=
  match l with c :: r => if Ascii.eqb c NL then r else l | [] => [] end.
Definition unmarked (d : doc) : bytes := d.1 ++ concat ((fun bt => cutNewline bt.2) <$> d.2).

(** No region's body ends it early, and what is left holds no marker. *)
Definition well_marked (d : doc) : Prop :=
  Forall (fun bt => Contains bt.1 E = false) d.2 /\
  Contains (unmarked d) B = false /\ Contains (unmarked d) E = false.

(** One turn of the loop on a document. *)
Lemma Index_begin p r : Contains p B = false -> Index (p ++ B ++ r) B = Some (length p).
Proof. apply Index_first; [done|by vm_compute]. Qed.

Lemma Index_end body r : Contains body E = false -> Index (B ++ body ++ E ++ r) E = Some (length (B ++ body)).
Proof.
  intros Hb. rewrite app_assoc. apply Index_first; [done|by vm_compute|].
  apply Contains_false. intros a b Ex. symmetry in Ex.
  assert (apart E B = true) as Ha by (by vm_compute).
  destruct (apart_occurrence E B [] body a b Ha Ex) as [[x Hx]|[x Hx]].
  - symmetry in Hx. by apply app_nil in Hx as [_ [Hx _]%app_nil].
  - rewrite Contains_false in Hb. by apply (Hb x b).
Qed.

(** Cutting the newline off the rest of a document. *)
Lemma cut_at p r :
  drop (match (p ++ r) !! length p with
        | Some c => if Ascii.eqb c NL then S (length p) else length p
        | None => length p end) (p ++ r) = cutNewline r.
Proof.
  rewrite lookup_app_r, Nat.sub_diag by lia. destruct r as [|c r]; cbn.
  - by rewrite app_nil_r, drop_all.
  - destruct (Ascii.eqb c _).
    + rewrite drop_app_ge by lia. by replace (S (length p) - length p)%nat with 1%nat by lia.
    + by rewrite drop_app_length.
Qed.

Lemma stripLoop_region fuel t0 body r :
  Contains t0 B = false -> Contains body E = false ->
  stripLoop (S fuel) (t0 ++ B ++ body ++ E ++ r) = stripLoop fuel (t0 ++ cutNewline r).
Proof.
  intros Ht Hb. cbn [stripLoop]. change (to_list forkToolBegin) with B. change (to_list forkToolEnd) with E.
  rewrite Index_begin by done. rewrite drop_app_length, Index_end by done.
  rewrite take_app_length. f_equal. f_equal.
  assert (t0 ++ B ++ body ++ E ++ r = (t0 ++ B ++ body ++ E) ++ r) as -> by (by rewrite <- !app_assoc).
  assert (length t0 + length (B ++ body) + String.length forkToolEnd = length (t0 ++ B ++ body ++ E))%nat as ->.
  { rewrite !length_app. change (String.length forkToolEnd) with (length E). lia. }
  apply cut_at.
Qed.

(** A well-marked document loses exactly its regions. *)
Lemma stripLoop_marked d fuel :
  well_marked d -> (length d.2 < fuel)%nat -> stripLoop fuel (marked d) = Some (Ok (unmarked d)).
Proof.
  destruct d as [t0 l]. revert t0 fuel. induction l as [|[body t1] l IH]; intros t0 fuel (Hb & HB & HE) Hf.
  - unfold marked, unmarked in *. cbn [fst snd fmap list_fmap List.concat] in *. rewrite app_nil_r in *.
    destruct fuel; [cbn in Hf; lia|]. cbn [stripLoop].
    change (to_list forkToolBegin) with B. change (to_list forkToolEnd) with E.
    assert (Index t0 B = None) as -> by (clear HE; unfold Contains in HB; by destruct (Index t0 B)).
    by rewrite HE.
  - cbn [snd] in Hb. apply Forall_cons in Hb as [Hbody Hb]. destruct fuel; [cbn in Hf; lia|].
    assert (unmarked (t0, (body, t1) :: l) = unmarked (t0 ++ cutNewline t1, l)) as Eu.
    { unfold unmarked. cbn. by rewrite <- app_assoc. }
    assert (marked (t0, (body, t1) :: l) = t0 ++ B ++ body ++ E ++ (t1 ++ concat (region <$> l))) as ->.
    { unfold marked. cbn. by rewrite <- !app_assoc. }
    rewrite stripLoop_region; [|exact (Contains_infix [] t0 _ _ HB)|done].
    rewrite Eu in *. destruct l as [|bt l].
    + rewrite <- (IH (t0 ++ cutNewline t1) fuel); [|done|cbn in *; lia].
      unfold marked. cbn. by rewrite !app_nil_r.
    + rewrite <- (IH (t0 ++ cutNewline t1) fuel); [|done|cbn in *; lia].
      unfold marked. cbn [fst snd]. f_equal. rewrite <- app_assoc. f_equal.
      destruct t1 as [|c t1]; [|cbn [cutNewline app]; by destruct (Ascii.eqb c NL)].
      unfold region. cbn. done.
Qed.

(** A cut makes the text shorter, so the loop always ends, and says what it leaves. *)
Lemma stripLoop_total fuel l :
  (length l < fuel)%nat ->
  match stripLoop fuel l with
  | Some (Ok o) => Contains o B = false /\ Contains o E = false /\ o `sublist_of` l /\
      (Contains l B = false -> o = l)
  | Some (Err _) => Contains l B = true \/ Contains l E = true
  | None => False
  end.
Proof.
  revert l. induction fuel as [|fuel IH]; intros l Hl; [lia|]. cbn [stripLoop].
  change (to_list forkToolBegin) with B. change (to_list forkToolEnd) with E.
  destruct (Index l B) as [start|] eqn:Hs.
  2:{ assert (Contains l B = false) as Hc by (unfold Contains; by rewrite Hs).
      destruct (Contains l E) eqn:He; [by right|by split_ands]. }
  assert (Contains l B = true) as Hc by (unfold Contains; by rewrite Hs).
  destruct (Index (drop start l) E) as [off|] eqn:Ho; [|by left].
  pose proof (proj1 (Index_Some _ _ _) Ho) as [(a & b & Ed & Ha) _].
  assert (start + off + length E <= length l)%nat as Hlen.
  { apply (f_equal length) in Ed. rewrite length_drop, !length_app in Ed. cbn in *. lia. }
  set (e0 := (start + off + String.length forkToolEnd)%nat).
  set (e := match l !! e0 with Some c => if Ascii.eqb c NL then S e0 else e0 | None => e0 end).
  assert (start + length E <= e)%nat as He.
  { subst e e0. change (String.length forkToolEnd) with (length E).
    destruct (l !! _) as [c|]; [destruct (Ascii.eqb c NL)|]; lia. }
  assert (take start l ++ drop e l `sublist_of` l) as Hsub.
  { rewrite <- (take_drop start l) at 3. apply sublist_app; [done|].
    assert (e = start + (e - start))%nat as -> by lia. rewrite <- drop_drop. apply sublist_drop. }
  assert (length (take start l ++ drop e l) < fuel)%nat as Hshort.
  { rewrite length_app, length_take, length_drop. cbn in *. lia. }
  specialize (IH _ Hshort). destruct (stripLoop fuel _) as [[o|]|]; [|by left|done].
  destruct IH as (H1 & H2 & H3 & _). split_ands; try done; [by etrans|]. by rewrite Hc.
Qed.

Lemma to_list_length s : String.length s = length (to_list s).
Proof. induction s as [|c s IH]; [done|]. by apply (f_equal Datatypes.S). Qed.

(** The documentation of the tool goes, and only that.  [stripMarked] always ends; a text it
    accepts comes back without any marker, with nothing added or moved, and unchanged when it had
    no region; a text it refuses holds a marker; and a document whose regions are properly
    delimited comes back as its own text, each region cut with the newline after it. *)
Theorem marked_docs_removed content :
  match stripMarked content with
  | Ok o => contains o forkToolBegin = false /\ contains o forkToolEnd = false /\
      to_list o `sublist_of` to_list content /\ (contains content forkToolBegin = false -> o = content)
  | Err e => e <> ELib "unreachable" /\
      (contains content forkToolBegin = true \/ contains content forkToolEnd = true)
  end /\
  (forall d, well_marked d -> to_list content = marked d -> stripMarked content = Ok (of_list (unmarked d))).
Proof.
  assert (String.length content = length (to_list content)) as El by apply to_list_length.
  unfold stripMarked. split.
  - pose proof (stripLoop_total (S (String.length content)) (to_list content) ltac:(lia)) as Ht.
    destruct (stripLoop _ _) as [[o|e]|] eqn:Es; [| |done]; cbn [mbind result_bind].
    + destruct Ht as (HB & HE & Hsub & Hid). unfold contains. rewrite to_list_of_list.
      split_ands; try done. intros Hn. rewrite (Hid Hn). apply string_of_list_ascii_of_string.
    + split; [|done]. intros ->. revert Es. generalize (S (String.length content)) (to_list content).
      induction n as [|n IH]; intros l; cbn [stripLoop]; [done|].
      destruct (Index l _); [destruct (Index (drop _ l) _); [apply IH|congruence]|].
      destruct (Contains l _); congruence.
  - intros d Hd Ec. rewrite El, Ec, stripLoop_marked; [done|done|].
    clear. destruct d as [t0 l]. unfold marked. cbn [fst snd]. rewrite length_app.
    assert (length l <= length (List.concat (region <$> l)))%nat; [|lia].
    induction l as [|bt l IH]; [done|]. cbn [length fmap list_fmap List.concat].
    unfold region at 1. rewrite !length_app. cbn [length B]. change (length B) with 24%nat. lia.
Qed.

(** * The task target *)

Section Tasks.
Context `{Unicode}.

Definition one_line (s : string) : Prop := Forall (fun c => Ascii.eqb c NL = false) (to_list s).

Lemma split_on_line sep l :
  Forall (fun c => sep c = false) l -> split_on sep l = [l].
Proof. induction 1 as [|c l Hc _ IH]; [done|]. cbn. by rewrite Hc, IH. Qed.

Lemma split_on_joined sep l c r :
  Forall (fun c => sep c = false) l -> sep c = true -> split_on sep (l ++ c :: r) = l :: split_on sep r.
Proof.
  intros Hl Hc. induction Hl as [|d l Hd _ IH]; cbn; [by rewrite Hc|]. by rewrite Hd, IH.
Qed.

(** Splitting what was joined gives the lines back. *)
Lemma Split_joinLines lines :
  lines <> [] -> Forall one_line lines -> Split NL (joinLines lines) = lines.
Proof.
  intros Hne Hl. unfold Split, joinLines. rewrite to_list_of_list.
  assert (split_on (fun c => Ascii.eqb c NL) (join [NL] (to_list <$> lines)) = to_list <$> lines) as ->.
  { induction Hl as [|l lines Hl Hls IH]; [done|]. destruct lines as [|l' lines].
    - by apply split_on_line.
    - change (join [NL] (to_list <$> l :: l' :: lines))
        with (to_list l ++ NL :: join [NL] (to_list <$> l' :: lines)).
      rewrite split_on_joined by done. by rewrite IH. }
  rewrite <- list_fmap_compose. etrans; [|apply list_fmap_id].
  apply list_fmap_ext. intros i x _. cbn. apply string_of_list_ascii_of_string.
Qed.

Lemma findTarget_app name before target after :
  Forall (fun l => is_target name l = false) before -> is_target name target = true ->
  findTarget name (before ++ target :: after) = Some (before, after).
Proof.
  intros Hb Ht. induction Hb as [|l before Hl _ IH]; cbn [app findTarget]; [by rewrite Ht|].
  rewrite Hl, IH. done.
Qed.

Lemma findTarget_none name lines :
  Forall (fun l => is_target name l = false) lines -> findTarget name lines = None.
Proof. induction 1 as [|l lines Hl _ IH]; cbn [findTarget]; [done|]. by rewrite Hl, IH. Qed.

Lemma afterBody_app body after :
  Forall (fun l => in_body l = true) body -> match after with l :: _ => in_body l = false | [] => True end ->
  afterBody (body ++ after) = after.
Proof.
  intros Hb Ha. induction Hb as [|l body Hl _ IH]; cbn [app afterBody].
  - destruct after as [|l after]; [done|]. cbn. by rewrite Ha.
  - by rewrite Hl.
Qed.

(** A Taskfile without the target is not touched. *)
Lemma task_target_absent name content :
  Forall (fun l => is_target name l = false) (Split NL content) ->
  removeTaskTarget content name = (content, false).
Proof. intros Hl. unfold removeTaskTarget. by rewrite findTarget_none. Qed.

(** Removing a target from a Taskfile takes its line, the blank and indented lines after it and
    the blank line before it, and keeps every other line as it is. *)
Theorem task_target_removed name before target body after :
  Forall one_line (before ++ target :: body ++ after) ->
  Forall (fun l => is_target name l = false) before -> is_target name target = true ->
  Forall (fun l => in_body l = true) body ->
  match after with l :: _ => in_body l = false | [] => True end ->
  removeTaskTarget (joinLines (before ++ target :: body ++ after)) name =
    (joinLines (dropBlankLast before ++ after), true).
Proof.
  intros Hl Hb Ht Hbody Hafter. unfold removeTaskTarget.
  rewrite Split_joinLines by (done || by destruct before). by rewrite findTarget_app, afterBody_app.
Qed.

End Tasks.

(** * A repository to run the command on *)

Section Examples.
#[local] Existing Instance ascii_tables.

Definition lines (ls : list string) : string := joinLines ls.
Definition old_module : string := "github.com/example/gomicro".

Definition repo : tree := list_to_map
  ((fun kv : string * string => (kv.1, mkFile kv.2 420)) <$>
   [("go.mod", lines ["module github.com/example/gomicro"; ""; "go 1.26"]);
    ("README.md", lines ["# gomicro"; forkToolBegin; "run go run ./cmd/rename"; forkToolEnd; "the end"]);
    ("Taskfile.yml", lines ["tasks:"; "  verify:rename:"; "    cmd: go test ./cmd/rename"; ""; "  build:"; "    cmd: docker build -t gomicro/orderd ."]);
    ("cmd/rename/main.go", "package main");
    ("cmd/orderd/main.go", "import github.com/example/gomicro/internal/app");
    ("gen/order.pb.go", "github.com/example/gomicro");
    ("deploy/app.yaml", "image: ghcr.io/x/gomicro/worker");
    ("LICENSE", "Copyright github.com/example/gomicro")]).

Definition repo_env : renameEnv := {|
  gitToplevel := Ok "/src"; gitStatus := Ok "";
  gitLsFiles t := Ok (String.concat (String NULc "") (map_to_list t).*1);
  readFails _ := None; statFails _ := None; writeFails _ := None; removeAllFails := None;
  bufGenerate t := (None, <["gen/order.pb.go" := mkFile "regenerated" 420]> t) |}.

Definition acme (keep : bool) : flags := mkFlags "github.com/acme/orders" "" keep false false.

Lemma repo_buf : forall t q, HasPrefix q "gen/" = false -> (bufGenerate repo_env t).2 !! q = t !! q.
Proof. intros t q Hq. cbn. rewrite lookup_insert_ne; [done|]. by intros <-. Defined.

Lemma repo_tracked files : trackedFiles repo_env repo = Ok files -> NoDup files.
Proof.
  assert (trackedFiles repo_env repo = Ok (map_to_list repo).*1) as -> by (vm_compute; reflexivity).
  pose proof (NoDup_fst_map_to_list repo) as Hn. revert Hn. generalize ((map_to_list repo).*1).
  intros l Hn E'. by injection E' as <-.
Defined.

Lemma rename_confined_witness :
  let '((err, t'), _) := run repo_env (acme true) repo in
  err = None /\
  (match (old ← currentModulePath repo_env repo; newPlan old "github.com/acme/orders" ""),
         trackedFiles repo_env repo with
   | Ok p, Ok files => t' !! "deploy/app.yaml" = renamed p files "deploy/app.yaml" <$> repo !! "deploy/app.yaml"
   | _, _ => False end) /\
  t' !! "deploy/app.yaml" = Some (mkFile "image: ghcr.io/x/orders/worker" 420) /\
  t' !! "LICENSE" = repo !! "LICENSE" /\
  t' !! "cmd/orderd/main.go" = Some (mkFile "import github.com/acme/orders/internal/app" 420).
Proof.
  pose proof (rename_confined repo_env (acme true) repo repo_buf repo_tracked) as Hr.
  assert (let '((err, t'), _) := run repo_env (acme true) repo in
    err = None /\ t' !! "deploy/app.yaml" = Some (mkFile "image: ghcr.io/x/orders/worker" 420) /\
    t' !! "LICENSE" = repo !! "LICENSE" /\
    t' !! "cmd/orderd/main.go" = Some (mkFile "import github.com/acme/orders/internal/app" 420)) as Hv
    by (vm_compute; split_ands; reflexivity).
  destruct (run repo_env (acme true) repo) as [[err t'] out]. destruct Hv as (He & H1 & H2 & H3).
  destruct Hr as [_ Hr]. cbn [acme FModule FImage] in Hr. split; [done|]. split; [|by split_ands].
  destruct (old ← currentModulePath repo_env repo; newPlan old "github.com/acme/orders" "")
    as [p|]; [|by destruct Hr].
  destruct (trackedFiles repo_env repo) as [files|]; [|by destruct Hr].
  by apply Hr.
Defined.

Lemma marked_docs_removed_witness :
  let d : doc := (to_list "kept ", [(to_list " the tool ", NL :: to_list "and kept")]) in
  well_marked d /\
  stripMarked (of_list (marked d)) = Ok "kept and kept" /\
  stripMarked "a <!-- fork-tool:end --> b" <> Ok "a  b".
Proof.
  intros d. assert (well_marked d) as Hd by (split; [repeat constructor|split]; vm_compute; reflexivity).
  split; [exact Hd|]. split; [|by vm_compute].
  exact (proj2 (marked_docs_removed (of_list (marked d))) d Hd (to_list_of_list _)).
Defined.

(** ** What the command does beside its comments *)

(** A write that fails after opening its file leaves it empty. *)
Lemma failed_write_truncates :
  let full := mkRenameEnv (Ok "/src") (Ok "") (gitLsFiles repo_env) (fun _ => None) (fun _ => None)
    (fun q => if (q =? "cmd/orderd/main.go")%string
              then Some (ELib "no space left on device", Some 0%nat) else None)
    None (bufGenerate repo_env) in
  let '((err, t'), _) := run full (acme true) repo in
  err = Some (wrapf [PStr "write "; PStr "cmd/orderd/main.go"] (ELib "no space left on device")) /\
  t' !! "cmd/orderd/main.go" = Some (mkFile "" 420).
Proof. vm_compute. by split. Qed.

(** Without a Taskfile the documentation of the tool stays: [removeSelf] returns before it gets
    there, although the tool has already deleted itself. *)
Lemma docs_stay_without_taskfile :
  let t := delete "Taskfile.yml" repo in
  let '(err, t') := removeSelf repo_env t in
  err = None /\ t' !! "cmd/rename/main.go" = None /\ t' !! "README.md" = repo !! "README.md".
Proof. by vm_compute. Qed.

(** A module path whose last two elements read like one of the old image names is corrupted in
    the deployment files: the image substitution runs over the path just written. *)
Lemma image_pass_corrupts_module :
  match newPlan old_module "github.com/gomicro/worker" "" with
  | Ok p => rewrite p "deploy/app.yaml" "source: github.com/example/gomicro" =
      "source: github.com/worker/worker"
  | Err _ => False
  end.
Proof. vm_compute. reflexivity. Qed.

(** The path check accepts paths that a go.mod may not hold. *)
Lemma unusable_path_accepted :
  is_ok (newPlan old_module "github.com//orders" "") = true /\
  is_ok (newPlan old_module "github.com/../orders" "") = true.
Proof. split; vm_compute; reflexivity. Qed.

(** Removing a target between two others joins them: the blank lines on both sides go. *)
Lemma gap_closed :
  removeTaskTarget (lines ["tasks:"; "  a:"; "    cmd: a"; ""; "  verify:rename:"; "    cmd: b"; ""; "  c:"])
    "verify:rename" = (lines ["tasks:"; "  a:"; "    cmd: a"; "  c:"], true).
Proof. vm_compute. reflexivity. Qed.

(** A target that is the last of its file takes the final newline with it. *)
Lemma last_newline_lost :
  removeTaskTarget (lines ["tasks:"; "  verify:rename:"; "    cmd: b"; ""]) "verify:rename" = ("tasks:", true).
Proof. vm_compute. reflexivity. Qed.

(** The clean-up strips marked regions from third-party documents, which the plan leaves alone. *)
Lemma third_party_docs_stripped :
  let q := "proto/third_party/README.md" in
  let t := <[q := mkFile (lines [forkToolBegin; "theirs"; forkToolEnd; "text"]) 420]> repo in
  protected q = true /\ (removeForkToolDocs repo_env t).2 !! q = Some (mkFile "text" 420).
Proof. split; vm_compute; reflexivity. Qed.

End Examples.
